(** * code-quality-action: a shallow embedding of the orchestration core

    The action runs third-party linters, normalises their output into
    [Issue]s, reports them, and caches dependency directories.  Every
    interaction with the outside (the GitHub toolkit, the file system, child
    processes, the cache service) is a request of type [Req]; a program is a
    finite tree of requests ([Prog]), and an execution is the interpretation
    of that tree against an arbitrary deterministic environment ([Handler]).

    Strings are sequences of 8-bit units, text outside ASCII standing as its
    UTF-8 bytes.  White space ([trim], [\s]) and line terminators ([.]) are
    those of ECMAScript, recognised by their UTF-8 form.  [toLowerCase]
    lowers the letters A to Z.  What a tool prints as JSON is an untyped
    value ([Json]), read with the conversions and the faults of JavaScript;
    an issue carries its fields as they were read ([RawIssue]) until the
    result gives it at the types [Issue] declares.  [parseInt] rounds to
    the nearest double. *)

From Stdlib Require Import String Ascii List ZArith Bool Arith Lia DecimalString.
From Stdlib Require QArith.
Import ListNotations.
Local Open Scope list_scope.
Local Open Scope string_scope.

Set Implicit Arguments.

(* ================================================================== *)
(** ** JavaScript string primitives used by the sources                *)
(* ================================================================== *)

Module JsString.

Definition char_code (c : ascii) : nat := nat_of_ascii c.

(** The white space of one byte: TAB, LF, VT, FF, CR, SPACE. *)
Definition is_space (c : ascii) : bool :=
  let n := char_code c in
  (Nat.leb 9 n && Nat.leb n 13) || Nat.eqb n 32.

(** U+00A0 in UTF-8. *)
Definition is_space2 (a b : ascii) : bool :=
  Nat.eqb (char_code a) 194 && Nat.eqb (char_code b) 160.

(** The white space of three bytes in UTF-8: U+1680, U+2000 to U+200A,
    U+2028, U+2029, U+202F, U+205F, U+3000 and U+FEFF. *)
Definition is_space3 (a b c : ascii) : bool :=
  let x := char_code a in
  let y := char_code b in
  let z := char_code c in
  (Nat.eqb x 225 && Nat.eqb y 154 && Nat.eqb z 128)
  || (Nat.eqb x 226 && Nat.eqb y 128
      && ((Nat.leb 128 z && Nat.leb z 138)
          || Nat.eqb z 168 || Nat.eqb z 169 || Nat.eqb z 175))
  || (Nat.eqb x 226 && Nat.eqb y 129 && Nat.eqb z 159)
  || (Nat.eqb x 227 && Nat.eqb y 128 && Nat.eqb z 128)
  || (Nat.eqb x 239 && Nat.eqb y 187 && Nat.eqb z 191).

(** The number of bytes of the white-space character [s] begins with, and
    0 when it begins with none.  White space is what [\s] matches and
    [trim] removes: WhiteSpace and LineTerminator of ECMAScript. *)
Definition space_len (s : string) : nat :=
  match s with
  | String a r =>
      if is_space a then 1
      else match r with
           | String b r' =>
               if is_space2 a b then 2
               else match r' with
                    | String c _ => if is_space3 a b c then 3 else 0
                    | EmptyString => 0
                    end
           | EmptyString => 0
           end
  | EmptyString => 0
  end.

(** The line terminators of one byte: LF and CR. *)
Definition is_line_terminator (c : ascii) : bool :=
  let n := char_code c in Nat.eqb n 10 || Nat.eqb n 13.

(** The number of bytes of the line terminator [s] begins with, and 0 when
    it begins with none: LF, CR, U+2028 and U+2029, the characters [.] does
    not match. *)
Definition terminator_len (s : string) : nat :=
  match s with
  | String a r =>
      if is_line_terminator a then 1
      else match r with
           | String b (String c _) =>
               if Nat.eqb (char_code a) 226 && Nat.eqb (char_code b) 128
                  && (Nat.eqb (char_code c) 168 || Nat.eqb (char_code c) 169)
               then 3 else 0
           | _ => 0
           end
  | EmptyString => 0
  end.

(** [\d] *)
Definition is_digit (c : ascii) : bool :=
  let n := char_code c in Nat.leb 48 n && Nat.leb n 57.

Definition LF : ascii := ascii_of_nat 10.
Definition ESC : ascii := ascii_of_nat 27.

(** JavaScript truthiness of a string: non-empty. *)
Definition truthy (s : string) : bool :=
  match s with EmptyString => false | String _ _ => true end.

(** [a || b] on strings. *)
Definition or_else (a b : string) : string := if truthy a then a else b.

(** [s || undefined] *)
Definition or_undefined (s : string) : option string :=
  if truthy s then Some s else None.

(** Truthiness of an optional string ([undefined] and [''] are falsy). *)
Definition truthy_opt (o : option string) : bool :=
  match o with Some s => truthy s | None => false end.

Definition startsWith (s pre : string) : bool := String.prefix pre s.

(** [s.includes(sub)] *)
Fixpoint includes (s sub : string) : bool :=
  String.prefix sub s ||
  match s with
  | EmptyString => false
  | String _ rest => includes rest sub
  end.

Fixpoint drop (n : nat) (s : string) : string :=
  match n, s with
  | O, _ => s
  | S n', String _ rest => drop n' rest
  | S _, EmptyString => EmptyString
  end.

(** [s.substring(0, n)] *)
Fixpoint take (n : nat) (s : string) : string :=
  match n, s with
  | S n', String c rest => String c (take n' rest)
  | _, _ => EmptyString
  end.

(** [s.replace(pat, rep)] with a string pattern: the first occurrence only. *)
Fixpoint replace (s pat rep : string) : string :=
  if String.prefix pat s then rep ++ drop (String.length pat) s
  else match s with
       | EmptyString => EmptyString
       | String c rest => String c (replace rest pat rep)
       end.

(** [s.split(sep)] for a one-character separator. *)
Fixpoint split (sep : ascii) (s : string) : list string :=
  match s with
  | EmptyString => [EmptyString]
  | String c rest =>
      if Ascii.eqb c sep then EmptyString :: split sep rest
      else match split sep rest with
           | [] => [String c EmptyString]
           | w :: ws => String c w :: ws
           end
  end.

(** [s] without the white-space characters it begins with; [skip] bytes
    of the character being removed are still to go. *)
Fixpoint drop_spaces (skip : nat) (s : string) {struct s} : string :=
  match skip with
  | S k =>
      match s with
      | String _ rest => drop_spaces k rest
      | EmptyString => EmptyString
      end
  | O =>
      match space_len s with
      | O => s
      | S k =>
          match s with
          | String _ rest => drop_spaces k rest
          | EmptyString => EmptyString
          end
      end
  end.

Definition trimStart (s : string) : string := drop_spaces 0 s.

(** [s] up to the white-space characters it ends with: cut at the first
    place from which only white space follows. *)
Fixpoint trimEnd (s : string) : string :=
  match s with
  | EmptyString => EmptyString
  | String c rest =>
      if String.eqb (trimStart s) EmptyString then EmptyString
      else String c (trimEnd rest)
  end.

Definition trim (s : string) : string := trimEnd (trimStart s).

(** A unit that is a character of its own. *)
Definition is_ascii (c : ascii) : bool := Nat.ltb (char_code c) 128.

(** [s.startsWith(pat, k)]: [pat] occurs in [s] at offset [k]. *)
Definition occurs_at (pat s : string) (k : nat) : bool :=
  String.prefix pat (drop k s).

Definition lower_char (c : ascii) : ascii :=
  let n := char_code c in
  if Nat.leb 65 n && Nat.leb n 90 then ascii_of_nat (n + 32) else c.

(** [s.toLowerCase()] in the letters A to Z; a letter outside ASCII stays
    as it is.  The sources compare the result with [all], [true], [false]
    and the names of the tools, and look for [error] in it: a letter
    outside ASCII lowers into none of these words (the two that lower into
    ASCII give [k], and [i] followed by a combining dot). *)
Fixpoint toLowerCase (s : string) : string :=
  match s with
  | EmptyString => EmptyString
  | String c rest => String (lower_char c) (toLowerCase rest)
  end.

(** [l.join(sep)] *)
Definition join (sep : string) (l : list string) : string := String.concat sep l.

(** [n.toString()] and [`${n}`] for a non-negative integer. *)
Definition of_nat (n : nat) : string := NilZero.string_of_uint (Nat.to_uint n).

(** Longest prefix of characters satisfying [p], and the rest. *)
Fixpoint span (p : ascii -> bool) (s : string) : string * string :=
  match s with
  | String c rest =>
      if p c then let '(a, b) := span p rest in (String c a, b)
      else (EmptyString, s)
  | EmptyString => (EmptyString, EmptyString)
  end.

Fixpoint forallb (p : ascii -> bool) (s : string) : bool :=
  match s with
  | EmptyString => true
  | String c rest => p c && forallb p rest
  end.

Fixpoint last_char (s : string) : option ascii :=
  match s with
  | EmptyString => None
  | String c EmptyString => Some c
  | String _ rest => last_char rest
  end.

(** [s] is one white-space character. *)
Definition is_space_char (s : string) : bool :=
  truthy s && Nat.eqb (space_len s) (String.length s).

(** [s] ends with a white-space character. *)
Fixpoint ends_with_space (s : string) : bool :=
  match s with
  | EmptyString => false
  | String _ rest => is_space_char s || ends_with_space rest
  end.

(** The white-space character [s] ends with. *)
Fixpoint last_space (s : string) : option string :=
  match s with
  | EmptyString => None
  | String _ rest =>
      match last_space rest with
      | Some w => Some w
      | None => if is_space_char s then Some s else None
      end
  end.

(** No line terminator begins anywhere in [s]. *)
Fixpoint no_terminator (s : string) : bool :=
  match s with
  | EmptyString => true
  | String _ rest => Nat.eqb (terminator_len s) 0 && no_terminator rest
  end.

(** A byte that continues a character in UTF-8. *)
Definition is_continuation (c : ascii) : bool :=
  Nat.leb 128 (char_code c) && Nat.leb (char_code c) 191.

(** The characters of [s], a string each: what [for (... of s)] walks. *)
Fixpoint code_points (s : string) : list string :=
  match s with
  | EmptyString => []
  | String c rest =>
      match rest with
      | String d _ =>
          if is_continuation d then
            match code_points rest with
            | w :: ws => String c w :: ws
            | [] => [String c EmptyString]
            end
          else String c EmptyString :: code_points rest
      | EmptyString => [String c EmptyString]
      end
  end.

(** The UTF-16 units of a character: two when it lies outside the BMP,
    that is when its UTF-8 form has four bytes. *)
Definition units_of (w : string) : nat :=
  match w with
  | String c _ => if Nat.leb 240 (char_code c) then 2 else 1
  | EmptyString => 0
  end.

(** [s.length] *)
Definition utf16_length (s : string) : nat :=
  list_sum (map units_of (code_points s)).

(** The integer a string of decimal digits writes. *)
Fixpoint parse_digits (acc : Z) (s : string) : Z :=
  match s with
  | EmptyString => acc
  | String c rest =>
      parse_digits (10 * acc + Z.of_nat (char_code c - 48)) rest
  end.

Definition numeral (s : string) : Z := parse_digits 0 s.

(** The double nearest to an integer that is not negative: the integer
    itself up to 53 bits, and beyond them its 53 leading bits rounded by
    the rest, a tie going to the even side.  From [2^1024 - 2^970] on the
    nearest double is [Infinity], which has no counterpart here: such an
    integer stands as its rounded value. *)
Definition nearest_double (z : Z) : Z :=
  let bits := (Z.log2 z + 1)%Z in
  if Z.leb bits 53 then z
  else
    let e := (bits - 53)%Z in
    let q := Z.shiftr z e in
    let r := Z.land z (Z.ones e) in
    let half := Z.shiftl 1 (e - 1) in
    let up := Z.ltb half r || (Z.eqb r half && Z.odd q) in
    Z.shiftl (if up then q + 1 else q)%Z e.

(** [parseInt(s, 10)] on a non-empty string of decimal digits: a number is
    a double. *)
Definition parseInt (s : string) : Z := nearest_double (numeral s).

End JsString.

(* ================================================================== *)
(** ** Data model (types.ts)                                           *)
(* ================================================================== *)

Inductive Severity : Type := error | warning.

Definition Severity_eqb (a b : Severity) : bool :=
  match a, b with
  | error, error | warning, warning => true
  | _, _ => false
  end.

Record Issue : Type := {
  file : string;
  line : Z;
  column : option Z;
  severity : Severity;
  message : string;
  rule : option string
}.

Record ToolResult : Type := {
  tool : string;
  success : bool;
  issues : list Issue;
  rawOutput : string
}.

Record RunnerConfig : Type := {
  configPath : option string;
  filePaths : list string;
  workingDirectory : string
}.

Inductive ToolName : Type :=
| phpstan | phpmd | php_cs_fixer | eslint | stylelint
| editorconfig | composer_normalize | typo3_rector.

Definition ToolName_to_string (t : ToolName) : string :=
  match t with
  | phpstan => "phpstan"
  | phpmd => "phpmd"
  | php_cs_fixer => "php-cs-fixer"
  | eslint => "eslint"
  | stylelint => "stylelint"
  | editorconfig => "editorconfig"
  | composer_normalize => "composer-normalize"
  | typo3_rector => "typo3-rector"
  end.

Definition all_ToolNames : list ToolName :=
  [phpstan; phpmd; php_cs_fixer; eslint; stylelint;
   editorconfig; composer_normalize; typo3_rector].

(** The member of the union type a run-time string denotes, if any. *)
Definition ToolName_of_string (s : string) : option ToolName :=
  find (fun t => String.eqb (ToolName_to_string t) s) all_ToolNames.

(** A thrown JavaScript [Error]: the toolkit and Node throw nothing else. *)
Record Exn : Type := { exn_name : string; exn_message : string }.

(** [String(error)], i.e. [Error.prototype.toString]. *)
Definition Exn_toString (e : Exn) : string :=
  match exn_name e, exn_message e with
  | EmptyString, m => m
  | n, EmptyString => n
  | n, m => n ++ ": " ++ m
  end.

(** A number as [JSON.parse] gives it: a finite double, which is a
    rational, or an infinity (as for [1e999]). *)
Inductive JsNumber : Type :=
| Finite (q : QArith_base.Q)
| Infinite (negative : bool).

(** A value as [JSON.parse] gives it.  The [fields] of an object are its
    own properties, each name once, in the order in which the text has
    them. *)
#[local] Unset Elimination Schemes.

Inductive Json : Type :=
| JNull
| JBool (b : bool)
| JNumber (n : JsNumber)
| JString (s : string)
| JArray (items : list Json)
| JObject (fields : list (string * Json)).

#[local] Set Elimination Schemes.

(** What makes the engine throw a [TypeError] in the runners. *)
Inductive Fault : Type :=
| ReadOfNull (property : string)                 (* null.property *)
| NullToObject                                   (* Object.entries(null) *)
| NotIterable (v : Json)                         (* for (... of v) *)
| NotAFunction (v : Json) (property : string).   (* v.property(...) *)

(** An issue as a runner pushes it: TypeScript checks no type at run time,
    and a field holds whatever the parsed output has at its place ([None]
    is [undefined]). *)
Record RawIssue : Type := {
  raw_file : option Json;
  raw_line : Json;
  raw_column : option Json;
  raw_severity : Severity;
  raw_message : option Json;
  raw_rule : option Json
}.

(** [s || d] on an optional string. *)
Definition string_or (s : option string) (d : string) : string :=
  match s with
  | Some v => JsString.or_else v d
  | None => d
  end.

(* ================================================================== *)
(** ** The host: pure library functions and process constants          *)
(* ================================================================== *)

(** The JSON report object of [GitHubReporter.getReport]. *)
Record ReportEntry : Type := {
  report_tool : string;
  report_success : bool;
  report_issueCount : nat;
  report_errors : nat;
  report_warnings : nat;
  report_issues : list Issue
}.

Record Report : Type := {
  totalIssues : nat;
  results : list ReportEntry
}.

(** Node and JavaScript built-ins whose results the sources only pass on.
    [JSON_parse] has the thrown [SyntaxError] on the left and the parsed
    value on the right.  [TypeError_of] is the error the engine throws for a
    fault.  [ToNumber] and [ToString] are the conversions of the engine for
    the values whose conversion is not written out in [Js] (for [ToNumber]
    strings, arrays and objects, with [None] for [NaN]; for [ToString]
    numbers, arrays and objects); they throw for an object that cannot be
    converted. *)
Record Host : Type := {
  process_platform : string;
  process_cwd : string;
  module_dirname : string;                          (* __dirname *)
  path_resolve : string -> string -> string;        (* path.resolve(a, b) *)
  path_join : list string -> string;                (* path.join(...) *)
  sha256_hex : string -> string;   (* createHash('sha256').update(s).digest('hex') *)
  JSON_parse : string -> Exn + Json;
  TypeError_of : Fault -> Exn;
  ToNumber : Json -> Exn + option JsNumber;
  ToString : Json -> Exn + string;
  JSON_stringify : Report -> string                 (* JSON.stringify(r, null, 2) *)
}.

(* ================================================================== *)
(** ** JavaScript on parsed values, as the runners use it              *)
(* ================================================================== *)

Module Js.

Definition of_Z (z : Z) : JsNumber := Finite (QArith_base.inject_Z z).

(** [n === z] *)
Definition number_eqb (n : JsNumber) (z : Z) : bool :=
  match n with
  | Finite q => QArith_base.Qeq_bool q (QArith_base.inject_Z z)
  | Infinite _ => false
  end.

(** [n <= z] *)
Definition number_leb (n : JsNumber) (z : Z) : bool :=
  match n with
  | Finite q => QArith_base.Qle_bool q (QArith_base.inject_Z z)
  | Infinite negative => negative
  end.

(** The integer a number is, if it is one. *)
Definition integer (n : JsNumber) : option Z :=
  match n with
  | Finite q =>
      let r := Qreduction.Qred q in
      if Pos.eqb (QArith_base.Qden r) 1 then Some (QArith_base.Qnum r)
      else None
  | Infinite _ => None
  end.

(** Truthiness; [None] is [undefined]. *)
Definition truthy (v : option Json) : bool :=
  match v with
  | None | Some JNull => false
  | Some (JBool b) => b
  | Some (JNumber n) => negb (number_eqb n 0)
  | Some (JString s) => JsString.truthy s
  | Some (JArray _) | Some (JObject _) => true
  end.

(** [a || b] *)
Definition or_else (a : option Json) (b : Json) : Json :=
  match a with
  | Some v => if truthy a then v else b
  | None => b
  end.

(** [Array.isArray(v)] *)
Definition isArray (v : Json) : bool :=
  match v with JArray _ => true | _ => false end.

(** [v === z] *)
Definition is_number (v : option Json) (z : Z) : bool :=
  match v with Some (JNumber n) => number_eqb n z | _ => false end.

(** [v === s] *)
Definition is_string (v : option Json) (s : string) : bool :=
  match v with Some (JString x) => String.eqb x s | _ => false end.

Fixpoint lookup (name : string) (fields : list (string * Json))
  : option Json :=
  match fields with
  | [] => None
  | (k, v) :: more => if String.eqb k name then Some v else lookup name more
  end.

(** A canonical array index: a decimal numeral without leading zero, at
    most [2^32 - 2]. *)
Definition is_index (s : string) : bool :=
  match s with
  | EmptyString => false
  | String c rest =>
      JsString.forallb JsString.is_digit s
      && (negb (Ascii.eqb c "0") || String.eqb rest "")
      && Nat.leb (String.length s) 10
      && Z.leb (JsString.numeral s) 4294967294
  end.

Fixpoint insert_index (g : string * Json) (sorted : list (string * Json))
  : list (string * Json) :=
  match sorted with
  | [] => [g]
  | g' :: more =>
      if Z.leb (JsString.numeral (fst g)) (JsString.numeral (fst g'))
      then g :: sorted
      else g' :: insert_index g more
  end.

(** The own properties in the order of [Object.entries]: the array indices
    in ascending order, then the other names in the order of their
    creation. *)
Definition ordered (fields : list (string * Json)) : list (string * Json) :=
  (fold_right insert_index [] (filter (fun g => is_index (fst g)) fields)
   ++ filter (fun g => negb (is_index (fst g))) fields)%list.

Fixpoint indexed (i : nat) (items : list Json) : list (string * Json) :=
  match items with
  | [] => []
  | x :: more => (JsString.of_nat i, x) :: indexed (S i) more
  end.

(** The UTF-16 units of a string as [Object.entries] lists them.  The runners
    read no property of such an entry; a unit stands here as the character
    it belongs to. *)
Definition units (s : string) : list Json :=
  flat_map (fun w => repeat (JString w) (JsString.units_of w))
           (JsString.code_points s).

Section WithHost.

Variable host : Host.

(** [v.name], for the names the runners read (none of them is a member of
    [Object.prototype], [Array.prototype] other than [length], or
    [String.prototype] other than [length]). *)
Definition get (v : Json) (name : string) : Exn + option Json :=
  match v with
  | JNull => inl (TypeError_of host (ReadOfNull name))
  | JObject fields => inr (lookup name fields)
  | JArray items =>
      inr (if String.eqb name "length"
           then Some (JNumber (of_Z (Z.of_nat (List.length items))))
           else None)
  | JString s =>
      inr (if String.eqb name "length"
           then Some (JNumber (of_Z (Z.of_nat (JsString.utf16_length s))))
           else None)
  | JBool _ | JNumber _ => inr None
  end.

(** What [for (const x of v)] walks. *)
Definition iterate (v : Json) : Exn + list Json :=
  match v with
  | JArray items => inr items
  | JString s => inr (map JString (JsString.code_points s))
  | _ => inl (TypeError_of host (NotIterable v))
  end.

(** [Object.entries(v)] *)
Definition entries (v : Json) : Exn + list (string * Json) :=
  match v with
  | JNull => inl (TypeError_of host NullToObject)
  | JObject fields => inr (ordered fields)
  | JArray items => inr (indexed 0 items)
  | JString s => inr (indexed 0 (units s))
  | JBool _ | JNumber _ => inr []
  end.

(** [ToNumber(v)]; [None] is [NaN]. *)
Definition toNumber (v : option Json) : Exn + option JsNumber :=
  match v with
  | None => inr None
  | Some JNull => inr (Some (of_Z 0))
  | Some (JBool b) => inr (Some (of_Z (if b then 1 else 0)))
  | Some (JNumber n) => inr (Some n)
  | Some x => ToNumber host x
  end.

(** [v <= z] *)
Definition leb (v : option Json) (z : Z) : Exn + bool :=
  match toNumber v with
  | inl e => inl e
  | inr None => inr false
  | inr (Some n) => inr (number_leb n z)
  end.

(** [v > z] *)
Definition gtb (v : option Json) (z : Z) : Exn + bool :=
  match toNumber v with
  | inl e => inl e
  | inr None => inr false
  | inr (Some n) => inr (negb (number_leb n z))
  end.

(** [`${v}`] *)
Definition toString (v : Json) : Exn + string :=
  match v with
  | JNull => inr "null"
  | JBool b => inr (if b then "true" else "false")
  | JString s => inr s
  | x => ToString host x
  end.

(** [items.join(sep)]: [null] gives the empty string. *)
Fixpoint join (sep : string) (items : list Json) : Exn + string :=
  match items with
  | [] => inr EmptyString
  | x :: more =>
      match (match x with JNull => inr EmptyString | _ => toString x end) with
      | inl e => inl e
      | inr first =>
          match more with
          | [] => inr first
          | _ :: _ =>
              match join sep more with
              | inl e => inl e
              | inr rest => inr (first ++ sep ++ rest)
              end
          end
      end
  end.

(** [v?.join(sep)] *)
Definition optional_join (v : option Json) (sep : string)
  : Exn + option string :=
  match v with
  | None | Some JNull => inr None
  | Some (JArray items) =>
      match join sep items with
      | inl e => inl e
      | inr joined => inr (Some joined)
      end
  | Some x => inl (TypeError_of host (NotAFunction x "join"))
  end.

End WithHost.

(** The reading of a field at the type [Issue] declares for it. *)
Definition as_string (v : option Json) : option string :=
  match v with Some (JString s) => Some s | _ => None end.

Definition as_integer (v : option Json) : option Z :=
  match v with Some (JNumber n) => integer n | _ => None end.

(** The issue at the types of [Issue].  A file or a message that is no
    string, and a line that is no integer, have no counterpart there: they
    are read as the empty string and as 0.  A column that is no integer and
    a rule that is no string are read as absent. *)
Definition Issue_of_raw (r : RawIssue) : Issue :=
  {| file := match as_string (raw_file r) with Some s => s | None => "" end;
     line := match as_integer (Some (raw_line r)) with
             | Some z => z
             | None => 0
             end;
     column := as_integer (raw_column r);
     severity := raw_severity r;
     message := match as_string (raw_message r) with
                | Some s => s
                | None => ""
                end;
     rule := as_string (raw_rule r) |}.

(** The fields of a pushed issue have the types [Issue] declares: the file
    and the message are strings, the line is an integer, the column is an
    integer or missing, the rule a string or missing ([null] counts as
    missing). *)
Definition declared (r : RawIssue) : bool :=
  let missing (v : option Json) :=
    match v with None | Some JNull => true | _ => false end in
  match as_string (raw_file r), as_integer (Some (raw_line r)),
        as_string (raw_message r) with
  | Some _, Some _, Some _ =>
      (missing (raw_column r)
       || match as_integer (raw_column r) with Some _ => true | None => false end)
      && (missing (raw_rule r)
          || match as_string (raw_rule r) with Some _ => true | None => false end)
  | _, _, _ => false
  end.

End Js.

(* ================================================================== *)
(** ** Effects: requests, programs, executions                         *)
(* ================================================================== *)

Record AnnotationProperties : Type := {
  ann_file : string;
  ann_startLine : Z;
  ann_startColumn : option Z
}.

Inductive OutputValue : Type :=
| OutNumber (n : nat)
| OutString (s : string).

Record SummaryCell : Type := { cell_data : string; cell_header : bool }.

Inductive SummaryItem : Type :=
| SummaryHeading (text : string)
| SummaryRaw (text : string)
| SummaryTable (rows : list (list SummaryCell)).

(** What [@actions/exec] hands to the listeners, and the exit code. *)
Record ExecOutput : Type := {
  exec_exitCode : Z;
  exec_stdout : string;
  exec_stderr : string
}.

(** One call across the boundary of the action. *)
Inductive Req : Type :=
| CoreDebug (m : string)
| CoreInfo (m : string)
| CoreWarning (m : string) (p : option AnnotationProperties)
| CoreError (m : string) (p : option AnnotationProperties)
| CoreStartGroup (name : string)
| CoreEndGroup
| CoreGetInput (name : string)
| CoreSetOutput (name : string) (v : OutputValue)
| CoreSetFailed (m : string)
| CoreSaveState (name value : string)
| CoreGetState (name : string)
| CoreSummaryWrite (buffer : list SummaryItem)
| ExecExec (command : string) (args : list string) (cwd : string)
| GlobGlob (pattern : string)
| FsExistsSync (p : string)
| FsAccess (p : string)
| FsReadFile (p : string)
| CacheRestoreCache (paths : list string) (key : string) (restoreKeys : list string)
| CacheSaveCache (paths : list string) (key : string).

(** The type of the answer: a rejected promise or a throw is [inl]. *)
Definition Resp (r : Req) : Type :=
  match r with
  | CoreGetInput _ | CoreGetState _ => string
  | CoreSummaryWrite _ => Exn + unit
  | ExecExec _ _ _ => Exn + ExecOutput
  | GlobGlob _ => Exn + list string
  | FsExistsSync _ => bool
  | FsAccess _ => Exn + unit
  | FsReadFile _ => Exn + string
  | CacheRestoreCache _ _ _ => Exn + option string
  | CacheSaveCache _ _ => Exn + unit
  | _ => unit
  end.

Inductive Prog (A : Type) : Type :=
| Ret (a : A)
| Throw (e : Exn)
| Vis (r : Req) (k : Resp r -> Prog A).
Arguments Throw {A} e.

Fixpoint bind {A B : Type} (m : Prog A) (f : A -> Prog B) : Prog B :=
  match m with
  | Ret a => f a
  | Throw e => Throw e
  | Vis r k => Vis r (fun x => bind (k x) f)
  end.

(** [try { m } catch (e) { h e }] *)
Fixpoint try_catch {A : Type} (m : Prog A) (h : Exn -> Prog A) : Prog A :=
  match m with
  | Ret a => Ret a
  | Throw e => h e
  | Vis r k => Vis r (fun x => try_catch (k x) h)
  end.

(** [try { m } finally { f }]: [f] runs either way, and the outcome of [m]
    stands unless [f] throws. *)
Definition try_finally {A : Type} (m : Prog A) (f : Prog unit) : Prog A :=
  bind (try_catch (bind m (fun a => Ret (inr a))) (fun e => Ret (inl e)))
       (fun r => bind f (fun _ =>
          match r with inl e => Throw e | inr a => Ret a end)).

(** A call whose answer is used as it is. *)
Definition call (r : Req) : Prog (Resp r) := Vis r (fun x => Ret x).

(** The answer of a call that may fail: a failure is thrown ([await] of a
    promise that rejects). *)
Definition lift {A : Type} (x : Exn + A) : Prog A :=
  match x with inl e => Throw e | inr a => Ret a end.

Declare Scope prog_scope.
Delimit Scope prog_scope with prog.
Notation "x <- m ;; k" := (bind m (fun x => k))
  (at level 61, m at next level, right associativity) : prog_scope.
Notation "m ;; k" := (bind m (fun _ => k))
  (at level 61, right associativity) : prog_scope.
Local Open Scope prog_scope.

Definition core_debug (m : string) : Prog unit := call (CoreDebug m).
Definition core_info (m : string) : Prog unit := call (CoreInfo m).
Definition core_warning (m : string) : Prog unit := call (CoreWarning m None).
Definition core_error (m : string) : Prog unit := call (CoreError m None).
Definition core_startGroup (n : string) : Prog unit := call (CoreStartGroup n).
Definition core_endGroup : Prog unit := call CoreEndGroup.
Definition core_getInput (n : string) : Prog string := call (CoreGetInput n).
Definition core_setOutput (n : string) (v : OutputValue) : Prog unit :=
  call (CoreSetOutput n v).
Definition core_setFailed (m : string) : Prog unit := call (CoreSetFailed m).
Definition core_saveState (n v : string) : Prog unit := call (CoreSaveState n v).
Definition core_getState (n : string) : Prog string := call (CoreGetState n).
Definition fs_existsSync (p : string) : Prog bool := call (FsExistsSync p).

(** A recorded call: the request and the answer the environment gave. *)
Record Call : Type := { call_req : Req; call_resp : Resp call_req }.

(** A deterministic environment with hidden state [W]: it answers every
    request and moves on. *)
Definition Handler (W : Type) : Type := forall r : Req, W -> W * Resp r.

Record Outcome (W A : Type) : Type := {
  final : W;
  trace : list Call;
  result : Exn + A
}.

Fixpoint interp {W A : Type} (h : Handler W) (p : Prog A) (w : W) : Outcome W A :=
  match p with
  | Ret a => {| final := w; trace := []; result := inr a |}
  | Throw e => {| final := w; trace := []; result := inl e |}
  | Vis r k =>
      let '(w1, x) := h r w in
      let o := interp h (k x) w1 in
      {| final := final o;
         trace := {| call_req := r; call_resp := x |} :: trace o;
         result := result o |}
  end.

(** The requests of a trace, in order. *)
Definition requests (t : list Call) : list Req := map call_req t.

(* ================================================================== *)
(** ** utils/exec.ts, utils/fileUtils.ts, utils/glob.ts                *)
(* ================================================================== *)

Record ExecResult : Type := {
  exitCode : Z;
  stdout : string;
  stderr : string
}.

Section Utils.

Variable host : Host.

(** [ignoreReturnCode: true]: a non-zero exit is a result, not a throw. *)
Definition executeCommand (command : string) (args : list string)
    (cwd : option string) : Prog ExecResult :=
  let dir := match cwd with
             | Some d => JsString.or_else d (process_cwd host)
             | None => process_cwd host
             end in
  x <- call (ExecExec command args dir) ;;
  out <- lift x ;;
  Ret {| exitCode := exec_exitCode out;
         stdout := JsString.trim (exec_stdout out);
         stderr := JsString.trim (exec_stderr out) |}.

Definition commandExists (command : string) : Prog bool :=
  try_catch
    (result <- executeCommand "which" [command] None ;;
     Ret (Z.eqb (exitCode result) 0))
    (fun _ => Ret false).

(** Check if a file or directory exists *)
Definition fileExists (filePath : string) : Prog bool :=
  x <- call (FsAccess filePath) ;;
  match x with
  | inr _ => Ret true
  | inl _ => Ret false
  end.

Definition findFiles (pattern : string) (cwd : option string)
  : Prog (list string) :=
  x <- call (GlobGlob pattern) ;;
  files <- lift x ;;
  match cwd with
  | Some d =>
      if JsString.truthy d && negb (String.eqb d ".")
      then Ret (map (fun f => JsString.replace f (d ++ "/") "") files)
      else Ret files
  | None => Ret files
  end.

Definition hasMatchingFiles (pattern : string) (cwd : option string)
  : Prog bool :=
  files <- findFiles pattern cwd ;;
  Ret (Nat.ltb 0 (List.length files)).

End Utils.

(** The names every object inherits from [Object.prototype]: looked up in
    an object literal they are found, whatever the literal holds. *)
Definition Object_prototype_keys : list string :=
  ["constructor"; "__defineGetter__"; "__defineSetter__"; "hasOwnProperty";
   "__lookupGetter__"; "__lookupSetter__"; "isPrototypeOf";
   "propertyIsEnumerable"; "toString"; "valueOf"; "__proto__";
   "toLocaleString"].

Definition inherited (key : string) : bool :=
  existsb (String.eqb key) Object_prototype_keys.

(** [String(Object.prototype[key])] for an inherited [key]. *)
Definition inherited_toString (key : string) : string :=
  if String.eqb key "__proto__" then "[object Object]"
  else "function "
       ++ (if String.eqb key "constructor" then "Object" else key)
       ++ "() { [native code] }".

(* ================================================================== *)
(** ** utils/toolCheck.ts                                              *)
(* ================================================================== *)

Module ToolCheck.

Definition DQ : string := String (ascii_of_nat 34) EmptyString.

Definition TOOL_COMMANDS (t : ToolName) : string :=
  match t with
  | phpstan => "vendor/bin/phpstan"
  | phpmd => "vendor/bin/phpmd"
  | php_cs_fixer => "vendor/bin/php-cs-fixer"
  | eslint => "npx eslint"
  | stylelint => "npx stylelint"
  | editorconfig => "vendor/bin/editorconfig-cli"
  | composer_normalize => "composer"
  | typo3_rector => "vendor/bin/rector"
  end.

Definition composer_instruction (package : string) : string :=
  "Add " ++ DQ ++ package ++ DQ
  ++ " to composer.json require-dev and run composer install".

Definition npm_instruction (package : string) : string :=
  "Add " ++ DQ ++ package ++ DQ
  ++ " to package.json devDependencies and run npm install".

Definition TOOL_INSTALL_INSTRUCTIONS (t : ToolName) : string :=
  match t with
  | phpstan => composer_instruction "phpstan/phpstan"
  | phpmd => composer_instruction "phpmd/phpmd"
  | php_cs_fixer => composer_instruction "friendsofphp/php-cs-fixer"
  | eslint => npm_instruction "eslint"
  | stylelint => npm_instruction "stylelint"
  | editorconfig => composer_instruction "armin/editorconfig-cli"
  | composer_normalize => composer_instruction "ergebnis/composer-normalize"
  | typo3_rector => composer_instruction "ssch/typo3-rector"
  end.

Section WithHost.

Variable host : Host.

(** [tool] is the run-time string.  A name outside the table has no command
    and is assumed available; an inherited name finds a member of
    [Object.prototype], which has no [startsWith]: the [TypeError] is caught. *)
Definition checkToolAvailability (tool : string) (workingDirectory : string)
  : Prog bool :=
  match ToolName_of_string tool with
  | None => Ret (negb (inherited tool))
  | Some t =>
      let command := TOOL_COMMANDS t in
      if negb (JsString.truthy command) then Ret true
      else
        try_catch
          (if JsString.startsWith command "npx " then
             let packageName :=
               hd EmptyString
                  (JsString.split " " (JsString.replace command "npx " "")) in
             result <- executeCommand host "npx" [packageName; "--version"]
                                      (Some workingDirectory) ;;
             Ret (Z.eqb (exitCode result) 0)
           else if String.eqb command "composer" then
             result <- executeCommand host "composer" ["--version"]
                                      (Some workingDirectory) ;;
             Ret (Z.eqb (exitCode result) 0)
           else
             result <- executeCommand host command ["--version"]
                                      (Some workingDirectory) ;;
             Ret (Z.eqb (exitCode result) 0))
          (fun _ => Ret false)
  end.

End WithHost.

(** [TOOL_INSTALL_INSTRUCTIONS[tool]] in a template literal, for the
    run-time string [tool]. *)
Definition instructionsFor (tool : string) : string :=
  match ToolName_of_string tool with
  | Some t => TOOL_INSTALL_INSTRUCTIONS t
  | None => if inherited tool then inherited_toString tool else "undefined"
  end.

Definition logToolNotFound (tool : string) : Prog unit :=
  let instructions := instructionsFor tool in
  core_warning ("Tool '" ++ tool ++ "' is not available. " ++ instructions) ;;
  core_warning ("Skipping " ++ tool ++ " checks.").

End ToolCheck.

(* ================================================================== *)
(** ** config/resolver.ts                                              *)
(* ================================================================== *)

Module Resolver.

Definition CONFIG_FILENAMES (t : ToolName) : list string :=
  match t with
  | phpstan => ["phpstan.neon"; "phpstan.neon.dist"]
  | phpmd => ["phpmd.xml"; "phpmd.xml.dist"]
  | php_cs_fixer => [".php-cs-fixer.php"; ".php-cs-fixer.dist.php"]
  | eslint => [".eslintrc.json"; ".eslintrc.js"; ".eslintrc.yml"; "eslint.config.js"]
  | stylelint => [".stylelintrc.json"; ".stylelintrc.js"; "stylelint.config.js"]
  | editorconfig => [".editorconfig"]
  | composer_normalize => ["composer.json"]
  | typo3_rector => ["rector.php"]
  end.

Section WithHost.

Variable host : Host.

Definition DEFAULT_CONFIGS (t : ToolName) : string :=
  let bundled name := path_join host [module_dirname host; "defaults"; name] in
  match t with
  | phpstan => bundled "phpstan.neon"
  | phpmd => bundled "phpmd.xml"
  | php_cs_fixer => bundled ".php-cs-fixer.php"
  | eslint => bundled ".eslintrc.json"
  | stylelint => bundled ".stylelintrc.json"
  | editorconfig => ""
  | composer_normalize => ""
  | typo3_rector => ""
  end.

(** Priority 2: the loop over [possibleConfigs], returning at the first
    file that exists. *)
Fixpoint findRepositoryConfig (tool : ToolName) (workingDirectory : string)
    (possibleConfigs : list string) : Prog (option string) :=
  match possibleConfigs with
  | [] => Ret None
  | configFile :: more =>
      let configPath := path_resolve host workingDirectory configFile in
      found <- fs_existsSync configPath ;;
      if found then
        core_info ("Found repository config for " ++ ToolName_to_string tool
                   ++ ": " ++ configFile) ;;
        Ret (Some configPath)
      else findRepositoryConfig tool workingDirectory more
  end.

(** Priority 3 and the final [return undefined]. *)
Definition defaultOrNone (tool : ToolName) : Prog (option string) :=
  let defaultConfig := DEFAULT_CONFIGS tool in
  found <- (if JsString.truthy defaultConfig
            then fs_existsSync defaultConfig else Ret false) ;;
  if found then
    core_info ("Using default config for " ++ ToolName_to_string tool) ;;
    Ret (Some defaultConfig)
  else
    core_info ("No custom config for " ++ ToolName_to_string tool
               ++ ", tool will use its own defaults") ;;
    Ret None.

(** Priorities 2 to 4, reached when priority 1 did not return. *)
Definition resolveFallthrough (tool : ToolName) (workingDirectory : string)
  : Prog (option string) :=
  repo <- findRepositoryConfig tool workingDirectory (CONFIG_FILENAMES tool) ;;
  match repo with
  | Some p => Ret (Some p)
  | None => defaultOrNone tool
  end.

Definition resolveConfig (tool : ToolName) (customConfigPath : option string)
    (workingDirectory : string) : Prog (option string) :=
  match customConfigPath with
  | Some custom =>
      if JsString.truthy custom then
        let fullPath := path_resolve host workingDirectory custom in
        found <- fs_existsSync fullPath ;;
        if found then
          core_info ("Using custom config for " ++ ToolName_to_string tool
                     ++ ": " ++ custom) ;;
          Ret (Some fullPath)
        else
          core_warning ("Custom config not found for "
                        ++ ToolName_to_string tool ++ ": " ++ custom) ;;
          resolveFallthrough tool workingDirectory
      else resolveFallthrough tool workingDirectory
  | None => resolveFallthrough tool workingDirectory
  end.

End WithHost.

End Resolver.

(* ================================================================== *)
(** ** The regular expressions of the text-scraping runners            *)
(* ================================================================== *)

Module Regex.

Import JsString.

(** [/^\s*\d+\)/.test(s)] *)
Definition test_numbered (s : string) : bool :=
  let '(d, r') := span is_digit (trimStart s) in
  truthy d && startsWith r' ")".

(** [[^\s]+\.php] tried at the head of [s]: [pre] is what [[^\s]+] has
    consumed, [best] the longest match seen (the quantifier is greedy). *)
Fixpoint php_word_at (pre s : string) (best : option string) : option string :=
  match s with
  | EmptyString => best
  | String c rest =>
      let best' := if truthy pre && String.prefix ".php" s
                   then Some (pre ++ ".php") else best in
      match space_len s with
      | O => php_word_at (pre ++ String c EmptyString) rest best'
      | S _ => best'
      end
  end.

(** Group 1 of [s.match(/([^\s]+\.php)/)]: the leftmost match.  A
    white-space character is passed over as a whole: [skip] of its bytes
    are still to go. *)
Fixpoint match_php_path_from (skip : nat) (s : string) {struct s}
  : option string :=
  match skip with
  | S k =>
      match s with
      | String _ rest => match_php_path_from k rest
      | EmptyString => None
      end
  | O =>
      match php_word_at EmptyString s None with
      | Some m => Some m
      | None =>
          match s with
          | String _ rest => match_php_path_from (Nat.pred (space_len s)) rest
          | EmptyString => None
          end
      end
  end.

Definition match_php_path (s : string) : option string :=
  match_php_path_from 0 s.

(** [(\d+):\s*(.+)$] at the head of [s]: groups 2 and 3.  When nothing
    follows the white space, [\s*] gives back its last character to [.+]. *)
Definition violation_tail (s : string) : option (string * string) :=
  let '(ds, r) := span is_digit s in
  if truthy ds then
    match r with
    | String ":" r1 =>
        let body := trimStart r1 in
        if truthy body then
          if no_terminator body then Some (ds, body) else None
        else
          match last_space r1 with
          | Some w => if Nat.eqb (terminator_len w) 0 then Some (ds, w) else None
          | None => None
          end
    | _ => None
    end
  else None.

(** [^(.+?):] then the tail: [pre] is what the lazy [.+?] has consumed. *)
Fixpoint match_violation_from (pre s : string)
  : option (string * string * string) :=
  match s with
  | EmptyString => None
  | String c rest =>
      match (if truthy pre && Ascii.eqb c ":"
             then violation_tail rest else None) with
      | Some (d, m) => Some (pre, d, m)
      | None =>
          match terminator_len s with
          | O => match_violation_from (pre ++ String c EmptyString) rest
          | S _ => None
          end
      end
  end.

(** Groups 1 to 3 of [line.match(/^(.+?):(\d+):\s*(.+)$/)]. *)
Definition match_violation (s : string) : option (string * string * string) :=
  match_violation_from EmptyString s.

Definition extensions : list string :=
  ["php"; "js"; "ts"; "css"; "scss"; "html"; "json"; "yaml"; "yml"].

(** [\.(php|js|...)] at the head of [s]: the first alternative that fits. *)
Definition dot_extension_at (s : string) : option string :=
  match find (fun e => String.prefix ("." ++ e) s) extensions with
  | Some e => Some ("." ++ e)
  | None => None
  end.

Fixpoint file_lazy (pre s : string) : option string :=
  match (if truthy pre then dot_extension_at s else None) with
  | Some de => Some (pre ++ de)
  | None =>
      match s with
      | String c rest =>
          match terminator_len s with
          | O => file_lazy (pre ++ String c EmptyString) rest
          | S _ => None
          end
      | EmptyString => None
      end
  end.

(** Group 1 of [s.match(/(.+?\.(php|js|ts|css|scss|html|json|yaml|yml))/)]:
    the leftmost match.  A line terminator is passed over as a whole. *)
Fixpoint match_file_from (skip : nat) (s : string) {struct s} : option string :=
  match skip with
  | S k =>
      match s with
      | String _ rest => match_file_from k rest
      | EmptyString => None
      end
  | O =>
      match file_lazy EmptyString s with
      | Some m => Some m
      | None =>
          match s with
          | String _ rest => match_file_from (Nat.pred (terminator_len s)) rest
          | EmptyString => None
          end
      end
  end.

Definition match_file (s : string) : option string := match_file_from 0 s.

End Regex.

(* ================================================================== *)
(** ** runners/*.ts                                                    *)
(* ================================================================== *)

Module Runners.

Definition mkIssue (f : string) (l : Z) (c : option Z) (s : Severity)
    (m : string) (r : option string) : Issue :=
  {| file := f; line := l; column := c; severity := s; message := m; rule := r |}.

(** [if (config.configPath) args.push(...)] *)
Definition configArgs (cfg : RunnerConfig) (mk : string -> list string)
  : list string :=
  match configPath cfg with
  | Some p => if JsString.truthy p then mk p else []
  | None => []
  end.

(** [if (config.filePaths.length > 0) args.push(...config.filePaths)] and
    its [else]. *)
Definition fileArgs (cfg : RunnerConfig) (otherwise : list string)
  : list string :=
  match filePaths cfg with
  | [] => otherwise
  | fs => fs
  end.

(** The body of a [try] whose loops push onto an array declared before it:
    from the issues pushed so far to the issues pushed after it, with the
    value of the body or the exception that ended it. *)
Definition Walk (A : Type) : Type :=
  list RawIssue -> list RawIssue * (Exn + A).

Definition wret {A : Type} (a : A) : Walk A := fun pushed => (pushed, inr a).

Definition wbind {A B : Type} (m : Walk A) (f : A -> Walk B) : Walk B :=
  fun pushed =>
    match m pushed with
    | (pushed', inr a) => f a pushed'
    | (pushed', inl e) => (pushed', inl e)
    end.

(** An operation that may throw. *)
Definition attempt {A : Type} (x : Exn + A) : Walk A := fun pushed => (pushed, x).

(** [issues.push(i)] *)
Definition push (i : RawIssue) : Walk unit :=
  fun pushed => ((pushed ++ [i])%list, inr tt).

(** [for (const x of items) { body x }] *)
Fixpoint for_of {A : Type} (items : list A) (body : A -> Walk unit)
  : Walk unit :=
  match items with
  | [] => wret tt
  | x :: more => wbind (body x) (fun _ => for_of more body)
  end.

(** [if (c) { body }] *)
Definition when (c : bool) (body : Walk unit) : Walk unit :=
  if c then body else wret tt.

(** [if (v) { body v }] *)
Definition when_truthy (v : option Json) (body : Json -> Walk unit)
  : Walk unit :=
  match v with
  | Some x => if Js.truthy v then body x else wret tt
  | None => wret tt
  end.

Declare Scope walk_scope.
Delimit Scope walk_scope with walk.
Notation "x <- m ;; k" := (wbind m (fun x => k))
  (at level 61, m at next level, right associativity) : walk_scope.

Definition one : Json := JNumber (Js.of_Z 1).

(** The fallback of the Rector runner's [catch]: scraping the lines. *)
Definition Rector_text_issues (out : string) : list Issue :=
  flat_map (fun l =>
    if JsString.includes l "[FILE]" || Regex.test_numbered l then
      match Regex.match_php_path l with
      | Some f => [mkIssue f 1 None warning
                     "Rector suggests refactoring for this file"
                     (Some "typo3-rector")]
      | None => []
      end
    else []) (JsString.split JsString.LF out).

(** The mark the EditorConfig runner looks for, as it stands in the source
    file: the three characters U+00E2, U+0153 and U+2014, in UTF-8. *)
Definition cross_mark : string :=
  string_of_list_ascii
    (map ascii_of_nat [195; 162; 197; 147; 226; 128; 148]).

Definition EditorConfig_issues (output : string) : list Issue :=
  flat_map (fun l =>
    match Regex.match_violation l with
    | Some (f, n, m) =>
        [mkIssue f (JsString.parseInt n) None warning m (Some "editorconfig")]
    | None =>
        if JsString.includes l cross_mark
           || JsString.includes (JsString.toLowerCase l) "error" then
          match Regex.match_file l with
          | Some f => [mkIssue f 1 None warning (JsString.trim l)
                         (Some "editorconfig")]
          | None => []
          end
        else []
    end) (JsString.split JsString.LF output).

Definition ComposerNormalize_issues (cfg : RunnerConfig) (result : ExecResult)
  : list Issue :=
  if negb (Z.eqb (exitCode result) 0) then
    let composerPath := string_or (configPath cfg) "composer.json" in
    if JsString.truthy (stdout result) || JsString.truthy (stderr result) then
      let output := stdout result ++ stderr result in
      (if JsString.includes output "is not normalized"
          || JsString.includes output "Successfully normalized"
       then [mkIssue composerPath 1 None warning
               ("composer.json is not normalized. Run " ++ ToolCheck.DQ
                ++ "composer normalize" ++ ToolCheck.DQ ++ " to fix.")
               (Some "composer-normalize")]
       else [])
      ++
      (if JsString.includes output "--- original"
          || JsString.includes output "+++ normalized"
       then [mkIssue composerPath 1 None warning
               "composer.json has formatting or ordering issues. See diff for details."
               (Some "composer-normalize")]
       else [])
    else
      [mkIssue composerPath 1 None warning
         "composer.json requires normalization" (Some "composer-normalize")]
  else [].

Section WithHost.

Variable host : Host.

Definition mkResult (name : string) (result : ExecResult) (found : list Issue)
  : ToolResult :=
  {| tool := name;
     success := Z.eqb (exitCode result) 0;
     issues := found;
     rawOutput := stdout result ++ stderr result |}.

Local Open Scope walk_scope.

(** The bodies of the [try] blocks, after [JSON.parse]. *)
Definition PHPStan_walk (output : Json) : Walk unit :=
  files <- attempt (Js.get host output "files") ;;
  when_truthy files (fun files_ =>
    entries <- attempt (Js.entries host files_) ;;
    for_of entries (fun '(file_, fileData) =>
      messages <- attempt (Js.get host fileData "messages") ;;
      when_truthy messages (fun messages_ =>
        items <- attempt (Js.iterate host messages_) ;;
        for_of items (fun message_ =>
          line_ <- attempt (Js.get host message_ "line") ;;
          column_ <- attempt (Js.get host message_ "column") ;;
          text <- attempt (Js.get host message_ "message") ;;
          push {| raw_file := Some (JString file_);
                  raw_line := Js.or_else line_ one;
                  raw_column := column_;
                  raw_severity := error;
                  raw_message := text;
                  raw_rule := Some (JString "phpstan") |})))).

Definition PHPMD_walk (output : Json) : Walk unit :=
  files <- attempt (Js.get host output "files") ;;
  when_truthy files (fun files_ =>
    items <- attempt (Js.iterate host files_) ;;
    for_of items (fun fileData =>
      violations <- attempt (Js.get host fileData "violations") ;;
      when_truthy violations (fun violations_ =>
        items' <- attempt (Js.iterate host violations_) ;;
        for_of items' (fun violation =>
          file_ <- attempt (Js.get host fileData "file") ;;
          line_ <- attempt (Js.get host violation "beginLine") ;;
          column_ <- attempt (Js.get host violation "beginColumn") ;;
          priority <- attempt (Js.get host violation "priority") ;;
          high <- attempt (Js.leb host priority 3) ;;
          text <- attempt (Js.get host violation "description") ;;
          rule_ <- attempt (Js.get host violation "rule") ;;
          push {| raw_file := file_;
                  raw_line := Js.or_else line_ one;
                  raw_column := column_;
                  raw_severity := if high : bool then error else warning;
                  raw_message := text;
                  raw_rule := rule_ |})))).

Definition PHPCSFixer_walk (output : Json) : Walk unit :=
  files <- attempt (Js.get host output "files") ;;
  when_truthy files (fun files_ =>
    items <- attempt (Js.iterate host files_) ;;
    for_of items (fun fileData =>
      diff <- attempt (Js.get host fileData "diff") ;;
      when (Js.truthy diff)
        (file_ <- attempt (Js.get host fileData "name") ;;
         fixers <- attempt (Js.get host fileData "appliedFixers") ;;
         joined <- attempt (Js.optional_join host fixers ", ") ;;
         push {| raw_file := file_;
                 raw_line := one;
                 raw_column := None;
                 raw_severity := warning;
                 raw_message :=
                   Some (JString ("Code style issues found. "
                                  ++ string_or joined "See diff for details"));
                 raw_rule := Some (JString "php-cs-fixer") |}))).

Definition ESLint_walk (output : Json) : Walk unit :=
  when (Js.isArray output)
    (files <- attempt (Js.iterate host output) ;;
     for_of files (fun fileData =>
       messages <- attempt (Js.get host fileData "messages") ;;
       when_truthy messages (fun messages_ =>
         items <- attempt (Js.iterate host messages_) ;;
         for_of items (fun message_ =>
           file_ <- attempt (Js.get host fileData "filePath") ;;
           line_ <- attempt (Js.get host message_ "line") ;;
           column_ <- attempt (Js.get host message_ "column") ;;
           severity_ <- attempt (Js.get host message_ "severity") ;;
           text <- attempt (Js.get host message_ "message") ;;
           rule_ <- attempt (Js.get host message_ "ruleId") ;;
           push {| raw_file := file_;
                   raw_line := Js.or_else line_ one;
                   raw_column := column_;
                   raw_severity := if Js.is_number severity_ 2
                                   then error else warning;
                   raw_message := text;
                   raw_rule := rule_ |})))).

Definition Stylelint_walk (output : Json) : Walk unit :=
  when (Js.isArray output)
    (files <- attempt (Js.iterate host output) ;;
     for_of files (fun fileData =>
       warnings_ <- attempt (Js.get host fileData "warnings") ;;
       when_truthy warnings_ (fun warnings' =>
         items <- attempt (Js.iterate host warnings') ;;
         for_of items (fun warning_ =>
           file_ <- attempt (Js.get host fileData "source") ;;
           line_ <- attempt (Js.get host warning_ "line") ;;
           column_ <- attempt (Js.get host warning_ "column") ;;
           severity_ <- attempt (Js.get host warning_ "severity") ;;
           text <- attempt (Js.get host warning_ "text") ;;
           rule_ <- attempt (Js.get host warning_ "rule") ;;
           push {| raw_file := file_;
                   raw_line := Js.or_else line_ one;
                   raw_column := column_;
                   raw_severity := if Js.is_string severity_ "error"
                                   then error else warning;
                   raw_message := text;
                   raw_rule := rule_ |})))).

Definition Rector_walk (output : Json) : Walk unit :=
  totals <- attempt (Js.get host output "totals") ;;
  when_truthy totals (fun totals_ =>
    changed <- attempt (Js.get host totals_ "changed_files") ;;
    positive <- attempt (Js.gtb host changed 0) ;;
    when positive
      (file_diffs <- attempt (Js.get host output "file_diffs") ;;
       when_truthy file_diffs (fun file_diffs_ =>
         items <- attempt (Js.iterate host file_diffs_) ;;
         for_of items (fun fileDiff =>
           diffs <- attempt (Js.get host fileDiff "diffs") ;;
           detailed <-
             match diffs with
             | Some diffs_ =>
                 if Js.truthy diffs then
                   length_ <- attempt (Js.get host diffs_ "length") ;;
                   attempt (Js.gtb host length_ 0)
                 else wret false
             | None => wret false
             end ;;
           match diffs with
           | Some diffs_ =>
               if detailed : bool then
                 items' <- attempt (Js.iterate host diffs_) ;;
                 for_of items' (fun diff =>
                   file_ <- attempt (Js.get host fileDiff "file") ;;
                   message_ <- attempt (Js.get host diff "message") ;;
                   text <- attempt
                             (Js.toString host
                                (Js.or_else message_
                                   (JString "Code can be refactored"))) ;;
                   class_ <- attempt (Js.get host diff "rector_class") ;;
                   push {| raw_file := file_;
                           raw_line := one;
                           raw_column := None;
                           raw_severity := warning;
                           raw_message :=
                             Some (JString ("Rector suggests changes: "
                                            ++ text));
                           raw_rule :=
                             Some (Js.or_else class_
                                     (JString "typo3-rector")) |})
               else
                 file_ <- attempt (Js.get host fileDiff "file") ;;
                 push {| raw_file := file_;
                         raw_line := one;
                         raw_column := None;
                         raw_severity := warning;
                         raw_message :=
                           Some (JString "File has refactoring opportunities");
                         raw_rule := Some (JString "typo3-rector") |}
           | None =>
               file_ <- attempt (Js.get host fileDiff "file") ;;
               push {| raw_file := file_;
                       raw_line := one;
                       raw_column := None;
                       raw_severity := warning;
                       raw_message :=
                         Some (JString "File has refactoring opportunities");
                       raw_rule := Some (JString "typo3-rector") |}
           end)))).

Close Scope walk_scope.

(** What the [try] of a runner leaves: the issues pushed, and the exception
    that ended it, if one did.  [JSON.parse] is its first statement. *)
Definition tried (walk : Json -> Walk unit) (text : string)
  : list RawIssue * (Exn + unit) :=
  match JSON_parse host text with
  | inl e => ([], inl e)
  | inr output => walk output []
  end.

(** [if (result.stdout) { try { ... } catch (error) { core.warning(...) } }]
    as the six JSON runners have it; [fallback] is what the [catch] pushes
    after the warning. *)
Definition parseIssues (label : string) (walk : Json -> Walk unit)
    (fallback : list Issue) (result : ExecResult) : Prog (list Issue) :=
  if JsString.truthy (stdout result) then
    match tried walk (stdout result) with
    | (pushed, inr _) => Ret (map Js.Issue_of_raw pushed)
    | (pushed, inl e) =>
        core_warning ("Failed to parse " ++ label ++ " output: "
                      ++ Exn_toString e) ;;
        Ret (map Js.Issue_of_raw pushed ++ fallback)%list
    end
  else Ret [].

Definition PHPStanRunner_run (config : RunnerConfig) : Prog ToolResult :=
  core_info "Running PHPStan..." ;;
  let args := (["analyze"; "--error-format=json"; "--no-progress"]
               ++ configArgs config (fun p => ["-c"; p])
               ++ fileArgs config [])%list in
  result <- executeCommand host "vendor/bin/phpstan" args
                           (Some (workingDirectory config)) ;;
  found <- parseIssues "PHPStan" PHPStan_walk [] result ;;
  Ret (mkResult "PHPStan" result found).

Definition PHPMDRunner_run (config : RunnerConfig) : Prog ToolResult :=
  core_info "Running PHPMD..." ;;
  let paths := match filePaths config with
               | [] => "."
               | fs => JsString.join "," fs
               end in
  let args := ([paths; "json"]
               ++ match configArgs config (fun p => [p]) with
                  | [] => ["cleancode,codesize,controversial,design,naming,unusedcode"]
                  | a => a
                  end)%list in
  result <- executeCommand host "vendor/bin/phpmd" args
                           (Some (workingDirectory config)) ;;
  found <- parseIssues "PHPMD" PHPMD_walk [] result ;;
  Ret (mkResult "PHPMD" result found).

Definition PHPCSFixerRunner_run (config : RunnerConfig) : Prog ToolResult :=
  core_info "Running PHP-CS-Fixer..." ;;
  let args := (["fix"; "--dry-run"; "--format=json"; "--diff"]
               ++ configArgs config (fun p => ["--config=" ++ p]%string)
               ++ fileArgs config [])%list in
  result <- executeCommand host "vendor/bin/php-cs-fixer" args
                           (Some (workingDirectory config)) ;;
  found <- parseIssues "PHP-CS-Fixer" PHPCSFixer_walk [] result ;;
  Ret (mkResult "PHP-CS-Fixer" result found).

Definition ESLintRunner_run (config : RunnerConfig) : Prog ToolResult :=
  core_info "Running ESLint..." ;;
  let args := (["--format=json"]
               ++ configArgs config (fun p => ["-c"; p])
               ++ fileArgs config ["."])%list in
  result <- executeCommand host "npx" ("eslint" :: args)
                           (Some (workingDirectory config)) ;;
  found <- parseIssues "ESLint" ESLint_walk [] result ;;
  Ret (mkResult "ESLint" result found).

Definition StylelintRunner_run (config : RunnerConfig) : Prog ToolResult :=
  core_info "Running Stylelint..." ;;
  let args := (["--formatter=json"]
               ++ configArgs config (fun p => ["--config"; p])
               ++ fileArgs config ["**/*.{css,scss}"])%list in
  result <- executeCommand host "npx" ("stylelint" :: args)
                           (Some (workingDirectory config)) ;;
  found <- parseIssues "Stylelint" Stylelint_walk [] result ;;
  Ret (mkResult "Stylelint" result found).

Definition EditorConfigRunner_run (config : RunnerConfig) : Prog ToolResult :=
  core_info "Running EditorConfig CLI..." ;;
  let args := (["check"] ++ fileArgs config [])%list in
  result <- executeCommand host "vendor/bin/editorconfig-cli" args
                           (Some (workingDirectory config)) ;;
  let found :=
    if JsString.truthy (stdout result) || JsString.truthy (stderr result)
    then EditorConfig_issues (stdout result ++ stderr result)
    else [] in
  Ret (mkResult "EditorConfig" result found).

Definition ComposerNormalizeRunner_run (config : RunnerConfig)
  : Prog ToolResult :=
  core_info "Running Composer Normalize..." ;;
  let args := (["normalize"; "--dry-run"]
               ++ configArgs config (fun p => [p]))%list in
  result <- executeCommand host "composer" args
                           (Some (workingDirectory config)) ;;
  Ret (mkResult "Composer Normalize" result
                (ComposerNormalize_issues config result)).

Definition Typo3RectorRunner_run (config : RunnerConfig) : Prog ToolResult :=
  core_info "Running TYPO3 Rector..." ;;
  let args := (["process"; "--dry-run"; "--output-format=json"]
               ++ configArgs config (fun p => ["--config"; p])
               ++ fileArgs config [])%list in
  result <- executeCommand host "vendor/bin/rector" args
                           (Some (workingDirectory config)) ;;
  found <- parseIssues "Rector JSON" Rector_walk
                       (Rector_text_issues (stdout result)) result ;;
  Ret (mkResult "TYPO3 Rector" result found).

(** The classes that implement [ToolRunner]. *)
Inductive Runner : Type :=
| PHPStanRunner | PHPMDRunner | PHPCSFixerRunner | ESLintRunner
| StylelintRunner | EditorConfigRunner | ComposerNormalizeRunner
| Typo3RectorRunner.

(** [runner.run(config)] *)
Definition run (runner : Runner) : RunnerConfig -> Prog ToolResult :=
  match runner with
  | PHPStanRunner => PHPStanRunner_run
  | PHPMDRunner => PHPMDRunner_run
  | PHPCSFixerRunner => PHPCSFixerRunner_run
  | ESLintRunner => ESLintRunner_run
  | StylelintRunner => StylelintRunner_run
  | EditorConfigRunner => EditorConfigRunner_run
  | ComposerNormalizeRunner => ComposerNormalizeRunner_run
  | Typo3RectorRunner => Typo3RectorRunner_run
  end.

(** The body of the [try] of a runner that reads JSON. *)
Definition walk_of (runner : Runner) : option (Json -> Walk unit) :=
  match runner with
  | PHPStanRunner => Some PHPStan_walk
  | PHPMDRunner => Some PHPMD_walk
  | PHPCSFixerRunner => Some PHPCSFixer_walk
  | ESLintRunner => Some ESLint_walk
  | StylelintRunner => Some Stylelint_walk
  | Typo3RectorRunner => Some Rector_walk
  | EditorConfigRunner | ComposerNormalizeRunner => None
  end.

End WithHost.

End Runners.

(** [for (const x of l) { body x }] *)
Fixpoint forEach {A : Type} (l : list A) (body : A -> Prog unit) : Prog unit :=
  match l with
  | [] => Ret tt
  | x :: more => body x ;; forEach more body
  end.

(** [l.reduce((sum, r) => sum + r.issues.length, 0)] *)
Definition sumIssues (l : list ToolResult) : nat :=
  fold_left (fun sum r => sum + List.length (issues r)) l 0.

(* ================================================================== *)
(** ** reporters/github.ts                                             *)
(* ================================================================== *)

Module GitHubReporter.

Definition color (code : string) : string :=
  String JsString.ESC ("[" ++ code ++ "m").

Definition reset : string := color "0".
Definition dim : string := color "2".
Definition red : string := color "31".
Definition green : string := color "32".
Definition yellow : string := color "33".
Definition cyan : string := color "36".

(** [issue.column && { startColumn: issue.column }]: a column of 0 spreads
    nothing. *)
Definition annotationProperties (issue : Issue) : AnnotationProperties :=
  {| ann_file := file issue;
     ann_startLine := line issue;
     ann_startColumn := match column issue with
                        | Some c => if Z.eqb c 0 then None else Some c
                        | None => None
                        end |}.

Definition annotationMessage (r : ToolResult) (issue : Issue) : string :=
  "[" ++ tool r
  ++ (if JsString.truthy_opt (rule issue)
      then " - " ++ string_or (rule issue) "" else "")
  ++ "] " ++ message issue.

Definition annotate (r : ToolResult) (issue : Issue) : Prog unit :=
  let properties := annotationProperties issue in
  let msg := annotationMessage r issue in
  if Severity_eqb (severity issue) error
  then call (CoreError msg (Some properties))
  else call (CoreWarning msg (Some properties)).

Definition generateAnnotations (this_results : list ToolResult) : Prog unit :=
  forEach this_results (fun r =>
    forEach (issues r) (fun issue => annotate r issue)).

Definition countSeverity (s : Severity) (l : list Issue) : nat :=
  List.length (filter (fun i => Severity_eqb (severity i) s) l).

Definition push_is_not_a_function : Exn :=
  {| exn_name := "TypeError";
     exn_message := "acc[issue.file].push is not a function" |}.

(** [acc[issue.file]] created on first sight, then pushed to. *)
Fixpoint pushByFile (acc : list (string * list Issue)) (issue : Issue)
  : list (string * list Issue) :=
  match acc with
  | [] => [(file issue, [issue])]
  | (f, l) :: more =>
      if String.eqb f (file issue) then (f, (l ++ [issue])%list) :: more
      else (f, l) :: pushByFile more issue
  end.

(** The [reduce] that groups the issues by file, the groups in the order
    their file first appears.  A file named like a member of
    [Object.prototype] makes [push] throw. *)
Definition issuesByFile (l : list Issue)
  : Exn + list (string * list Issue) :=
  fold_left (fun acc issue =>
               match acc with
               | inl e => inl e
               | inr groups =>
                   if inherited (file issue)
                   then inl push_is_not_a_function
                   else inr (pushByFile groups issue)
               end) l (inr []).

(** A canonical array index: a decimal numeral without leading zero, at
    most [2^32 - 2]. *)
Definition is_array_index (s : string) : bool :=
  match s with
  | EmptyString => false
  | String c rest =>
      JsString.forallb JsString.is_digit s
      && (negb (Ascii.eqb c "0") || String.eqb rest "")
      && Nat.leb (String.length s) 10
      && Z.leb (JsString.numeral s) 4294967294
  end.

Fixpoint insertByIndex (g : string * list Issue)
    (sorted : list (string * list Issue)) : list (string * list Issue) :=
  match sorted with
  | [] => [g]
  | g' :: more =>
      if Z.leb (JsString.numeral (fst g)) (JsString.numeral (fst g'))
      then g :: sorted
      else g' :: insertByIndex g more
  end.

(** [Object.entries]: the array indices in ascending order, then the other
    keys in the order of their creation. *)
Definition Object_entries (groups : list (string * list Issue))
  : list (string * list Issue) :=
  (fold_right insertByIndex []
              (filter (fun g => is_array_index (fst g)) groups)
   ++ filter (fun g => negb (is_array_index (fst g))) groups)%list.

Definition plainCell (s : string) : SummaryCell :=
  {| cell_data := s; cell_header := false |}.

Definition headerCell (s : string) : SummaryCell :=
  {| cell_data := s; cell_header := true |}.

Definition summaryTable (this_results : list ToolResult)
  : list (list SummaryCell) :=
  ([ [headerCell "Tool"; headerCell "Status"; headerCell "Issues"] ]
   ++ map (fun r =>
       [plainCell (tool r);
        plainCell (if success r then green ++ "PASS" ++ reset
                   else red ++ "FAIL" ++ reset);
        plainCell (JsString.of_nat (List.length (issues r)))]) this_results
   ++ [ [plainCell ""; plainCell "Total";
         plainCell (JsString.of_nat (sumIssues this_results))] ])%list.

Definition generateSummary (this_results : list ToolResult) : Prog unit :=
  let total := sumIssues this_results in
  written <- call (CoreSummaryWrite
                     [SummaryHeading "Code Quality Report";
                      SummaryRaw (String JsString.LF EmptyString);
                      SummaryTable (summaryTable this_results)]) ;;
  lift written ;;
  if Nat.ltb 0 total then
    core_info (yellow ++ "Found " ++ JsString.of_nat total
               ++ " code quality issues across all tools" ++ reset) ;;
    forEach this_results (fun r =>
      if Nat.ltb 0 (List.length (issues r)) then
        core_startGroup (cyan ++ tool r ++ ": "
                         ++ JsString.of_nat (List.length (issues r))
                         ++ " issues" ++ reset) ;;
        let errorCount := countSeverity error (issues r) in
        let warningCount := countSeverity warning (issues r) in
        core_info (red ++ "Errors: " ++ JsString.of_nat errorCount ++ reset
                   ++ ", " ++ yellow ++ "Warnings: "
                   ++ JsString.of_nat warningCount ++ reset) ;;
        groups <- lift (issuesByFile (issues r)) ;;
        forEach (Object_entries groups) (fun '(f, l) =>
          core_info ("  " ++ dim ++ f ++ ": "
                     ++ JsString.of_nat (List.length l)
                     ++ " issue(s)" ++ reset)) ;;
        core_endGroup
      else Ret tt)
  else
    core_info (green ++ "No code quality issues found!" ++ reset).

(** The object [report] of [getReport], before [JSON.stringify]. *)
Definition report (this_results : list ToolResult) : Report :=
  {| totalIssues := sumIssues this_results;
     results := map (fun r =>
       {| report_tool := tool r;
          report_success := success r;
          report_issueCount := List.length (issues r);
          report_errors := countSeverity error (issues r);
          report_warnings := countSeverity warning (issues r);
          report_issues := issues r |}) this_results |}.

Definition getReport (host : Host) (this_results : list ToolResult) : string :=
  JSON_stringify host (report this_results).

End GitHubReporter.

(* ================================================================== *)
(** ** cache/CacheManager.ts                                           *)
(* ================================================================== *)

Module Cache.

Record CacheConfig : Type := {
  enabled : bool;
  keyPrefix : string;
  composerCache : bool;
  composerVendor : bool;
  npmCache : bool;
  nodeModules : bool
}.

Record CacheKeyInfo : Type := {
  key : string;
  restoreKeys : list string;
  paths : list string
}.

(** The fields of a [CacheManager] object (the logger has no state). *)
Record CacheManager : Type := {
  config : CacheConfig;
  workingDirectory : string;
  composerCacheDir : option string;
  npmCacheDir : option string
}.

(** [new CacheManager(config, workingDirectory, logger)] *)
Definition new (c : CacheConfig) (wd : string) : CacheManager :=
  {| config := c; workingDirectory := wd;
     composerCacheDir := None; npmCacheDir := None |}.

Definition set_composerCacheDir (this : CacheManager) (d : string)
  : CacheManager :=
  {| config := config this; workingDirectory := workingDirectory this;
     composerCacheDir := Some d; npmCacheDir := npmCacheDir this |}.

Definition set_npmCacheDir (this : CacheManager) (d : string) : CacheManager :=
  {| config := config this; workingDirectory := workingDirectory this;
     composerCacheDir := composerCacheDir this; npmCacheDir := Some d |}.

(** [`${prefix}-${platform}-composer-${lockHash}`] and the restore keys of
    [generateComposerCacheKey]. *)
Definition composerKey (prefix platform lockHash : string) : string :=
  prefix ++ "-" ++ platform ++ "-composer-" ++ lockHash.

Definition composerRestoreKeys (prefix platform : string) : list string :=
  [ prefix ++ "-" ++ platform ++ "-composer-";
    prefix ++ "-composer-" ].

(** [`${prefix}-${platform}-${packageManager}-${lockHash}`] and the restore
    keys of [generateNpmCacheKey]. *)
Definition npmKey (prefix platform packageManager lockHash : string) : string :=
  prefix ++ "-" ++ platform ++ "-" ++ packageManager ++ "-" ++ lockHash.

Definition npmRestoreKeys (prefix platform packageManager : string)
  : list string :=
  [ prefix ++ "-" ++ platform ++ "-" ++ packageManager ++ "-";
    prefix ++ "-" ++ platform ++ "-";
    prefix ++ "-" ].

Section WithHost.

Variable host : Host.

(** [createHash('sha256').update(lockContent).digest('hex').substring(0, 8)] *)
Definition hashPrefix (lockContent : string) : string :=
  JsString.take 8 (sha256_hex host lockContent).

Definition readFile (p : string) : Prog string :=
  x <- call (FsReadFile p) ;; lift x.

(** The body of each [if (await fileExists(lock))] branch. *)
Definition hashLockFile (lockPath : string) : Prog string :=
  lockContent <- readFile lockPath ;;
  Ret (hashPrefix lockContent).

Definition detectComposerCacheDir (this : CacheManager) : Prog CacheManager :=
  if negb (composerCache (config this)) then Ret this
  else
    try_catch
      (result <- executeCommand host "composer" ["config"; "cache-files-dir"]
                                (Some (workingDirectory this)) ;;
       if Z.eqb (exitCode result) 0 && JsString.truthy (stdout result) then
         let d := JsString.trim (stdout result) in
         core_debug ("Composer cache directory: " ++ d) ;;
         Ret (set_composerCacheDir this d)
       else
         core_debug "Could not detect Composer cache directory" ;;
         Ret this)
      (fun _ =>
         core_debug "Composer not available for cache detection" ;;
         Ret this).

Definition detectNpmCacheDir (this : CacheManager) : Prog CacheManager :=
  if negb (npmCache (config this)) then Ret this
  else
    try_catch
      (npmResult <- executeCommand host "npm" ["config"; "get"; "cache"]
                                   (Some (workingDirectory this)) ;;
       if Z.eqb (exitCode npmResult) 0 && JsString.truthy (stdout npmResult)
       then
         let d := JsString.trim (stdout npmResult) in
         core_debug ("npm cache directory: " ++ d) ;;
         Ret (set_npmCacheDir this d)
       else
         yarnResult <- executeCommand host "yarn" ["cache"; "dir"]
                                      (Some (workingDirectory this)) ;;
         if Z.eqb (exitCode yarnResult) 0 && JsString.truthy (stdout yarnResult)
         then
           let d := JsString.trim (stdout yarnResult) in
           core_debug ("Yarn cache directory: " ++ d) ;;
           Ret (set_npmCacheDir this d)
         else
           pnpmResult <- executeCommand host "pnpm" ["store"; "path"]
                                        (Some (workingDirectory this)) ;;
           if Z.eqb (exitCode pnpmResult) 0
              && JsString.truthy (stdout pnpmResult)
           then
             let d := JsString.trim (stdout pnpmResult) in
             core_debug ("pnpm cache directory: " ++ d) ;;
             Ret (set_npmCacheDir this d)
           else
             core_debug "Could not detect npm/yarn/pnpm cache directory" ;;
             Ret this)
      (fun _ =>
         core_debug "npm/yarn/pnpm not available for cache detection" ;;
         Ret this).

(** [if (flag && dir) paths.push(dir)] *)
Definition cacheDirPaths (flag : bool) (dir : option string) : list string :=
  match dir with
  | Some d => if flag && JsString.truthy d then [d] else []
  | None => []
  end.

Definition composerPaths (this : CacheManager) : list string :=
  (cacheDirPaths (composerCache (config this)) (composerCacheDir this)
   ++ (if composerVendor (config this)
       then [path_join host [workingDirectory this; "vendor"]] else []))%list.

Definition npmPaths (this : CacheManager) : list string :=
  (cacheDirPaths (npmCache (config this)) (npmCacheDir this)
   ++ (if nodeModules (config this)
       then [path_join host [workingDirectory this; "node_modules"]]
       else []))%list.

Definition generateComposerCacheKey (this : CacheManager) : Prog CacheKeyInfo :=
  let paths_ := composerPaths this in
  let platform := process_platform host in
  let prefix := keyPrefix (config this) in
  let composerLockPath :=
    path_join host [workingDirectory this; "composer.lock"] in
  found <- fileExists composerLockPath ;;
  lockHash <- (if found then hashLockFile composerLockPath
               else Ret "no-lock") ;;
  Ret {| key := composerKey prefix platform lockHash;
         restoreKeys := composerRestoreKeys prefix platform;
         paths := paths_ |}.

Definition generateNpmCacheKey (this : CacheManager) : Prog CacheKeyInfo :=
  let paths_ := npmPaths this in
  let platform := process_platform host in
  let prefix := keyPrefix (config this) in
  let packageLockPath :=
    path_join host [workingDirectory this; "package-lock.json"] in
  let yarnLockPath := path_join host [workingDirectory this; "yarn.lock"] in
  let pnpmLockPath :=
    path_join host [workingDirectory this; "pnpm-lock.yaml"] in
  lock <-
    (pnpm <- fileExists pnpmLockPath ;;
     if pnpm then
       h <- hashLockFile pnpmLockPath ;; Ret (h, "pnpm")
     else
       yarn <- fileExists yarnLockPath ;;
       if yarn then
         h <- hashLockFile yarnLockPath ;; Ret (h, "yarn")
       else
         npm <- fileExists packageLockPath ;;
         if npm then
           h <- hashLockFile packageLockPath ;; Ret (h, "npm")
         else Ret ("no-lock", "npm")) ;;
  let '(lockHash, packageManager) := lock in
  Ret {| key := npmKey prefix platform packageManager lockHash;
         restoreKeys := npmRestoreKeys prefix platform packageManager;
         paths := paths_ |}.

Fixpoint filterExistingPaths (ps : list string) : Prog (list string) :=
  match ps with
  | [] => Ret []
  | p :: more =>
      found <- fileExists p ;;
      rest <- filterExistingPaths more ;;
      Ret (if found then p :: rest else rest)
  end.

(** [restoreComposerCache] and [restoreNpmCache] differ in the key
    generator and in the labels only. *)
Definition restoreWith (label stateName : string)
    (generate : Prog CacheKeyInfo) : Prog unit :=
  cacheKeyInfo <- generate ;;
  match paths cacheKeyInfo with
  | [] => core_debug ("No " ++ label ++ " cache paths configured")
  | _ =>
      core_info (label ++ " cache key: " ++ key cacheKeyInfo) ;;
      core_debug (label ++ " cache paths: "
                  ++ JsString.join ", " (paths cacheKeyInfo)) ;;
      x <- call (CacheRestoreCache (paths cacheKeyInfo) (key cacheKeyInfo)
                                   (restoreKeys cacheKeyInfo)) ;;
      cacheHit <- lift x ;;
      if JsString.truthy_opt cacheHit then
        core_info (label ++ " cache restored from key: "
                   ++ string_or cacheHit "") ;;
        core_saveState (stateName ++ "-cache-hit") "true" ;;
        core_saveState (stateName ++ "-cache-key") (key cacheKeyInfo)
      else
        core_info (label ++ " cache not found") ;;
        core_saveState (stateName ++ "-cache-hit") "false" ;;
        core_saveState (stateName ++ "-cache-key") (key cacheKeyInfo)
  end.

Definition restoreComposerCache (this : CacheManager) : Prog unit :=
  restoreWith "Composer" "composer" (generateComposerCacheKey this).

Definition restoreNpmCache (this : CacheManager) : Prog unit :=
  restoreWith "npm" "npm" (generateNpmCacheKey this).

(** [saveComposerCache] and [saveNpmCache] differ in the key generator and
    in the labels only. *)
Definition saveWith (label stateName : string)
    (generate : Prog CacheKeyInfo) : Prog unit :=
  hit <- core_getState (stateName ++ "-cache-hit") ;;
  let cacheHit := String.eqb hit "true" in
  if cacheHit then
    core_debug (label ++ " cache hit occurred, skipping save")
  else
    cacheKey <- core_getState (stateName ++ "-cache-key") ;;
    if negb (JsString.truthy cacheKey) then
      core_debug ("No " ++ label ++ " cache key found, skipping save")
    else
      cacheKeyInfo <- generate ;;
      existingPaths <- filterExistingPaths (paths cacheKeyInfo) ;;
      match existingPaths with
      | [] => core_debug ("No " ++ label ++ " cache paths exist to save")
      | _ =>
          core_info ("Saving " ++ label ++ " cache with key: " ++ cacheKey) ;;
          core_debug (label ++ " cache paths: "
                      ++ JsString.join ", " existingPaths) ;;
          try_catch
            (x <- call (CacheSaveCache existingPaths cacheKey) ;;
             lift x ;;
             core_info (label ++ " cache saved successfully"))
            (fun e =>
               core_warning ("Failed to save " ++ label ++ " cache: "
                             ++ exn_message e))
      end.

Definition saveComposerCache (this : CacheManager) : Prog unit :=
  saveWith "Composer" "composer" (generateComposerCacheKey this).

Definition saveNpmCache (this : CacheManager) : Prog unit :=
  saveWith "npm" "npm" (generateNpmCacheKey this).

(** The two detections catch whatever they throw and opening the group
    cannot fail, so the [catch] of [restore] is entered from the two
    restores only; the manager it goes on with carries the detected
    directories. *)
Definition restore (this : CacheManager) : Prog CacheManager :=
  if negb (enabled (config this)) then
    core_debug "Cache is disabled" ;; Ret this
  else
    try_finally
      (core_startGroup "Restoring cache" ;;
       this1 <- detectComposerCacheDir this ;;
       this2 <- detectNpmCacheDir this1 ;;
       try_catch
         (restoreComposerCache this2 ;;
          restoreNpmCache this2 ;;
          core_info "Cache restoration completed")
         (fun e => core_warning ("Failed to restore cache: " ++ exn_message e)) ;;
       Ret this2)
      core_endGroup.

Definition save (this : CacheManager) : Prog unit :=
  if negb (enabled (config this)) then Ret tt
  else
    try_finally
      (try_catch
         (core_startGroup "Saving cache" ;;
          saveComposerCache this ;;
          saveNpmCache this ;;
          core_info "Cache saving completed")
         (fun e => core_warning ("Failed to save cache: " ++ exn_message e)))
      core_endGroup.

End WithHost.

End Cache.

(* ================================================================== *)
(** ** main.ts                                                         *)
(* ================================================================== *)

Module Main.

(** [tools] holds the run-time strings: the cast to [ToolName] checks
    nothing. *)
Record ActionInputs : Type := {
  tools : list string;
  phpPaths : string;
  jsPaths : string;
  stylePaths : string;
  phpstanConfig : option string;
  phpmdConfig : option string;
  phpCsFixerConfig : option string;
  eslintConfig : option string;
  stylelintConfig : option string;
  editorconfigConfig : option string;
  composerNormalizeConfig : option string;
  typo3RectorConfig : option string;
  failOnErrors : bool;
  workingDirectory : string
}.

(** Note: typo3-rector is not included in 'all' - it must be explicitly
    specified *)
Definition allTools : list string :=
  map ToolName_to_string
      [phpstan; phpmd; php_cs_fixer; eslint; stylelint;
       editorconfig; composer_normalize].

Definition parseInputs : Prog ActionInputs :=
  toolsRaw <- core_getInput "tools" ;;
  let toolsInput := JsString.toLowerCase toolsRaw in
  let tools_ :=
    if String.eqb toolsInput "all" || String.eqb toolsInput ""
    then allTools
    else map JsString.trim (JsString.split "," toolsInput) in
  php <- core_getInput "php-paths" ;;
  js <- core_getInput "js-paths" ;;
  style <- core_getInput "style-paths" ;;
  c1 <- core_getInput "phpstan-config" ;;
  c2 <- core_getInput "phpmd-config" ;;
  c3 <- core_getInput "php-cs-fixer-config" ;;
  c4 <- core_getInput "eslint-config" ;;
  c5 <- core_getInput "stylelint-config" ;;
  c6 <- core_getInput "editorconfig-config" ;;
  c7 <- core_getInput "composer-normalize-config" ;;
  c8 <- core_getInput "typo3-rector-config" ;;
  foe <- core_getInput "fail-on-errors" ;;
  wd <- core_getInput "working-directory" ;;
  Ret {| tools := tools_;
         phpPaths := JsString.or_else php "**/*.php";
         jsPaths := JsString.or_else js "**/*.{js,ts,jsx,tsx}";
         stylePaths := JsString.or_else style "**/*.{css,scss}";
         phpstanConfig := JsString.or_undefined c1;
         phpmdConfig := JsString.or_undefined c2;
         phpCsFixerConfig := JsString.or_undefined c3;
         eslintConfig := JsString.or_undefined c4;
         stylelintConfig := JsString.or_undefined c5;
         editorconfigConfig := JsString.or_undefined c6;
         composerNormalizeConfig := JsString.or_undefined c7;
         typo3RectorConfig := JsString.or_undefined c8;
         failOnErrors := negb (String.eqb (JsString.toLowerCase foe) "false");
         workingDirectory := JsString.or_else wd "." |}.

(** The result returned when no file matches. *)
Definition skipped (tool_ : string) : ToolResult :=
  {| tool := tool_; success := true; issues := []; rawOutput := "" |}.

(** The result the [catch] of [runTool] returns. *)
Definition crashed (tool_ : string) (e : Exn) : ToolResult :=
  {| tool := tool_; success := false; issues := [];
     rawOutput := exn_message e |}.

Section WithHost.

Variable host : Host.

(** What follows the [switch]: the zero-files short cut, else the run. *)
Definition runSelected (tool_ : string) (inputs : ActionInputs)
    (runner : Runners.Runner) (files : list string)
    (config_ : option string) : Prog (option ToolResult) :=
  match files with
  | [] =>
      core_info ("No files found for " ++ tool_ ++ ", skipping...") ;;
      Ret (Some (skipped tool_))
  | _ =>
      core_info ("Found " ++ JsString.of_nat (List.length files)
                 ++ " files to check with " ++ tool_) ;;
      r <- Runners.run host runner
             (Build_RunnerConfig config_ files (workingDirectory inputs)) ;;
      Ret (Some r)
  end.

(** One [case] of the [switch] whose files come from a glob. *)
Definition globCase (tool_ : string) (inputs : ActionInputs)
    (t : ToolName) (runner : Runners.Runner) (pattern : string)
    (custom : option string) : Prog (option ToolResult) :=
  files <- findFiles pattern (Some (workingDirectory inputs)) ;;
  config_ <- Resolver.resolveConfig host t custom (workingDirectory inputs) ;;
  runSelected tool_ inputs runner files config_.

(** One [case] of the [switch] whose file list is fixed. *)
Definition fixedCase (tool_ : string) (inputs : ActionInputs)
    (t : ToolName) (runner : Runners.Runner) (files : list string)
    (custom : option string) : Prog (option ToolResult) :=
  config_ <- Resolver.resolveConfig host t custom (workingDirectory inputs) ;;
  runSelected tool_ inputs runner files config_.

Definition runTool (tool_ : string) (inputs : ActionInputs)
  : Prog (option ToolResult) :=
  try_catch
    (isAvailable <- ToolCheck.checkToolAvailability host tool_
                      (workingDirectory inputs) ;;
     if negb isAvailable then
       ToolCheck.logToolNotFound tool_ ;; Ret None
     else
       match ToolName_of_string tool_ with
       | Some phpstan =>
           globCase tool_ inputs phpstan Runners.PHPStanRunner
                    (phpPaths inputs) (phpstanConfig inputs)
       | Some phpmd =>
           globCase tool_ inputs phpmd Runners.PHPMDRunner
                    (phpPaths inputs) (phpmdConfig inputs)
       | Some php_cs_fixer =>
           globCase tool_ inputs php_cs_fixer Runners.PHPCSFixerRunner
                    (phpPaths inputs) (phpCsFixerConfig inputs)
       | Some eslint =>
           globCase tool_ inputs eslint Runners.ESLintRunner
                    (jsPaths inputs) (eslintConfig inputs)
       | Some stylelint =>
           globCase tool_ inputs stylelint Runners.StylelintRunner
                    (stylePaths inputs) (stylelintConfig inputs)
       | Some editorconfig =>
           fixedCase tool_ inputs editorconfig Runners.EditorConfigRunner
                     ["."] (editorconfigConfig inputs)
       | Some composer_normalize =>
           fixedCase tool_ inputs composer_normalize
                     Runners.ComposerNormalizeRunner
                     ["composer.json"] (composerNormalizeConfig inputs)
       | Some typo3_rector =>
           globCase tool_ inputs typo3_rector Runners.Typo3RectorRunner
                    (phpPaths inputs) (typo3RectorConfig inputs)
       | None =>
           core_warning ("Unknown tool: " ++ tool_) ;; Ret None
       end)
    (fun e =>
       core_error ("Error running " ++ tool_ ++ ": " ++ Exn_toString e) ;;
       Ret (Some (crashed tool_ e))).

(** The loop of [run] over [inputs.tools]: results are pushed in order,
    a [null] is dropped. *)
Fixpoint collectResults (inputs : ActionInputs) (names : list string)
  : Prog (list ToolResult) :=
  match names with
  | [] => Ret []
  | tool_ :: more =>
      r <- runTool tool_ inputs ;;
      rest <- collectResults inputs more ;;
      Ret (match r with Some x => x :: rest | None => rest end)
  end.

(** [run] from the construction of the reporter to the pass/fail
    decision. *)
Definition reportAndDecide (inputs : ActionInputs)
    (results_ : list ToolResult) : Prog unit :=
  GitHubReporter.generateAnnotations results_ ;;
  GitHubReporter.generateSummary results_ ;;
  let total := sumIssues results_ in
  let report_ := GitHubReporter.getReport host results_ in
  core_setOutput "total-issues" (OutNumber total) ;;
  core_setOutput "status"
                 (OutString (if Nat.ltb 0 total then "failed" else "success")) ;;
  core_setOutput "report" (OutString report_) ;;
  if failOnErrors inputs && Nat.ltb 0 total then
    core_setFailed ("Found " ++ JsString.of_nat total ++ " code quality issues")
  else if Nat.ltb 0 total then
    core_warning ("Found " ++ JsString.of_nat total
                  ++ " code quality issues (not failing due to configuration)")
  else
    core_info "All code quality checks passed!".

Definition run : Prog unit :=
  try_catch
    (inputs <- parseInputs ;;
     core_info "Starting code quality checks..." ;;
     core_info ("Tools to run: " ++ JsString.join ", " (tools inputs)) ;;
     results_ <- collectResults inputs (tools inputs) ;;
     reportAndDecide inputs results_)
    (fun e => core_setFailed ("Action failed: " ++ exn_message e)).

End WithHost.

End Main.

(* ================================================================== *)
(** ** main.ts with the cache manager (the entry point kept in types.ts) *)
(* ================================================================== *)

Module Cached.

(** The fourteen fields of [Main.ActionInputs], then the six of the
    cache. *)
Record ActionInputs : Type := {
  base : Main.ActionInputs;
  cacheEnabled : bool;
  cacheKeyPrefix : string;
  cacheComposerCache : bool;
  cacheComposerVendor : bool;
  cacheNpmCache : bool;
  cacheNodeModules : bool
}.

(** [core.getInput(name).toLowerCase() !== 'false'] *)
Definition unless_false (answer : string) : bool :=
  negb (String.eqb (JsString.toLowerCase answer) "false").

(** [core.getInput(name).toLowerCase() === 'true'] *)
Definition only_if_true (answer : string) : bool :=
  String.eqb (JsString.toLowerCase answer) "true".

(** The object literal is evaluated field by field: the inputs of
    [Main.parseInputs] are read first, in its order. *)
Definition parseInputs : Prog ActionInputs :=
  base_ <- Main.parseInputs ;;
  enabled_ <- core_getInput "cache-enabled" ;;
  prefix_ <- core_getInput "cache-key-prefix" ;;
  composerCache_ <- core_getInput "cache-composer-cache" ;;
  composerVendor_ <- core_getInput "cache-composer-vendor" ;;
  npmCache_ <- core_getInput "cache-npm-cache" ;;
  nodeModules_ <- core_getInput "cache-node-modules" ;;
  Ret {| base := base_;
         cacheEnabled := unless_false enabled_;
         cacheKeyPrefix := JsString.or_else prefix_ "code-quality-action";
         cacheComposerCache := unless_false composerCache_;
         cacheComposerVendor := only_if_true composerVendor_;
         cacheNpmCache := unless_false npmCache_;
         cacheNodeModules := only_if_true nodeModules_ |}.

Definition cacheConfig (inputs : ActionInputs) : Cache.CacheConfig :=
  {| Cache.enabled := cacheEnabled inputs;
     Cache.keyPrefix := cacheKeyPrefix inputs;
     Cache.composerCache := cacheComposerCache inputs;
     Cache.composerVendor := cacheComposerVendor inputs;
     Cache.npmCache := cacheNpmCache inputs;
     Cache.nodeModules := cacheNodeModules inputs |}.

Section WithHost.

Variable host : Host.

(** [runTool] reads the fields of the first fourteen only, and is the
    function of [Main]. *)
Definition runTool (tool_ : string) (inputs : ActionInputs)
  : Prog (option ToolResult) :=
  Main.runTool host tool_ (base inputs).

(** [if (inputs.cacheEnabled) { cacheManager = new CacheManager(...);
    await cacheManager.restore() }]: the manager is the object [restore]
    has left its detected directories in. *)
Definition initCache (inputs : ActionInputs)
  : Prog (option Cache.CacheManager) :=
  if cacheEnabled inputs then
    m <- Cache.restore host
           (Cache.new (cacheConfig inputs)
                      (Main.workingDirectory (base inputs))) ;;
    Ret (Some m)
  else Ret None.

(** [if (cacheManager) await cacheManager.save()] *)
Definition saveCache (cacheManager : option Cache.CacheManager) : Prog unit :=
  match cacheManager with
  | Some m => Cache.save host m
  | None => Ret tt
  end.

Definition run : Prog unit :=
  try_catch
    (inputs <- parseInputs ;;
     cacheManager <- initCache inputs ;;
     core_info "Starting code quality checks..." ;;
     core_info ("Tools to run: "
                ++ JsString.join ", " (Main.tools (base inputs))) ;;
     results_ <- Main.collectResults host (base inputs)
                   (Main.tools (base inputs)) ;;
     GitHubReporter.generateAnnotations results_ ;;
     GitHubReporter.generateSummary results_ ;;
     let total := sumIssues results_ in
     let report_ := GitHubReporter.getReport host results_ in
     core_setOutput "total-issues" (OutNumber total) ;;
     core_setOutput "status"
                    (OutString (if Nat.ltb 0 total then "failed" else "success")) ;;
     core_setOutput "report" (OutString report_) ;;
     saveCache cacheManager ;;
     if Main.failOnErrors (base inputs) && Nat.ltb 0 total then
       core_setFailed ("Found " ++ JsString.of_nat total
                       ++ " code quality issues")
     else if Nat.ltb 0 total then
       core_warning ("Found " ++ JsString.of_nat total
                     ++ " code quality issues (not failing due to configuration)")
     else
       core_info "All code quality checks passed!")
    (fun e => core_setFailed ("Action failed: " ++ exn_message e)).

End WithHost.

End Cached.

(* ================================================================== *)
(** ** Observations on executions                                      *)
(* ================================================================== *)

Definition is_inl {A B : Type} (x : A + B) : bool :=
  match x with inl _ => true | inr _ => false end.

Definition is_inr {A B : Type} (x : A + B) : bool :=
  match x with inl _ => false | inr _ => true end.

(** An annotation with a location, as the reporter emits them. *)
Definition is_annotation (r : Req) : bool :=
  match r with
  | CoreError _ (Some _) | CoreWarning _ (Some _) => true
  | _ => false
  end.

Definition annotations (t : list Call) : list Req :=
  filter is_annotation (requests t).

(** The values given to the output [name], in order. *)
Definition outputs (name : string) (t : list Call) : list OutputValue :=
  flat_map (fun r => match r with
                     | CoreSetOutput n v => if String.eqb n name then [v] else []
                     | _ => []
                     end) (requests t).

(** The messages of [core.setFailed]. *)
Definition failures (t : list Call) : list string :=
  flat_map (fun r => match r with CoreSetFailed m => [m] | _ => [] end)
           (requests t).

(** The messages of [core.warning] without a location. *)
Definition warnings (t : list Call) : list string :=
  flat_map (fun r => match r with CoreWarning m None => [m] | _ => [] end)
           (requests t).

(** The messages of [core.info]. *)
Definition infos (t : list Call) : list string :=
  flat_map (fun r => match r with CoreInfo m => [m] | _ => [] end)
           (requests t).

(** The child processes started: command and arguments. *)
Definition spawned (t : list Call) : list (string * list string) :=
  flat_map (fun r => match r with
                     | ExecExec c a _ => [(c, a)]
                     | _ => []
                     end) (requests t).

(** What the child processes answered. *)
Definition exec_answer (c : Call) : list (Exn + ExecOutput) :=
  match c with
  | {| call_req := r; call_resp := x |} =>
      match r return Resp r -> list (Exn + ExecOutput) with
      | ExecExec _ _ _ => fun x => [x]
      | _ => fun _ => []
      end x
  end.

Definition exec_answers (t : list Call) : list (Exn + ExecOutput) :=
  flat_map exec_answer t.

(** The exit codes of the child processes that ran to their end. *)
Definition exit_codes (t : list Call) : list Z :=
  flat_map (fun a => match a with
                     | inr out => [exec_exitCode out]
                     | inl _ => []
                     end) (exec_answers t).

(** The answers of the file searches. *)
Definition glob_answer (c : Call) : list (Exn + list string) :=
  match c with
  | {| call_req := r; call_resp := x |} =>
      match r return Resp r -> list (Exn + list string) with
      | GlobGlob _ => fun x => [x]
      | _ => fun _ => []
      end x
  end.

Definition glob_answers (t : list Call) : list (Exn + list string) :=
  flat_map glob_answer t.

(** The calls of the cache save primitive: paths and key. *)
Definition cache_saves (t : list Call) : list (list string * string) :=
  flat_map (fun r => match r with
                     | CacheSaveCache p k => [(p, k)]
                     | _ => []
                     end) (requests t).

(** The state entries written by [core.saveState]. *)
Definition saved_state (t : list Call) : list (string * string) :=
  flat_map (fun r => match r with
                     | CoreSaveState n v => [(n, v)]
                     | _ => []
                     end) (requests t).

(** [a] is a proper prefix of [b]. *)
Definition proper_prefix (a b : string) : bool :=
  String.prefix a b && Nat.ltb (String.length a) (String.length b).

(** Each key of the list is a proper prefix of the one before it. *)
Fixpoint decreasing (first : string) (l : list string) : bool :=
  match l with
  | [] => true
  | k :: more => proper_prefix k first && decreasing k more
  end.

(** What [generateSummary] asks for: the summary file and log lines. *)
Definition is_summary_request (r : Req) : bool :=
  match r with
  | CoreSummaryWrite _ | CoreInfo _ | CoreStartGroup _ | CoreEndGroup => true
  | _ => false
  end.

(** Every execution of [p], whatever the environment answers, ends with a
    trace and a result that satisfy [Q]. *)
Fixpoint wp {A : Type} (p : Prog A) (Q : list Call -> Exn + A -> Prop) : Prop :=
  match p with
  | Ret a => Q [] (inr a)
  | Throw e => Q [] (inl e)
  | Vis r k =>
      forall x : Resp r,
        wp (k x) (fun t res => Q ({| call_req := r; call_resp := x |} :: t) res)
  end.

(** What the config resolver asks for. *)
Definition is_resolver_request (r : Req) : bool :=
  match r with
  | FsExistsSync _ | CoreInfo _ | CoreWarning _ None => true
  | _ => false
  end.

(** What a runner asks for. *)
Definition is_runner_request (r : Req) : bool :=
  match r with
  | ExecExec _ _ _ | CoreInfo _ | CoreWarning _ None => true
  | _ => false
  end.

(** What [runTool] asks for. *)
Definition is_tool_request (r : Req) : bool :=
  match r with
  | ExecExec _ _ _ | GlobGlob _ | FsExistsSync _
  | CoreInfo _ | CoreWarning _ None | CoreError _ None => true
  | _ => false
  end.

Definition is_exec (r : Req) : bool :=
  match r with ExecExec _ _ _ => true | _ => false end.

Definition is_glob (r : Req) : bool :=
  match r with GlobGlob _ => true | _ => false end.

(** What the reporting tail of [run] asks for. *)
Definition is_report_request (r : Req) : bool :=
  match r with
  | CoreError _ (Some _) | CoreWarning _ _ | CoreSummaryWrite _ | CoreInfo _
  | CoreStartGroup _ | CoreEndGroup | CoreSetOutput _ _ | CoreSetFailed _ => true
  | _ => false
  end.

Definition is_getInput (r : Req) : bool :=
  match r with CoreGetInput _ => true | _ => false end.

(** The values [core.getInput(name)] returned. *)
Definition input_answer (name : string) (c : Call) : list string :=
  match c with
  | {| call_req := r; call_resp := x |} =>
      match r return Resp r -> list string with
      | CoreGetInput n => fun x => if String.eqb n name then [x] else []
      | _ => fun _ => []
      end x
  end.

Definition input_answers (name : string) (t : list Call) : list string :=
  flat_map (input_answer name) t.

(** The flag [failOnErrors] as the run read it: set unless the input is
    [false] in any letter case. *)
Definition fail_flag (t : list Call) : bool :=
  match input_answers "fail-on-errors" t with
  | a :: _ => negb (String.eqb (JsString.toLowerCase a) "false")
  | [] => true
  end.

(** The exception [JSON.parse] throws on [s] in the runner that parses it;
    the EditorConfig and Composer Normalize runners parse no JSON. *)
Definition parse_failure (host : Host) (runner : Runners.Runner) (s : string)
  : option Exn :=
  match Runners.walk_of host runner with
  | Some _ =>
      match JSON_parse host s with inl e => Some e | inr _ => None end
  | None => None
  end.

(** The name a runner gives its output in the warning of its [catch]. *)
Definition parse_label (runner : Runners.Runner) : string :=
  match runner with
  | Runners.PHPStanRunner => "PHPStan"
  | Runners.PHPMDRunner => "PHPMD"
  | Runners.PHPCSFixerRunner => "PHP-CS-Fixer"
  | Runners.ESLintRunner => "ESLint"
  | Runners.StylelintRunner => "Stylelint"
  | Runners.Typo3RectorRunner => "Rector JSON"
  | Runners.EditorConfigRunner => "EditorConfig"
  | Runners.ComposerNormalizeRunner => "Composer Normalize"
  end.

(** The issues the loops of a runner have pushed when its [try] ends, on
    the standard output [s]. *)
Definition pushed_by (host : Host) (runner : Runners.Runner) (s : string)
  : list RawIssue :=
  match Runners.walk_of host runner with
  | Some walk =>
      if JsString.truthy s then fst (Runners.tried host walk s) else []
  | None => []
  end.

(** The warning of a runner's [catch]. *)
Definition failed_to_parse (runner : Runners.Runner) (e : Exn) : string :=
  "Failed to parse " ++ parse_label runner ++ " output: " ++ Exn_toString e.

(** What the [catch] of a runner pushes after its warning: the Rector
    runner scrapes the text, the others nothing. *)
Definition catch_issues (runner : Runners.Runner) (s : string) : list Issue :=
  match runner with
  | Runners.Typo3RectorRunner => Runners.Rector_text_issues s
  | _ => []
  end.

(** The child process by which [checkToolAvailability] probes a tool: the
    tool's own command asked for its version. *)
Definition availabilityProbe (t : ToolName) : string * list string :=
  match t with
  | phpstan => ("vendor/bin/phpstan", ["--version"])
  | phpmd => ("vendor/bin/phpmd", ["--version"])
  | php_cs_fixer => ("vendor/bin/php-cs-fixer", ["--version"])
  | eslint => ("npx", ["eslint"; "--version"])
  | stylelint => ("npx", ["stylelint"; "--version"])
  | editorconfig => ("vendor/bin/editorconfig-cli", ["--version"])
  | composer_normalize => ("composer", ["--version"])
  | typo3_rector => ("vendor/bin/rector", ["--version"])
  end.

(** The values [core.getState(name)] returned. *)
Definition state_answer (name : string) (c : Call) : list string :=
  match c with
  | {| call_req := r; call_resp := x |} =>
      match r return Resp r -> list string with
      | CoreGetState n => fun x => if String.eqb n name then [x] else []
      | _ => fun _ => []
      end x
  end.

Definition state_answers (name : string) (t : list Call) : list string :=
  flat_map (state_answer name) t.

(** A view of the disk: the files by path, with their content. *)
Definition Disk : Type := string -> option string.

Definition present {A : Type} (o : option A) : bool :=
  match o with Some _ => true | None => false end.

(** The answer of a file-system call is what the disk [d] holds. *)
Definition agrees (d : Disk) (c : Call) : Prop :=
  match c with
  | {| call_req := r; call_resp := x |} =>
      match r return Resp r -> Prop with
      | FsExistsSync p => fun x => x = present (d p)
      | FsAccess p => fun x => is_inr x = present (d p)
      | FsReadFile p =>
          fun x => match d p with
                   | Some content => x = inr content
                   | None => is_inl x = true
                   end
      | _ => fun _ => True
      end x
  end.

(** An environment whose file system is [d] from start to end. *)
Definition on_disk {W : Type} (h : Handler W) (d : Disk) : Prop :=
  forall r w, agrees d {| call_req := r; call_resp := snd (h r w) |}.

(** Whether the disk [d] holds a file at [p]. *)
Definition found_on (d : Disk) (p : string) : bool := present (d p).

(** [customPath] given: present and not the empty string. *)
Definition customGiven (custom : option string) : option string :=
  match custom with
  | Some c => JsString.or_undefined c
  | None => None
  end.

(** Config resolution in the words of the specification: the custom path
    if it is given and exists; else the first conventional file name of the
    tool found in the working directory; else the bundled default if it is
    not empty and exists; else nothing. *)
Definition resolveSpec (host : Host) (found : string -> bool) (t : ToolName)
    (custom : option string) (wd : string) : option string :=
  let conventional :=
    find (fun f => found (path_resolve host wd f)) (Resolver.CONFIG_FILENAMES t) in
  let bundled := Resolver.DEFAULT_CONFIGS host t in
  let lower :=
    match conventional with
    | Some f => Some (path_resolve host wd f)
    | None =>
        if JsString.truthy bundled && found bundled then Some bundled else None
    end in
  match customGiven custom with
  | Some c =>
      if found (path_resolve host wd c) then Some (path_resolve host wd c)
      else lower
  | None => lower
  end.

(** The lock file in the words of the specification: pnpm's, then yarn's,
    then npm's, the first found on disk; its content and the label of its
    package manager. *)
Definition selectLockfile (host : Host) (d : Disk) (wd : string)
  : option (string * string) :=
  match d (path_join host [wd; "pnpm-lock.yaml"]) with
  | Some content => Some (content, "pnpm")
  | None =>
      match d (path_join host [wd; "yarn.lock"]) with
      | Some content => Some (content, "yarn")
      | None =>
          match d (path_join host [wd; "package-lock.json"]) with
          | Some content => Some (content, "npm")
          | None => None
          end
      end
  end.

(** The values of [process.platform] that Node documents. *)
Definition node_platforms : list string :=
  ["aix"; "android"; "darwin"; "freebsd"; "haiku"; "linux"; "openbsd";
   "sunos"; "win32"; "cygwin"; "netbsd"].

(** The keys of a fallback list are in strictly decreasing specificity:
    each is a proper prefix of the one before it. *)
Definition strictly_decreasing (l : list string) : bool :=
  match l with
  | [] => true
  | k :: more => decreasing k more
  end.

(** Every request of every execution of [p] is in [P]. *)
Definition only (P : Req -> bool) {A : Type} (p : Prog A) : Prop :=
  wp p (fun t _ => forallb P (requests t) = true).

(** No execution of [p] throws. *)
Definition returns {A : Type} (p : Prog A) : Prop :=
  wp p (fun _ r => is_inr r = true).

(* ================================================================== *)
(** ** Further observations on executions                              *)
(* ================================================================== *)

(** The messages of [core.error] without a location. *)
Definition errors (t : list Call) : list string :=
  flat_map (fun r => match r with CoreError m None => [m] | _ => [] end)
           (requests t).

(** The messages of [core.debug]. *)
Definition debugs (t : list Call) : list string :=
  flat_map (fun r => match r with CoreDebug m => [m] | _ => [] end)
           (requests t).

(** The child processes started, each with its working directory. *)
Definition started_in (t : list Call) : list (string * list string * string) :=
  flat_map (fun r => match r with
                     | ExecExec c a d => [(c, a, d)]
                     | _ => []
                     end) (requests t).

(** The patterns handed to the file search. *)
Definition globbed (t : list Call) : list string :=
  flat_map (fun r => match r with GlobGlob p => [p] | _ => [] end)
           (requests t).

(** The calls of the cache restore primitive: paths, key, fallback keys. *)
Definition cache_restores (t : list Call)
  : list (list string * string * list string) :=
  flat_map (fun r => match r with
                     | CacheRestoreCache p k ks => [(p, k, ks)]
                     | _ => []
                     end) (requests t).

(** What the cache restore primitive answered. *)
Definition cache_restore_answer (c : Call) : list (Exn + option string) :=
  match c with
  | {| call_req := r; call_resp := x |} =>
      match r return Resp r -> list (Exn + option string) with
      | CacheRestoreCache _ _ _ => fun x => [x]
      | _ => fun _ => []
      end x
  end.

Definition cache_restore_answers (t : list Call)
  : list (Exn + option string) :=
  flat_map cache_restore_answer t.

(** What the cache save primitive answered. *)
Definition cache_save_answer (c : Call) : list (Exn + unit) :=
  match c with
  | {| call_req := r; call_resp := x |} =>
      match r return Resp r -> list (Exn + unit) with
      | CacheSaveCache _ _ => fun x => [x]
      | _ => fun _ => []
      end x
  end.

Definition cache_save_answers (t : list Call) : list (Exn + unit) :=
  flat_map cache_save_answer t.

(** The paths probed with [fs.promises.access], each with whether the
    promise resolved. *)
Definition accessed_one (c : Call) : list (string * bool) :=
  match c with
  | {| call_req := r; call_resp := x |} =>
      match r return Resp r -> list (string * bool) with
      | FsAccess p => fun x => [(p, is_inr x)]
      | _ => fun _ => []
      end x
  end.

Definition accessed (t : list Call) : list (string * bool) :=
  flat_map accessed_one t.

(** The summaries written, and what the write answered. *)
Definition summaries (t : list Call) : list (list SummaryItem) :=
  flat_map (fun r => match r with CoreSummaryWrite b => [b] | _ => [] end)
           (requests t).

Definition summary_answer (c : Call) : list (Exn + unit) :=
  match c with
  | {| call_req := r; call_resp := x |} =>
      match r return Resp r -> list (Exn + unit) with
      | CoreSummaryWrite _ => fun x => [x]
      | _ => fun _ => []
      end x
  end.

Definition summary_answers (t : list Call) : list (Exn + unit) :=
  flat_map summary_answer t.

(** The log groups opened, by name, and the number of groups closed. *)
Definition groups_opened (t : list Call) : list string :=
  flat_map (fun r => match r with CoreStartGroup n => [n] | _ => [] end)
           (requests t).

Definition groups_closed (t : list Call) : nat :=
  List.length (filter (fun r => match r with CoreEndGroup => true | _ => false end)
                      (requests t)).

(** The nesting depth of the log groups after each request never falls
    below zero and ends at [depth]. *)
Fixpoint group_depth (depth : nat) (l : list Req) : option nat :=
  match l with
  | [] => Some depth
  | CoreStartGroup _ :: more => group_depth (S depth) more
  | CoreEndGroup :: more =>
      match depth with
      | O => None
      | S d => group_depth d more
      end
  | _ :: more => group_depth depth more
  end.

(** The requests that reach the cache service or the persisted state. *)
Definition is_cache_request (r : Req) : bool :=
  match r with
  | CacheRestoreCache _ _ _ | CacheSaveCache _ _
  | CoreSaveState _ _ | CoreGetState _ => true
  | _ => false
  end.

(** Log lines: they change nothing outside the log. *)
Definition is_log (r : Req) : bool :=
  match r with
  | CoreDebug _ | CoreInfo _ | CoreWarning _ None | CoreError _ None
  | CoreStartGroup _ | CoreEndGroup => true
  | _ => false
  end.

(** The annotations raised as errors, and those raised as warnings. *)
Definition error_annotations (t : list Call) : list Req :=
  filter (fun r => match r with CoreError _ (Some _) => true | _ => false end)
         (requests t).

Definition warning_annotations (t : list Call) : list Req :=
  filter (fun r => match r with CoreWarning _ (Some _) => true | _ => false end)
         (requests t).

(** An availability probe that did not exit 0, or could not be run. *)
Definition probe_failed (a : Exn + ExecOutput) : bool :=
  match a with
  | inr out => negb (Z.eqb (exec_exitCode out) 0)
  | inl _ => true
  end.

(** What [runTool] asks for before its [catch]. *)
Definition is_tool_step (r : Req) : bool :=
  match r with
  | ExecExec _ _ _ | GlobGlob _ | FsExistsSync _
  | CoreInfo _ | CoreWarning _ None => true
  | _ => false
  end.

(** What [restore] asks for between the opening and the closing of its
    log group. *)
Definition is_restore_step (r : Req) : bool :=
  match r with
  | CoreDebug _ | CoreInfo _ | CoreWarning _ None
  | ExecExec _ _ _ | FsAccess _ | FsReadFile _
  | CacheRestoreCache _ _ _ | CoreSaveState _ _ => true
  | _ => false
  end.

(** What [save] asks for between the opening and the closing of its log
    group. *)
Definition is_save_step (r : Req) : bool :=
  match r with
  | CoreDebug _ | CoreInfo _ | CoreWarning _ None
  | FsAccess _ | FsReadFile _
  | CacheSaveCache _ _ | CoreGetState _ => true
  | _ => false
  end.

(** What the key generators ask for: whether a lock file is there, and
    its content. *)
Definition is_lock_probe (r : Req) : bool :=
  match r with
  | FsAccess _ | FsReadFile _ => true
  | _ => false
  end.

(** The directory a query for a cache directory gives: what it printed,
    trimmed, if it exited 0 and printed anything. *)
Definition detected (a : Exn + ExecOutput) : option string :=
  match a with
  | inr out =>
      if Z.eqb (exec_exitCode out) 0
         && JsString.truthy (JsString.trim (exec_stdout out))
      then Some (JsString.trim (exec_stdout out))
      else None
  | inl _ => None
  end.

(** The queries of [detectNpmCacheDir], in the order it tries them. *)
Definition npm_cache_queries : list (string * list string) :=
  [("npm", ["config"; "get"; "cache"]);
   ("yarn", ["cache"; "dir"]);
   ("pnpm", ["store"; "path"])].

(** What the restore of one ecosystem leaves behind.  Without an answer of
    the cache service nothing was asked of it and no state is written; a
    restore that rejects writes no state; one that answers writes the hit
    flag and the key it asked with. *)
Definition restored (stateName : string) (K : Cache.CacheKeyInfo -> Prop)
    (t : list Call) (r : Exn + unit) : Prop :=
  match cache_restore_answers t with
  | [] => cache_restores t = [] /\ saved_state t = []
  | [x] =>
      exists info,
        K info
        /\ Cache.paths info <> []
        /\ cache_restores t
           = [(Cache.paths info, Cache.key info, Cache.restoreKeys info)]
        /\ match x with
           | inl e => r = inl e /\ saved_state t = []
           | inr hit =>
               r = inr tt
               /\ saved_state t
                  = [(stateName ++ "-cache-hit",
                      if JsString.truthy_opt hit then "true" else "false");
                     (stateName ++ "-cache-key", Cache.key info)]
           end
  | _ => False
  end.

(** What the save of one ecosystem does when it calls the cache service:
    once, under the key read from the state, for paths that were found, and
    a save that rejects costs a warning. *)
Definition saved (label stateName : string) (t : list Call) (r : Exn + unit)
  : Prop :=
  match cache_saves t with
  | [] => cache_save_answers t = []
  | [(p, k)] =>
      state_answers (stateName ++ "-cache-key") t = [k]
      /\ k <> EmptyString
      /\ state_answers (stateName ++ "-cache-hit") t <> ["true"]
      /\ p <> []
      /\ Forall (fun q => In (q, true) (accessed t)) p
      /\ r = inr tt
      /\ match cache_save_answers t with
         | [inl e] =>
             warnings t
             = ["Failed to save " ++ label ++ " cache: " ++ exn_message e]
         | [inr _] => warnings t = []
         | _ => False
         end
  | _ => False
  end.

(** The save of an ecosystem runs its key generator again once it has read
    from the state a key that is not empty: [lock], the lock file the
    generator looks for first, is the first path probed. *)
Definition regenerates (lock stateName : string) (t : list Call) : Prop :=
  forall k,
    state_answers (stateName ++ "-cache-key") t = [k] ->
    k <> EmptyString ->
    exists more, map fst (accessed t) = lock :: more.

(** The issues of [l] in the file [k], in their order. *)
Definition issues_at (l : list Issue) (k : string) : list Issue :=
  filter (fun i => String.eqb (file i) k) l.

(** What each runner promises of every issue it returns. *)
Definition issue_shape (runner : Runners.Runner) (cfg : RunnerConfig)
    (i : Issue) : Prop :=
  match runner with
  | Runners.PHPStanRunner =>
      line i <> 0%Z /\ severity i = error /\ rule i = Some "phpstan"
  | Runners.PHPMDRunner | Runners.ESLintRunner | Runners.StylelintRunner =>
      line i <> 0%Z
  | Runners.PHPCSFixerRunner =>
      line i = 1%Z /\ column i = None /\ severity i = warning
      /\ rule i = Some "php-cs-fixer"
  | Runners.EditorConfigRunner =>
      (0 <= line i)%Z /\ column i = None /\ severity i = warning
      /\ rule i = Some "editorconfig" /\ file i <> EmptyString
  | Runners.ComposerNormalizeRunner =>
      line i = 1%Z /\ column i = None /\ severity i = warning
      /\ rule i = Some "composer-normalize"
      /\ file i = string_or (configPath cfg) "composer.json"
  | Runners.Typo3RectorRunner =>
      line i = 1%Z /\ column i = None /\ severity i = warning
      /\ exists r, rule i = Some r /\ r <> EmptyString
  end.

(** What each runner that reads JSON promises of every issue its loops
    push: the line is truthy where it is read from the output, and the
    number 1 where it is not. *)
Definition raw_shape (runner : Runners.Runner) (i : RawIssue) : Prop :=
  match runner with
  | Runners.PHPStanRunner =>
      Js.truthy (Some (raw_line i)) = true /\ raw_severity i = error
      /\ raw_rule i = Some (JString "phpstan")
  | Runners.PHPMDRunner | Runners.ESLintRunner | Runners.StylelintRunner =>
      Js.truthy (Some (raw_line i)) = true
  | Runners.PHPCSFixerRunner =>
      raw_line i = Runners.one /\ raw_column i = None
      /\ raw_severity i = warning
      /\ raw_rule i = Some (JString "php-cs-fixer")
  | Runners.Typo3RectorRunner =>
      raw_line i = Runners.one /\ raw_column i = None
      /\ raw_severity i = warning /\ Js.truthy (raw_rule i) = true
  | Runners.EditorConfigRunner | Runners.ComposerNormalizeRunner => False
  end.

(** Every issue a walk pushes satisfies [P]. *)
Definition pushes (P : RawIssue -> Prop) {A : Type} (m : Runners.Walk A)
  : Prop :=
  forall pushed, Forall P pushed -> Forall P (fst (m pushed)).

(** The marks by which the Composer Normalize runner tells what the tool
    found. *)
Definition normalize_marks : list string :=
  ["is not normalized"; "Successfully normalized";
   "--- original"; "+++ normalized"].

(** Requests that neither read an input nor set an output nor mark the
    run failed. *)
Definition is_silent (r : Req) : bool :=
  match r with
  | CoreSetOutput _ _ | CoreSetFailed _ | CoreGetInput _ => false
  | _ => true
  end.

(** The three outputs of a run are set together, once each, or not at
    all. *)
Definition outputs_together (t : list Call) : Prop :=
  match outputs "total-issues" t, outputs "status" t, outputs "report" t with
  | [OutNumber _], [OutString _], [OutString _] => True
  | [], [], [] => True
  | _, _, _ => False
  end.

(** [s] neither begins nor ends with a white-space character. *)
Definition trimmed (s : string) : bool :=
  Nat.eqb (JsString.space_len s) 0 && negb (JsString.ends_with_space s).

(** [s] ends with [suffix]. *)
Definition endsWith (s suffix : string) : bool :=
  String.eqb (JsString.drop (String.length s - String.length suffix) s) suffix
  && Nat.leb (String.length suffix) (String.length s).

(* ================================================================== *)
(** ** Concrete environments for the examples                          *)
(* ================================================================== *)

Module Example.

Definition q (s : string) : string := ToolCheck.DQ ++ s ++ ToolCheck.DQ.

(** One file with one error, as ESLint prints it with [--format=json]. *)
Definition eslint_json : string :=
  "[{" ++ q "filePath" ++ ":" ++ q "src/a.js" ++ "," ++ q "messages" ++ ":[{"
  ++ q "ruleId" ++ ":" ++ q "semi" ++ "," ++ q "severity" ++ ":2,"
  ++ q "message" ++ ":" ++ q "Missing semicolon." ++ ","
  ++ q "line" ++ ":3," ++ q "column" ++ ":7}]}]".

Definition eslint_entry : Json :=
  JObject [("filePath", JString "src/a.js");
           ("messages",
            JArray [JObject [("ruleId", JString "semi");
                             ("severity", JNumber (Js.of_Z 2));
                             ("message", JString "Missing semicolon.");
                             ("line", JNumber (Js.of_Z 3));
                             ("column", JNumber (Js.of_Z 7))]])].

Definition eslint_value : Json := JArray [eslint_entry].

(** The same file, and [null] where the second file should be. *)
Definition eslint_broken_json : string :=
  "[{" ++ q "filePath" ++ ":" ++ q "src/a.js" ++ "," ++ q "messages" ++ ":[{"
  ++ q "ruleId" ++ ":" ++ q "semi" ++ "," ++ q "severity" ++ ":2,"
  ++ q "message" ++ ":" ++ q "Missing semicolon." ++ ","
  ++ q "line" ++ ":3," ++ q "column" ++ ":7}]},null]".

Definition eslint_broken_value : Json := JArray [eslint_entry; JNull].

(** The errors of V8 for the faults.  Of the last two the engine names the
    expression at fault; the examples run into neither. *)
Definition type_error (f : Fault) : Exn :=
  {| exn_name := "TypeError";
     exn_message :=
       match f with
       | ReadOfNull p =>
           "Cannot read properties of null (reading '" ++ p ++ "')"
       | NullToObject => "Cannot convert undefined or null to object"
       | NotIterable _ => "value is not iterable"
       | NotAFunction _ p => "value." ++ p ++ " is not a function"
       end |}.

Definition syntax_error : Exn :=
  {| exn_name := "SyntaxError"; exn_message := "Unexpected token" |}.

(** SHA-256 of the empty string. *)
Definition sha256_empty : string :=
  "e3b0c44298fc1c149afbf4c8996fb92427ae41e4649b934ca495991b7852b855".

Definition cwd : string := "/home/runner/work/app".

(** POSIX [path.join] on plain segments (no [..], no doubled or trailing
    slash): the segments [.] and the empty ones drop out. *)
Definition join_segments (l : list string) : string :=
  match filter (fun s => JsString.truthy s && negb (String.eqb s ".")) l with
  | [] => "."
  | parts => JsString.join "/" parts
  end.

(** POSIX [path.resolve] on two such paths: the last absolute one wins,
    what is relative starts at the current directory. *)
Definition resolve_from (a b : string) : string :=
  if JsString.startsWith b "/" then b
  else if JsString.startsWith a "/" then join_segments [a; b]
  else join_segments [cwd; a; b].

(** A Linux host.  Its [JSON.parse] knows [eslint_json] and
    [eslint_broken_json]; the other texts the examples feed it are no JSON,
    and no example converts a parsed value to a number or a string.  Every
    file hashes like the empty one. *)
Definition host : Host :=
  {| process_platform := "linux";
     process_cwd := cwd;
     module_dirname := "/action/dist";
     path_resolve := resolve_from;
     path_join := join_segments;
     sha256_hex := fun _ => sha256_empty;
     JSON_parse :=
       fun s => if String.eqb s eslint_json then inr eslint_value
                else if String.eqb s eslint_broken_json
                     then inr eslint_broken_value
                     else inl syntax_error;
     TypeError_of := type_error;
     ToNumber := fun _ => inr None;
     ToString := fun _ => inr "[object Object]";
     JSON_stringify := fun _ => "{}" |}.

Definition lookup (k : string) (l : list (string * string)) : option string :=
  match find (fun kv => String.eqb (fst kv) k) l with
  | Some kv => Some (snd kv)
  | None => None
  end.

Definition enoent : Exn :=
  {| exn_name := "Error"; exn_message := "ENOENT: no such file or directory" |}.

(** What the outside answers in an example: the outcome of every child
    process, the files a glob finds, the files on disk with their
    content, the action inputs, the persisted state and the key the cache
    service restores from, if any. *)
Record Scenario : Type := {
  sc_exec : string -> list string -> Exn + ExecOutput;
  sc_glob : list string;
  sc_disk : list (string * string);
  sc_inputs : list (string * string);
  sc_state : list (string * string);
  sc_cache : option string
}.

(** The environment of a scenario; it has no hidden state. *)
Definition handler (s : Scenario) : Handler unit :=
  fun r w =>
    (w,
     match r return Resp r with
     | CoreDebug _ => tt
     | CoreInfo _ => tt
     | CoreWarning _ _ => tt
     | CoreError _ _ => tt
     | CoreStartGroup _ => tt
     | CoreEndGroup => tt
     | CoreGetInput n =>
         match lookup n (sc_inputs s) with Some v => v | None => "" end
     | CoreSetOutput _ _ => tt
     | CoreSetFailed _ => tt
     | CoreSaveState _ _ => tt
     | CoreGetState n =>
         match lookup n (sc_state s) with Some v => v | None => "" end
     | CoreSummaryWrite _ => inr tt
     | ExecExec c a _ => sc_exec s c a
     | GlobGlob _ => inr (sc_glob s)
     | FsExistsSync p =>
         match lookup p (sc_disk s) with Some _ => true | None => false end
     | FsAccess p =>
         match lookup p (sc_disk s) with Some _ => inr tt | None => inl enoent end
     | FsReadFile p =>
         match lookup p (sc_disk s) with Some c => inr c | None => inl enoent end
     | CacheRestoreCache _ _ _ => inr (sc_cache s)
     | CacheSaveCache _ _ => inr tt
     end).

Definition exits (code : Z) (out : string) : Exn + ExecOutput :=
  inr {| exec_exitCode := code; exec_stdout := out; exec_stderr := "" |}.

(** An empty repository on which every command prints nothing and exits 0. *)
Definition quiet : Scenario :=
  {| sc_exec := fun _ _ => exits 0 "";
     sc_glob := [];
     sc_disk := [];
     sc_inputs := [];
     sc_state := [];
     sc_cache := None |}.

Definition with_exec (s : Scenario)
    (e : string -> list string -> Exn + ExecOutput) : Scenario :=
  {| sc_exec := e; sc_glob := sc_glob s; sc_disk := sc_disk s;
     sc_inputs := sc_inputs s; sc_state := sc_state s;
     sc_cache := sc_cache s |}.

Definition with_glob (s : Scenario) (g : list string) : Scenario :=
  {| sc_exec := sc_exec s; sc_glob := g; sc_disk := sc_disk s;
     sc_inputs := sc_inputs s; sc_state := sc_state s;
     sc_cache := sc_cache s |}.

Definition with_disk (s : Scenario) (d : list (string * string)) : Scenario :=
  {| sc_exec := sc_exec s; sc_glob := sc_glob s; sc_disk := d;
     sc_inputs := sc_inputs s; sc_state := sc_state s;
     sc_cache := sc_cache s |}.

Definition with_state (s : Scenario) (st : list (string * string)) : Scenario :=
  {| sc_exec := sc_exec s; sc_glob := sc_glob s; sc_disk := sc_disk s;
     sc_inputs := sc_inputs s; sc_state := st;
     sc_cache := sc_cache s |}.

(** A tool whose version probe answers and whose analysis prints [out]
    and exits with [code]. *)
Definition tool_prints (code : Z) (out : string)
  : string -> list string -> Exn + ExecOutput :=
  fun _ args =>
    if String.eqb (last args "") "--version" then exits 0 "1.0.0"
    else exits code out.

(** A run of ESLint alone over one file, with [fail-on-errors: false]; the
    linter reports one error and exits 0. *)
Definition lenient_eslint : Scenario :=
  {| sc_exec := tool_prints 0 eslint_json;
     sc_glob := ["src/a.js"];
     sc_disk := [];
     sc_inputs := [("tools", "eslint"); ("fail-on-errors", "false")];
     sc_state := [];
     sc_cache := None |}.

(** ESLint exits 0 and prints an array whose second entry is [null]. *)
Definition broken_eslint : Scenario :=
  {| sc_exec := tool_prints 0 eslint_broken_json;
     sc_glob := ["src/a.js"];
     sc_disk := [];
     sc_inputs := [("tools", "eslint")];
     sc_state := [];
     sc_cache := None |}.

(** Rector exits 0 and prints a line of its text report instead of JSON. *)
Definition rector_text : Scenario :=
  {| sc_exec := tool_prints 0 "[FILE] src/Foo.php";
     sc_glob := ["src/Foo.php"];
     sc_disk := [];
     sc_inputs := [("tools", "typo3-rector")];
     sc_state := [];
     sc_cache := None |}.

(** PHPStan exits 0 and prints a banner instead of JSON. *)
Definition phpstan_banner : Scenario :=
  {| sc_exec := tool_prints 0 "PHPStan - PHP Static Analysis Tool";
     sc_glob := ["src/Foo.php"];
     sc_disk := [];
     sc_inputs := [("tools", "phpstan")];
     sc_state := [];
     sc_cache := None |}.

(** EditorConfig reports a violation in a file called [constructor]. *)
Definition inherited_name : Scenario :=
  {| sc_exec := tool_prints 2 "constructor:3: Trailing whitespace";
     sc_glob := [];
     sc_disk := [];
     sc_inputs := [("tools", "editorconfig")];
     sc_state := [];
     sc_cache := None |}.

(** The save phase after a restore that hit for both ecosystems. *)
Definition after_hit : Scenario :=
  with_state (with_disk quiet [("vendor", ""); ("node_modules", "")])
    [("composer-cache-hit", "true");
     ("composer-cache-key", "code-quality-action-linux-composer-no-lock");
     ("npm-cache-hit", "true");
     ("npm-cache-key", "code-quality-action-linux-npm-no-lock")].

(** The save phase after a restore that missed for both ecosystems. *)
Definition after_miss : Scenario :=
  with_state (with_disk quiet [("vendor", ""); ("node_modules", "")])
    [("composer-cache-hit", "false");
     ("composer-cache-key", "code-quality-action-linux-composer-no-lock");
     ("npm-cache-hit", "false");
     ("npm-cache-key", "code-quality-action-linux-npm-no-lock")].

(** The save phase after a restore that missed, in a run that has written
    [composer.lock] since. *)
Definition lock_written : Scenario :=
  with_state (with_disk quiet [("vendor", ""); ("composer.lock", "")])
    [("composer-cache-hit", "false");
     ("composer-cache-key", "code-quality-action-linux-composer-no-lock")].

(** A repository with a yarn and an npm lock file, both empty, and a
    PHPStan configuration in its distributed form. *)
Definition repository : Scenario :=
  with_disk quiet
    [("yarn.lock", ""); ("package-lock.json", "");
     ("/home/runner/work/app/phpstan.neon.dist", "");
     ("/action/dist/defaults/phpstan.neon", "")].

Definition disk (s : Scenario) : Disk := fun p => lookup p (sc_disk s).

Definition config (files : list string) : RunnerConfig :=
  {| configPath := None; filePaths := files; workingDirectory := "." |}.

Definition issue (sev : Severity) : Issue :=
  {| file := "src/a.php"; line := 1; column := None; severity := sev;
     message := "m"; rule := None |}.

(** Scenario A of the specification: the first tool finds two errors and a
    warning and exits 0, the second finds nothing. *)
Definition scenarioA : list ToolResult :=
  [ {| tool := "PHPStan"; success := true;
       issues := [issue error; issue error; issue warning];
       rawOutput := "" |};
    {| tool := "ESLint"; success := true; issues := []; rawOutput := "" |} ].

Definition inputs (fail : bool) : Main.ActionInputs :=
  {| Main.tools := ["phpstan"; "eslint"];
     Main.phpPaths := "**/*.php";
     Main.jsPaths := "**/*.{js,ts,jsx,tsx}";
     Main.stylePaths := "**/*.{css,scss}";
     Main.phpstanConfig := None;
     Main.phpmdConfig := None;
     Main.phpCsFixerConfig := None;
     Main.eslintConfig := None;
     Main.stylelintConfig := None;
     Main.editorconfigConfig := None;
     Main.composerNormalizeConfig := None;
     Main.typo3RectorConfig := None;
     Main.failOnErrors := fail;
     Main.workingDirectory := "." |}.

Definition cacheConfig : Cache.CacheConfig :=
  {| Cache.enabled := true;
     Cache.keyPrefix := "code-quality-action";
     Cache.composerCache := true;
     Cache.composerVendor := true;
     Cache.npmCache := true;
     Cache.nodeModules := true |}.

Definition manager : Cache.CacheManager := Cache.new cacheConfig ".".

Definition with_inputs (s : Scenario) (i : list (string * string)) : Scenario :=
  {| sc_exec := sc_exec s; sc_glob := sc_glob s; sc_disk := sc_disk s;
     sc_inputs := i; sc_state := sc_state s;
     sc_cache := sc_cache s |}.

Definition with_cache (s : Scenario) (c : option string) : Scenario :=
  {| sc_exec := sc_exec s; sc_glob := sc_glob s; sc_disk := sc_disk s;
     sc_inputs := sc_inputs s; sc_state := sc_state s;
     sc_cache := c |}.

(** No tool is installed: every command exits 127. *)
Definition nothing_installed : Scenario :=
  with_exec quiet (fun _ _ => exits 127 "").

(** The file search fails. *)
Definition glob_fails : Scenario -> Handler unit :=
  fun s r w =>
    match r return unit * Resp r with
    | GlobGlob _ => (w, inl enoent)
    | r' => handler s r' w
    end.

End Example.

(* ================================================================== *)
(** ** Executions of composed programs                                 *)
(* ================================================================== *)

Section Interp.

Context {W : Type} (h : Handler W).

Lemma outcome_eta (A : Type) (o : Outcome W A) :
  {| final := final o; trace := trace o; result := result o |} = o.
Proof. destruct o; reflexivity. Qed.

Lemma interp_bind (A B : Type) (m : Prog A) (f : A -> Prog B) (w : W) :
  interp h (bind m f) w =
  match result (interp h m w) with
  | inr a =>
      let o2 := interp h (f a) (final (interp h m w)) in
      {| final := final o2;
         trace := (trace (interp h m w) ++ trace o2)%list;
         result := result o2 |}
  | inl e =>
      {| final := final (interp h m w);
         trace := trace (interp h m w);
         result := inl e |}
  end.
Proof.
  revert w. induction m as [a | e | r k IH]; intro w; simpl.
  - symmetry. apply outcome_eta.
  - reflexivity.
  - destruct (h r w) as [w1 x]. rewrite IH. simpl.
    destruct (result (interp h (k x) w1)); reflexivity.
Qed.

Lemma interp_try_catch (A : Type) (m : Prog A) (c : Exn -> Prog A) (w : W) :
  interp h (try_catch m c) w =
  match result (interp h m w) with
  | inr a =>
      {| final := final (interp h m w);
         trace := trace (interp h m w);
         result := inr a |}
  | inl e =>
      let o2 := interp h (c e) (final (interp h m w)) in
      {| final := final o2;
         trace := (trace (interp h m w) ++ trace o2)%list;
         result := result o2 |}
  end.
Proof.
  revert w. induction m as [a | e | r k IH]; intro w; simpl.
  - reflexivity.
  - symmetry. apply outcome_eta.
  - destruct (h r w) as [w1 x]. rewrite IH. simpl.
    destruct (result (interp h (k x) w1)); reflexivity.
Qed.

Lemma interp_call (r : Req) (w : W) :
  interp h (call r) w =
  {| final := fst (h r w);
     trace := [{| call_req := r; call_resp := snd (h r w) |}];
     result := inr (snd (h r w)) |}.
Proof. unfold call. simpl. destruct (h r w); reflexivity. Qed.

End Interp.

Section Wp.

Lemma wp_sound (A : Type) (p : Prog A) (Q : list Call -> Exn + A -> Prop) :
  wp p Q ->
  forall (W : Type) (h : Handler W) (w : W),
    Q (trace (interp h p w)) (result (interp h p w)).
Proof.
  revert Q. induction p as [a | e | r k IH]; intros Q Hwp W h w; simpl in *.
  - exact Hwp.
  - exact Hwp.
  - destruct (h r w) as [w1 x]. simpl.
    apply (IH x _ (Hwp x)).
Qed.

Lemma wp_mono (A : Type) (p : Prog A) (Q Q' : list Call -> Exn + A -> Prop) :
  (forall t res, Q t res -> Q' t res) -> wp p Q -> wp p Q'.
Proof.
  revert Q Q'. induction p as [a | e | r k IH]; intros Q Q' HQ Hwp; simpl in *.
  - auto.
  - auto.
  - intro x. eapply IH; [| apply Hwp]. intros t res; apply HQ.
Qed.

Lemma wp_bind (A B : Type) (m : Prog A) (f : A -> Prog B)
    (Q : list Call -> Exn + B -> Prop) :
  wp m (fun t1 r1 =>
          match r1 with
          | inr a => wp (f a) (fun t2 r2 => Q (t1 ++ t2)%list r2)
          | inl e => Q t1 (inl e)
          end) ->
  wp (bind m f) Q.
Proof.
  revert Q. induction m as [a | e | r k IH]; intros Q Hwp; simpl in *.
  - exact Hwp.
  - exact Hwp.
  - intro x. apply IH. exact (Hwp x).
Qed.

Lemma wp_try_catch (A : Type) (m : Prog A) (c : Exn -> Prog A)
    (Q : list Call -> Exn + A -> Prop) :
  wp m (fun t1 r1 =>
          match r1 with
          | inr a => Q t1 (inr a)
          | inl e => wp (c e) (fun t2 r2 => Q (t1 ++ t2)%list r2)
          end) ->
  wp (try_catch m c) Q.
Proof.
  revert Q. induction m as [a | e | r k IH]; intros Q Hwp; simpl in *.
  - exact Hwp.
  - exact Hwp.
  - intro x. apply IH. exact (Hwp x).
Qed.

Lemma wp_call (r : Req) (Q : list Call -> Exn + Resp r -> Prop) :
  (forall x, Q [{| call_req := r; call_resp := x |}] (inr x)) ->
  wp (call r) Q.
Proof. intros H x. simpl. apply H. Qed.

End Wp.

(* ================================================================== *)
(** ** The reporter: counts                                            *)
(* ================================================================== *)

Lemma fold_left_add_length (A B : Type) (f : A -> list B) (l : list A) (n : nat) :
  fold_left (fun sum r => sum + List.length (f r)) l n
  = n + list_sum (map (fun r => List.length (f r)) l).
Proof.
  revert n. induction l as [| x l IH]; intro n; simpl.
  - lia.
  - rewrite IH. lia.
Qed.

Lemma sumIssues_list_sum (l : list ToolResult) :
  sumIssues l = list_sum (map (fun r => List.length (issues r)) l).
Proof. unfold sumIssues. rewrite fold_left_add_length. reflexivity. Qed.

Lemma sumIssues_cons (r : ToolResult) (l : list ToolResult) :
  sumIssues (r :: l) = List.length (issues r) + sumIssues l.
Proof. rewrite !sumIssues_list_sum. reflexivity. Qed.

Lemma countSeverity_split (l : list Issue) :
  GitHubReporter.countSeverity error l + GitHubReporter.countSeverity warning l
  = List.length l.
Proof.
  unfold GitHubReporter.countSeverity.
  induction l as [| i l IH]; simpl.
  - reflexivity.
  - destruct (severity i); simpl; lia.
Qed.

(** C10. In the report object of [getReport], every per-tool entry has
    [errors + warnings = issueCount]: a severity is [error] or [warning]
    and nothing else, so the two filters split the issue list. *)
Theorem report_errors_plus_warnings (l : list ToolResult) :
  Forall (fun e => report_errors e + report_warnings e = report_issueCount e)
         (results (GitHubReporter.report l)).
Proof.
  unfold GitHubReporter.report. simpl.
  induction l as [| r l IH]; simpl; constructor.
  - simpl. apply countSeverity_split.
  - exact IH.
Qed.

(* ================================================================== *)
(** ** Loops and observations                                          *)
(* ================================================================== *)

Lemma requests_app (a b : list Call) :
  requests (a ++ b) = (requests a ++ requests b)%list.
Proof. apply map_app. Qed.

Lemma flat_map_none (A B : Type) (P : A -> bool) (f : A -> list B) (l : list A) :
  (forall x, P x = true -> f x = []) ->
  forallb P l = true -> flat_map f l = [].
Proof.
  intros Hf. induction l as [| x l IH]; simpl; intro H.
  - reflexivity.
  - apply andb_prop in H. destruct H as [Hx Hl].
    rewrite (Hf x Hx), (IH Hl). reflexivity.
Qed.

Lemma filter_all (A : Type) (P : A -> bool) (l : list A) :
  forallb P l = true -> filter P l = l.
Proof.
  induction l as [| x l IH]; simpl; intro H.
  - reflexivity.
  - apply andb_prop in H. destruct H as [Hx Hl].
    rewrite Hx, (IH Hl). reflexivity.
Qed.

(** A loop whose every round returns and asks only for requests in [P]:
    so does the loop, and an additive measure of its trace is the sum of
    the rounds'. *)
Lemma wp_forEach (A : Type) (body : A -> Prog unit) (P : Req -> bool)
    (measure : list Call -> nat) (size : A -> nat) :
  measure [] = 0 ->
  (forall a b, measure (a ++ b)%list = measure a + measure b) ->
  (forall x, wp (body x) (fun t r =>
     r = inr tt /\ forallb P (requests t) = true /\ measure t = size x)) ->
  forall l, wp (forEach l body) (fun t r =>
     r = inr tt /\ forallb P (requests t) = true
     /\ measure t = list_sum (map size l)).
Proof.
  intros Hnil Happ Hbody l. induction l as [| x l IH]; simpl.
  - auto.
  - apply wp_bind. eapply wp_mono; [| apply Hbody].
    intros t1 r1 (-> & HP1 & Hm1).
    eapply wp_mono; [| apply IH].
    intros t2 r2 (-> & HP2 & Hm2).
    split; [reflexivity | split].
    + rewrite requests_app, forallb_app, HP1, HP2. reflexivity.
    + rewrite Happ, Hm1, Hm2. reflexivity.
Qed.

Section Only.

Variable P : Req -> bool.

Lemma only_ret (A : Type) (a : A) : only P (Ret a).
Proof. reflexivity. Qed.

Lemma only_throw (A : Type) (e : Exn) : only P (@Throw A e).
Proof. reflexivity. Qed.

Lemma only_vis (A : Type) (r : Req) (k : Resp r -> Prog A) :
  P r = true -> (forall x, only P (k x)) -> only P (Vis r k).
Proof.
  intros Hr Hk x. eapply wp_mono; [| apply (Hk x)].
  intros t res Ht. simpl in *. rewrite Hr. exact Ht.
Qed.

Lemma only_call (r : Req) : P r = true -> only P (call r).
Proof. intro Hr. apply only_vis; [exact Hr | intro; apply only_ret]. Qed.

Lemma only_bind (A B : Type) (m : Prog A) (f : A -> Prog B) :
  only P m -> (forall a, only P (f a)) -> only P (bind m f).
Proof.
  intros Hm Hf. apply wp_bind. eapply wp_mono; [| apply Hm].
  intros t1 [e | a] H1; simpl.
  - exact H1.
  - eapply wp_mono; [| apply Hf]. intros t2 res H2. simpl in H2.
    rewrite requests_app, forallb_app, H1, H2. reflexivity.
Qed.

Lemma only_try_catch (A : Type) (m : Prog A) (c : Exn -> Prog A) :
  only P m -> (forall e, only P (c e)) -> only P (try_catch m c).
Proof.
  intros Hm Hc. apply wp_try_catch. eapply wp_mono; [| apply Hm].
  intros t1 [e | a] H1; simpl.
  - eapply wp_mono; [| apply Hc]. intros t2 res H2. simpl in H2.
    rewrite requests_app, forallb_app, H1, H2. reflexivity.
  - exact H1.
Qed.

Lemma only_lift (A : Type) (x : Exn + A) : only P (lift x).
Proof. destruct x; reflexivity. Qed.

Lemma only_forEach (A : Type) (l : list A) (body : A -> Prog unit) :
  (forall x, only P (body x)) -> only P (forEach l body).
Proof.
  intro Hb. induction l as [| x l IH]; simpl.
  - apply only_ret.
  - apply only_bind; [apply Hb | intro; exact IH].
Qed.

End Only.

Section Returns.

Lemma returns_ret (A : Type) (a : A) : returns (Ret a).
Proof. reflexivity. Qed.

Lemma returns_vis (A : Type) (r : Req) (k : Resp r -> Prog A) :
  (forall x, returns (k x)) -> returns (Vis r k).
Proof. intros Hk x. eapply wp_mono; [| apply (Hk x)]. auto. Qed.

Lemma returns_bind (A B : Type) (m : Prog A) (f : A -> Prog B) :
  returns m -> (forall a, returns (f a)) -> returns (bind m f).
Proof.
  intros Hm Hf. apply wp_bind. eapply wp_mono; [| apply Hm].
  intros t1 [e | a] H1; simpl.
  - discriminate H1.
  - eapply wp_mono; [| apply Hf]. auto.
Qed.

Lemma returns_try_catch (A : Type) (m : Prog A) (c : Exn -> Prog A) :
  (forall e, returns (c e)) -> returns (try_catch m c).
Proof.
  intro Hc. apply wp_try_catch.
  induction m as [a | e | r k IH]; simpl.
  - reflexivity.
  - eapply wp_mono; [| apply Hc]. auto.
  - intro x. eapply wp_mono; [| apply (IH x)].
    intros t [e | a]; auto.
Qed.

End Returns.

Lemma wp_conj (A : Type) (p : Prog A) (Q1 Q2 : list Call -> Exn + A -> Prop) :
  wp p Q1 -> wp p Q2 -> wp p (fun t r => Q1 t r /\ Q2 t r).
Proof.
  revert Q1 Q2. induction p as [a | e | r k IH]; simpl; intros Q1 Q2 H1 H2.
  - auto.
  - auto.
  - intro x. apply (IH x _ _ (H1 x) (H2 x)).
Qed.

Lemma only_weaken (P P' : Req -> bool) (A : Type) (p : Prog A) :
  (forall r, P r = true -> P' r = true) -> only P p -> only P' p.
Proof.
  intros HPP. unfold only. apply wp_mono. intros t _ H.
  rewrite forallb_forall in *. auto.
Qed.

Ltac only_step :=
  match goal with
  | |- only _ (Ret _) => apply only_ret
  | |- only _ (Throw _) => apply only_throw
  | |- only _ (Vis _ _) => apply only_vis; [reflexivity | intro]
  | |- only _ (call _) => apply only_call; reflexivity
  | |- only _ (lift _) => apply only_lift
  | |- only _ (bind _ _) => apply only_bind; [| intro]
  | |- only _ (try_catch _ _) => apply only_try_catch; [| intro]
  | |- only _ (forEach _ _) => apply only_forEach; intro
  | |- only _ (if ?c then _ else _) => destruct c
  | |- only _ (match ?x with _ => _ end) => destruct x
  end.

Create HintDb footprint.

Ltac unfold_core :=
  unfold core_debug, core_info, core_warning, core_error, core_startGroup,
    core_endGroup, core_getInput, core_setOutput, core_setFailed,
    core_saveState, core_getState, fs_existsSync in *.

Ltac footprint :=
  unfold_core; repeat first [ solve [auto with footprint] | only_step ].

Lemma wp_generateAnnotations (l : list ToolResult) :
  wp (GitHubReporter.generateAnnotations l) (fun t r =>
    r = inr tt /\ forallb is_annotation (requests t) = true
    /\ List.length t = sumIssues l).
Proof.
  unfold GitHubReporter.generateAnnotations.
  rewrite sumIssues_list_sum.
  apply (wp_forEach _ is_annotation (@List.length Call)
                    (fun r => List.length (issues r)) eq_refl (@length_app Call)).
  intro r.
  eapply wp_mono;
    [| apply (wp_forEach (fun i => GitHubReporter.annotate r i) is_annotation
                (@List.length Call) (fun _ => 1) eq_refl (@length_app Call))].
  - intros t res (-> & HP & Hm). repeat split; auto.
    rewrite Hm. clear. induction (issues r); simpl; auto.
  - intro i. unfold GitHubReporter.annotate, call. cbv zeta.
    destruct (Severity_eqb (severity i) error); simpl; intros []; auto.
Qed.

Lemma wp_generateSummary (l : list ToolResult) :
  wp (GitHubReporter.generateSummary l) (fun t r =>
    forallb is_summary_request (requests t) = true).
Proof.
  change (only is_summary_request (GitHubReporter.generateSummary l)).
  unfold GitHubReporter.generateSummary. cbv zeta.
  apply only_bind; [apply only_call; reflexivity | intro written].
  apply only_bind; [apply only_lift | intros _].
  destruct (Nat.ltb 0 (sumIssues l)).
  - apply only_bind; [apply only_call; reflexivity | intros _].
    apply only_forEach. intro r.
    destruct (Nat.ltb 0 (List.length (issues r))); [| apply only_ret].
    apply only_bind; [apply only_call; reflexivity | intros _].
    apply only_bind; [apply only_call; reflexivity | intros _].
    apply only_bind; [apply only_lift | intro groups].
    apply only_bind; [| intros _; apply only_call; reflexivity].
    apply only_forEach. intros [f fs]. apply only_call. reflexivity.
  - apply only_call. reflexivity.
Qed.

Lemma observe_app (B : Type) (f : Req -> list B) (a b : list Call) :
  flat_map f (requests (a ++ b))
  = (flat_map f (requests a) ++ flat_map f (requests b))%list.
Proof. rewrite requests_app. apply flat_map_app. Qed.

Lemma outputs_app (n : string) (a b : list Call) :
  outputs n (a ++ b) = (outputs n a ++ outputs n b)%list.
Proof. apply observe_app. Qed.

Lemma failures_app (a b : list Call) :
  failures (a ++ b) = (failures a ++ failures b)%list.
Proof. apply observe_app. Qed.

Lemma warnings_app (a b : list Call) :
  warnings (a ++ b) = (warnings a ++ warnings b)%list.
Proof. apply observe_app. Qed.

Lemma annotations_app (a b : list Call) :
  annotations (a ++ b) = (annotations a ++ annotations b)%list.
Proof. unfold annotations. rewrite requests_app. apply filter_app. Qed.

Lemma filter_none (A : Type) (P N : A -> bool) (l : list A) :
  (forall x, P x = true -> N x = false) ->
  forallb P l = true -> filter N l = [].
Proof.
  intros HPN. induction l as [| x l IH]; simpl; intro H.
  - reflexivity.
  - apply andb_prop in H. destruct H as [Hx Hl].
    rewrite (HPN x Hx). auto.
Qed.

(** What the reporter's two passes leave in the trace. *)
Lemma annotations_only (t : list Call) (n : string) :
  forallb is_annotation (requests t) = true ->
  annotations t = requests t /\ outputs n t = [] /\ failures t = []
  /\ warnings t = [].
Proof.
  intro H. repeat split.
  - apply filter_all. exact H.
  - apply (flat_map_none is_annotation); [| exact H].
    intros [] Hx; try discriminate Hx; reflexivity.
  - apply (flat_map_none is_annotation); [| exact H].
    intros [] Hx; try discriminate Hx; reflexivity.
  - apply (flat_map_none is_annotation); [| exact H].
    intros [ | |m [p|]|m [p|]| | | | | | | | | | | | | | | ] Hx;
      try discriminate Hx; reflexivity.
Qed.

Lemma summary_only (t : list Call) (n : string) :
  forallb is_summary_request (requests t) = true ->
  annotations t = [] /\ outputs n t = [] /\ failures t = []
  /\ warnings t = [].
Proof.
  intro H. repeat split.
  - apply (filter_none is_summary_request); [| exact H].
    intros [] Hx; try discriminate Hx; reflexivity.
  - apply (flat_map_none is_summary_request); [| exact H].
    intros [] Hx; try discriminate Hx; reflexivity.
  - apply (flat_map_none is_summary_request); [| exact H].
    intros [] Hx; try discriminate Hx; reflexivity.
  - apply (flat_map_none is_summary_request); [| exact H].
    intros [] Hx; try discriminate Hx; reflexivity.
Qed.

#[local] Arguments outputs : simpl never.
#[local] Arguments failures : simpl never.
#[local] Arguments warnings : simpl never.
#[local] Arguments annotations : simpl never.

Lemma wp_reportAndDecide (host : Host) (inputs : Main.ActionInputs)
    (l : list ToolResult) :
  wp (Main.reportAndDecide host inputs l) (fun t r =>
    let total := sumIssues l in
    List.length (annotations t) = total
    /\ match r with
       | inr _ =>
           outputs "total-issues" t = [OutNumber total]
           /\ outputs "status" t
              = [OutString (if Nat.ltb 0 total then "failed" else "success")]
           /\ outputs "report" t = [OutString (GitHubReporter.getReport host l)]
           /\ failures t
              = (if Main.failOnErrors inputs && Nat.ltb 0 total
                 then ["Found " ++ JsString.of_nat total
                       ++ " code quality issues"]
                 else [])
           /\ warnings t
              = (if negb (Main.failOnErrors inputs) && Nat.ltb 0 total
                 then ["Found " ++ JsString.of_nat total
                       ++ " code quality issues (not failing due to configuration)"]
                 else [])
       | inl _ =>
           outputs "total-issues" t = [] /\ outputs "status" t = []
           /\ outputs "report" t = [] /\ failures t = [] /\ warnings t = []
       end).
Proof.
  unfold Main.reportAndDecide. cbv zeta.
  apply wp_bind. eapply wp_mono; [| apply wp_generateAnnotations].
  intros t1 r1 (-> & HA & HL).
  apply wp_bind. eapply wp_mono; [| apply wp_generateSummary].
  intros t2 r2 HS.
  assert (H1 : forall n, annotations t1 = requests t1 /\ outputs n t1 = []
                         /\ failures t1 = [] /\ warnings t1 = [])
    by (intro n; apply annotations_only; exact HA).
  assert (H2 : forall n, annotations t2 = [] /\ outputs n t2 = []
                         /\ failures t2 = [] /\ warnings t2 = [])
    by (intro n; apply summary_only; exact HS).
  destruct (H1 "total-issues") as (Ha1 & Ho1 & Hf1 & Hw1).
  destruct (H1 "status") as (_ & Hs1 & _). destruct (H1 "report") as (_ & Hr1 & _).
  destruct (H2 "total-issues") as (Ha2 & Ho2 & Hf2 & Hw2).
  destruct (H2 "status") as (_ & Hs2 & _). destruct (H2 "report") as (_ & Hr2 & _).
  assert (Hlen : List.length (requests t1) = sumIssues l)
    by (unfold requests; rewrite length_map; exact HL).
  destruct r2 as [e | []].
  - rewrite annotations_app, !outputs_app, failures_app, warnings_app,
      Ha1, Ha2, Ho1, Ho2, Hs1, Hs2, Hr1, Hr2, Hf1, Hf2, Hw1, Hw2, app_nil_r.
    auto 6.
  - simpl. intros [] [] [].
    destruct (Main.failOnErrors inputs), (Nat.ltb 0 (sumIssues l));
      simpl; intros [];
      rewrite !annotations_app, !outputs_app, !failures_app, !warnings_app,
        Ha1, Ha2, Ho1, Ho2, Hs1, Hs2, Hr1, Hr2, Hf1, Hf2, Hw1, Hw2,
        length_app, Hlen;
      (split; [unfold annotations; simpl; lia | auto 6]).
Qed.

Section Footprints.

Variable host : Host.

Lemma only_executeCommand (P : Req -> bool) c a d :
  (forall c' a' d', P (ExecExec c' a' d') = true) ->
  only P (executeCommand host c a d).
Proof.
  intro HP. unfold executeCommand. cbv zeta.
  apply only_bind; [apply only_call, HP | intro x].
  footprint.
Qed.

Lemma executeCommand_runner c a d :
  only is_runner_request (executeCommand host c a d).
Proof. apply only_executeCommand. reflexivity. Qed.

Lemma executeCommand_exec c a d :
  only is_exec (executeCommand host c a d).
Proof. apply only_executeCommand. reflexivity. Qed.

Hint Resolve executeCommand_runner executeCommand_exec : footprint.

Lemma checkToolAvailability_exec tool_ wd :
  only is_exec (ToolCheck.checkToolAvailability host tool_ wd).
Proof. unfold ToolCheck.checkToolAvailability. footprint. Qed.

Lemma checkToolAvailability_returns tool_ wd :
  returns (ToolCheck.checkToolAvailability host tool_ wd).
Proof.
  unfold ToolCheck.checkToolAvailability.
  destruct (ToolName_of_string tool_); [| apply returns_ret].
  cbv zeta. destruct (negb _); [apply returns_ret |].
  apply returns_try_catch. intro. apply returns_ret.
Qed.

Lemma findRepositoryConfig_resolver t wd l :
  only is_resolver_request (Resolver.findRepositoryConfig host t wd l).
Proof. induction l as [| f l IH]; simpl; footprint. Qed.

Hint Resolve findRepositoryConfig_resolver : footprint.

Lemma resolveConfig_resolver t custom wd :
  only is_resolver_request (Resolver.resolveConfig host t custom wd).
Proof.
  unfold Resolver.resolveConfig, Resolver.resolveFallthrough,
    Resolver.defaultOrNone, fs_existsSync.
  footprint.
Qed.

Lemma findRepositoryConfig_returns t wd l :
  returns (Resolver.findRepositoryConfig host t wd l).
Proof.
  induction l as [| f l IH]; simpl.
  - reflexivity.
  - intros []; simpl; [intros []; reflexivity | exact IH].
Qed.

End Footprints.

Section ToolFootprints.

Variable host : Host.

Hint Resolve executeCommand_runner executeCommand_exec
  findRepositoryConfig_resolver : footprint.

Lemma resolveConfig_returns t custom wd :
  returns (Resolver.resolveConfig host t custom wd).
Proof.
  assert (Hd : returns (Resolver.defaultOrNone host t)).
  { unfold Resolver.defaultOrNone. cbv zeta.
    destruct (JsString.truthy _); simpl.
    - intros []; simpl; intros []; reflexivity.
    - intros []; reflexivity. }
  assert (Hf : returns (Resolver.resolveFallthrough host t wd)).
  { unfold Resolver.resolveFallthrough.
    apply returns_bind; [apply findRepositoryConfig_returns |].
    intros [p |]; [apply returns_ret | exact Hd]. }
  unfold Resolver.resolveConfig.
  destruct custom as [c |]; [| exact Hf].
  destruct (JsString.truthy c); [| exact Hf].
  cbv zeta. simpl. intros []; simpl; intros [].
  - reflexivity.
  - exact Hf.
Qed.

Lemma parseIssues_runner label walk fallback result :
  only is_runner_request (Runners.parseIssues host label walk fallback result).
Proof. unfold Runners.parseIssues. footprint. Qed.

Hint Resolve parseIssues_runner : footprint.

Lemma run_runner (runner : Runners.Runner) (cfg : RunnerConfig) :
  only is_runner_request (Runners.run host runner cfg).
Proof.
  destruct runner; simpl;
    unfold Runners.PHPStanRunner_run, Runners.PHPMDRunner_run,
      Runners.PHPCSFixerRunner_run, Runners.ESLintRunner_run,
      Runners.StylelintRunner_run, Runners.EditorConfigRunner_run,
      Runners.ComposerNormalizeRunner_run, Runners.Typo3RectorRunner_run;
    cbv zeta; footprint.
Qed.

Lemma runner_is_tool r : is_runner_request r = true -> is_tool_request r = true.
Proof. destruct r as [ | |m [p|]|m [p|]| | | | | | | | | | | | | | | ]; auto. Qed.

Lemma resolver_is_tool r : is_resolver_request r = true -> is_tool_request r = true.
Proof. destruct r as [ | |m [p|]|m [p|]| | | | | | | | | | | | | | | ]; auto. Qed.

Lemma exec_is_tool r : is_exec r = true -> is_tool_request r = true.
Proof. destruct r; auto; discriminate. Qed.

Lemma findFiles_glob pattern cwd : only is_glob (findFiles pattern cwd).
Proof. unfold findFiles. footprint. Qed.

Lemma glob_is_tool r : is_glob r = true -> is_tool_request r = true.
Proof. destruct r; auto; discriminate. Qed.

Lemma runSelected_tool tool_ inputs runner files config_ :
  only is_tool_request (Main.runSelected host tool_ inputs runner files config_).
Proof.
  unfold Main.runSelected. destruct files.
  - footprint.
  - apply only_bind; [footprint | intro].
    apply only_bind; [| intro; footprint].
    eapply only_weaken; [apply runner_is_tool | apply run_runner].
Qed.

Lemma globCase_tool tool_ inputs t runner pattern custom :
  only is_tool_request (Main.globCase host tool_ inputs t runner pattern custom).
Proof.
  unfold Main.globCase.
  apply only_bind; [eapply only_weaken; [apply glob_is_tool | apply findFiles_glob] | intro].
  apply only_bind;
    [eapply only_weaken; [apply resolver_is_tool | apply resolveConfig_resolver] | intro].
  apply runSelected_tool.
Qed.

Lemma fixedCase_tool tool_ inputs t runner files custom :
  only is_tool_request (Main.fixedCase host tool_ inputs t runner files custom).
Proof.
  unfold Main.fixedCase.
  apply only_bind;
    [eapply only_weaken; [apply resolver_is_tool | apply resolveConfig_resolver] | intro].
  apply runSelected_tool.
Qed.

Lemma runTool_tool tool_ inputs :
  only is_tool_request (Main.runTool host tool_ inputs).
Proof.
  unfold Main.runTool.
  apply only_try_catch; [| intro; footprint].
  apply only_bind;
    [eapply only_weaken; [apply exec_is_tool | apply checkToolAvailability_exec] | intro b].
  destruct (negb b).
  - unfold ToolCheck.logToolNotFound. footprint.
  - destruct (ToolName_of_string tool_) as [[] |];
      try apply globCase_tool; try apply fixedCase_tool.
    footprint.
Qed.

Lemma runTool_returns tool_ inputs : returns (Main.runTool host tool_ inputs).
Proof.
  unfold Main.runTool. apply returns_try_catch.
  intro e. simpl. intros []. reflexivity.
Qed.

Lemma collectResults_tool inputs names :
  only is_tool_request (Main.collectResults host inputs names).
Proof.
  induction names as [| n names IH]; simpl.
  - apply only_ret.
  - apply only_bind; [apply runTool_tool | intro].
    apply only_bind; [exact IH | intro; apply only_ret].
Qed.

Lemma collectResults_returns inputs names :
  returns (Main.collectResults host inputs names).
Proof.
  induction names as [| n names IH]; simpl.
  - reflexivity.
  - apply returns_bind; [apply runTool_returns | intro].
    apply returns_bind; [exact IH | intro; reflexivity].
Qed.

End ToolFootprints.

#[local] Arguments outputs : simpl never.
#[local] Arguments failures : simpl never.
#[local] Arguments warnings : simpl never.
#[local] Arguments annotations : simpl never.

Lemma input_answers_app (n : string) (a b : list Call) :
  input_answers n (a ++ b) = (input_answers n a ++ input_answers n b)%list.
Proof. apply flat_map_app. Qed.

Lemma input_answers_none (P : Req -> bool) (n : string) (t : list Call) :
  (forall r, P r = true -> is_getInput r = false) ->
  forallb P (requests t) = true -> input_answers n t = [].
Proof.
  intro HP. induction t as [| [r x] t IH]; simpl; intro H.
  - reflexivity.
  - apply andb_prop in H. destruct H as [Hr Ht].
    unfold input_answers in *. simpl. rewrite (IH Ht), app_nil_r.
    specialize (HP r Hr). destruct r; try reflexivity. discriminate HP.
Qed.

Lemma tool_request_quiet (t : list Call) (n : string) :
  forallb is_tool_request (requests t) = true ->
  outputs n t = [] /\ failures t = [] /\ annotations t = []
  /\ input_answers n t = [].
Proof.
  intro H. repeat split.
  - apply (flat_map_none is_tool_request); [| exact H].
    intros [] Hx; try discriminate Hx; reflexivity.
  - apply (flat_map_none is_tool_request); [| exact H].
    intros [] Hx; try discriminate Hx; reflexivity.
  - apply (filter_none is_tool_request); [| exact H].
    intros [ | |m [p|]|m [p|]| | | | | | | | | | | | | | | ] Hx;
      try discriminate Hx; reflexivity.
  - apply (input_answers_none is_tool_request); [| exact H].
    intros [] Hx; try discriminate Hx; reflexivity.
Qed.

Lemma reportAndDecide_footprint (host : Host) inputs l :
  only is_report_request (Main.reportAndDecide host inputs l).
Proof.
  unfold Main.reportAndDecide. cbv zeta.
  apply only_bind; [| intro].
  { eapply wp_mono; [| apply wp_generateAnnotations].
    intros t r (_ & H & _). revert H. unfold requests.
    rewrite !forallb_forall. intros H x Hx. specialize (H x Hx).
    destruct x as [ | |m [p|]|m [p|]| | | | | | | | | | | | | | | ];
      try discriminate H; reflexivity. }
  apply only_bind; [| intro].
  { eapply wp_mono; [| apply wp_generateSummary].
    intros t r H. revert H. rewrite !forallb_forall. intros H x Hx.
    specialize (H x Hx). destruct x; try discriminate H; reflexivity. }
  footprint.
Qed.

(** [parseInputs] returns, asks for inputs only, and sets [failOnErrors]
    from the answer to [fail-on-errors]. *)
Lemma wp_parseInputs :
  wp Main.parseInputs (fun t r =>
    forallb is_getInput (requests t) = true
    /\ match r with
       | inr inputs => Main.failOnErrors inputs = fail_flag t
       | inl _ => False
       end).
Proof.
  unfold Main.parseInputs, core_getInput. simpl. intros.
  split; reflexivity.
Qed.

#[local] Arguments outputs : simpl never.
#[local] Arguments failures : simpl never.
#[local] Arguments warnings : simpl never.
#[local] Arguments annotations : simpl never.
#[local] Arguments input_answers : simpl never.
#[local] Arguments fail_flag : simpl never.

Lemma wp_run (host : Host) :
  wp (Main.run host) (fun t r =>
    r = inr tt
    /\ match outputs "total-issues" t with
       | [OutNumber n] =>
           outputs "status" t
           = [OutString (if Nat.ltb 0 n then "failed" else "success")]
           /\ failures t
              = (if fail_flag t && Nat.ltb 0 n
                 then ["Found " ++ JsString.of_nat n ++ " code quality issues"]
                 else [])
       | _ =>
           outputs "status" t = []
           /\ exists e, failures t = ["Action failed: " ++ exn_message e]
       end).
Proof.
  unfold Main.run. apply wp_try_catch. apply wp_bind.
  eapply wp_mono; [| apply wp_parseInputs].
  intros t0 [e | inputs] (HI & HF); [contradiction |].
  simpl. intros [] []. apply wp_bind.
  eapply wp_mono;
    [| apply wp_conj;
       [apply (collectResults_tool host inputs (Main.tools inputs))
       | apply (collectResults_returns host inputs (Main.tools inputs))]].
  intros t1 [e | l] (HT & HR); [discriminate HR |].
  eapply wp_mono;
    [| apply wp_conj;
       [apply (wp_reportAndDecide host inputs l)
       | apply (reportAndDecide_footprint host inputs l)]].
  intros t2 r2 ((_ & Hcase) & HP).
  assert (H0 : forall n, outputs n t0 = [] /\ failures t0 = []).
  { intro n. split; (apply (flat_map_none is_getInput); [| exact HI]);
      intros [] Hx; try discriminate Hx; reflexivity. }
  assert (H1 : forall n, outputs n t1 = [] /\ failures t1 = []
                         /\ input_answers n t1 = []).
  { intro n. destruct (tool_request_quiet t1 n HT) as (? & ? & _ & ?). auto. }
  assert (H2 : input_answers "fail-on-errors" t2 = []).
  { apply (input_answers_none is_report_request); [| exact HP].
    intros [] Hx; try discriminate Hx; reflexivity. }
  match goal with
  | |- context [(t0 ++ ?c1 :: ?c2 :: t1 ++ t2)%list] =>
      change (t0 ++ c1 :: c2 :: t1 ++ t2)%list
        with (t0 ++ [c1; c2] ++ t1 ++ t2)%list;
      set (mid := [c1; c2])
  end.
  assert (Hm : forall n, outputs n mid = [] /\ failures mid = []
                         /\ input_answers n mid = []) by (intro; auto).
  assert (Ho : forall n, outputs n (t0 ++ mid ++ t1 ++ t2)%list = outputs n t2).
  { intro n. rewrite !outputs_app.
    destruct (H0 n) as (-> & _). destruct (H1 n) as (-> & _).
    destruct (Hm n) as (-> & _). reflexivity. }
  assert (Hf : failures (t0 ++ mid ++ t1 ++ t2)%list = failures t2).
  { rewrite !failures_app.
    destruct (H0 "") as (_ & ->). destruct (H1 "") as (_ & -> & _).
    destruct (Hm "") as (_ & -> & _). reflexivity. }
  assert (Hflag : fail_flag (t0 ++ mid ++ t1 ++ t2)%list = fail_flag t0).
  { unfold fail_flag. rewrite !input_answers_app, H2.
    destruct (H1 "fail-on-errors") as (_ & _ & ->).
    destruct (Hm "fail-on-errors") as (_ & _ & ->).
    rewrite !app_nil_r. reflexivity. }
  clearbody mid.
  destruct r2 as [e | []].
  - simpl. intros []. split; [reflexivity |].
    rewrite !(outputs_app _ (t0 ++ mid ++ t1 ++ t2)%list),
      (failures_app (t0 ++ mid ++ t1 ++ t2)%list), !Ho, Hf.
    destruct Hcase as (-> & -> & _ & -> & _).
    split; [reflexivity | exists e; reflexivity].
  - split; [reflexivity |].
    rewrite Hflag, !Ho, Hf.
    destruct Hcase as (-> & -> & _ & -> & _).
    rewrite HF. split; reflexivity.
Qed.

(* ================================================================== *)
(** ** The reporter and the pass/fail decision (C8, C2)                *)
(* ================================================================== *)



(** Scenario A of the specification, with [fail-on-errors: false]: three
    annotations, [total-issues] is 3, the report counts 3. *)
Example scenarioA_total :
  let o := interp (Example.handler Example.quiet)
             (Main.reportAndDecide Example.host (Example.inputs false)
                                   Example.scenarioA) tt in
  List.length (annotations (trace o)) = 3
  /\ outputs "total-issues" (trace o) = [OutNumber 3]
  /\ totalIssues (GitHubReporter.report Example.scenarioA) = 3.
Proof. vm_compute. auto. Qed.



(** A run that throws on the way: its one issue is in a file named like a
    member of every object, the grouping of the summary throws after the
    annotation is out, and the run is marked failed without a status. *)
Example run_throws_in_summary :
  let t := trace (interp (Example.handler Example.inherited_name)
                         (Main.run Example.host) tt) in
  List.length (annotations t) = 1
  /\ outputs "total-issues" t = []
  /\ outputs "status" t = []
  /\ failures t = ["Action failed: acc[issue.file].push is not a function"].
Proof. vm_compute. auto. Qed.

(* ================================================================== *)
(** ** The runners (C3, C9)                                            *)
(* ================================================================== *)

#[local] Arguments Runners.parseIssues : simpl never.
#[local] Arguments Runners.tried : simpl never.

(** What [parseIssues] does, by what its [try] leaves. *)
Lemma wp_parseIssues (host : Host) (label : string)
    (walk : Json -> Runners.Walk unit) (fallback : list Issue)
    (result : ExecResult) :
  wp (Runners.parseIssues host label walk fallback result) (fun t r =>
    match (if JsString.truthy (stdout result)
           then Some (Runners.tried host walk (stdout result)) else None) with
    | Some (pushed, inl e) =>
        t = [ {| call_req := CoreWarning ("Failed to parse " ++ label
                                          ++ " output: " ++ Exn_toString e) None;
                 call_resp := tt |} ]
        /\ r = inr (map Js.Issue_of_raw pushed ++ fallback)%list
    | Some (pushed, inr _) => t = [] /\ r = inr (map Js.Issue_of_raw pushed)
    | None => t = [] /\ r = inr []
    end).
Proof.
  unfold Runners.parseIssues.
  destruct (JsString.truthy (stdout result)); [| simpl; auto].
  destruct (Runners.tried host walk (stdout result)) as [pushed [e | []]];
    unfold core_warning; simpl; [intros [] |]; auto.
Qed.

Ltac unfold_runners :=
  unfold Runners.PHPStanRunner_run, Runners.PHPMDRunner_run,
    Runners.PHPCSFixerRunner_run, Runners.ESLintRunner_run,
    Runners.StylelintRunner_run, Runners.EditorConfigRunner_run,
    Runners.ComposerNormalizeRunner_run, Runners.Typo3RectorRunner_run,
    executeCommand, core_info.

(** A runner that reads JSON, from the answer of its process on. *)
Lemma wp_parse_ret (host : Host) (label : string)
    (walk : Json -> Runners.Walk unit) (fallback : list Issue)
    (result : ExecResult) (A : Type) (k : list Issue -> A)
    (Q : list Call -> Exn + A -> Prop) :
  (if JsString.truthy (stdout result) then
     match Runners.tried host walk (stdout result) with
     | (pushed, inl e) =>
         Q [ {| call_req := CoreWarning ("Failed to parse " ++ label
                                         ++ " output: " ++ Exn_toString e) None;
                call_resp := tt |} ]
           (inr (k (map Js.Issue_of_raw pushed ++ fallback)%list))
     | (pushed, inr _) => Q [] (inr (k (map Js.Issue_of_raw pushed)))
     end
   else Q [] (inr (k []))) ->
  wp (bind (Runners.parseIssues host label walk fallback result)
           (fun found => Ret (k found))) Q.
Proof.
  intro H. apply wp_bind. eapply wp_mono; [| apply wp_parseIssues].
  intros t r. destruct (JsString.truthy (stdout result)).
  - destruct (Runners.tried host walk (stdout result)) as [pushed [e | []]];
      intros [-> ->]; simpl; exact H.
  - intros [-> ->]; simpl; exact H.
Qed.

Ltac parse_step :=
  apply wp_parse_ret; cbn [stdout];
  match goal with
  | |- if JsString.truthy ?s then _ else _ =>
      destruct (JsString.truthy s) eqn:?
  end.

Lemma wp_run_success (host : Host) (runner : Runners.Runner) (cfg : RunnerConfig) :
  wp (Runners.run host runner cfg) (fun t r =>
    match r with
    | inr res => map (fun c => Z.eqb c 0) (exit_codes t) = [success res]
    | inl _ => exit_codes t = []
    end).
Proof.
  destruct runner; simpl; unfold_runners; cbv zeta; simpl;
    intros [] [e | out]; simpl; try reflexivity.
  all: parse_step; [destruct (Runners.tried _ _ _) as [pushed [e | []]] |];
    reflexivity.
Qed.

#[local] Arguments warnings : simpl never.
#[local] Arguments exec_answers : simpl never.

Lemma wp_run_unparseable (host : Host) (runner : Runners.Runner)
    (cfg : RunnerConfig) :
  wp (Runners.run host runner cfg) (fun t r =>
    forall out,
      exec_answers t = [inr out] ->
      exec_exitCode out = 0%Z ->
      let s := JsString.trim (exec_stdout out) in
      exists res,
        r = inr res
        /\ success res = true
        /\ match Runners.walk_of host runner with
           | Some walk =>
               if JsString.truthy s then
                 match JSON_parse host s with
                 | inl e =>
                     issues res = catch_issues runner s
                     /\ warnings t = [failed_to_parse runner e]
                 | inr output =>
                     match walk output [] with
                     | (pushed, inl e) =>
                         List.length (issues res)
                         = List.length pushed
                           + List.length (catch_issues runner s)
                         /\ (forallb Js.declared pushed = true ->
                             issues res
                             = (map Js.Issue_of_raw pushed
                                ++ catch_issues runner s)%list)
                         /\ warnings t = [failed_to_parse runner e]
                     | (pushed, inr _) =>
                         List.length (issues res) = List.length pushed
                         /\ (forallb Js.declared pushed = true ->
                             issues res = map Js.Issue_of_raw pushed)
                         /\ warnings t = []
                     end
                 end
               else issues res = [] /\ warnings t = []
           | None => warnings t = []
           end).
Proof.
  destruct runner; simpl; unfold_runners; cbv zeta; simpl;
    intros [] [e0 | out0]; simpl;
    try (intros out Hx; discriminate Hx).
  6, 7: intros out Hx Hc; injection Hx as <-; eexists;
    split; [reflexivity | split; [simpl; rewrite Hc; reflexivity | reflexivity]].
  all: parse_step; unfold Runners.tried.
  all: try (intros out Hx Hc; injection Hx as <-; eexists;
            split; [reflexivity | split; [simpl; rewrite Hc; reflexivity |]];
            rewrite Heqb; split; reflexivity).
  all: destruct (JSON_parse host (JsString.trim (exec_stdout out0)))
    as [e | output] eqn:Hp.
  all: try (intros out Hx Hc; injection Hx as <-; eexists;
            split; [reflexivity | split; [simpl; rewrite Hc; reflexivity |]];
            rewrite Heqb, Hp; split; reflexivity).
  all: match goal with
       | |- context [match ?x with pair _ _ => _ end] =>
           destruct x as [pushed [e | []]] eqn:Hw
       end.
  all: intros out Hx Hc; injection Hx as <-; eexists;
    (split; [reflexivity | split; [simpl; rewrite Hc; reflexivity |]]);
    rewrite Heqb, Hp, Hw;
    cbn [issues Runners.mkResult catch_issues];
    rewrite ?length_app, ?length_map, ?app_nil_r, ?Nat.add_0_r;
    repeat split; auto.
Qed.

(** C3. Whatever the runner and the environment: a runner returns a result
    exactly when its child process ran to an exit code, there is one such
    process, and [success] is the test of that code against 0; the parsed
    issues play no part.  In particular ESLint exiting 0 with one error
    found returns [success = true] next to a non-empty issue list. *)
Theorem success_is_exit_zero (host : Host) (runner : Runners.Runner)
    (cfg : RunnerConfig) (W : Type) (h : Handler W) (w : W) :
  let o := interp h (Runners.run host runner cfg) w in
  let x := interp (Example.handler Example.lenient_eslint)
             (Runners.run Example.host Runners.ESLintRunner
                          (Example.config ["src/a.js"])) tt in
  match result o with
  | inr res => map (fun c => Z.eqb c 0) (exit_codes (trace o)) = [success res]
  | inl _ => exit_codes (trace o) = []
  end
  /\ exit_codes (trace x) = [0%Z]
  /\ result x
     = inr {| tool := "ESLint";
              success := true;
              issues := [ {| file := "src/a.js"; line := 3; column := Some 7%Z;
                             severity := error;
                             message := "Missing semicolon.";
                             rule := Some "semi" |} ];
              rawOutput := Example.eslint_json |}.
Proof.
  cbv zeta. split.
  - exact (wp_sound _ _ (wp_run_success host runner cfg) h w).
  - vm_compute. auto.
Qed.

(** C9, as the specification states it, fails for the Rector runner: the
    process exits 0, its output is no JSON, and the result carries the
    issue scraped from the text. *)
Lemma rector_scrapes_unparseable_output :
  let o := interp (Example.handler Example.rector_text)
             (Runners.run Example.host Runners.Typo3RectorRunner
                          (Example.config ["src/Foo.php"])) tt in
  exit_codes (trace o) = [0%Z]
  /\ parse_failure Example.host Runners.Typo3RectorRunner "[FILE] src/Foo.php"
     = Some Example.syntax_error
  /\ result o
     = inr {| tool := "TYPO3 Rector";
              success := true;
              issues := [ {| file := "src/Foo.php"; line := 1; column := None;
                             severity := warning;
                             message := "Rector suggests refactoring for this file";
                             rule := Some "typo3-rector" |} ];
              rawOutput := "[FILE] src/Foo.php" |}.
Proof. vm_compute. auto. Qed.

(** A text that parses can still fail the runner's [try]: ESLint prints an
    array whose second entry is [null], the loop has pushed the issue of the
    first entry when reading [null.messages] throws, and the issue stays in
    the result next to the warning. *)
Example eslint_keeps_issues_before_failure :
  let o := interp (Example.handler Example.broken_eslint)
             (Runners.run Example.host Runners.ESLintRunner
                          (Example.config ["src/a.js"])) tt in
  exit_codes (trace o) = [0%Z]
  /\ parse_failure Example.host Runners.ESLintRunner Example.eslint_broken_json
     = None
  /\ result o
     = inr {| tool := "ESLint";
              success := true;
              issues := [ {| file := "src/a.js"; line := 3; column := Some 7%Z;
                             severity := error;
                             message := "Missing semicolon.";
                             rule := Some "semi" |} ];
              rawOutput := Example.eslint_broken_json |}
  /\ warnings (trace o)
     = ["Failed to parse ESLint output: TypeError: "
        ++ "Cannot read properties of null (reading 'messages')"].
Proof. vm_compute. auto. Qed.

(** C9, amended.  When the child process of a runner exits 0, the runner
    returns [success = true], whatever was printed.  A standard output that
    is empty after trimming is not parsed and logs nothing.  When
    [JSON.parse] throws on it, the failure is logged as one warning, and
    the PHPStan, PHPMD, PHP-CS-Fixer, ESLint and Stylelint runners return no
    issue, the Rector runner the issues its fallback scrapes from the lines
    of the output.  When the text parses and the loops over the parsed value
    throw, the failure is logged as one warning just the same, and the
    issues pushed before it stay in the result (followed, for Rector, by
    those of the fallback).  Otherwise nothing is logged.  [pushed] are the
    issues as the loops push them; where their fields have the declared
    types, the result holds them as they are. *)
Theorem unparseable_output (host : Host) (runner : Runners.Runner)
    (cfg : RunnerConfig) (W : Type) (h : Handler W) (w : W)
    (out : ExecOutput) :
  let o := interp h (Runners.run host runner cfg) w in
  let s := JsString.trim (exec_stdout out) in
  exec_answers (trace o) = [inr out] ->
  exec_exitCode out = 0%Z ->
  exists res,
    result o = inr res
    /\ success res = true
    /\ match Runners.walk_of host runner with
       | Some walk =>
           if JsString.truthy s then
             match JSON_parse host s with
             | inl e =>
                 issues res = catch_issues runner s
                 /\ warnings (trace o) = [failed_to_parse runner e]
             | inr output =>
                 match walk output [] with
                 | (pushed, inl e) =>
                     List.length (issues res)
                     = List.length pushed + List.length (catch_issues runner s)
                     /\ (forallb Js.declared pushed = true ->
                         issues res
                         = (map Js.Issue_of_raw pushed
                            ++ catch_issues runner s)%list)
                     /\ warnings (trace o) = [failed_to_parse runner e]
                 | (pushed, inr _) =>
                     List.length (issues res) = List.length pushed
                     /\ (forallb Js.declared pushed = true ->
                         issues res = map Js.Issue_of_raw pushed)
                     /\ warnings (trace o) = []
                 end
             end
           else issues res = [] /\ warnings (trace o) = []
       | None => warnings (trace o) = []
       end.
Proof.
  cbv zeta. intros Hx Hc.
  exact (wp_sound _ _ (wp_run_unparseable host runner cfg) h w out Hx Hc).
Qed.

(** PHPStan prints a banner and exits 0: no issue, success, one warning. *)
Lemma unparseable_output_witness :
  exists res,
    result (interp (Example.handler Example.phpstan_banner)
              (Runners.run Example.host Runners.PHPStanRunner
                           (Example.config ["src/Foo.php"])) tt) = inr res
    /\ success res = true
    /\ issues res = []
    /\ warnings (trace (interp (Example.handler Example.phpstan_banner)
                   (Runners.run Example.host Runners.PHPStanRunner
                                (Example.config ["src/Foo.php"])) tt))
       = ["Failed to parse PHPStan output: SyntaxError: Unexpected token"].
Proof.
  exact (@unparseable_output Example.host Runners.PHPStanRunner
           (Example.config ["src/Foo.php"]) unit
           (Example.handler Example.phpstan_banner) tt
           {| exec_exitCode := 0;
              exec_stdout := "PHPStan - PHP Static Analysis Tool";
              exec_stderr := "" |}
           eq_refl eq_refl).
Defined.

(* ================================================================== *)
(** ** The zero-files short cut of [runTool] (C6)                      *)
(* ================================================================== *)

#[local] Arguments spawned : simpl never.
#[local] Arguments glob_answers : simpl never.

Lemma spawned_app (a b : list Call) :
  spawned (a ++ b) = (spawned a ++ spawned b)%list.
Proof. apply observe_app. Qed.

Lemma glob_answers_app (a b : list Call) :
  glob_answers (a ++ b) = (glob_answers a ++ glob_answers b)%list.
Proof. apply flat_map_app. Qed.

Lemma spawned_none (P : Req -> bool) (t : list Call) :
  (forall r, P r = true -> is_exec r = false) ->
  forallb P (requests t) = true -> spawned t = [].
Proof.
  intros HP H. apply (flat_map_none P); [| exact H].
  intros r Hr. specialize (HP r Hr). destruct r; try reflexivity.
  discriminate HP.
Qed.

Lemma glob_answers_none (P : Req -> bool) (t : list Call) :
  (forall r, P r = true -> is_glob r = false) ->
  forallb P (requests t) = true -> glob_answers t = [].
Proof.
  intro HP. induction t as [| [r x] t IH]; simpl; intro H.
  - reflexivity.
  - apply andb_prop in H. destruct H as [Hr Ht].
    unfold glob_answers in *. simpl. rewrite (IH Ht), app_nil_r.
    specialize (HP r Hr). destruct r; try reflexivity. discriminate HP.
Qed.

Lemma exec_not_glob r : is_exec r = true -> is_glob r = false.
Proof. destruct r; auto. Qed.

Lemma resolver_not_glob r : is_resolver_request r = true -> is_glob r = false.
Proof. destruct r; auto. Qed.

Lemma resolver_not_exec r : is_resolver_request r = true -> is_exec r = false.
Proof. destruct r; auto. Qed.

Lemma runner_not_glob r : is_runner_request r = true -> is_glob r = false.
Proof. destruct r; auto. Qed.

Lemma wp_checkToolAvailability (host : Host) (tool_ wd : string) :
  wp (ToolCheck.checkToolAvailability host tool_ wd) (fun t r =>
    is_inr r = true
    /\ glob_answers t = []
    /\ match ToolName_of_string tool_ with
       | Some tn => spawned t = [availabilityProbe tn]
       | None => spawned t = []
       end).
Proof.
  apply wp_conj; [apply checkToolAvailability_returns |].
  apply wp_conj.
  - eapply wp_mono; [| apply checkToolAvailability_exec].
    intros t r H. apply (glob_answers_none is_exec); [apply exec_not_glob | exact H].
  - unfold ToolCheck.checkToolAvailability, executeCommand.
    destruct (ToolName_of_string tool_) as [[] |]; simpl;
      try reflexivity; intros [e | out]; reflexivity.
Qed.

#[local] Arguments spawned : simpl never.
#[local] Arguments glob_answers : simpl never.

Section ZeroFiles.

Variable host : Host.

Lemma wp_resolveConfig_quiet t custom wd :
  wp (Resolver.resolveConfig host t custom wd) (fun tr r =>
    is_inr r = true /\ glob_answers tr = [] /\ spawned tr = []).
Proof.
  apply wp_conj; [apply resolveConfig_returns |].
  eapply wp_mono; [| apply resolveConfig_resolver].
  intros tr r H. split.
  - apply (glob_answers_none is_resolver_request);
      [apply resolver_not_glob | exact H].
  - apply (spawned_none is_resolver_request);
      [apply resolver_not_exec | exact H].
Qed.

Lemma wp_runSelected tool_ inputs runner files config_ :
  wp (Main.runSelected host tool_ inputs runner files config_) (fun tr r =>
    glob_answers tr = []
    /\ match files with
       | [] => r = inr (Some (Main.skipped tool_)) /\ spawned tr = []
       | _ => True
       end).
Proof.
  unfold Main.runSelected. destruct files as [| f fs].
  - simpl. intros []. auto.
  - assert (H : only is_runner_request
                  (core_info ("Found " ++ JsString.of_nat (List.length (f :: fs))
                              ++ " files to check with " ++ tool_) ;;
                   r <- Runners.run host runner
                          (Build_RunnerConfig config_ (f :: fs)
                                              (Main.workingDirectory inputs)) ;;
                   Ret (Some r))).
    { apply only_bind; [footprint | intro].
      apply only_bind; [apply run_runner | intro; footprint]. }
    eapply wp_mono; [| apply H].
    intros tr r Hr. split; [| exact I].
    apply (glob_answers_none is_runner_request);
      [apply runner_not_glob | exact Hr].
Qed.

Lemma wp_fixedCase tool_ inputs t runner files custom :
  wp (Main.fixedCase host tool_ inputs t runner files custom) (fun tr r =>
    glob_answers tr = []).
Proof.
  unfold Main.fixedCase. apply wp_bind.
  eapply wp_mono; [| apply wp_resolveConfig_quiet].
  intros t1 [e | c] (Hr & Hg & _); [discriminate Hr |].
  eapply wp_mono; [| apply wp_runSelected].
  intros t2 r2 (Hg2 & _). rewrite glob_answers_app, Hg, Hg2. reflexivity.
Qed.

Lemma wp_globCase tool_ inputs t runner pattern custom :
  wp (Main.globCase host tool_ inputs t runner pattern custom) (fun tr r =>
    glob_answers tr = [inr []] ->
    r = inr (Some (Main.skipped tool_)) /\ spawned tr = []).
Proof.
  unfold Main.globCase, findFiles. simpl. intros [e | files]; simpl.
  - intro H. discriminate H.
  - assert (Hfiles : forall files',
              (files = [] -> files' = []) ->
              wp (config_ <- Resolver.resolveConfig host t custom
                               (Main.workingDirectory inputs) ;;
                  Main.runSelected host tool_ inputs runner files' config_)
                 (fun tr r =>
                    glob_answers ({| call_req := GlobGlob pattern;
                                     call_resp := inr files |} :: tr) = [inr []] ->
                    r = inr (Some (Main.skipped tool_))
                    /\ spawned ({| call_req := GlobGlob pattern;
                                   call_resp := inr files |} :: tr) = [])).
    { intros files' Hf. apply wp_bind.
      eapply wp_mono; [| apply wp_resolveConfig_quiet].
      intros t1 [e | c] (Hr & Hg & Hs); [discriminate Hr |].
      eapply wp_mono; [| apply wp_runSelected].
      intros t2 r2 (Hg2 & Hm).
      change (?c :: ?tr)%list with ([c] ++ tr)%list.
      rewrite !glob_answers_app, !spawned_app, Hg, Hg2, Hs.
      destruct files' as [| f fs].
      - destruct Hm as (-> & ->). auto.
      - intro H. injection H as H. discriminate (Hf H). }
    destruct (JsString.truthy (Main.workingDirectory inputs)
              && negb (Main.workingDirectory inputs =? "."))%bool; simpl.
    + apply Hfiles. intros ->. reflexivity.
    + apply Hfiles. auto.
Qed.

Lemma wp_runTool_skip tool_ inputs :
  wp (Main.runTool host tool_ inputs) (fun tr r =>
    glob_answers tr = [inr []] ->
    r = inr (Some (Main.skipped tool_))
    /\ option_map (fun tn => [availabilityProbe tn]) (ToolName_of_string tool_)
       = Some (spawned tr)).
Proof.
  match goal with |- wp _ ?P => set (Q := P) end.
  unfold Main.runTool. apply wp_try_catch. apply wp_bind.
  eapply wp_mono; [| apply wp_checkToolAvailability].
  intros t0 [e | b] (Hr & Hg & Hs); [discriminate Hr |].
  set (caught := fun (t2 : list Call) (r2 : Exn + option ToolResult) =>
         match r2 with
         | inl e =>
             wp (core_error ("Error running " ++ tool_ ++ ": "
                             ++ Exn_toString e) ;;
                 Ret (Some (Main.crashed tool_ e)))
                (fun t3 r3 => Q ((t0 ++ t2) ++ t3)%list r3)
         | inr a => Q (t0 ++ t2)%list (inr a)
         end).
  assert (Hglob : forall tn runner pattern custom,
            ToolName_of_string tool_ = Some tn ->
            wp (Main.globCase host tool_ inputs tn runner pattern custom) caught).
  { intros tn runner pattern custom Etn. rewrite Etn in *.
    eapply wp_mono; [| apply wp_globCase].
    intros t2 [e | a] H2; unfold caught, Q.
    - simpl. intros []. rewrite !glob_answers_app, Hg. simpl.
      unfold glob_answers at 2. simpl. rewrite app_nil_r. intro H.
      destruct (H2 H) as [H3 _]. discriminate H3.
    - rewrite glob_answers_app, spawned_app, Hg, Hs. simpl. intro H.
      destruct (H2 H) as [-> ->]. rewrite Etn. auto. }
  assert (Hfixed : forall tn runner files custom,
            wp (Main.fixedCase host tool_ inputs tn runner files custom) caught).
  { intros tn runner files custom.
    eapply wp_mono; [| apply wp_fixedCase].
    intros t2 [e | a] H2; unfold caught, Q.
    - simpl. intros []. rewrite !glob_answers_app, Hg, H2. intro H.
      discriminate H.
    - rewrite glob_answers_app, Hg, H2. intro H. discriminate H. }
  fold caught.
  destruct (negb b).
  - unfold ToolCheck.logToolNotFound, caught, Q.
    destruct (ToolName_of_string tool_); simpl; intros [] [];
      rewrite glob_answers_app, Hg; intro H; discriminate H.
  - destruct (ToolName_of_string tool_) as [tn |] eqn:Etn.
    + destruct tn; first [apply Hglob; reflexivity | apply Hfixed].
    + unfold caught, Q. simpl. intros []. rewrite glob_answers_app, Hg.
      intro H. discriminate H.
Qed.

End ZeroFiles.

(** C6. In every execution of [runTool] in which the file search comes
    back empty, the result is [{tool, success: true, issues: [],
    rawOutput: ''}] and the only child process started is the version
    probe of the availability check: the runner is not invoked. *)
Theorem zero_files_short_circuit (host : Host) (tool_ : string)
    (inputs : Main.ActionInputs) (W : Type) (h : Handler W) (w : W) :
  let o := interp h (Main.runTool host tool_ inputs) w in
  glob_answers (trace o) = [inr []] ->
  result o
  = inr (Some {| tool := tool_; success := true; issues := [];
                 rawOutput := "" |})
  /\ option_map (fun tn => [availabilityProbe tn]) (ToolName_of_string tool_)
     = Some (spawned (trace o)).
Proof.
  cbv zeta. intro H.
  exact (wp_sound _ _ (wp_runTool_skip host tool_ inputs) h w H).
Qed.

(** ESLint is installed and the repository has no JavaScript file. *)
Lemma zero_files_short_circuit_witness :
  result (interp (Example.handler Example.quiet)
            (Main.runTool Example.host "eslint" (Example.inputs true)) tt)
  = inr (Some {| tool := "eslint"; success := true; issues := [];
                 rawOutput := "" |})
  /\ Some [("npx", ["eslint"; "--version"])]
     = Some (spawned (trace (interp (Example.handler Example.quiet)
               (Main.runTool Example.host "eslint" (Example.inputs true)) tt))).
Proof.
  exact (@zero_files_short_circuit Example.host "eslint" (Example.inputs true)
           unit (Example.handler Example.quiet) tt eq_refl).
Defined.

(* ================================================================== *)
(** ** The cache manager (C5, C7, C1)                                  *)
(* ================================================================== *)

#[local] Arguments cache_saves : simpl never.
#[local] Arguments state_answers : simpl never.
#[local] Arguments Cache.saveWith : simpl never.

Lemma wp_true (A : Type) (p : Prog A) : wp p (fun _ _ => True).
Proof. induction p; simpl; auto. Qed.

Lemma cache_saves_app (a b : list Call) :
  cache_saves (a ++ b) = (cache_saves a ++ cache_saves b)%list.
Proof. apply observe_app. Qed.

Lemma state_answers_app (n : string) (a b : list Call) :
  state_answers n (a ++ b) = (state_answers n a ++ state_answers n b)%list.
Proof. apply flat_map_app. Qed.

(** The shared body of the two save methods reads the hit entry first;
    when it reads ["true"], it logs and returns. *)
Lemma wp_saveWith_after_hit (label stateName : string)
    (generate : Prog Cache.CacheKeyInfo) :
  wp (Cache.saveWith label stateName generate) (fun t r =>
    hd_error (state_answers (stateName ++ "-cache-hit") t) <> None
    /\ (hd_error (state_answers (stateName ++ "-cache-hit") t) = Some "true" ->
        cache_saves t = [] /\ r = inr tt
        /\ forall n, state_answers n t
                     = if String.eqb (stateName ++ "-cache-hit") n
                       then ["true"] else [])).
Proof.
  unfold Cache.saveWith, core_getState, core_debug. simpl. intro x.
  destruct (String.eqb x "true") eqn:E; simpl.
  - intros []. apply String.eqb_eq in E. subst x.
    unfold state_answers. simpl. rewrite String.eqb_refl. simpl.
    split; [discriminate |]. intros _. repeat split.
    intro n. destruct (String.eqb _ n); reflexivity.
  - intro y. eapply wp_mono; [| apply wp_true]. intros t r _.
    unfold state_answers. simpl. rewrite String.eqb_refl. simpl.
    split; [discriminate |].
    intro H. injection H as ->. discriminate E.
Qed.

Lemma hd_error_app_l (A : Type) (a b : list A) :
  hd_error a <> None -> hd_error (a ++ b) = hd_error a.
Proof. destruct a; simpl; [intro H; contradiction H |]; reflexivity. Qed.

Lemma state_answers_cons (n : string) (c : Call) (t : list Call) :
  state_answers n (c :: t) = (state_answer n c ++ state_answers n t)%list.
Proof. reflexivity. Qed.

Lemma cache_saves_cons (c : Call) (t : list Call) :
  cache_saves (c :: t) = (cache_saves [c] ++ cache_saves t)%list.
Proof. apply (cache_saves_app [c] t). Qed.

Lemma state_answers_skip (n : string) (c : Call) (t : list Call) :
  state_answer n c = [] -> state_answers n ([c] ++ t) = state_answers n t.
Proof. intro H. simpl. rewrite state_answers_cons, H. reflexivity. Qed.

Lemma cache_saves_skip (c : Call) (t : list Call) :
  cache_saves [c] = [] -> cache_saves ([c] ++ t) = cache_saves t.
Proof. intro H. rewrite cache_saves_app, H. reflexivity. Qed.

Lemma wp_try_finally (A : Type) (m : Prog A) (f : Prog unit)
    (Q : list Call -> Exn + A -> Prop) :
  wp m (fun t1 r1 =>
          wp f (fun t2 r2 =>
                  match r2 with
                  | inl e => Q (t1 ++ t2)%list (inl e)
                  | inr _ => Q (t1 ++ t2)%list r1
                  end)) ->
  wp (try_finally m f) Q.
Proof.
  intro H. unfold try_finally. apply wp_bind, wp_try_catch, wp_bind.
  eapply wp_mono; [| apply H]. clear H.
  intros t1 [e | a] H; simpl; rewrite ?app_nil_r; apply wp_bind;
    (eapply wp_mono; [| apply H]); intros t2 [e2 | []]; simpl;
    rewrite ?app_nil_r; auto.
Qed.

Lemma wp_save_body (host : Host) (this : Cache.CacheManager) :
  wp (core_startGroup "Saving cache" ;;
      Cache.saveComposerCache host this ;;
      Cache.saveNpmCache host this ;;
      core_info "Cache saving completed")
     (fun t r =>
        hd_error (state_answers "composer-cache-hit" t) = Some "true" ->
        hd_error (state_answers "npm-cache-hit" t) = Some "true" ->
        cache_saves t = []).
Proof.
  unfold Cache.saveComposerCache, Cache.saveNpmCache.
  apply wp_bind, wp_call. intros [].
  apply wp_bind. eapply wp_mono; [| apply wp_saveWith_after_hit].
  intros t1 r1 (Hne1 & H1).
  assert (Hc1 : forall t,
            hd_error (state_answers "composer-cache-hit" (t1 ++ t)) = Some "true" ->
            cache_saves t1 = [] /\ r1 = inr tt
            /\ state_answers "npm-cache-hit" t1 = []).
  { intros t Hc. rewrite state_answers_app, hd_error_app_l in Hc by exact Hne1.
    destruct (H1 Hc) as (Hs & Hr & Hn). rewrite (Hn "npm-cache-hit"). auto. }
  destruct r1 as [e | []].
  - rewrite state_answers_skip by reflexivity.
    intros Hc _. rewrite <- (app_nil_r t1) in Hc.
    destruct (Hc1 [] Hc) as (_ & Hr & _). discriminate Hr.
  - apply wp_bind. eapply wp_mono; [| apply wp_saveWith_after_hit].
    intros t2 r2 (Hne2 & H2).
    assert (Hc2 : forall t,
              hd_error (state_answers "composer-cache-hit" (t1 ++ t2 ++ t))
              = Some "true" ->
              hd_error (state_answers "npm-cache-hit" (t1 ++ t2 ++ t))
              = Some "true" ->
              cache_saves t1 = [] /\ cache_saves t2 = [] /\ r2 = inr tt).
    { intros t Hc Hn. destruct (Hc1 _ Hc) as (Hs1 & _ & Hn1).
      rewrite !state_answers_app, Hn1 in Hn. simpl in Hn.
      rewrite hd_error_app_l in Hn by exact Hne2.
      destruct (H2 Hn) as (Hs2 & Hr2 & _). auto. }
    destruct r2 as [e | []].
    + rewrite !state_answers_skip by reflexivity.
      intros Hc Hn. rewrite <- (app_nil_r t2) in Hc, Hn.
      destruct (Hc2 [] Hc Hn) as (_ & _ & Hr). discriminate Hr.
    + apply wp_call. intros [].
      rewrite !state_answers_skip, cache_saves_skip by reflexivity.
      intros Hc Hn. destruct (Hc2 _ Hc Hn) as (Hs1 & Hs2 & _).
      rewrite !cache_saves_app, Hs1, Hs2. reflexivity.
Qed.

Lemma wp_save_after_hits (host : Host) (this : Cache.CacheManager) :
  wp (Cache.save host this) (fun t r =>
    hd_error (state_answers "composer-cache-hit" t) = Some "true" ->
    hd_error (state_answers "npm-cache-hit" t) = Some "true" ->
    cache_saves t = []).
Proof.
  unfold Cache.save.
  destruct (negb (Cache.enabled (Cache.config this)));
    [simpl; intros; reflexivity |].
  apply wp_try_finally, wp_try_catch.
  eapply wp_mono; [| apply wp_save_body].
  intros t1 [e | []] H1.
  - apply wp_call. intros []. apply wp_call. intros [].
    rewrite <- !app_assoc.
    rewrite !state_answers_app, !cache_saves_app. simpl.
    rewrite !app_nil_r. exact H1.
  - apply wp_call. intros [].
    rewrite !state_answers_app, !cache_saves_app. simpl.
    rewrite !app_nil_r. exact H1.
Qed.

(** C5. When the save phase of an ecosystem reads ["true"] from the state
    entry [{ecosystem}-cache-hit], it does not call the cache save
    primitive; and when [save] reads ["true"] for both ecosystems, the whole
    save phase calls it for neither. *)
Theorem save_after_hit (host : Host) (this : Cache.CacheManager)
    (W : Type) (h : Handler W) (w : W) :
  let c := interp h (Cache.saveComposerCache host this) w in
  let n := interp h (Cache.saveNpmCache host this) w in
  let s := interp h (Cache.save host this) w in
  (hd_error (state_answers "composer-cache-hit" (trace c)) = Some "true" ->
   cache_saves (trace c) = [] /\ result c = inr tt)
  /\ (hd_error (state_answers "npm-cache-hit" (trace n)) = Some "true" ->
      cache_saves (trace n) = [] /\ result n = inr tt)
  /\ (hd_error (state_answers "composer-cache-hit" (trace s)) = Some "true" ->
      hd_error (state_answers "npm-cache-hit" (trace s)) = Some "true" ->
      cache_saves (trace s) = []).
Proof.
  cbv zeta. split; [| split].
  - intro H.
    destruct (wp_sound _ _ (wp_saveWith_after_hit "Composer" "composer"
                (Cache.generateComposerCacheKey host this)) h w) as (_ & Hs).
    destruct (Hs H) as (? & ? & _). auto.
  - intro H.
    destruct (wp_sound _ _ (wp_saveWith_after_hit "npm" "npm"
                (Cache.generateNpmCacheKey host this)) h w) as (_ & Hs).
    destruct (Hs H) as (? & ? & _). auto.
  - exact (wp_sound _ _ (wp_save_after_hits host this) h w).
Qed.

(** Both ecosystems hit at restore: the save phase saves nothing. *)
Lemma save_after_hit_witness :
  cache_saves (trace (interp (Example.handler Example.after_hit)
                             (Cache.save Example.host Example.manager) tt)) = [].
Proof.
  exact (proj2 (proj2 (@save_after_hit Example.host Example.manager unit
                         (Example.handler Example.after_hit) tt))
               eq_refl eq_refl).
Defined.

(** Both ecosystems missed at restore: the save phase saves the two
    directories that exist, each under the key of its ecosystem. *)
Example save_after_miss :
  cache_saves (trace (interp (Example.handler Example.after_miss)
                             (Cache.save Example.host Example.manager) tt))
  = [ (["vendor"], "code-quality-action-linux-composer-no-lock");
      (["node_modules"], "code-quality-action-linux-npm-no-lock") ].
Proof. vm_compute. reflexivity. Qed.

Lemma on_disk_trace (W A : Type) (h : Handler W) (d : Disk) (p : Prog A) (w : W) :
  on_disk h d -> Forall (agrees d) (trace (interp h p w)).
Proof.
  intro H. revert w. induction p as [a | e | r k IH]; intro w; simpl.
  - constructor.
  - constructor.
  - specialize (H r w). destruct (h r w) as [w1 x]. simpl in *.
    constructor; [exact H | apply IH].
Qed.

Lemma example_on_disk (s : Example.Scenario) :
  on_disk (Example.handler s) (Example.disk s).
Proof.
  intros r w. destruct r; simpl; trivial; unfold Example.disk;
    destruct (Example.lookup p (Example.sc_disk s)); reflexivity.
Qed.

Lemma wp_generateNpmCacheKey (host : Host) (this : Cache.CacheManager) (d : Disk) :
  wp (Cache.generateNpmCacheKey host this) (fun t r =>
    Forall (agrees d) t ->
    r = inr
          (let prefix := Cache.keyPrefix (Cache.config this) in
           let platform := process_platform host in
           let '(hash, pm) :=
             match selectLockfile host d (Cache.workingDirectory this) with
             | Some (content, label) =>
                 (JsString.take 8 (sha256_hex host content), label)
             | None => ("no-lock", "npm")
             end in
           {| Cache.key := prefix ++ "-" ++ platform ++ "-" ++ pm ++ "-" ++ hash;
              Cache.restoreKeys :=
                [ prefix ++ "-" ++ platform ++ "-" ++ pm ++ "-";
                  prefix ++ "-" ++ platform ++ "-";
                  prefix ++ "-" ];
              Cache.paths := Cache.npmPaths host this |})).
Proof.
  unfold Cache.generateNpmCacheKey, fileExists, Cache.hashLockFile,
    Cache.readFile, Cache.hashPrefix, selectLockfile.
  cbv zeta. simpl.
  intros [e1 | []]; simpl.
  - intros [e2 | []]; simpl.
    + intros [e3 | []]; simpl.
      * intro HF. rewrite !Forall_cons_iff in HF. simpl in HF.
        destruct HF as (H1 & H2 & H3 & _).
        destruct (d _); [discriminate H1 |].
        destruct (d _); [discriminate H2 |].
        destruct (d _); [discriminate H3 |]. reflexivity.
      * intros [e4 | c]; simpl; intro HF; rewrite !Forall_cons_iff in HF;
          simpl in HF; destruct HF as (H1 & H2 & H3 & H4 & _);
          (destruct (d _); [discriminate H1 |]);
          (destruct (d _); [discriminate H2 |]);
          (destruct (d _); [| discriminate H3]);
          [discriminate H4 | injection H4 as ->; reflexivity].
    + intros [e4 | c]; simpl; intro HF; rewrite !Forall_cons_iff in HF;
        simpl in HF; destruct HF as (H1 & H2 & H4 & _);
        (destruct (d _); [discriminate H1 |]);
        (destruct (d _); [| discriminate H2]);
        [discriminate H4 | injection H4 as ->; reflexivity].
  - intros [e4 | c]; simpl; intro HF; rewrite !Forall_cons_iff in HF;
      simpl in HF; destruct HF as (H1 & H4 & _);
      (destruct (d _); [| discriminate H1]);
      [discriminate H4 | injection H4 as ->; reflexivity].
Qed.

(** C7. On a disk that stays as it is, [generateNpmCacheKey] takes the
    pnpm lock file if there is one, else the yarn one, else the npm one;
    the file it takes gives the label and the first eight hex digits of the
    SHA-256 of its content; with no lock file the label is [npm] and the
    hash is the literal [no-lock]; and the key is
    [{prefix}-{platform}-{packageManager}-{hash}]. *)
Theorem npm_key_selection (host : Host) (this : Cache.CacheManager)
    (W : Type) (h : Handler W) (w : W) (d : Disk) :
  on_disk h d ->
  let prefix := Cache.keyPrefix (Cache.config this) in
  let platform := process_platform host in
  let '(hash, pm) :=
    match selectLockfile host d (Cache.workingDirectory this) with
    | Some (content, label) => (JsString.take 8 (sha256_hex host content), label)
    | None => ("no-lock", "npm")
    end in
  result (interp h (Cache.generateNpmCacheKey host this) w)
  = inr {| Cache.key := prefix ++ "-" ++ platform ++ "-" ++ pm ++ "-" ++ hash;
           Cache.restoreKeys :=
             [ prefix ++ "-" ++ platform ++ "-" ++ pm ++ "-";
               prefix ++ "-" ++ platform ++ "-";
               prefix ++ "-" ];
           Cache.paths := Cache.npmPaths host this |}.
Proof.
  intro H.
  pose proof (wp_sound _ _ (wp_generateNpmCacheKey host this d) h w
                (@on_disk_trace W _ h d _ w H)) as Hr.
  cbv zeta in *. destruct (selectLockfile _ _ _) as [[c l] |]; exact Hr.
Qed.

(** A repository with a yarn and an npm lock file is keyed by yarn; an
    empty one by [npm] and [no-lock]. *)
Lemma npm_key_selection_witness :
  result (interp (Example.handler Example.repository)
            (Cache.generateNpmCacheKey Example.host Example.manager) tt)
  = inr {| Cache.key := "code-quality-action-linux-yarn-e3b0c442";
           Cache.restoreKeys := ["code-quality-action-linux-yarn-";
                                 "code-quality-action-linux-";
                                 "code-quality-action-"];
           Cache.paths := ["node_modules"] |}
  /\ result (interp (Example.handler Example.quiet)
               (Cache.generateNpmCacheKey Example.host Example.manager) tt)
     = inr {| Cache.key := "code-quality-action-linux-npm-no-lock";
              Cache.restoreKeys := ["code-quality-action-linux-npm-";
                                    "code-quality-action-linux-";
                                    "code-quality-action-"];
              Cache.paths := ["node_modules"] |}.
Proof.
  split.
  - exact (@npm_key_selection Example.host Example.manager unit
             (Example.handler Example.repository) tt
             (Example.disk Example.repository)
             (example_on_disk Example.repository)).
  - exact (@npm_key_selection Example.host Example.manager unit
             (Example.handler Example.quiet) tt
             (Example.disk Example.quiet)
             (example_on_disk Example.quiet)).
Defined.

(* ================================================================== *)
(** ** Fallback restore keys (C1)                                      *)
(* ================================================================== *)

Lemma prefix_nil (b : string) : String.prefix "" b = true.
Proof. destruct b; reflexivity. Qed.

Lemma prefix_append (a b : string) : String.prefix a (a ++ b) = true.
Proof.
  induction a as [| c a IH]; simpl.
  - apply prefix_nil.
  - destruct (ascii_dec c c) as [_ | Hne]; [exact IH | contradiction Hne; reflexivity].
Qed.

Lemma prefix_append_cancel (a b c : string) :
  String.prefix (a ++ b) (a ++ c) = String.prefix b c.
Proof.
  induction a as [| x a IH]; simpl.
  - reflexivity.
  - destruct (ascii_dec x x) as [_ | Hne]; [exact IH | contradiction Hne; reflexivity].
Qed.

Lemma length_append (a b : string) :
  String.length (a ++ b) = String.length a + String.length b.
Proof. induction a as [| c a IH]; simpl; [reflexivity | rewrite IH; reflexivity]. Qed.

Lemma append_assoc (a b c : string) : (a ++ b) ++ c = a ++ (b ++ c).
Proof. induction a as [| x a IH]; simpl; [reflexivity | rewrite IH; reflexivity]. Qed.

Lemma proper_prefix_append (a b : string) :
  JsString.truthy b = true -> proper_prefix a (a ++ b) = true.
Proof.
  intro H. unfold proper_prefix. rewrite prefix_append, length_append. simpl.
  destruct b; [discriminate H |]. simpl. apply Nat.ltb_lt. lia.
Qed.

Lemma prefix_of_append (k rest key : string) :
  key = k ++ rest -> String.prefix k key = true.
Proof. intros ->. apply prefix_append. Qed.

Lemma proper_prefix_of_append (k rest key : string) :
  key = k ++ rest -> JsString.truthy rest = true -> proper_prefix k key = true.
Proof. intros -> H. apply proper_prefix_append, H. Qed.

(** The fallback keys of the JavaScript ecosystem are prefixes of the
    primary key, each a proper prefix of the one before. *)
Lemma npm_restoreKeys_prefixes (prefix platform pm hash : string) :
  forallb (fun k => String.prefix k (Cache.npmKey prefix platform pm hash))
          (Cache.npmRestoreKeys prefix platform pm) = true
  /\ strictly_decreasing (Cache.npmRestoreKeys prefix platform pm) = true.
Proof.
  unfold Cache.npmKey, Cache.npmRestoreKeys, strictly_decreasing.
  cbn [forallb decreasing]. split.
  - rewrite (prefix_of_append (prefix ++ "-" ++ platform ++ "-" ++ pm ++ "-") hash)
      by (rewrite !append_assoc; reflexivity).
    rewrite (prefix_of_append (prefix ++ "-" ++ platform ++ "-")
                              (pm ++ "-" ++ hash))
      by (rewrite !append_assoc; reflexivity).
    rewrite (prefix_of_append (prefix ++ "-")
                              (platform ++ "-" ++ pm ++ "-" ++ hash))
      by (rewrite !append_assoc; reflexivity).
    reflexivity.
  - rewrite (proper_prefix_of_append (prefix ++ "-" ++ platform ++ "-")
                                     (pm ++ "-"))
      by (rewrite ?append_assoc; destruct pm; reflexivity).
    rewrite (proper_prefix_of_append (prefix ++ "-") (platform ++ "-"))
      by (rewrite ?append_assoc; destruct platform; reflexivity).
    reflexivity.
Qed.

Lemma composer_first_restoreKey (prefix platform hash : string) :
  String.prefix (prefix ++ "-" ++ platform ++ "-composer-")
                (Cache.composerKey prefix platform hash) = true.
Proof.
  unfold Cache.composerKey.
  replace (prefix ++ "-" ++ platform ++ "-composer-" ++ hash)
    with ((prefix ++ "-" ++ platform ++ "-composer-") ++ hash)
    by (rewrite !append_assoc; reflexivity).
  apply prefix_append.
Qed.

(** The second Composer fallback key is a prefix of the primary key only
    if the platform, followed by [-composer-] and the hash, itself starts
    with [composer-]. *)
Lemma composer_second_restoreKey (prefix platform hash : string) :
  String.prefix (prefix ++ "-composer-") (Cache.composerKey prefix platform hash)
  = String.prefix "composer-" (platform ++ "-composer-" ++ hash).
Proof.
  unfold Cache.composerKey. rewrite prefix_append_cancel. reflexivity.
Qed.

(** C1 fails on the Composer side.  On Linux, with the default key prefix
    and no [composer.lock], [generateComposerCacheKey] returns the fallback
    key [code-quality-action-composer-], which is no prefix of the primary
    key [code-quality-action-linux-composer-no-lock]; and so it is on every
    platform Node knows, for every key prefix and hash.  The first Composer
    fallback key is a prefix of the primary key, and the three fallback keys
    of the JavaScript ecosystem are prefixes of the primary key in strictly
    decreasing specificity. *)
Theorem composer_fallback_not_prefix :
  let o := interp (Example.handler Example.quiet)
             (Cache.generateComposerCacheKey Example.host Example.manager) tt in
  result o
  = inr {| Cache.key := "code-quality-action-linux-composer-no-lock";
           Cache.restoreKeys := ["code-quality-action-linux-composer-";
                                 "code-quality-action-composer-"];
           Cache.paths := ["vendor"] |}
  /\ map (fun k => String.prefix k "code-quality-action-linux-composer-no-lock")
         ["code-quality-action-linux-composer-";
          "code-quality-action-composer-"]
     = [true; false]
  /\ (forall prefix hash,
        forallb (fun platform =>
                   negb (String.prefix (nth 1 (Cache.composerRestoreKeys prefix platform) "")
                                       (Cache.composerKey prefix platform hash)))
                node_platforms = true)
  /\ (forall prefix platform hash,
        String.prefix (nth 0 (Cache.composerRestoreKeys prefix platform) "")
                      (Cache.composerKey prefix platform hash) = true)
  /\ (forall prefix platform pm hash,
        forallb (fun k => String.prefix k (Cache.npmKey prefix platform pm hash))
                (Cache.npmRestoreKeys prefix platform pm) = true
        /\ strictly_decreasing (Cache.npmRestoreKeys prefix platform pm) = true).
Proof.
  cbv zeta. split; [vm_compute; reflexivity |].
  split; [vm_compute; reflexivity |].
  split; [| split].
  - intros prefix hash. unfold node_platforms. cbn [forallb nth Cache.composerRestoreKeys].
    rewrite !composer_second_restoreKey. reflexivity.
  - intros. apply composer_first_restoreKey.
  - intros. apply npm_restoreKeys_prefixes.
Qed.

(* ================================================================== *)
(** ** Config resolution (C4)                                          *)
(* ================================================================== *)

#[local] Arguments warnings : simpl never.

Lemma warnings_cons (c : Call) (t : list Call) :
  warnings (c :: t) = (warnings [c] ++ warnings t)%list.
Proof. apply (warnings_app [c] t). Qed.

Section Resolution.

Variable host : Host.
Variable d : Disk.

Lemma wp_findRepositoryConfig t wd l :
  wp (Resolver.findRepositoryConfig host t wd l) (fun tr r =>
    Forall (agrees d) tr ->
    r = inr (option_map (path_resolve host wd)
                        (find (fun f => found_on d (path_resolve host wd f)) l))
    /\ warnings tr = []).
Proof.
  induction l as [| f l IH]; simpl.
  - auto.
  - intros [|]; simpl.
    + intros [] HF. rewrite !Forall_cons_iff in HF. simpl in HF.
      destruct HF as (H1 & _). unfold found_on. rewrite <- H1. auto.
    + eapply wp_mono; [| apply IH]. intros tr r H HF.
      rewrite Forall_cons_iff in HF. simpl in HF. destruct HF as (H1 & HF).
      change (found_on d (path_resolve host wd f))
        with (present (d (path_resolve host wd f))). rewrite <- H1.
      destruct (H HF) as (-> & Hw). split; [reflexivity |].
      rewrite warnings_cons, Hw. reflexivity.
Qed.

Lemma wp_defaultOrNone t :
  wp (Resolver.defaultOrNone host t) (fun tr r =>
    Forall (agrees d) tr ->
    r = inr (if JsString.truthy (Resolver.DEFAULT_CONFIGS host t)
                && found_on d (Resolver.DEFAULT_CONFIGS host t)
             then Some (Resolver.DEFAULT_CONFIGS host t) else None)
    /\ warnings tr = []).
Proof.
  unfold Resolver.defaultOrNone. cbv zeta.
  destruct (JsString.truthy (Resolver.DEFAULT_CONFIGS host t)); simpl.
  - intros [|]; simpl; intros [] HF; rewrite !Forall_cons_iff in HF;
      simpl in HF; destruct HF as (H1 & _); unfold found_on; rewrite <- H1; auto.
  - intros [] _. auto.
Qed.

Lemma wp_resolveFallthrough t wd :
  wp (Resolver.resolveFallthrough host t wd) (fun tr r =>
    Forall (agrees d) tr ->
    r = inr (resolveSpec host (found_on d) t None wd) /\ warnings tr = []).
Proof.
  unfold Resolver.resolveFallthrough, resolveSpec. cbv zeta. simpl customGiven.
  apply wp_bind. eapply wp_mono; [| apply wp_findRepositoryConfig].
  intros t1 r1 H1.
  destruct r1 as [e | [p |]].
  - intro HF. destruct (H1 HF) as (Hr & _). discriminate Hr.
  - simpl. rewrite app_nil_r. intro HF. destruct (H1 HF) as (Hr & Hw).
    injection Hr as Hr. destruct (find _ _); [| discriminate Hr].
    simpl in Hr. injection Hr as ->. auto.
  - eapply wp_mono; [| apply wp_defaultOrNone].
    intros t2 r2 H2 HF. apply Forall_app in HF. destruct HF as (HF1 & HF2).
    destruct (H1 HF1) as (Hr & Hw). destruct (H2 HF2) as (-> & Hw2).
    injection Hr as Hr. destruct (find _ _); [discriminate Hr |].
    rewrite warnings_app, Hw, Hw2. auto.
Qed.

Lemma wp_resolveConfig t custom wd :
  wp (Resolver.resolveConfig host t custom wd) (fun tr r =>
    Forall (agrees d) tr ->
    r = inr (resolveSpec host (found_on d) t custom wd)
    /\ warnings tr
       = match customGiven custom with
         | Some c =>
             if found_on d (path_resolve host wd c) then []
             else ["Custom config not found for " ++ ToolName_to_string t
                   ++ ": " ++ c]
         | None => []
         end).
Proof.
  unfold Resolver.resolveConfig.
  destruct custom as [c |]; [| apply wp_resolveFallthrough].
  unfold customGiven, JsString.or_undefined, resolveSpec. cbv zeta.
  unfold customGiven, JsString.or_undefined.
  destruct (JsString.truthy c); [| apply wp_resolveFallthrough].
  simpl. intros [|]; simpl.
  - intros [] HF. rewrite !Forall_cons_iff in HF. simpl in HF.
    destruct HF as (H1 & _). unfold found_on. rewrite <- H1. auto.
  - intros []. eapply wp_mono; [| apply wp_resolveFallthrough].
    intros tr r H HF. rewrite !Forall_cons_iff in HF. simpl in HF.
    destruct HF as (H1 & _ & HF). change (found_on d (path_resolve host wd c))
      with (present (d (path_resolve host wd c))). rewrite <- H1.
    destruct (H HF) as (-> & Hw). split; [reflexivity |].
    match goal with
    | |- context [warnings (?a :: ?b :: tr)] =>
        change (warnings (a :: b :: tr)) with (warnings ([a; b] ++ tr)%list);
        rewrite (warnings_app [a; b] tr), Hw
    end.
    reflexivity.
Qed.

Lemma resolveSpec_found t custom wd p :
  resolveSpec host (found_on d) t custom wd = Some p -> found_on d p = true.
Proof.
  unfold resolveSpec. cbv zeta.
  assert (Hlower :
    match find (fun f => found_on d (path_resolve host wd f))
               (Resolver.CONFIG_FILENAMES t) with
    | Some f => Some (path_resolve host wd f)
    | None =>
        if JsString.truthy (Resolver.DEFAULT_CONFIGS host t)
           && found_on d (Resolver.DEFAULT_CONFIGS host t)
        then Some (Resolver.DEFAULT_CONFIGS host t) else None
    end = Some p -> found_on d p = true).
  { destruct (find _ _) as [f |] eqn:Ef.
    - intro H. injection H as <-. apply find_some in Ef. apply Ef.
    - destruct (JsString.truthy _); simpl; [| discriminate].
      destruct (found_on d (Resolver.DEFAULT_CONFIGS host t)) eqn:Eb; [| discriminate].
      intro H. injection H as <-. exact Eb. }
  destruct (customGiven custom) as [c |]; [| exact Hlower].
  destruct (found_on d (path_resolve host wd c)) eqn:Ec; [| exact Hlower].
  intro H. injection H as <-. exact Ec.
Qed.

End Resolution.

(** C4. On a disk that stays as it is, [resolveConfig] returns what the
    three tiers of the specification select: the resolved custom path if one
    is given and exists; else the first conventional file name of the tool
    that exists in the working directory; else the bundled default if its
    path is not empty and exists; else nothing.  It never throws, whatever
    it returns exists, it returns the custom path if and only if that path
    exists, and a custom path that does not exist costs one warning and
    nothing more.  (A custom path that is the empty string counts as not
    given, as [undefined] does.) *)
Theorem resolveConfig_priority (host : Host) (t : ToolName)
    (custom : option string) (wd : string)
    (W : Type) (h : Handler W) (w : W) (d : Disk) :
  on_disk h d ->
  let o := interp h (Resolver.resolveConfig host t custom wd) w in
  let found := found_on d in
  result o = inr (resolveSpec host found t custom wd)
  /\ (forall p, result o = inr (Some p) -> found p = true)
  /\ match customGiven custom with
     | Some c =>
         (result o = inr (Some (path_resolve host wd c))
          <-> found (path_resolve host wd c) = true)
         /\ warnings (trace o)
            = (if found (path_resolve host wd c) then []
               else ["Custom config not found for " ++ ToolName_to_string t
                     ++ ": " ++ c])
     | None => warnings (trace o) = []
     end.
Proof.
  intro H. cbv zeta.
  destruct (wp_sound _ _ (wp_resolveConfig host d t custom wd) h w
              (@on_disk_trace W _ h d _ w H)) as (Hr & Hw).
  split; [exact Hr | split].
  - intros p Hp. rewrite Hr in Hp. injection Hp as Hp.
    exact (resolveSpec_found host d t custom wd Hp).
  - destruct (customGiven custom) as [c |] eqn:Ec; [| exact Hw].
    split; [| exact Hw]. rewrite Hr. split.
    + intro Hp. injection Hp as Hp.
      exact (resolveSpec_found host d t custom wd Hp).
    + intro Hf. unfold resolveSpec. cbv zeta. rewrite Ec, Hf. reflexivity.
Qed.

(** The custom path does not exist, the repository has
    [phpstan.neon.dist] and the action bundles a default: the repository
    file wins, and the missing custom path is warned about. *)
Lemma resolveConfig_priority_witness :
  let o := interp (Example.handler Example.repository)
             (Resolver.resolveConfig Example.host phpstan
                                     (Some "custom.neon") ".") tt in
  result o = inr (Some "/home/runner/work/app/phpstan.neon.dist")
  /\ warnings (trace o) = ["Custom config not found for phpstan: custom.neon"].
Proof.
  pose proof (@resolveConfig_priority Example.host phpstan (Some "custom.neon")
                "." unit (Example.handler Example.repository) tt
                (Example.disk Example.repository)
                (example_on_disk Example.repository)) as (Hr & _ & _ & Hw).
  split; [exact Hr | exact Hw].
Defined.

(* ================================================================== *)
(** ** Strings: what [trim] leaves                                     *)
(* ================================================================== *)

Lemma drop_append (a b : string) : JsString.drop (String.length a) (a ++ b) = b.
Proof. induction a as [| c a IH]; simpl; [destruct b; reflexivity | exact IH]. Qed.

Lemma forallb_append (p : ascii -> bool) (a b : string) :
  JsString.forallb p (a ++ b)
  = JsString.forallb p a && JsString.forallb p b.
Proof.
  induction a as [| c a IH]; simpl.
  - reflexivity.
  - rewrite IH, andb_assoc. reflexivity.
Qed.

Lemma take_drop (k : nat) (s : string) :
  JsString.take k s ++ JsString.drop k s = s.
Proof.
  revert s. induction k as [| k IH]; intros [| c r]; simpl; try reflexivity.
  rewrite IH. reflexivity.
Qed.

Lemma length_drop (k : nat) (s : string) :
  String.length (JsString.drop k s) = String.length s - k.
Proof.
  revert s. induction k as [| k IH]; intros [| c r]; simpl; try reflexivity.
  apply IH.
Qed.

(** Induction on the length of a string. *)
Lemma string_length_ind (P : string -> Prop) :
  (forall s, (forall t, String.length t < String.length s -> P t) -> P s) ->
  forall s, P s.
Proof.
  intros H s. apply H.
  induction (String.length s) as [| n IH]; intros t Ht; [lia |].
  apply H. intros u Hu. apply IH. lia.
Qed.

Ltac space_cases :=
  repeat match goal with
         | |- context [if ?b then _ else _] => destruct b
         | H : context [if ?b then _ else _] |- _ => destruct b
         end.

Lemma space_len_le (s : string) : JsString.space_len s <= String.length s.
Proof.
  destruct s as [| a [| b [| c r]]];
    cbn [JsString.space_len String.length]; space_cases; lia.
Qed.

Lemma space_len_append (s t : string) (n : nat) :
  JsString.space_len s = S n -> JsString.space_len (s ++ t) = S n.
Proof.
  destruct s as [| a [| b [| c r]]];
    cbn [JsString.space_len append]; intro H; space_cases;
    solve [exact H | discriminate H].
Qed.

Lemma drop_spaces_drop (k : nat) (s : string) :
  JsString.drop_spaces k s = JsString.trimStart (JsString.drop k s).
Proof.
  revert s. induction k as [| k IH]; intro s; [reflexivity |].
  destruct s as [| c r]; [reflexivity |].
  cbn [JsString.drop_spaces JsString.drop]. apply IH.
Qed.

(** [trimStart] removes one white-space character after the other. *)
Lemma trimStart_eq (s : string) :
  JsString.trimStart s
  = match JsString.space_len s with
    | O => s
    | S k => JsString.trimStart (JsString.drop (S k) s)
    end.
Proof.
  unfold JsString.trimStart at 1. destruct s as [| c r]; [reflexivity |].
  cbn [JsString.drop_spaces].
  destruct (JsString.space_len (String c r)); [reflexivity |].
  cbn [JsString.drop]. apply drop_spaces_drop.
Qed.

Lemma space_len_nonempty (s : string) (k : nat) :
  JsString.space_len s = S k -> String.length (JsString.drop (S k) s) < String.length s.
Proof.
  intro H. pose proof (space_len_le s). rewrite length_drop. lia.
Qed.

Lemma trimStart_head (s : string) : JsString.space_len (JsString.trimStart s) = 0.
Proof.
  induction s as [s IH] using string_length_ind.
  rewrite trimStart_eq. destruct (JsString.space_len s) as [| k] eqn:E.
  - exact E.
  - apply IH, space_len_nonempty, E.
Qed.

Lemma trimStart_suffix (s : string) : exists p, s = p ++ JsString.trimStart s.
Proof.
  induction s as [s IH] using string_length_ind.
  rewrite trimStart_eq. destruct (JsString.space_len s) as [| k] eqn:E.
  - exists EmptyString. reflexivity.
  - destruct (IH _ (space_len_nonempty _ E)) as [p Hp].
    exists (JsString.take (S k) s ++ p).
    rewrite append_assoc, <- Hp, take_drop. reflexivity.
Qed.

Lemma trimStart_fixed (s : string) :
  JsString.space_len s = 0 -> JsString.trimStart s = s.
Proof. intro H. rewrite trimStart_eq, H. reflexivity. Qed.

Lemma trimEnd_cons (c : ascii) (r : string) :
  JsString.trimEnd (String c r)
  = if String.eqb (JsString.trimStart (String c r)) EmptyString
    then EmptyString else String c (JsString.trimEnd r).
Proof. reflexivity. Qed.

Lemma trimEnd_prefix (s : string) :
  exists q, s = JsString.trimEnd s ++ q /\ JsString.trimStart q = EmptyString.
Proof.
  induction s as [| c r IH].
  - exists EmptyString. split; reflexivity.
  - rewrite trimEnd_cons.
    destruct (String.eqb (JsString.trimStart (String c r)) EmptyString) eqn:E.
    + exists (String c r). split; [reflexivity |]. apply String.eqb_eq, E.
    + destruct IH as (q & Hq & Hs). exists q. split; [| exact Hs].
      simpl. rewrite <- Hq. reflexivity.
Qed.

Lemma trimEnd_last (s : string) :
  JsString.ends_with_space (JsString.trimEnd s) = false.
Proof.
  induction s as [| c r IH]; [reflexivity |].
  rewrite trimEnd_cons.
  destruct (String.eqb (JsString.trimStart (String c r)) EmptyString) eqn:E;
    [reflexivity |].
  cbn [JsString.ends_with_space]. rewrite IH, orb_false_r.
  destruct (JsString.is_space_char (String c (JsString.trimEnd r))) eqn:Ec;
    [| reflexivity].
  exfalso. unfold JsString.is_space_char in Ec. cbn [JsString.truthy andb] in Ec.
  apply Nat.eqb_eq in Ec.
  destruct (trimEnd_prefix r) as (q & Hq & Hs).
  assert (Hcr : String c r = String c (JsString.trimEnd r) ++ q)
    by (simpl; rewrite <- Hq; reflexivity).
  cbn [String.length] in Ec.
  pose proof (@space_len_append _ q _ Ec) as Hl. rewrite <- Hcr in Hl.
  rewrite trimStart_eq, Hl in E.
  change (S (String.length (JsString.trimEnd r)))
    with (String.length (String c (JsString.trimEnd r))) in E.
  rewrite Hcr, drop_append, Hs in E. discriminate E.
Qed.

Lemma trimEnd_head (s : string) :
  JsString.space_len s = 0 -> JsString.space_len (JsString.trimEnd s) = 0.
Proof.
  intro H. destruct (trimEnd_prefix s) as (q & Hq & _).
  destruct (JsString.space_len (JsString.trimEnd s)) as [| n] eqn:E;
    [reflexivity |].
  pose proof (@space_len_append _ q _ E) as Hl. rewrite <- Hq in Hl. congruence.
Qed.

Lemma trim_trimmed (s : string) : trimmed (JsString.trim s) = true.
Proof.
  unfold trimmed, JsString.trim.
  rewrite (trimEnd_head _ (trimStart_head s)), trimEnd_last. reflexivity.
Qed.

Lemma ends_with_space_drop (k : nat) (s : string) :
  JsString.ends_with_space (JsString.drop k s) = true ->
  JsString.ends_with_space s = true.
Proof.
  revert s. induction k as [| k IH]; intros [| c r]; simpl; auto.
  intro H. rewrite (IH _ H). apply orb_true_r.
Qed.

(** A non-empty string of white space ends with white space. *)
Lemma all_space_ends (s : string) :
  JsString.trimStart s = EmptyString -> s <> EmptyString ->
  JsString.ends_with_space s = true.
Proof.
  induction s as [s IH] using string_length_ind. intros H Hne.
  rewrite trimStart_eq in H. destruct (JsString.space_len s) as [| k] eqn:E;
    [contradiction |].
  destruct (JsString.drop (S k) s) as [| c' r'] eqn:Ed.
  - pose proof (space_len_le s) as Hle.
    pose proof (length_drop (S k) s) as Hd. rewrite Ed in Hd. simpl in Hd.
    destruct s as [| c r]; [contradiction |].
    cbn [JsString.ends_with_space]. unfold JsString.is_space_char.
    cbn [JsString.truthy andb].
    replace (JsString.space_len (String c r)) with (String.length (String c r))
      by lia.
    rewrite Nat.eqb_refl. reflexivity.
  - apply (@ends_with_space_drop (S k)). rewrite Ed.
    apply IH; [rewrite <- Ed; apply space_len_nonempty, E | exact H
              | discriminate].
Qed.

Lemma trimEnd_fixed (s : string) :
  JsString.ends_with_space s = false -> JsString.trimEnd s = s.
Proof.
  induction s as [| c r IH]; intro H; [reflexivity |].
  rewrite trimEnd_cons.
  destruct (String.eqb (JsString.trimStart (String c r)) EmptyString) eqn:E.
  - apply String.eqb_eq in E.
    rewrite (all_space_ends E) in H by discriminate. discriminate H.
  - cbn [JsString.ends_with_space] in H. apply orb_false_iff in H.
    rewrite (IH (proj2 H)). reflexivity.
Qed.

Lemma trimmed_fixed (s : string) : trimmed s = true -> JsString.trim s = s.
Proof.
  unfold trimmed, JsString.trim. intro H. apply andb_prop in H.
  destruct H as [Hs He]. apply Nat.eqb_eq in Hs. apply negb_true_iff in He.
  rewrite (trimStart_fixed _ Hs). apply trimEnd_fixed, He.
Qed.

Lemma trim_idempotent (s : string) :
  JsString.trim (JsString.trim s) = JsString.trim s.
Proof. apply trimmed_fixed, trim_trimmed. Qed.

(* ================================================================== *)
(** ** utils/exec.ts, utils/glob.ts, utils/toolCheck.ts                *)
(* ================================================================== *)

#[local] Arguments started_in : simpl never.
#[local] Arguments exec_answers : simpl never.
#[local] Arguments spawned : simpl never.

(** X1. [executeCommand] starts one process, in [cwd] or, when [cwd] is
    missing or empty, in the current directory of the action.  A process
    that runs to its end gives a result whatever its exit code, with both
    outputs trimmed, so that neither begins or ends with white space and
    trimming them again changes nothing; the call throws exactly when the
    process could not be run.  [commandExists] asks [which] and never
    throws: it is [true] when [which] exits 0 and [false] otherwise, also
    when [which] itself cannot be run. *)
Theorem executeCommand_outcome (host : Host) (command : string)
    (args : list string) (cwd : option string)
    (W : Type) (h : Handler W) (w : W) :
  let o := interp h (executeCommand host command args cwd) w in
  let x := interp h (commandExists host command) w in
  let dir := match cwd with
             | Some (String c d) => String c d
             | _ => process_cwd host
             end in
  started_in (trace o) = [(command, args, dir)]
  /\ match exec_answers (trace o) with
     | [inr out] =>
         exists res,
           result o = inr res
           /\ exitCode res = exec_exitCode out
           /\ stdout res = JsString.trim (exec_stdout out)
           /\ stderr res = JsString.trim (exec_stderr out)
           /\ trimmed (stdout res) = true /\ trimmed (stderr res) = true
           /\ JsString.trim (stdout res) = stdout res
     | [inl e] => result o = inl e
     | _ => False
     end
  /\ started_in (trace x) = [("which", [command], process_cwd host)]
  /\ result x = inr match exec_answers (trace x) with
                    | [inr out] => Z.eqb (exec_exitCode out) 0
                    | _ => false
                    end.
Proof.
  cbv zeta. unfold commandExists, executeCommand. cbv zeta. simpl.
  split; [| split; [| split]].
  - destruct (h _ w) as [w1 [e | out]]; destruct cwd as [[| c d] |]; reflexivity.
  - destruct (h _ w) as [w1 [e | out]]; simpl; [reflexivity |].
    eexists. repeat split; simpl;
      auto using trim_trimmed, trim_idempotent.
  - destruct (h _ w) as [w1 [e | out]]; reflexivity.
  - destruct (h _ w) as [w1 [e | out]]; reflexivity.
Qed.

Lemma replace_at_head (s pat rep : string) :
  String.prefix pat s = true ->
  JsString.replace s pat rep = rep ++ JsString.drop (String.length pat) s.
Proof. intro H. destruct s; simpl; simpl in H; rewrite H; reflexivity. Qed.

Lemma replace_strips (d rel : string) :
  JsString.replace (d ++ "/" ++ rel) (d ++ "/") "" = rel.
Proof.
  rewrite <- append_assoc.
  rewrite replace_at_head by apply prefix_append.
  simpl. apply drop_append.
Qed.

Lemma replace_absent (s pat rep : string) :
  JsString.includes s pat = false -> JsString.replace s pat rep = s.
Proof.
  induction s as [| c s IH]; intro H.
  - simpl in *. destruct pat; [discriminate H | reflexivity].
  - cbn [JsString.includes] in H. apply orb_false_iff in H.
    destruct H as [Hp Hs]. cbn [JsString.replace]. rewrite Hp, (IH Hs).
    reflexivity.
Qed.

Lemma replace_first (pre pat rep post : string) :
  (forall k, k < String.length pre ->
     JsString.occurs_at pat (pre ++ pat ++ post) k = false) ->
  JsString.replace (pre ++ pat ++ post) pat rep = pre ++ rep ++ post.
Proof.
  induction pre as [| c pre IH]; intro H.
  - cbn [append]. rewrite replace_at_head by apply prefix_append.
    rewrite drop_append. reflexivity.
  - pose proof (H 0 ltac:(simpl; lia)) as H0.
    unfold JsString.occurs_at in H0. cbn [JsString.drop append] in H0.
    cbn [append JsString.replace]. rewrite H0. f_equal. apply IH.
    intros k Hk. apply (H (S k)). simpl. lia.
Qed.

#[local] Arguments globbed : simpl never.
#[local] Arguments glob_answers : simpl never.

(** X2. [findFiles] runs one file search for its pattern and rejects when
    the search rejects.  It returns as many names as the search found:
    unchanged when the working directory is missing, empty or [.], and
    otherwise each with the first occurrence of [cwd/] cut out, wherever in
    the name it is: a name without [cwd/] stays as it is, a file found as
    [cwd/rel] comes back as [rel], and a name [pre ++ cwd/ ++ post] in
    which [cwd/] occurs at no offset inside [pre] comes back as
    [pre ++ post].  [hasMatchingFiles] tells whether the search found
    anything. *)
Theorem findFiles_outcome (pattern : string) (cwd : option string)
    (W : Type) (h : Handler W) (w : W) :
  let o := interp h (findFiles pattern cwd) w in
  let m := interp h (hasMatchingFiles pattern cwd) w in
  let relative := match cwd with
                  | Some d => JsString.truthy d && negb (String.eqb d ".")
                  | None => false
                  end in
  globbed (trace o) = [pattern]
  /\ match glob_answers (trace o) with
     | [inr files] =>
         exists found,
           result o = inr found
           /\ List.length found = List.length files
           /\ (relative = false -> found = files)
           /\ (forall d rel, cwd = Some d -> relative = true ->
                 In (d ++ "/" ++ rel) files -> In rel found)
           /\ (forall d, cwd = Some d -> relative = true ->
                 found = map (fun f => JsString.replace f (d ++ "/") "") files
                 /\ (forall f, JsString.includes f (d ++ "/") = false ->
                       JsString.replace f (d ++ "/") "" = f)
                 /\ (forall pre post,
                       (forall k, k < String.length pre ->
                          JsString.occurs_at (d ++ "/")
                            (pre ++ (d ++ "/") ++ post) k = false) ->
                       JsString.replace (pre ++ (d ++ "/") ++ post)
                                        (d ++ "/") ""
                       = pre ++ post))
           /\ result m = inr (Nat.ltb 0 (List.length files))
     | [inl e] => result o = inl e /\ result m = inl e
     | _ => False
     end.
Proof.
  cbv zeta. unfold hasMatchingFiles, findFiles. simpl.
  destruct (h _ w) as [w1 [e | files]]; simpl.
  - split; [reflexivity | split; reflexivity].
  - destruct cwd as [d |]; simpl.
    + destruct (JsString.truthy d && negb (String.eqb d ".")) eqn:E; simpl.
      * split; [reflexivity |].
        eexists. split; [reflexivity |]. rewrite length_map.
        split; [reflexivity |]. split; [discriminate |].
        split; [| split; [| reflexivity]].
        -- intros d' rel Hd _ Hin. injection Hd as <-.
           apply in_map_iff. exists (d ++ "/" ++ rel).
           split; [apply replace_strips | exact Hin].
        -- intros d' Hd _. injection Hd as <-.
           split; [reflexivity | split].
           ++ intros f Hf. apply replace_absent, Hf.
           ++ intros pre post Hk.
              exact (@replace_first pre (d ++ "/") "" post Hk).
      * split; [reflexivity |].
        eexists. repeat split; try reflexivity; discriminate.
    + split; [reflexivity |].
      eexists. repeat split; try reflexivity; discriminate.
Qed.

(** The search answers with absolute names: [src/] is cut out of the
    middle of the name, and only where it comes first. *)
Example findFiles_cuts_mid_path :
  result (interp (Example.handler
                    (Example.with_glob Example.quiet
                       ["/home/runner/work/app/src/lib/src/a.php"; "lib/b.php"]))
                 (findFiles "**/*.php" (Some "src")) tt)
  = inr ["/home/runner/work/app/lib/src/a.php"; "lib/b.php"].
Proof. vm_compute. reflexivity. Qed.

(** X3. [checkToolAvailability] never throws.  For a tool of the table it
    starts one process, the tool's own command asked for its version, in
    the working directory, and answers whether that process exited 0; a
    probe that cannot be run means not available.  For a name outside the
    table it starts nothing and assumes the tool available, unless the name
    is one every object inherits. *)
Theorem checkToolAvailability_outcome (host : Host) (tool_ wd : string)
    (W : Type) (h : Handler W) (w : W) :
  let o := interp h (ToolCheck.checkToolAvailability host tool_ wd) w in
  match ToolName_of_string tool_ with
  | Some tn =>
      started_in (trace o)
      = [(fst (availabilityProbe tn), snd (availabilityProbe tn),
          JsString.or_else wd (process_cwd host))]
      /\ result o = inr match exec_answers (trace o) with
                        | [inr out] => Z.eqb (exec_exitCode out) 0
                        | _ => false
                        end
  | None => trace o = [] /\ result o = inr (negb (inherited tool_))
  end.
Proof.
  cbv zeta. unfold ToolCheck.checkToolAvailability, executeCommand.
  destruct (ToolName_of_string tool_) as [[] |]; simpl;
    try (split; reflexivity);
    destruct (h _ w) as [w1 [e | out]]; split; reflexivity.
Qed.

(* ================================================================== *)
(** ** [runTool]: what it does when a tool cannot be run               *)
(* ================================================================== *)

#[local] Arguments errors : simpl never.
#[local] Arguments warnings : simpl never.

Lemma errors_app (a b : list Call) :
  errors (a ++ b) = (errors a ++ errors b)%list.
Proof. apply observe_app. Qed.

Lemma globbed_app (a b : list Call) :
  globbed (a ++ b) = (globbed a ++ globbed b)%list.
Proof. apply observe_app. Qed.

Lemma exec_answers_app (a b : list Call) :
  exec_answers (a ++ b) = (exec_answers a ++ exec_answers b)%list.
Proof. apply flat_map_app. Qed.

Lemma tool_step_is_tool r : is_tool_step r = true -> is_tool_request r = true.
Proof. destruct r as [ | |m [p|]|m [p|]| | | | | | | | | | | | | | | ]; auto. Qed.

Lemma tool_step_no_error (t : list Call) :
  forallb is_tool_step (requests t) = true -> errors t = [].
Proof.
  apply (flat_map_none is_tool_step).
  intros [ | |m [p|]|m [p|]| | | | | | | | | | | | | | | ] Hx;
    try discriminate Hx; reflexivity.
Qed.

Section ToolSteps.

Variable host : Host.

Lemma runner_is_step r : is_runner_request r = true -> is_tool_step r = true.
Proof. destruct r as [ | |m [p|]|m [p|]| | | | | | | | | | | | | | | ]; auto. Qed.

Lemma resolver_is_step r : is_resolver_request r = true -> is_tool_step r = true.
Proof. destruct r as [ | |m [p|]|m [p|]| | | | | | | | | | | | | | | ]; auto. Qed.

Lemma exec_is_step r : is_exec r = true -> is_tool_step r = true.
Proof. destruct r; auto; discriminate. Qed.

Lemma glob_is_step r : is_glob r = true -> is_tool_step r = true.
Proof. destruct r; auto; discriminate. Qed.

Lemma runSelected_steps tool_ inputs runner files config_ :
  only is_tool_step (Main.runSelected host tool_ inputs runner files config_).
Proof.
  unfold Main.runSelected. destruct files.
  - footprint.
  - apply only_bind; [footprint | intro].
    apply only_bind; [| intro; footprint].
    eapply only_weaken; [apply runner_is_step | apply run_runner].
Qed.

Lemma globCase_steps tool_ inputs t runner pattern custom :
  only is_tool_step (Main.globCase host tool_ inputs t runner pattern custom).
Proof.
  unfold Main.globCase.
  apply only_bind;
    [eapply only_weaken; [apply glob_is_step | apply findFiles_glob] | intro].
  apply only_bind;
    [eapply only_weaken; [apply resolver_is_step | apply resolveConfig_resolver]
    | intro].
  apply runSelected_steps.
Qed.

Lemma fixedCase_steps tool_ inputs t runner files custom :
  only is_tool_step (Main.fixedCase host tool_ inputs t runner files custom).
Proof.
  unfold Main.fixedCase.
  apply only_bind;
    [eapply only_weaken; [apply resolver_is_step | apply resolveConfig_resolver]
    | intro].
  apply runSelected_steps.
Qed.

End ToolSteps.

(* ================================================================== *)
(** ** The runners: one process each                                   *)
(* ================================================================== *)

Lemma wp_run_exec (host : Host) (runner : Runners.Runner) (cfg : RunnerConfig) :
  wp (Runners.run host runner cfg) (fun t r =>
    (exists c a,
       started_in t
       = [(c, a, JsString.or_else (workingDirectory cfg) (process_cwd host))])
    /\ match exec_answers t with
       | [inl e] => r = inl e
       | [inr out] =>
           exists res,
             r = inr res
             /\ rawOutput res
                = JsString.trim (exec_stdout out)
                  ++ JsString.trim (exec_stderr out)
       | _ => False
       end).
Proof.
  destruct runner; simpl; unfold_runners; cbv zeta; simpl;
    intros [] [e | out]; simpl;
    try (split; [eexists; eexists; reflexivity | reflexivity]).
  all: try (parse_step;
            [destruct (Runners.tried _ _ _) as [pushed [e | []]] |]).
  all: split; [eexists; eexists; reflexivity | eexists; split; reflexivity].
Qed.

(** X4. Every runner starts exactly one process, in the working directory
    of its configuration (the current directory of the action when that is
    empty).  It throws exactly when that process cannot be run, and then
    with the error of the process: output that is no JSON, or JSON of
    another shape than the runner reads, or empty, never makes a runner
    throw.  The raw output of the result is the trimmed
    standard output followed by the trimmed standard error. *)
Theorem runner_throws_only_without_process (host : Host)
    (runner : Runners.Runner) (cfg : RunnerConfig)
    (W : Type) (h : Handler W) (w : W) :
  let o := interp h (Runners.run host runner cfg) w in
  (exists c a,
     started_in (trace o)
     = [(c, a, JsString.or_else (workingDirectory cfg) (process_cwd host))])
  /\ match exec_answers (trace o) with
     | [inl e] => result o = inl e
     | [inr out] =>
         exists res,
           result o = inr res
           /\ rawOutput res
              = JsString.trim (exec_stdout out)
                ++ JsString.trim (exec_stderr out)
     | _ => False
     end.
Proof. exact (wp_sound _ _ (wp_run_exec host runner cfg) h w). Qed.

(* ================================================================== *)
(** ** [runTool]: tools that are missing, unknown, or crash            *)
(* ================================================================== *)

Lemma ToolName_of_to_string (tn : ToolName) :
  ToolName_of_string (ToolName_to_string tn) = Some tn.
Proof. destruct tn; reflexivity. Qed.

Lemma exec_only_quiet (t : list Call) :
  forallb is_exec (requests t) = true ->
  globbed t = [] /\ glob_answers t = [] /\ warnings t = [] /\ errors t = [].
Proof.
  intro H. repeat split.
  - apply (flat_map_none is_exec); [| exact H].
    intros [] Hx; try discriminate Hx; reflexivity.
  - apply (glob_answers_none is_exec); [apply exec_not_glob | exact H].
  - apply (flat_map_none is_exec); [| exact H].
    intros [] Hx; try discriminate Hx; reflexivity.
  - apply (flat_map_none is_exec); [| exact H].
    intros [] Hx; try discriminate Hx; reflexivity.
Qed.

Lemma wp_checkToolAvailability_probe (host : Host) (tool_ wd : string) :
  wp (ToolCheck.checkToolAvailability host tool_ wd) (fun t r =>
    forallb is_exec (requests t) = true
    /\ match ToolName_of_string tool_ with
       | Some tn =>
           spawned t = [availabilityProbe tn]
           /\ exists a, exec_answers t = [a] /\ r = inr (negb (probe_failed a))
       | None => t = [] /\ r = inr (negb (inherited tool_))
       end).
Proof.
  apply wp_conj; [apply checkToolAvailability_exec |].
  unfold ToolCheck.checkToolAvailability, executeCommand.
  destruct (ToolName_of_string tool_) as [[] |]; simpl;
    try (split; reflexivity);
    intros [e | out]; (split; [reflexivity |]); eexists;
    (split; [reflexivity |]); simpl;
    rewrite ?Bool.negb_involutive; reflexivity.
Qed.

Section MissingTools.

Variable host : Host.

Lemma wp_runTool_unavailable (tn : ToolName) (inputs : Main.ActionInputs) :
  wp (Main.runTool host (ToolName_to_string tn) inputs) (fun t r =>
    option_map probe_failed (hd_error (exec_answers t)) = Some true ->
    r = inr None
    /\ spawned t = [availabilityProbe tn]
    /\ globbed t = []
    /\ warnings t
       = ["Tool '" ++ ToolName_to_string tn ++ "' is not available. "
          ++ ToolCheck.TOOL_INSTALL_INSTRUCTIONS tn;
          "Skipping " ++ ToolName_to_string tn ++ " checks."]
    /\ errors t = []).
Proof.
  unfold Main.runTool. apply wp_try_catch. apply wp_bind.
  eapply wp_mono; [| apply wp_checkToolAvailability_probe].
  rewrite ToolName_of_to_string.
  intros t0 r0 (Hx & Hs & a & Ha & ->).
  destruct (exec_only_quiet t0 Hx) as (Hg & _ & Hw & He).
  destruct (probe_failed a) eqn:Ea; cbn [negb].
  - unfold ToolCheck.logToolNotFound, ToolCheck.instructionsFor.
    rewrite ToolName_of_to_string. simpl. intros [] [] _.
    rewrite spawned_app, globbed_app, warnings_app, errors_app,
      Hs, Hg, Hw, He.
    repeat split.
  - eapply wp_mono; [| apply wp_true].
    intros t2 [e | x] _; simpl.
    + intros [] H. rewrite <- !app_assoc, exec_answers_app, Ha in H.
      simpl in H. rewrite Ea in H. discriminate H.
    + intro H. rewrite exec_answers_app, Ha in H.
      simpl in H. rewrite Ea in H. discriminate H.
Qed.

Lemma wp_runTool_unknown (tool_ : string) (inputs : Main.ActionInputs) :
  ToolName_of_string tool_ = None ->
  wp (Main.runTool host tool_ inputs) (fun t r =>
    r = inr None
    /\ requests t
       = if inherited tool_
         then [CoreWarning ("Tool '" ++ tool_ ++ "' is not available. "
                            ++ inherited_toString tool_) None;
               CoreWarning ("Skipping " ++ tool_ ++ " checks.") None]
         else [CoreWarning ("Unknown tool: " ++ tool_) None]).
Proof.
  intro H. unfold Main.runTool, ToolCheck.checkToolAvailability,
    ToolCheck.logToolNotFound, ToolCheck.instructionsFor.
  rewrite H. destruct (inherited tool_); simpl.
  - intros [] []. split; reflexivity.
  - intros []. split; reflexivity.
Qed.

End MissingTools.

(** X5. When the availability probe of a tool exits with another code than
    0, or cannot be run, [runTool] gives no result for the tool: it logs two
    warnings, the first with the instruction to install the tool, starts no
    other process than the probe, searches no file and logs no error. *)
Theorem unavailable_tool_is_skipped (host : Host) (tn : ToolName)
    (inputs : Main.ActionInputs) (W : Type) (h : Handler W) (w : W) :
  let tool_ := ToolName_to_string tn in
  let o := interp h (Main.runTool host tool_ inputs) w in
  option_map probe_failed (hd_error (exec_answers (trace o))) = Some true ->
  result o = inr None
  /\ spawned (trace o) = [availabilityProbe tn]
  /\ globbed (trace o) = []
  /\ warnings (trace o)
     = ["Tool '" ++ tool_ ++ "' is not available. "
        ++ ToolCheck.TOOL_INSTALL_INSTRUCTIONS tn;
        "Skipping " ++ tool_ ++ " checks."]
  /\ errors (trace o) = [].
Proof.
  cbv zeta. intro H.
  exact (wp_sound _ _ (wp_runTool_unavailable host tn inputs) h w H).
Qed.

(** PHPStan is not installed: its probe exits 127. *)
Lemma unavailable_tool_is_skipped_witness :
  result (interp (Example.handler Example.nothing_installed)
            (Main.runTool Example.host "phpstan" (Example.inputs true)) tt)
  = inr None
  /\ warnings (trace (interp (Example.handler Example.nothing_installed)
                 (Main.runTool Example.host "phpstan" (Example.inputs true)) tt))
     = ["Tool 'phpstan' is not available. Add " ++ Example.q "phpstan/phpstan"
        ++ " to composer.json require-dev and run composer install";
        "Skipping phpstan checks."].
Proof.
  pose proof (@unavailable_tool_is_skipped Example.host phpstan
                (Example.inputs true) unit
                (Example.handler Example.nothing_installed) tt eq_refl)
    as (Hr & _ & _ & Hw & _).
  split; [exact Hr | exact Hw].
Defined.

(** X6. For a name that is no tool of the action, [runTool] gives no
    result and asks the environment for nothing but one warning,
    [Unknown tool: name]: no process, no file search, no look at the disk.
    (A name that every object inherits, such as [constructor], is reported
    as not available instead, in two warnings.) *)
Theorem unknown_tool_is_dropped (host : Host) (tool_ : string)
    (inputs : Main.ActionInputs) (W : Type) (h : Handler W) (w : W) :
  ToolName_of_string tool_ = None ->
  let o := interp h (Main.runTool host tool_ inputs) w in
  result o = inr None
  /\ requests (trace o)
     = if inherited tool_
       then [CoreWarning ("Tool '" ++ tool_ ++ "' is not available. "
                          ++ inherited_toString tool_) None;
             CoreWarning ("Skipping " ++ tool_ ++ " checks.") None]
       else [CoreWarning ("Unknown tool: " ++ tool_) None].
Proof.
  intro H. cbv zeta.
  exact (wp_sound _ _ (wp_runTool_unknown host tool_ inputs H) h w).
Qed.

(** A linter of another ecosystem is asked for. *)
Lemma unknown_tool_is_dropped_witness :
  result (interp (Example.handler Example.quiet)
            (Main.runTool Example.host "rubocop" (Example.inputs true)) tt)
  = inr None
  /\ requests (trace (interp (Example.handler Example.quiet)
                 (Main.runTool Example.host "rubocop" (Example.inputs true)) tt))
     = [CoreWarning "Unknown tool: rubocop" None].
Proof.
  exact (@unknown_tool_is_dropped Example.host "rubocop" (Example.inputs true)
           unit (Example.handler Example.quiet) tt eq_refl).
Defined.

Lemma exec_answers_none (P : Req -> bool) (t : list Call) :
  (forall r, P r = true -> is_exec r = false) ->
  forallb P (requests t) = true -> exec_answers t = [].
Proof.
  intro HP. induction t as [| [r x] t IH]; simpl; intro H.
  - reflexivity.
  - apply andb_prop in H. destruct H as [Hr Ht].
    unfold exec_answers in *. simpl. rewrite (IH Ht), app_nil_r.
    specialize (HP r Hr). destruct r; try reflexivity. discriminate HP.
Qed.

Lemma glob_not_exec r : is_glob r = true -> is_exec r = false.
Proof. destruct r; auto; discriminate. Qed.

Section Crashes.

Variable host : Host.

Lemma wp_runSelected_passes tool_ inputs runner files config_ :
  wp (Main.runSelected host tool_ inputs runner files config_) (fun t r =>
    forallb is_tool_step (requests t) = true
    /\ glob_answers t = []
    /\ (forall e, exec_answers t = [inl e] -> r = inl e)).
Proof.
  apply wp_conj; [apply runSelected_steps |].
  apply wp_conj.
  { eapply wp_mono; [| apply wp_runSelected]. intros t r (H & _). exact H. }
  unfold Main.runSelected. destruct files as [| f fs].
  - simpl. intros [] e H. discriminate H.
  - apply wp_bind, wp_call. intros []. apply wp_bind.
    eapply wp_mono; [| apply wp_run_exec].
    intros t1 [e1 | r1] (_ & H1); simpl.
    + intros e H. change (exec_answers t1 = [inl e]) in H.
      rewrite H in H1. injection H1 as ->. reflexivity.
    + intros e H. rewrite app_nil_r in H.
      change (exec_answers t1 = [inl e]) in H.
      rewrite H in H1. discriminate H1.
Qed.

Lemma wp_config_then_run tool_ inputs t runner files custom :
  wp (config_ <- Resolver.resolveConfig host t custom
                   (Main.workingDirectory inputs) ;;
      Main.runSelected host tool_ inputs runner files config_) (fun tr r =>
    forallb is_tool_step (requests tr) = true
    /\ glob_answers tr = []
    /\ (forall e, exec_answers tr = [inl e] -> r = inl e)).
Proof.
  apply wp_bind.
  eapply wp_mono;
    [| apply wp_conj;
       [apply resolveConfig_returns | apply resolveConfig_resolver]].
  intros t1 [e | c] (Hr & Hres); [discriminate Hr |].
  eapply wp_mono; [| apply wp_runSelected_passes].
  intros t2 r2 (Hs & Hg & Hx).
  assert (Hg1 : glob_answers t1 = [])
    by (apply (glob_answers_none is_resolver_request);
        [apply resolver_not_glob | exact Hres]).
  assert (Hx1 : exec_answers t1 = [])
    by (apply (exec_answers_none is_resolver_request);
        [apply resolver_not_exec | exact Hres]).
  split; [| split].
  - rewrite requests_app, forallb_app, Hs, andb_true_r.
    revert Hres. rewrite !forallb_forall. intros Hres x Hin.
    apply resolver_is_step, Hres, Hin.
  - rewrite glob_answers_app, Hg1, Hg. reflexivity.
  - intros e H. rewrite exec_answers_app, Hx1 in H. exact (Hx e H).
Qed.

Lemma wp_fixedCase_passes tool_ inputs t runner files custom :
  wp (Main.fixedCase host tool_ inputs t runner files custom) (fun tr r =>
    forallb is_tool_step (requests tr) = true
    /\ (forall e, glob_answers tr = [inl e] -> r = inl e)
    /\ (forall e, exec_answers tr = [inl e] -> r = inl e)).
Proof.
  eapply wp_mono; [| apply wp_config_then_run].
  intros tr r (Hs & Hg & Hx). split; [exact Hs | split; [| exact Hx]].
  intros e H. rewrite Hg in H. discriminate H.
Qed.

Lemma wp_globCase_passes tool_ inputs t runner pattern custom :
  wp (Main.globCase host tool_ inputs t runner pattern custom) (fun tr r =>
    forallb is_tool_step (requests tr) = true
    /\ (forall e, glob_answers tr = [inl e] -> r = inl e)
    /\ (forall e, exec_answers tr = [inl e] -> r = inl e)).
Proof.
  unfold Main.globCase, findFiles. simpl. intros [e | files]; simpl.
  - split; [reflexivity | split].
    + intros e' H. injection H as <-. reflexivity.
    + intros e' H. discriminate H.
  - assert (Hrest : forall files',
              wp (config_ <- Resolver.resolveConfig host t custom
                               (Main.workingDirectory inputs) ;;
                  Main.runSelected host tool_ inputs runner files' config_)
                 (fun tr r =>
                    forallb is_tool_step
                      (requests ({| call_req := GlobGlob pattern;
                                    call_resp := inr files |} :: tr)) = true
                    /\ (forall e,
                          glob_answers ({| call_req := GlobGlob pattern;
                                           call_resp := inr files |} :: tr)
                          = [inl e] -> r = inl e)
                    /\ (forall e,
                          exec_answers ({| call_req := GlobGlob pattern;
                                           call_resp := inr files |} :: tr)
                          = [inl e] -> r = inl e))).
    { intro files'. eapply wp_mono; [| apply wp_config_then_run].
      intros tr r (Hs & Hg & Hx). split; [exact Hs | split].
      - intros e H. change (?c :: tr)%list with ([c] ++ tr)%list in H.
        rewrite glob_answers_app, Hg in H. discriminate H.
      - intros e H. change (?c :: tr)%list with ([c] ++ tr)%list in H.
        rewrite exec_answers_app in H. exact (Hx e H). }
    destruct (JsString.truthy (Main.workingDirectory inputs)
              && negb (Main.workingDirectory inputs =? "."))%bool; simpl;
      apply Hrest.
Qed.

Lemma wp_runTool_catches (tool_ : string) (inputs : Main.ActionInputs) :
  wp (Main.runTool host tool_ inputs) (fun t r =>
    exists x,
      r = inr x
      /\ match errors t with
         | [] => True
         | [m] =>
             exists e,
               m = "Error running " ++ tool_ ++ ": " ++ Exn_toString e
               /\ x = Some (Main.crashed tool_ e)
         | _ => False
         end
      /\ (forall e, glob_answers t = [inl e] ->
            x = Some (Main.crashed tool_ e))
      /\ (forall probe e, exec_answers t = [inr probe; inl e] ->
            x = Some (Main.crashed tool_ e))).
Proof.
  match goal with |- wp _ ?P => set (Q := P) end.
  assert (Hcatch : forall t (r : Exn + option ToolResult),
            (forallb is_tool_step (requests t) = true
             /\ (forall e, glob_answers t = [inl e] -> r = inl e)
             /\ (forall probe e, exec_answers t = [inr probe; inl e] ->
                   r = inl e)) ->
            match r with
            | inr a => Q t (inr a)
            | inl e =>
                wp (core_error ("Error running " ++ tool_ ++ ": "
                                ++ Exn_toString e) ;;
                    Ret (Some (Main.crashed tool_ e)))
                   (fun t2 r2 => Q (t ++ t2)%list r2)
            end).
  { intros t r (Hs & Hg & Hx). pose proof (tool_step_no_error t Hs) as He.
    destruct r as [e | a]; unfold Q.
    - simpl. intros []. eexists. split; [reflexivity |].
      rewrite errors_app, He, glob_answers_app, exec_answers_app.
      simpl. unfold glob_answers at 2, exec_answers at 2. simpl.
      rewrite !app_nil_r. split; [eauto | split].
      + intros e' H. specialize (Hg e' H). injection Hg as <-. reflexivity.
      + intros p e' H. specialize (Hx p e' H). injection Hx as <-.
        reflexivity.
    - eexists. split; [reflexivity |]. rewrite He.
      split; [exact I | split].
      + intros e H. discriminate (Hg e H).
      + intros p e H. discriminate (Hx p e H). }
  unfold Main.runTool. apply wp_try_catch.
  eapply wp_mono; [intros t r H; exact (Hcatch t r H) |].
  apply wp_bind.
  eapply wp_mono; [| apply wp_checkToolAvailability_probe].
  intros t0 r0 (Hx0 & H0).
  destruct (exec_only_quiet t0 Hx0) as (_ & Hg0 & _ & _).
  assert (Hs0 : forallb is_tool_step (requests t0) = true).
  { revert Hx0. rewrite !forallb_forall. intros H x Hin.
    apply exec_is_step, H, Hin. }
  assert (Hcase : forall (p : Prog (option ToolResult)),
            (exists a, exec_answers t0 = [a]) ->
            wp p (fun tr r =>
                    forallb is_tool_step (requests tr) = true
                    /\ (forall e, glob_answers tr = [inl e] -> r = inl e)
                    /\ (forall e, exec_answers tr = [inl e] -> r = inl e)) ->
            wp p (fun t2 r2 =>
                    forallb is_tool_step (requests (t0 ++ t2)) = true
                    /\ (forall e, glob_answers (t0 ++ t2) = [inl e] ->
                          r2 = inl e)
                    /\ (forall probe e,
                          exec_answers (t0 ++ t2) = [inr probe; inl e] ->
                          r2 = inl e))).
  { intros p (a & Ha) Hp. eapply wp_mono; [| apply Hp].
    intros t2 r2 (Hs & Hg & Hx). split; [| split].
    - rewrite requests_app, forallb_app, Hs0, Hs. reflexivity.
    - intros e H. rewrite glob_answers_app, Hg0 in H. exact (Hg e H).
    - intros probe e H. rewrite exec_answers_app, Ha in H.
      injection H as _ H. exact (Hx e H). }
  destruct (ToolName_of_string tool_) as [tn |] eqn:Etn.
  - destruct H0 as (_ & a & Ha & ->).
    destruct (negb (negb (probe_failed a))).
    + apply Hcase; [eauto |]. unfold ToolCheck.logToolNotFound. simpl.
      intros [] [].
      split; [reflexivity | split; intros e H; discriminate H].
    + destruct tn; (apply Hcase; [eauto |]);
        first [apply wp_globCase_passes | apply wp_fixedCase_passes].
  - destruct H0 as (-> & ->).
    destruct (negb (negb (inherited tool_)));
      unfold ToolCheck.logToolNotFound; simpl.
    + intros [] [].
      split; [reflexivity | split; [intros e H | intros p e H]];
        discriminate H.
    + intros [].
      split; [reflexivity | split; [intros e H | intros p e H]];
        discriminate H.
Qed.

End Crashes.

(** X7. [runTool] never throws.  It logs an error without location only
    from its [catch], at most once, and then its result is
    [{tool, success: false, issues: [], rawOutput: message}] for the error
    caught.  That is what a file search that fails gives, and what a tool
    gives whose probe ran and whose own process could not be run. *)
Theorem runTool_never_throws (host : Host) (tool_ : string)
    (inputs : Main.ActionInputs) (W : Type) (h : Handler W) (w : W) :
  let o := interp h (Main.runTool host tool_ inputs) w in
  exists x,
    result o = inr x
    /\ match errors (trace o) with
       | [] => True
       | [m] =>
           exists e,
             m = "Error running " ++ tool_ ++ ": " ++ Exn_toString e
             /\ x = Some {| tool := tool_; success := false; issues := [];
                            rawOutput := exn_message e |}
       | _ => False
       end
    /\ (forall e, glob_answers (trace o) = [inl e] ->
          x = Some {| tool := tool_; success := false; issues := [];
                      rawOutput := exn_message e |})
    /\ (forall probe e, exec_answers (trace o) = [inr probe; inl e] ->
          x = Some {| tool := tool_; success := false; issues := [];
                      rawOutput := exn_message e |}).
Proof. exact (wp_sound _ _ (wp_runTool_catches host tool_ inputs) h w). Qed.

(** The file search of ESLint fails: the tool is reported as crashed and
    the run goes on. *)
Example runTool_survives_glob_failure :
  let o := interp (Example.glob_fails Example.quiet)
             (Main.runTool Example.host "eslint" (Example.inputs true)) tt in
  result o
  = inr (Some {| tool := "eslint"; success := false; issues := [];
                 rawOutput := "ENOENT: no such file or directory" |})
  /\ errors (trace o)
     = ["Error running eslint: Error: ENOENT: no such file or directory"].
Proof. vm_compute. auto. Qed.

(* ================================================================== *)
(** ** [parseInputs]: what the entry point makes of the inputs         *)
(* ================================================================== *)

Lemma forallb_trimStart (p : ascii -> bool) (s : string) :
  JsString.forallb p s = true -> JsString.forallb p (JsString.trimStart s) = true.
Proof.
  intro H. destruct (trimStart_suffix s) as [pre Hp].
  rewrite Hp, forallb_append in H. apply andb_prop in H. apply H.
Qed.

Lemma forallb_trimEnd (p : ascii -> bool) (s : string) :
  JsString.forallb p s = true -> JsString.forallb p (JsString.trimEnd s) = true.
Proof.
  intro H. destruct (trimEnd_prefix s) as (post & Hp & _).
  rewrite Hp, forallb_append in H. apply andb_prop in H. apply H.
Qed.

Lemma forallb_trim (p : ascii -> bool) (s : string) :
  JsString.forallb p s = true -> JsString.forallb p (JsString.trim s) = true.
Proof. intro H. apply forallb_trimEnd, forallb_trimStart, H. Qed.

Lemma forallb_split (p : ascii -> bool) (sep : ascii) (s : string) :
  JsString.forallb p s = true ->
  Forall (fun piece => JsString.forallb p piece = true) (JsString.split sep s).
Proof.
  induction s as [| c s IH]; simpl; intro H.
  - repeat constructor.
  - apply andb_prop in H. destruct H as [Hc Hs]. specialize (IH Hs).
    destruct (Ascii.eqb c sep).
    + constructor; [reflexivity | exact IH].
    + destruct (JsString.split sep s) as [| w ws].
      * repeat constructor. simpl. rewrite Hc. reflexivity.
      * inversion IH; subst. constructor; [| assumption].
        simpl. rewrite Hc. assumption.
Qed.

Lemma split_no_separator (sep : ascii) (s : string) :
  Forall (fun piece => JsString.forallb (fun c => negb (Ascii.eqb c sep)) piece = true)
         (JsString.split sep s).
Proof.
  induction s as [| c s IH]; simpl.
  - repeat constructor.
  - destruct (Ascii.eqb c sep) eqn:E.
    + constructor; [reflexivity | exact IH].
    + destruct (JsString.split sep s) as [| w ws].
      * repeat constructor. simpl. rewrite E. reflexivity.
      * inversion IH; subst. constructor; [| assumption].
        simpl. rewrite E. assumption.
Qed.

Lemma lower_char_idempotent (c : ascii) :
  JsString.lower_char (JsString.lower_char c) = JsString.lower_char c.
Proof.
  unfold JsString.lower_char, JsString.char_code.
  destruct (Nat.leb 65 (nat_of_ascii c) && Nat.leb (nat_of_ascii c) 90) eqn:E;
    [| rewrite E; reflexivity].
  apply andb_prop in E. destruct E as [E1 E2].
  apply Nat.leb_le in E1, E2.
  rewrite nat_ascii_embedding by lia.
  replace (Nat.leb 65 (nat_of_ascii c + 32) && Nat.leb (nat_of_ascii c + 32) 90)
    with false; [reflexivity |].
  symmetry. apply andb_false_iff. right. apply Nat.leb_gt. lia.
Qed.

Lemma toLowerCase_lower (s : string) :
  JsString.forallb (fun c => Ascii.eqb (JsString.lower_char c) c)
                   (JsString.toLowerCase s) = true.
Proof.
  induction s as [| c s IH]; simpl.
  - reflexivity.
  - rewrite lower_char_idempotent, Ascii.eqb_refl. exact IH.
Qed.

Lemma lower_fixed (s : string) :
  JsString.forallb (fun c => Ascii.eqb (JsString.lower_char c) c) s = true ->
  JsString.toLowerCase s = s.
Proof.
  induction s as [| c s IH]; simpl; intro H.
  - reflexivity.
  - apply andb_prop in H. destruct H as [Hc Hs].
    apply Ascii.eqb_eq in Hc. rewrite Hc, (IH Hs). reflexivity.
Qed.

Lemma no_char_not_included (c : ascii) (s : string) :
  JsString.forallb (fun x => negb (Ascii.eqb x c)) s = true ->
  JsString.includes s (String c EmptyString) = false.
Proof.
  induction s as [| x s IH]; simpl; intro H.
  - reflexivity.
  - apply andb_prop in H. destruct H as [Hx Hs].
    apply negb_true_iff in Hx.
    destruct (ascii_dec c x) as [-> | _].
    + rewrite Ascii.eqb_refl in Hx. discriminate Hx.
    + simpl. exact (IH Hs).
Qed.

Lemma or_else_truthy (a d : string) :
  JsString.truthy d = true -> JsString.truthy (JsString.or_else a d) = true.
Proof. intro H. unfold JsString.or_else. destruct (JsString.truthy a) eqn:E; auto. Qed.

Lemma lower_char_comma (c : ascii) :
  Ascii.eqb (JsString.lower_char c) "," = Ascii.eqb c ",".
Proof. destruct c as [[] [] [] [] [] [] [] []]; reflexivity. Qed.

Lemma split_lower_count (s : string) :
  List.length (JsString.split "," (JsString.toLowerCase s))
  = List.length (JsString.split "," s).
Proof.
  induction s as [| c s IH]; [reflexivity |].
  cbn [JsString.toLowerCase JsString.split]. rewrite lower_char_comma.
  destruct (Ascii.eqb c ","); cbn [List.length]; [rewrite IH; reflexivity |].
  destruct (JsString.split "," (JsString.toLowerCase s)),
    (JsString.split "," s); simpl in *; congruence.
Qed.

Lemma or_undefined_not_empty (a : string) :
  JsString.or_undefined a <> Some EmptyString.
Proof. destruct a; discriminate. Qed.

Lemma wp_parseInputs_normalises :
  wp Main.parseInputs (fun t r =>
    exists inputs,
      r = inr inputs
      /\ requests t
         = map CoreGetInput
             ["tools"; "php-paths"; "js-paths"; "style-paths";
              "phpstan-config"; "phpmd-config"; "php-cs-fixer-config";
              "eslint-config"; "stylelint-config"; "editorconfig-config";
              "composer-normalize-config"; "typo3-rector-config";
              "fail-on-errors"; "working-directory"]
      /\ (exists a,
            input_answers "tools" t = [a]
            /\ if String.eqb (JsString.toLowerCase a) "all"
                  || String.eqb (JsString.toLowerCase a) ""
               then Main.tools inputs
                    = ["phpstan"; "phpmd"; "php-cs-fixer"; "eslint";
                       "stylelint"; "editorconfig"; "composer-normalize"]
               else Forall (fun n => trimmed n = true
                                     /\ JsString.toLowerCase n = n
                                     /\ JsString.includes n "," = false)
                           (Main.tools inputs)
                    /\ List.length (Main.tools inputs)
                       = List.length (JsString.split "," a)
                    /\ (JsString.forallb JsString.is_ascii a = true ->
                        Main.tools inputs
                        = map JsString.trim
                              (JsString.split "," (JsString.toLowerCase a))))
      /\ (exists f,
            input_answers "fail-on-errors" t = [f]
            /\ (Main.failOnErrors inputs = false
                <-> JsString.toLowerCase f = "false"))
      /\ Forall (fun s => JsString.truthy s = true)
                [Main.phpPaths inputs; Main.jsPaths inputs;
                 Main.stylePaths inputs; Main.workingDirectory inputs]
      /\ Forall (fun c => c <> Some EmptyString)
                [Main.phpstanConfig inputs; Main.phpmdConfig inputs;
                 Main.phpCsFixerConfig inputs; Main.eslintConfig inputs;
                 Main.stylelintConfig inputs; Main.editorconfigConfig inputs;
                 Main.composerNormalizeConfig inputs;
                 Main.typo3RectorConfig inputs]).
Proof.
  unfold Main.parseInputs, core_getInput. simpl.
  intros tools_ php js style c1 c2 c3 c4 c5 c6 c7 c8 foe wd.
  eexists. split; [reflexivity |]. split; [reflexivity |].
  split; [| split; [| split]].
  - exists tools_. split; [reflexivity |]. simpl.
    destruct (String.eqb (JsString.toLowerCase tools_) "all"
              || String.eqb (JsString.toLowerCase tools_) ""); [reflexivity |].
    split; [| split; [rewrite length_map; apply split_lower_count
                     | intros _; reflexivity]].
    apply Forall_forall. intros n Hn. apply in_map_iff in Hn.
    destruct Hn as (piece & <- & Hin).
    pose proof (forallb_split _ "," _ (toLowerCase_lower tools_)) as Hl.
    pose proof (split_no_separator "," (JsString.toLowerCase tools_)) as Hc.
    rewrite Forall_forall in Hl, Hc.
    split; [apply trim_trimmed | split].
    + apply lower_fixed, forallb_trim, Hl, Hin.
    + apply no_char_not_included, forallb_trim, Hc, Hin.
  - exists foe. split; [reflexivity |]. simpl.
    destruct (String.eqb_spec (JsString.toLowerCase foe) "false") as [-> | Hne];
      simpl; split; auto; try discriminate. intro H. contradiction.
  - simpl. repeat constructor; apply or_else_truthy; reflexivity.
  - simpl. repeat constructor; apply or_undefined_not_empty.
Qed.

(** X8. [parseInputs] never throws and asks for nothing but its fourteen
    inputs, each once, in a fixed order.  An answer [all] in any letter
    case, or an empty one, selects the seven default tools, which do not
    include [typo3-rector]; any other answer is cut at its commas: the
    names are as many as the pieces of the answer, every name is
    lower-case, holds no comma and neither begins nor ends with white
    space, and for an answer in ASCII the names are the pieces of the
    lower-cased answer, trimmed, in their order.  [failOnErrors] is false
    only for the answer [false], in any letter case.  The three patterns
    and the working directory are never empty, and no custom configuration
    path is the empty string. *)
Theorem parseInputs_normalises (W : Type) (h : Handler W) (w : W) :
  let o := interp h Main.parseInputs w in
  exists inputs,
    result o = inr inputs
    /\ requests (trace o)
       = map CoreGetInput
           ["tools"; "php-paths"; "js-paths"; "style-paths";
            "phpstan-config"; "phpmd-config"; "php-cs-fixer-config";
            "eslint-config"; "stylelint-config"; "editorconfig-config";
            "composer-normalize-config"; "typo3-rector-config";
            "fail-on-errors"; "working-directory"]
    /\ (exists a,
          input_answers "tools" (trace o) = [a]
          /\ if String.eqb (JsString.toLowerCase a) "all"
                || String.eqb (JsString.toLowerCase a) ""
             then Main.tools inputs
                  = ["phpstan"; "phpmd"; "php-cs-fixer"; "eslint";
                     "stylelint"; "editorconfig"; "composer-normalize"]
             else Forall (fun n => trimmed n = true
                                   /\ JsString.toLowerCase n = n
                                   /\ JsString.includes n "," = false)
                         (Main.tools inputs)
                  /\ List.length (Main.tools inputs)
                     = List.length (JsString.split "," a)
                  /\ (JsString.forallb JsString.is_ascii a = true ->
                      Main.tools inputs
                      = map JsString.trim
                            (JsString.split "," (JsString.toLowerCase a))))
    /\ (exists f,
          input_answers "fail-on-errors" (trace o) = [f]
          /\ (Main.failOnErrors inputs = false
              <-> JsString.toLowerCase f = "false"))
    /\ Forall (fun s => JsString.truthy s = true)
              [Main.phpPaths inputs; Main.jsPaths inputs;
               Main.stylePaths inputs; Main.workingDirectory inputs]
    /\ Forall (fun c => c <> Some EmptyString)
              [Main.phpstanConfig inputs; Main.phpmdConfig inputs;
               Main.phpCsFixerConfig inputs; Main.eslintConfig inputs;
               Main.stylelintConfig inputs; Main.editorconfigConfig inputs;
               Main.composerNormalizeConfig inputs;
               Main.typo3RectorConfig inputs].
Proof. exact (wp_sound _ _ wp_parseInputs_normalises h w). Qed.

(** The tools are asked for with capitals, blanks and a trailing comma:
    the names are cleaned, and the empty name after the comma stays. *)
Example parseInputs_cleans_names :
  let s := Example.with_inputs Example.quiet
             [("tools", " ESLint , PHPStan,")] in
  option_map Main.tools
    (match result (interp (Example.handler s) Main.parseInputs tt) with
     | inr i => Some i
     | inl _ => None
     end)
  = Some ["eslint"; "phpstan"; ""].
Proof. vm_compute. reflexivity. Qed.

(* ================================================================== *)
(** ** cache/CacheManager.ts: the two phases                           *)
(* ================================================================== *)

#[local] Arguments accessed : simpl never.
#[local] Arguments saved_state : simpl never.
#[local] Arguments cache_restores : simpl never.
#[local] Arguments cache_restore_answers : simpl never.
#[local] Arguments cache_save_answers : simpl never.

Ltac wp_case :=
  match goal with
  | |- forall _ : ?T, _ =>
      let T' := eval cbn in T in
      match T' with
      | unit => intros []
      | (_ + _)%type => intros [? | ?]
      | bool => intros [|]
      | _ => intro
      end
  | |- context [if ?c then _ else _] => destruct c eqn:?
  end.

Lemma accessed_app (a b : list Call) :
  accessed (a ++ b) = (accessed a ++ accessed b)%list.
Proof. apply flat_map_app. Qed.

Lemma wp_filterExistingPaths (ps : list string) :
  wp (Cache.filterExistingPaths ps) (fun t r =>
    forallb is_lock_probe (requests t) = true
    /\ map fst (accessed t) = ps
    /\ r = inr (map fst (filter snd (accessed t)))).
Proof.
  induction ps as [| p ps IH].
  - simpl. auto.
  - cbn [Cache.filterExistingPaths]. apply wp_bind.
    unfold fileExists. apply wp_bind, wp_call. intro x.
    destruct x as [e | []]; cbn [wp]; apply wp_bind;
      (eapply wp_mono; [| apply IH]); intros t r (Hf & Hp & ->);
      cbn [wp]; rewrite !app_nil_r;
      change (?c :: t)%list with ([c] ++ t)%list;
      rewrite requests_app, forallb_app, accessed_app, Hf, map_app, Hp.
    all: repeat split; reflexivity.
Qed.

Lemma accessed_on_disk (d : Disk) (t : list Call) :
  Forall (agrees d) t ->
  map fst (filter snd (accessed t)) = filter (found_on d) (map fst (accessed t)).
Proof.
  induction t as [| [r x] t IH]; intro H.
  - reflexivity.
  - inversion H as [| ? ? Hc Ht]; subst. specialize (IH Ht).
    unfold accessed in *. simpl.
    destruct r; simpl; try exact IH.
    simpl in Hc. unfold found_on. rewrite <- Hc.
    destruct (is_inr x); simpl; rewrite IH; reflexivity.
Qed.

(** X9. [filterExistingPaths] never throws.  It probes every path once, in
    the order given, and returns the paths whose probe succeeded, in that
    order; on a disk that stays as it is, those are the paths that
    exist. *)
Theorem filterExistingPaths_keeps_existing (ps : list string)
    (W : Type) (h : Handler W) (w : W) :
  let o := interp h (Cache.filterExistingPaths ps) w in
  map fst (accessed (trace o)) = ps
  /\ forallb is_lock_probe (requests (trace o)) = true
  /\ result o = inr (map fst (filter snd (accessed (trace o))))
  /\ forall d, on_disk h d -> result o = inr (filter (found_on d) ps).
Proof.
  cbv zeta.
  destruct (wp_sound _ _ (wp_filterExistingPaths ps) h w) as (Hf & Hp & Hr).
  split; [exact Hp | split; [exact Hf | split; [exact Hr |]]].
  intros d Hd. rewrite Hr.
  rewrite (accessed_on_disk (@on_disk_trace W _ h d _ w Hd)), Hp.
  reflexivity.
Qed.

Lemma lock_probe_is_restore_step r :
  is_lock_probe r = true -> is_restore_step r = true.
Proof. destruct r; auto; discriminate. Qed.

Lemma lock_probe_is_save_step r :
  is_lock_probe r = true -> is_save_step r = true.
Proof. destruct r; auto; discriminate. Qed.

Section CacheSteps.

Variable host : Host.

Lemma executeCommand_restore_step c a d :
  only is_restore_step (executeCommand host c a d).
Proof. apply only_executeCommand. reflexivity. Qed.

Hint Resolve executeCommand_restore_step : footprint.

Lemma fileExists_probe p : only is_lock_probe (fileExists p).
Proof. unfold fileExists. footprint. Qed.

Lemma hashLockFile_probe p : only is_lock_probe (Cache.hashLockFile host p).
Proof. unfold Cache.hashLockFile, Cache.readFile. footprint. Qed.

Hint Resolve fileExists_probe hashLockFile_probe : footprint.

Lemma generateComposerCacheKey_probe this :
  only is_lock_probe (Cache.generateComposerCacheKey host this).
Proof. unfold Cache.generateComposerCacheKey. cbv zeta. footprint. Qed.

Lemma generateNpmCacheKey_probe this :
  only is_lock_probe (Cache.generateNpmCacheKey host this).
Proof.
  unfold Cache.generateNpmCacheKey. cbv zeta.
  apply only_bind; [footprint | intros [a b]; footprint].
Qed.

Lemma detectComposerCacheDir_steps this :
  only is_restore_step (Cache.detectComposerCacheDir host this).
Proof. unfold Cache.detectComposerCacheDir. footprint. Qed.

Lemma detectNpmCacheDir_steps this :
  only is_restore_step (Cache.detectNpmCacheDir host this).
Proof. unfold Cache.detectNpmCacheDir. footprint. Qed.

Lemma detectComposerCacheDir_keeps this :
  wp (Cache.detectComposerCacheDir host this) (fun t r =>
    exists this',
      r = inr this'
      /\ Cache.config this' = Cache.config this
      /\ Cache.workingDirectory this' = Cache.workingDirectory this
      /\ Cache.npmCacheDir this' = Cache.npmCacheDir this).
Proof.
  unfold Cache.detectComposerCacheDir, executeCommand, core_debug.
  destruct (negb _); simpl; [eauto |].
  repeat (wp_case; simpl); eauto.
Qed.

Lemma detectNpmCacheDir_keeps this :
  wp (Cache.detectNpmCacheDir host this) (fun t r =>
    exists this',
      r = inr this'
      /\ Cache.config this' = Cache.config this
      /\ Cache.workingDirectory this' = Cache.workingDirectory this
      /\ Cache.composerCacheDir this' = Cache.composerCacheDir this).
Proof.
  unfold Cache.detectNpmCacheDir, executeCommand, core_debug.
  destruct (negb _); simpl; [eauto |].
  repeat (wp_case; simpl); eauto.
Qed.

Lemma restoreWith_steps label st (generate : Prog Cache.CacheKeyInfo) :
  only is_lock_probe generate ->
  only is_restore_step (Cache.restoreWith label st generate).
Proof.
  intro Hg. unfold Cache.restoreWith.
  apply only_bind;
    [eapply only_weaken; [apply lock_probe_is_restore_step | exact Hg] | intro].
  footprint.
Qed.

Lemma filterExistingPaths_steps ps :
  only is_save_step (Cache.filterExistingPaths ps).
Proof.
  eapply only_weaken; [apply lock_probe_is_save_step |].
  eapply wp_mono; [| apply wp_filterExistingPaths]. intros t r (H & _). exact H.
Qed.

Lemma saveWith_steps label st (generate : Prog Cache.CacheKeyInfo) :
  only is_lock_probe generate ->
  only is_save_step (Cache.saveWith label st generate).
Proof.
  intro Hg. unfold Cache.saveWith. cbv zeta.
  apply only_bind; [footprint | intro hit].
  destruct (String.eqb hit "true"); [footprint |].
  apply only_bind; [footprint | intro k].
  destruct (negb (JsString.truthy k)); [footprint |].
  apply only_bind;
    [eapply only_weaken; [apply lock_probe_is_save_step | exact Hg] | intro].
  apply only_bind; [apply filterExistingPaths_steps | intro].
  footprint.
Qed.

Lemma restore_body_steps this :
  only is_restore_step
    (Cache.restoreComposerCache host this ;;
     Cache.restoreNpmCache host this ;;
     core_info "Cache restoration completed").
Proof.
  unfold Cache.restoreComposerCache, Cache.restoreNpmCache.
  apply only_bind;
    [apply restoreWith_steps, generateComposerCacheKey_probe | intro].
  apply only_bind;
    [apply restoreWith_steps, generateNpmCacheKey_probe | intro].
  footprint.
Qed.

Lemma save_body_steps this :
  only is_save_step
    (Cache.saveComposerCache host this ;;
     Cache.saveNpmCache host this ;;
     core_info "Cache saving completed").
Proof.
  unfold Cache.saveComposerCache, Cache.saveNpmCache.
  apply only_bind;
    [apply saveWith_steps, generateComposerCacheKey_probe | intro].
  apply only_bind;
    [apply saveWith_steps, generateNpmCacheKey_probe | intro].
  footprint.
Qed.

End CacheSteps.

Section CachePhases.

Variable host : Host.

Lemma wp_restore (this : Cache.CacheManager) :
  wp (Cache.restore host this) (fun t r =>
    exists this',
      r = inr this'
      /\ Cache.config this' = Cache.config this
      /\ Cache.workingDirectory this' = Cache.workingDirectory this
      /\ if Cache.enabled (Cache.config this)
         then exists mid,
                requests t
                = (CoreStartGroup "Restoring cache" :: mid ++ [CoreEndGroup])%list
                /\ forallb is_restore_step mid = true
         else requests t = [CoreDebug "Cache is disabled"] /\ this' = this).
Proof.
  unfold Cache.restore.
  destruct (Cache.enabled (Cache.config this)); cbn [negb].
  2: { simpl. intros []. eexists. repeat split. }
  apply wp_try_finally. apply wp_bind, wp_call. intros [].
  apply wp_bind.
  eapply wp_mono;
    [| apply wp_conj;
       [apply detectComposerCacheDir_steps | apply detectComposerCacheDir_keeps]].
  intros t1 r1 (Hs1 & this1 & -> & Hc1 & Hw1 & _).
  apply wp_bind.
  eapply wp_mono;
    [| apply wp_conj;
       [apply detectNpmCacheDir_steps | apply detectNpmCacheDir_keeps]].
  intros t2 r2 (Hs2 & this2 & -> & Hc2 & Hw2 & _).
  apply wp_bind.
  eapply wp_mono;
    [| apply wp_conj;
       [apply only_try_catch;
        [apply (restore_body_steps host this2) | intro; apply only_call; reflexivity]
       | apply returns_try_catch; intro; simpl; intros []; reflexivity]].
  intros t3 [e | []] (Hs3 & Hr3); [discriminate Hr3 |].
  simpl. intros []. exists this2.
  split; [reflexivity |].
  split; [congruence | split; [congruence |]].
  exists (requests (t1 ++ t2 ++ t3)).
  split.
  - rewrite !app_nil_r. unfold requests. rewrite !map_app. reflexivity.
  - rewrite !requests_app, !forallb_app, Hs1, Hs2, Hs3. reflexivity.
Qed.

Lemma wp_save (this : Cache.CacheManager) :
  wp (Cache.save host this) (fun t r =>
    r = inr tt
    /\ if Cache.enabled (Cache.config this)
       then exists mid,
              requests t
              = (CoreStartGroup "Saving cache" :: mid ++ [CoreEndGroup])%list
              /\ forallb is_save_step mid = true
       else t = []).
Proof.
  unfold Cache.save.
  destruct (Cache.enabled (Cache.config this)); cbn [negb].
  2: { simpl. auto. }
  apply wp_try_finally, wp_try_catch, wp_bind, wp_call. intros [].
  eapply wp_mono; [| apply (save_body_steps host this)].
  intros t1 [e | []] Hs1; simpl.
  - intros [] []. split; [reflexivity |].
    eexists (requests t1 ++ [_])%list. split.
    + unfold requests. rewrite !map_app. simpl.
      rewrite <- !app_assoc. reflexivity.
    + rewrite forallb_app, Hs1. reflexivity.
  - intros []. split; [reflexivity |].
    exists (requests t1). split.
    + unfold requests. rewrite !map_app. reflexivity.
    + exact Hs1.
Qed.

End CachePhases.

(** X10. [restore] never throws, whatever the package managers, the disk
    and the cache service answer, and it leaves the configuration and the
    working directory of the manager as they were.  When the cache is
    enabled it opens one log group and closes it last; in between it asks
    only for log lines and processes, looks at files and reads them, asks
    the cache service to restore and writes to the persisted state: it
    saves no cache and reads no state.  When the cache is disabled it logs
    one debug line and does nothing else. *)
Theorem restore_never_throws (host : Host) (this : Cache.CacheManager)
    (W : Type) (h : Handler W) (w : W) :
  let o := interp h (Cache.restore host this) w in
  exists this',
    result o = inr this'
    /\ Cache.config this' = Cache.config this
    /\ Cache.workingDirectory this' = Cache.workingDirectory this
    /\ if Cache.enabled (Cache.config this)
       then exists mid,
              requests (trace o)
              = (CoreStartGroup "Restoring cache" :: mid ++ [CoreEndGroup])%list
              /\ forallb is_restore_step mid = true
       else requests (trace o) = [CoreDebug "Cache is disabled"]
            /\ this' = this.
Proof. exact (wp_sound _ _ (wp_restore host this) h w). Qed.


(* ================================================================== *)
(** ** cache/CacheManager.ts: what is written to the state, and read   *)
(* ================================================================== *)

Lemma cache_restores_app (a b : list Call) :
  cache_restores (a ++ b) = (cache_restores a ++ cache_restores b)%list.
Proof. apply observe_app. Qed.

Lemma saved_state_app (a b : list Call) :
  saved_state (a ++ b) = (saved_state a ++ saved_state b)%list.
Proof. apply observe_app. Qed.

Lemma cache_restore_answers_app (a b : list Call) :
  cache_restore_answers (a ++ b)
  = (cache_restore_answers a ++ cache_restore_answers b)%list.
Proof. apply flat_map_app. Qed.

Lemma cache_save_answers_app (a b : list Call) :
  cache_save_answers (a ++ b)
  = (cache_save_answers a ++ cache_save_answers b)%list.
Proof. apply flat_map_app. Qed.

Lemma lock_probes_quiet (t : list Call) :
  forallb is_lock_probe (requests t) = true ->
  cache_restores t = [] /\ saved_state t = [] /\ cache_restore_answers t = []
  /\ cache_saves t = [] /\ cache_save_answers t = [] /\ warnings t = []
  /\ forall n, state_answers n t = [].
Proof.
  intro H.
  assert (Hreq : forall (B : Type) (f : Req -> list B),
            (forall r, is_lock_probe r = true -> f r = []) ->
            flat_map f (requests t) = [])
    by (intros B f Hf; apply (flat_map_none is_lock_probe); assumption).
  assert (Hcall : forall (B : Type) (f : Call -> list B),
            (forall r x, is_lock_probe r = true ->
               f {| call_req := r; call_resp := x |} = []) ->
            flat_map f t = []).
  { intros B f Hf. clear Hreq. induction t as [| [r x] t IH]; simpl in *.
    - reflexivity.
    - apply andb_prop in H. destruct H as [Hr Ht].
      rewrite (Hf r x Hr), (IH Ht). reflexivity. }
  repeat split.
  - apply Hreq. intros [] Hx; try discriminate Hx; reflexivity.
  - apply Hreq. intros [] Hx; try discriminate Hx; reflexivity.
  - apply Hcall. intros [] x Hx; try discriminate Hx; reflexivity.
  - apply Hreq. intros [] Hx; try discriminate Hx; reflexivity.
  - apply Hcall. intros [] x Hx; try discriminate Hx; reflexivity.
  - apply Hreq. intros [] Hx; try discriminate Hx; reflexivity.
  - intro n. apply Hcall. intros [] x Hx; try discriminate Hx; reflexivity.
Qed.

Ltac observe :=
  unfold cache_restores, saved_state, cache_restore_answers, cache_saves,
    cache_save_answers, warnings, state_answers, accessed, requests;
  cbn [flat_map map app cache_restore_answer cache_save_answer state_answer
       accessed_one call_req call_resp].

Lemma wp_restoreWith (label st : string) (generate : Prog Cache.CacheKeyInfo)
    (K : Cache.CacheKeyInfo -> Prop) :
  wp generate (fun t r =>
    forallb is_lock_probe (requests t) = true
    /\ match r with inr i => K i | inl _ => True end) ->
  wp (Cache.restoreWith label st generate) (restored st K).
Proof.
  intro Hg. unfold Cache.restoreWith. apply wp_bind.
  eapply wp_mono; [| apply Hg]. intros t1 r1 (Hf & HK).
  destruct (lock_probes_quiet t1 Hf) as (H1 & H2 & H3 & _).
  destruct r1 as [e | info].
  { unfold restored. rewrite H3. auto. }
  destruct (Cache.paths info) as [| p ps] eqn:Ep.
  - simpl. intros []. unfold restored.
    rewrite cache_restore_answers_app, cache_restores_app, saved_state_app,
      H1, H2, H3. observe. auto.
  - unfold core_info, core_debug, core_saveState. simpl.
    intros [] [] [e | hit]; simpl.
    + unfold restored.
      rewrite cache_restore_answers_app, cache_restores_app, saved_state_app,
        H1, H2, H3. observe.
      exists info. rewrite Ep. repeat split; auto. discriminate.
    + destruct (JsString.truthy_opt hit) eqn:Eh; simpl; intros [] [] [];
        unfold restored;
        rewrite cache_restore_answers_app, cache_restores_app, saved_state_app,
          H1, H2, H3; observe;
        exists info; rewrite Ep, Eh; repeat split; auto; discriminate.
Qed.

Section KeyShapes.

Variable host : Host.

Lemma wp_generateComposerCacheKey_shape (this : Cache.CacheManager) :
  wp (Cache.generateComposerCacheKey host this) (fun t r =>
    forallb is_lock_probe (requests t) = true
    /\ match r with
       | inr info =>
           Cache.paths info = Cache.composerPaths host this
           /\ Cache.restoreKeys info
              = Cache.composerRestoreKeys (Cache.keyPrefix (Cache.config this))
                                          (process_platform host)
           /\ exists hash,
                Cache.key info
                = Cache.composerKey (Cache.keyPrefix (Cache.config this))
                                    (process_platform host) hash
       | inl _ => True
       end).
Proof.
  apply wp_conj; [apply generateComposerCacheKey_probe |].
  unfold Cache.generateComposerCacheKey, fileExists, Cache.hashLockFile,
    Cache.readFile.
  cbv zeta. simpl. repeat (wp_case; simpl); eauto.
Qed.

Lemma wp_generateNpmCacheKey_shape (this : Cache.CacheManager) :
  wp (Cache.generateNpmCacheKey host this) (fun t r =>
    forallb is_lock_probe (requests t) = true
    /\ match r with
       | inr info =>
           Cache.paths info = Cache.npmPaths host this
           /\ exists pm hash,
                Cache.key info
                = Cache.npmKey (Cache.keyPrefix (Cache.config this))
                               (process_platform host) pm hash
                /\ Cache.restoreKeys info
                   = Cache.npmRestoreKeys (Cache.keyPrefix (Cache.config this))
                                          (process_platform host) pm
       | inl _ => True
       end).
Proof.
  apply wp_conj; [apply generateNpmCacheKey_probe |].
  unfold Cache.generateNpmCacheKey, fileExists, Cache.hashLockFile,
    Cache.readFile.
  cbv zeta. simpl. repeat (wp_case; simpl); eauto.
Qed.

End KeyShapes.


(** The service restores from a fallback key: the state records the hit
    and the primary key. *)
Example restore_from_fallback_key :
  let s := Example.with_cache Example.quiet
             (Some "code-quality-action-linux-composer-0badc0de") in
  saved_state (trace (interp (Example.handler s)
                        (Cache.restoreComposerCache Example.host Example.manager)
                        tt))
  = [("composer-cache-hit", "true");
     ("composer-cache-key", "code-quality-action-linux-composer-no-lock")].
Proof. vm_compute. reflexivity. Qed.

Lemma eqb_append_cancel (a b c : string) :
  String.eqb (a ++ b) (a ++ c) = String.eqb b c.
Proof.
  induction a as [| x a IH]; simpl.
  - reflexivity.
  - rewrite Ascii.eqb_refl. exact IH.
Qed.

Lemma existing_were_found (t : list Call) :
  Forall (fun q => In (q, true) (accessed t)) (map fst (filter snd (accessed t))).
Proof.
  apply Forall_forall. intros q Hq. apply in_map_iff in Hq.
  destruct Hq as ([q' b] & <- & Hin). apply filter_In in Hin.
  destruct Hin as (Hin & Hb). simpl in *. subst b. exact Hin.
Qed.

Lemma wp_saveWith (label st : string) (generate : Prog Cache.CacheKeyInfo) :
  only is_lock_probe generate ->
  wp (Cache.saveWith label st generate) (saved label st).
Proof.
  intro Hg. unfold Cache.saveWith. cbv zeta.
  apply wp_bind, wp_call. intro hit.
  destruct (String.eqb hit "true") eqn:Ehit.
  { apply wp_call. intros []. unfold saved. observe. reflexivity. }
  apply wp_bind, wp_call. intro k.
  destruct (JsString.truthy k) eqn:Ek; cbn [negb].
  2: { apply wp_call. intros []. unfold saved. observe. reflexivity. }
  apply wp_bind. eapply wp_mono; [| apply Hg]. intros t1 r1 Hf1.
  destruct (lock_probes_quiet t1 Hf1) as (_ & _ & _ & Hs1 & Ha1 & Hw1 & Hst1).
  destruct r1 as [e | info].
  { unfold saved. rewrite !cache_saves_app, !cache_save_answers_app, Hs1, Ha1.
    observe. reflexivity. }
  apply wp_bind. eapply wp_mono; [| apply wp_filterExistingPaths].
  intros t2 r2 (Hf2 & _ & ->).
  destruct (lock_probes_quiet t2 Hf2) as (_ & _ & _ & Hs2 & Ha2 & Hw2 & Hst2).
  pose proof (existing_were_found t2) as Hfound.
  destruct (map fst (filter snd (accessed t2))) as [| q qs] eqn:Eq.
  { apply wp_call. intros []. unfold saved.
    rewrite !cache_saves_app, !cache_save_answers_app, Hs1, Ha1, Hs2, Ha2.
    observe. reflexivity. }
  assert (Hstate : forall rest,
            (forall n, state_answers n rest = []) ->
            state_answers (st ++ "-cache-key")
              ([{| call_req := CoreGetState (st ++ "-cache-hit");
                   call_resp := hit |}]
               ++ [{| call_req := CoreGetState (st ++ "-cache-key");
                      call_resp := k |}] ++ t1 ++ t2 ++ rest) = [k]
            /\ state_answers (st ++ "-cache-hit")
                 ([{| call_req := CoreGetState (st ++ "-cache-hit");
                      call_resp := hit |}]
                  ++ [{| call_req := CoreGetState (st ++ "-cache-key");
                         call_resp := k |}] ++ t1 ++ t2 ++ rest) = [hit]).
  { intros rest Hrest.
    rewrite !state_answers_app, !Hst1, !Hst2, !Hrest. observe.
    rewrite !eqb_append_cancel, !String.eqb_refl. split; reflexivity. }
  assert (Hin : forall pre rest,
            Forall (fun p => In (p, true) (accessed (pre ++ t1 ++ t2 ++ rest)))
                   (q :: qs)).
  { intros pre rest. eapply Forall_impl; [| exact Hfound].
    intros p Hp. rewrite !accessed_app. apply in_or_app. right.
    apply in_or_app. right. apply in_or_app. left. exact Hp. }
  unfold core_info, core_debug, core_warning. simpl.
  intros [] [] [e | []]; simpl; intros []; unfold saved;
    match goal with
    | |- context [(t2 ++ ?R)%list] =>
        change (?c1 :: ?c2 :: t1 ++ t2 ++ R)%list
          with ([c1] ++ [c2] ++ t1 ++ t2 ++ R)%list;
        destruct (Hstate R (fun n => eq_refl)) as (-> & ->)
    end;
    rewrite !cache_saves_app, !cache_save_answers_app, !warnings_app,
      Hs1, Hs2, Ha1, Ha2, Hw1, Hw2;
    observe;
    (repeat split;
     [ intros ->; discriminate Ek
     | intro H; injection H as ->; discriminate Ehit
     | discriminate
     | apply (Hin []) ]).
Qed.

Lemma wp_saveWith_regenerates (label st lock : string)
    (generate : Prog Cache.CacheKeyInfo) :
  wp generate (fun t r => exists more, map fst (accessed t) = lock :: more) ->
  wp (Cache.saveWith label st generate) (fun t r => regenerates lock st t).
Proof.
  intro Hg. unfold Cache.saveWith. cbv zeta.
  apply wp_bind, wp_call. intro hit.
  destruct (String.eqb hit "true").
  { apply wp_call. intros [] k Hk. exfalso. revert Hk. observe.
    rewrite eqb_append_cancel. discriminate. }
  apply wp_bind, wp_call. intro k0.
  destruct (JsString.truthy k0) eqn:Ek; cbn [negb].
  2: { apply wp_call. intros [] k Hk Hne. exfalso. revert Hk. observe.
       rewrite !eqb_append_cancel, String.eqb_refl. simpl.
       intro Hk. injection Hk as <-. destruct k0; [auto | discriminate Ek]. }
  apply wp_bind. eapply wp_mono; [| apply Hg]. intros t1 r1 (more & Hm).
  assert (Hall : forall t2,
            regenerates lock st
              ([{| call_req := CoreGetState (st ++ "-cache-hit");
                   call_resp := hit |}]
               ++ [{| call_req := CoreGetState (st ++ "-cache-key");
                      call_resp := k0 |}] ++ t1 ++ t2)).
  { intros t2 k _ _. exists (more ++ map fst (accessed t2))%list.
    rewrite !accessed_app, !map_app, Hm. reflexivity. }
  destruct r1 as [e | info].
  - rewrite <- (app_nil_r t1). apply Hall.
  - eapply wp_mono; [| apply wp_true]. intros t2 r2 _. apply Hall.
Qed.

Lemma wp_probe_first (A : Type) (p : string) (k : bool -> Prog A) :
  wp (bind (fileExists p) k) (fun t r =>
    exists more, map fst (accessed t) = p :: more).
Proof.
  unfold fileExists. simpl. intro x.
  eapply wp_mono; [| apply wp_true]. intros t r _.
  exists (map fst (accessed t)). reflexivity.
Qed.

Lemma wp_generateComposerCacheKey_lock (host : Host)
    (this : Cache.CacheManager) :
  wp (Cache.generateComposerCacheKey host this) (fun t r =>
    exists more,
      map fst (accessed t)
      = path_join host [Cache.workingDirectory this; "composer.lock"] :: more).
Proof.
  unfold Cache.generateComposerCacheKey. cbv zeta. apply wp_probe_first.
Qed.

Lemma wp_generateNpmCacheKey_lock (host : Host) (this : Cache.CacheManager) :
  wp (Cache.generateNpmCacheKey host this) (fun t r =>
    exists more,
      map fst (accessed t)
      = path_join host [Cache.workingDirectory this; "pnpm-lock.yaml"] :: more).
Proof.
  unfold Cache.generateNpmCacheKey. cbv zeta. apply wp_bind.
  eapply wp_mono; [| apply wp_probe_first]. intros t r (more & Hm).
  destruct r as [e | a]; [exists more; exact Hm |].
  eapply wp_mono; [| apply wp_true]. intros t2 r2 _.
  exists (more ++ map fst (accessed t2))%list.
  rewrite accessed_app, map_app, Hm. reflexivity.
Qed.


(** The run has written [composer.lock] since the restore: the generator
    now gives a key with the hash of the file, and the save goes under the
    key of the state all the same. *)
Example save_keeps_recorded_key :
  let h := Example.handler Example.lock_written in
  option_map Cache.key
    (match result (interp h (Cache.generateComposerCacheKey
                               Example.host Example.manager) tt) with
     | inr i => Some i
     | inl _ => None
     end)
  = Some "code-quality-action-linux-composer-e3b0c442"
  /\ cache_saves (trace (interp h (Cache.saveComposerCache
                                     Example.host Example.manager) tt))
     = [(["vendor"], "code-quality-action-linux-composer-no-lock")]
  /\ map fst (accessed (trace (interp h (Cache.saveComposerCache
                                           Example.host Example.manager) tt)))
     = ["composer.lock"; "vendor"].
Proof. vm_compute. auto. Qed.

(* ================================================================== *)
(** ** cache/CacheManager.ts: keys and cache directories               *)
(* ================================================================== *)

Lemma wp_generateComposerCacheKey (host : Host) (this : Cache.CacheManager)
    (d : Disk) :
  wp (Cache.generateComposerCacheKey host this) (fun t r =>
    Forall (agrees d) t ->
    r = inr
          {| Cache.key :=
               Cache.keyPrefix (Cache.config this) ++ "-"
               ++ process_platform host ++ "-composer-"
               ++ match d (path_join host [Cache.workingDirectory this;
                                           "composer.lock"]) with
                  | Some content => JsString.take 8 (sha256_hex host content)
                  | None => "no-lock"
                  end;
             Cache.restoreKeys :=
               [ Cache.keyPrefix (Cache.config this) ++ "-"
                 ++ process_platform host ++ "-composer-";
                 Cache.keyPrefix (Cache.config this) ++ "-composer-" ];
             Cache.paths := Cache.composerPaths host this |}).
Proof.
  unfold Cache.generateComposerCacheKey, fileExists, Cache.hashLockFile,
    Cache.readFile, Cache.hashPrefix.
  cbv zeta. simpl.
  intros [e1 | []]; simpl.
  - intro HF. rewrite !Forall_cons_iff in HF. simpl in HF.
    destruct HF as (H1 & _). destruct (d _); [discriminate H1 |]. reflexivity.
  - intros [e2 | c]; simpl; intro HF; rewrite !Forall_cons_iff in HF;
      simpl in HF; destruct HF as (H1 & H2 & _);
      (destruct (d _); [| discriminate H1]);
      [discriminate H2 | injection H2 as ->; reflexivity].
Qed.

(** X14. On a disk that stays as it is, [generateComposerCacheKey] returns
    the key [{prefix}-{platform}-composer-{hash}], where the hash is the
    first eight hex digits of the SHA-256 of [composer.lock] in the working
    directory, or the literal [no-lock] when there is no such file; the
    fallback keys [{prefix}-{platform}-composer-] and [{prefix}-composer-];
    and as paths the detected Composer cache directory, if the Composer
    cache is configured, then [vendor] in the working directory, if that is
    configured. *)
Theorem composer_key_selection (host : Host) (this : Cache.CacheManager)
    (W : Type) (h : Handler W) (w : W) (d : Disk) :
  on_disk h d ->
  let prefix := Cache.keyPrefix (Cache.config this) in
  let platform := process_platform host in
  let wd := Cache.workingDirectory this in
  let hash := match d (path_join host [wd; "composer.lock"]) with
              | Some content => JsString.take 8 (sha256_hex host content)
              | None => "no-lock"
              end in
  result (interp h (Cache.generateComposerCacheKey host this) w)
  = inr {| Cache.key := prefix ++ "-" ++ platform ++ "-composer-" ++ hash;
           Cache.restoreKeys := [ prefix ++ "-" ++ platform ++ "-composer-";
                                  prefix ++ "-composer-" ];
           Cache.paths :=
             (match Cache.composerCacheDir this with
              | Some dir =>
                  if Cache.composerCache (Cache.config this)
                     && JsString.truthy dir then [dir] else []
              | None => []
              end
              ++ if Cache.composerVendor (Cache.config this)
                 then [path_join host [wd; "vendor"]] else [])%list |}.
Proof.
  intro H.
  exact (wp_sound _ _ (wp_generateComposerCacheKey host this d) h w
           (@on_disk_trace W _ h d _ w H)).
Qed.

(** With a lock file the key carries its hash; without one, [no-lock]. *)
Lemma composer_key_selection_witness :
  result (interp (Example.handler
                    (Example.with_disk Example.quiet [("composer.lock", "")]))
            (Cache.generateComposerCacheKey Example.host Example.manager) tt)
  = inr {| Cache.key := "code-quality-action-linux-composer-e3b0c442";
           Cache.restoreKeys := ["code-quality-action-linux-composer-";
                                 "code-quality-action-composer-"];
           Cache.paths := ["vendor"] |}
  /\ result (interp (Example.handler Example.quiet)
               (Cache.generateComposerCacheKey Example.host Example.manager) tt)
     = inr {| Cache.key := "code-quality-action-linux-composer-no-lock";
              Cache.restoreKeys := ["code-quality-action-linux-composer-";
                                    "code-quality-action-composer-"];
              Cache.paths := ["vendor"] |}.
Proof.
  split.
  - exact (@composer_key_selection Example.host Example.manager unit
             (Example.handler
                (Example.with_disk Example.quiet [("composer.lock", "")])) tt
             (Example.disk
                (Example.with_disk Example.quiet [("composer.lock", "")]))
             (example_on_disk _)).
  - exact (@composer_key_selection Example.host Example.manager unit
             (Example.handler Example.quiet) tt
             (Example.disk Example.quiet)
             (example_on_disk Example.quiet)).
Defined.

Lemma wp_detectNpmCacheDir (host : Host) (this : Cache.CacheManager) :
  wp (Cache.detectNpmCacheDir host this) (fun t r =>
    exists this',
      r = inr this'
      /\ Cache.config this' = Cache.config this
      /\ Cache.workingDirectory this' = Cache.workingDirectory this
      /\ Cache.composerCacheDir this' = Cache.composerCacheDir this
      /\ if Cache.npmCache (Cache.config this)
         then spawned t = firstn (List.length (exec_answers t)) npm_cache_queries
              /\ (1 <= List.length (exec_answers t) <= 3)%nat
              /\ Forall (fun a => detected a = None /\ is_inr a = true)
                        (removelast (exec_answers t))
              /\ Cache.npmCacheDir this'
                 = match flat_map (fun a => match detected a with
                                            | Some dir => [dir]
                                            | None => []
                                            end) (exec_answers t) with
                   | dir :: _ => Some dir
                   | [] => Cache.npmCacheDir this
                   end
         else t = [] /\ this' = this).
Proof.
  unfold Cache.detectNpmCacheDir, executeCommand, core_debug.
  destruct (Cache.npmCache (Cache.config this)); cbn [negb];
    [| simpl; eexists; repeat split].
  simpl. repeat (wp_case; simpl).
  all: eexists; split; [reflexivity |].
  all: split; [reflexivity |]; split; [reflexivity |]; split; [reflexivity |].
  all: unfold spawned, exec_answers, requests, detected;
    cbn [flat_map map app exec_answer call_req call_resp List.length firstn
         npm_cache_queries removelast exec_exitCode exec_stdout
         Cache.npmCacheDir Cache.set_npmCacheDir].
  all: repeat match goal with
              | H : (_ && _)%bool = _ |- _ => rewrite H
              end.
  all: cbn [flat_map app]; rewrite ?trim_idempotent.
  all: repeat split; try lia; repeat constructor; auto.
  all: repeat match goal with
              | H : (_ && _)%bool = _ |- _ => rewrite H; clear H
              end; reflexivity.
Qed.


(** npm is not installed and yarn answers: the directory is yarn's, and
    pnpm is not asked. *)
Example yarn_cache_directory :
  let s := Example.with_exec Example.quiet
             (fun c _ => if String.eqb c "yarn"
                         then Example.exits 0 "/home/runner/.cache/yarn/v6"
                         else Example.exits 127 "") in
  let o := interp (Example.handler s)
             (Cache.detectNpmCacheDir Example.host Example.manager) tt in
  spawned (trace o)
  = [("npm", ["config"; "get"; "cache"]); ("yarn", ["cache"; "dir"])]
  /\ option_map Cache.npmCacheDir
       (match result o with inr m => Some m | inl _ => None end)
     = Some (Some "/home/runner/.cache/yarn/v6").
Proof. vm_compute. auto. Qed.

(* ================================================================== *)
(** ** reporters/github.ts                                             *)
(* ================================================================== *)

#[local] Arguments error_annotations : simpl never.
#[local] Arguments warning_annotations : simpl never.

Lemma error_annotations_app (a b : list Call) :
  error_annotations (a ++ b) = (error_annotations a ++ error_annotations b)%list.
Proof. unfold error_annotations. rewrite requests_app. apply filter_app. Qed.

Lemma warning_annotations_app (a b : list Call) :
  warning_annotations (a ++ b)
  = (warning_annotations a ++ warning_annotations b)%list.
Proof. unfold warning_annotations. rewrite requests_app. apply filter_app. Qed.

Lemma countSeverity_sum (s : Severity) (l : list Issue) :
  GitHubReporter.countSeverity s l
  = list_sum (map (fun i => if Severity_eqb (severity i) s then 1 else 0) l).
Proof.
  unfold GitHubReporter.countSeverity.
  induction l as [| i l IH]; simpl.
  - reflexivity.
  - destruct (Severity_eqb (severity i) s); simpl; rewrite IH; reflexivity.
Qed.

Lemma wp_annotations_counted (s : Severity)
    (pick : list Call -> list Req) :
  (forall a b, pick (a ++ b)%list = (pick a ++ pick b)%list) ->
  (forall m p, pick [{| call_req := CoreError m (Some p); call_resp := tt |}]
               = if Severity_eqb error s then [CoreError m (Some p)] else []) ->
  (forall m p, pick [{| call_req := CoreWarning m (Some p); call_resp := tt |}]
               = if Severity_eqb warning s then [CoreWarning m (Some p)] else []) ->
  forall l,
    wp (GitHubReporter.generateAnnotations l) (fun t r =>
      r = inr tt
      /\ List.length (pick t)
         = list_sum (map (fun r => GitHubReporter.countSeverity s (issues r)) l)).
Proof.
  intros Happ Herr Hwarn l. unfold GitHubReporter.generateAnnotations.
  assert (Hnil : List.length (pick []) = 0).
  { pose proof (Happ [] []) as H. simpl in H.
    apply (f_equal (@List.length Req)) in H. rewrite length_app in H. lia. }
  assert (Hadd : forall a b, List.length (pick (a ++ b)%list)
                             = List.length (pick a) + List.length (pick b))
    by (intros; rewrite Happ, length_app; reflexivity).
  eapply wp_mono;
    [| apply (wp_forEach _ is_annotation (fun t => List.length (pick t))
                (fun r => GitHubReporter.countSeverity s (issues r)) Hnil Hadd)].
  - intros t r (Hr & _ & Hm). auto.
  - intro r. rewrite countSeverity_sum.
    eapply wp_mono;
      [| apply (wp_forEach (fun i => GitHubReporter.annotate r i) is_annotation
                  (fun t => List.length (pick t))
                  (fun i => if Severity_eqb (severity i) s then 1 else 0)
                  Hnil Hadd)].
    + auto.
    + intro i. unfold GitHubReporter.annotate, call. cbv zeta.
      destruct (severity i); simpl; intros [];
        (split; [reflexivity | split; [reflexivity |]]);
        rewrite ?Herr, ?Hwarn; destruct s; reflexivity.
Qed.

(** X16. [generateAnnotations] never throws, and of the annotations it
    emits as many are errors as the report counts errors over all tools,
    and as many are warnings as the report counts warnings: the log and the
    report agree severity by severity. *)
Theorem annotations_by_severity (l : list ToolResult)
    (W : Type) (h : Handler W) (w : W) :
  let o := interp h (GitHubReporter.generateAnnotations l) w in
  let entries := results (GitHubReporter.report l) in
  result o = inr tt
  /\ List.length (error_annotations (trace o))
     = list_sum (map report_errors entries)
  /\ List.length (warning_annotations (trace o))
     = list_sum (map report_warnings entries).
Proof.
  cbv zeta. unfold GitHubReporter.report. cbn [results]. rewrite !map_map.
  cbn [report_errors report_warnings].
  destruct (wp_sound _ _ (@wp_annotations_counted error error_annotations
              error_annotations_app (fun _ _ => eq_refl) (fun _ _ => eq_refl) l)
              h w) as (Hr & He).
  destruct (wp_sound _ _ (@wp_annotations_counted warning warning_annotations
              warning_annotations_app (fun _ _ => eq_refl) (fun _ _ => eq_refl) l)
              h w) as (_ & Hw).
  auto.
Qed.

Section Grouping.

Import GitHubReporter.

Lemma issues_at_snoc (done : list Issue) (i : Issue) (k : string) :
  issues_at (done ++ [i]) k
  = (issues_at done k ++ if String.eqb (file i) k then [i] else [])%list.
Proof. unfold issues_at. rewrite filter_app. reflexivity. Qed.

Lemma pushByFile_keys (acc : list (string * list Issue)) (i : Issue) (k : string) :
  In k (map fst (pushByFile acc i)) <-> In k (map fst acc) \/ k = file i.
Proof.
  induction acc as [| [f l] acc IH]; simpl.
  - intuition.
  - destruct (String.eqb_spec f (file i)) as [-> | Hne]; simpl.
    + intuition.
    + rewrite IH. intuition.
Qed.

Lemma pushByFile_NoDup (acc : list (string * list Issue)) (i : Issue) :
  NoDup (map fst acc) -> NoDup (map fst (pushByFile acc i)).
Proof.
  induction acc as [| [f l] acc IH]; simpl; intro H.
  - repeat constructor. intros [].
  - inversion H as [| ? ? Hnin Hnd]; subst.
    destruct (String.eqb_spec f (file i)) as [-> | Hne]; simpl.
    + constructor; assumption.
    + constructor; [| apply IH, Hnd].
      rewrite pushByFile_keys. intros [Hin | ->]; [exact (Hnin Hin) |].
      apply Hne. reflexivity.
Qed.

Lemma pushByFile_sizes (acc : list (string * list Issue)) (i : Issue) :
  list_sum (map (fun g => List.length (snd g)) (pushByFile acc i))
  = S (list_sum (map (fun g => List.length (snd g)) acc)).
Proof.
  induction acc as [| [f l] acc IH]; simpl.
  - reflexivity.
  - destruct (String.eqb f (file i)); simpl.
    + rewrite length_app. simpl. lia.
    + rewrite IH. lia.
Qed.

Lemma pushByFile_groups (done : list Issue) (i : Issue)
    (acc : list (string * list Issue)) :
  NoDup (map fst acc) ->
  Forall (fun g => snd g = issues_at done (fst g) /\ snd g <> []) acc ->
  (~ In (file i) (map fst acc) -> issues_at done (file i) = []) ->
  Forall (fun g => snd g = issues_at (done ++ [i]) (fst g) /\ snd g <> [])
         (pushByFile acc i).
Proof.
  induction acc as [| [f l] acc IH]; simpl; intros Hnd Hall Hnew.
  - repeat constructor; simpl.
    + rewrite issues_at_snoc, String.eqb_refl, Hnew by tauto. reflexivity.
    + discriminate.
  - inversion Hnd as [| ? ? Hnin Hnd']; subst.
    inversion Hall as [| ? ? [Hl Hne] Hall']; subst. simpl in *.
    destruct (String.eqb_spec f (file i)) as [-> | Hdiff].
    + constructor; simpl.
      * rewrite issues_at_snoc, String.eqb_refl, Hl. split; [reflexivity |].
        destruct (issues_at done (file i)); discriminate.
      * eapply Forall_impl; [| apply Forall_and;
          [exact Hall' | apply Forall_forall; intros g Hg; exact (in_map fst _ _ Hg)]].
        intros [k ks] [[Hk Hks] Hin]. simpl in *.
        rewrite issues_at_snoc. destruct (String.eqb_spec (file i) k) as [<- | _].
        -- contradiction.
        -- rewrite app_nil_r. auto.
    + constructor; simpl.
      * rewrite issues_at_snoc. destruct (String.eqb_spec (file i) f) as [E | _].
        -- symmetry in E. contradiction.
        -- rewrite app_nil_r. auto.
      * apply IH; [assumption | assumption |].
        intro H. apply Hnew. intros [E | Hin]; [contradiction | exact (H Hin)].
Qed.

Lemma fold_left_thrown (e : Exn) (l : list Issue) :
  fold_left (fun acc issue =>
               match acc with
               | inl e => inl e
               | inr groups =>
                   if inherited (file issue)
                   then inl push_is_not_a_function
                   else inr (pushByFile groups issue)
               end) l (inl e) = inl e.
Proof. induction l as [| i l IH]; simpl; auto. Qed.

Lemma issuesByFile_from (l done : list Issue) (acc : list (string * list Issue)) :
  NoDup (map fst acc) ->
  Forall (fun g => snd g = issues_at done (fst g) /\ snd g <> []) acc ->
  (forall i, In i done -> In (file i) (map fst acc)) ->
  list_sum (map (fun g => List.length (snd g)) acc) = List.length done ->
  match fold_left (fun acc issue =>
                     match acc with
                     | inl e => inl e
                     | inr groups =>
                         if inherited (file issue)
                         then inl push_is_not_a_function
                         else inr (pushByFile groups issue)
                     end) l (inr acc) with
  | inr groups =>
      Forall (fun i => inherited (file i) = false) l
      /\ NoDup (map fst groups)
      /\ Forall (fun g => snd g = issues_at (done ++ l) (fst g) /\ snd g <> []) groups
      /\ (forall i, In i (done ++ l) -> In (file i) (map fst groups))
      /\ list_sum (map (fun g => List.length (snd g)) groups)
         = List.length (done ++ l)
  | inl e =>
      e = push_is_not_a_function
      /\ Exists (fun i => inherited (file i) = true) l
  end.
Proof.
  revert done acc. induction l as [| i l IH]; intros done acc Hnd Hall Hin Hsum.
  - simpl. rewrite app_nil_r. auto.
  - simpl. destruct (inherited (file i)) eqn:Ei.
    + rewrite fold_left_thrown. split; [reflexivity |]. constructor. exact Ei.
    + specialize (IH (done ++ [i])%list (pushByFile acc i)).
      rewrite <- app_assoc in IH. simpl in IH.
      assert (Hnew : ~ In (file i) (map fst acc) -> issues_at done (file i) = []).
      { intro Hn. unfold issues_at. destruct (filter _ done) as [| j js] eqn:Ef;
          [reflexivity |]. exfalso.
        assert (Hj : In j (filter (fun i0 => String.eqb (file i0) (file i)) done))
          by (rewrite Ef; left; reflexivity).
        apply filter_In in Hj. destruct Hj as (Hj & Hk).
        apply String.eqb_eq in Hk. apply Hn. rewrite <- Hk. apply Hin, Hj. }
      lapply IH; [clear IH; intro IH | apply pushByFile_NoDup, Hnd].
      lapply IH; [clear IH; intro IH | apply pushByFile_groups; assumption].
      lapply IH; [clear IH; intro IH |].
      2: { intros j Hj. apply pushByFile_keys. apply in_app_or in Hj.
           destruct Hj as [Hj | [<- | []]]; auto. }
      lapply IH; [clear IH; intro IH |].
      2: { rewrite pushByFile_sizes, length_app, Hsum. simpl. lia. }
      destruct (fold_left _ l (inr (pushByFile acc i))) as [e | groups].
      * destruct IH as (-> & Hex). split; [reflexivity |].
        apply Exists_cons_tl, Hex.
      * destruct IH as (Hl & ?). split; [constructor; assumption | assumption].
Qed.

Lemma issuesByFile_spec (l : list Issue) :
  match issuesByFile l with
  | inr groups =>
      Forall (fun i => inherited (file i) = false) l
      /\ NoDup (map fst groups)
      /\ Forall (fun g => snd g = issues_at l (fst g) /\ snd g <> []) groups
      /\ (forall i, In i l -> In (file i) (map fst groups))
      /\ list_sum (map (fun g => List.length (snd g)) groups) = List.length l
  | inl e =>
      e = push_is_not_a_function
      /\ Exists (fun i => inherited (file i) = true) l
  end.
Proof.
  unfold issuesByFile.
  apply (@issuesByFile_from l [] []); simpl; auto.
  constructor.
Qed.

Lemma insertByIndex_In (g x : string * list Issue)
    (l : list (string * list Issue)) :
  In x (insertByIndex g l) <-> x = g \/ In x l.
Proof.
  induction l as [| a l IH]; simpl.
  - intuition.
  - destruct (Z.leb _ _); simpl; [intuition | rewrite IH; intuition].
Qed.

Lemma insertByIndex_length (g : string * list Issue)
    (l : list (string * list Issue)) :
  List.length (insertByIndex g l) = S (List.length l).
Proof.
  induction l as [| a l IH]; simpl.
  - reflexivity.
  - destruct (Z.leb _ _); simpl; [reflexivity | rewrite IH; reflexivity].
Qed.

Lemma sorted_In (x : string * list Issue) (l : list (string * list Issue)) :
  In x (fold_right insertByIndex [] l) <-> In x l.
Proof.
  induction l as [| a l IH]; simpl.
  - tauto.
  - rewrite insertByIndex_In, IH. intuition.
Qed.

Lemma sorted_length (l : list (string * list Issue)) :
  List.length (fold_right insertByIndex [] l) = List.length l.
Proof.
  induction l as [| a l IH]; simpl.
  - reflexivity.
  - rewrite insertByIndex_length, IH. reflexivity.
Qed.

Lemma filter_split_length (A : Type) (p : A -> bool) (l : list A) :
  List.length (filter p l) + List.length (filter (fun x => negb (p x)) l)
  = List.length l.
Proof.
  induction l as [| a l IH]; simpl.
  - reflexivity.
  - destruct (p a); simpl; lia.
Qed.

Lemma Object_entries_In (x : string * list Issue)
    (groups : list (string * list Issue)) :
  In x (Object_entries groups) <-> In x groups.
Proof.
  unfold Object_entries. rewrite in_app_iff, sorted_In, !filter_In.
  destruct (is_array_index (fst x)); simpl; intuition; discriminate.
Qed.

Lemma Object_entries_length (groups : list (string * list Issue)) :
  List.length (Object_entries groups) = List.length groups.
Proof.
  unfold Object_entries. rewrite length_app, sorted_length.
  apply filter_split_length.
Qed.

End Grouping.


#[local] Arguments summaries : simpl never.
#[local] Arguments summary_answers : simpl never.
#[local] Arguments groups_opened : simpl never.

Lemma summaries_app (a b : list Call) :
  summaries (a ++ b) = (summaries a ++ summaries b)%list.
Proof. apply observe_app. Qed.

Lemma summary_answers_app (a b : list Call) :
  summary_answers (a ++ b) = (summary_answers a ++ summary_answers b)%list.
Proof. apply flat_map_app. Qed.

Lemma groups_opened_app (a b : list Call) :
  groups_opened (a ++ b) = (groups_opened a ++ groups_opened b)%list.
Proof. apply observe_app. Qed.

Lemma group_depth_app (a b : list Req) (d d' : nat) :
  group_depth d a = Some d' -> group_depth d (a ++ b) = group_depth d' b.
Proof.
  revert d. induction a as [| r a IH]; simpl; intros d H.
  - injection H as ->. reflexivity.
  - destruct r; try (apply IH; exact H).
    destruct d; [discriminate H | apply IH; exact H].
Qed.

Lemma infos_only (t : list Call) :
  forallb (fun r => match r with CoreInfo _ => true | _ => false end)
          (requests t) = true ->
  summaries t = [] /\ summary_answers t = [] /\ groups_opened t = []
  /\ forall d, group_depth d (requests t) = Some d.
Proof.
  induction t as [| [r x] t IH]; simpl; intro H.
  - repeat split.
  - apply andb_prop in H. destruct H as [Hr Ht].
    destruct r; try discriminate Hr.
    destruct (IH Ht) as (H1 & H2 & H3 & H4).
    unfold summaries, summary_answers, groups_opened in *. simpl.
    repeat split; assumption.
Qed.

Lemma wp_log_lines (A : Type) (l : list A) (body : A -> Prog unit) :
  (forall x, exists m, body x = core_info m) ->
  wp (forEach l body) (fun t r =>
    r = inr tt
    /\ forallb (fun r => match r with CoreInfo _ => true | _ => false end)
               (requests t) = true).
Proof.
  intro Hb. induction l as [| x l IH]; simpl.
  - auto.
  - destruct (Hb x) as [m ->]. simpl. intros [].
    eapply wp_mono; [| apply IH].
    intros t r (-> & H). simpl. auto.
Qed.

Lemma no_issues_no_groups (l : list ToolResult) :
  sumIssues l = 0 ->
  filter (fun r => Nat.ltb 0 (List.length (issues r))) l = [].
Proof.
  rewrite sumIssues_list_sum. induction l as [| r l IH]; simpl; intro H.
  - reflexivity.
  - destruct (List.length (issues r)); simpl in *; [apply IH; lia | lia].
Qed.

Lemma summaryTable_length (l : list ToolResult) :
  List.length (GitHubReporter.summaryTable l) = List.length l + 2.
Proof.
  unfold GitHubReporter.summaryTable.
  rewrite !length_app, length_map. simpl. lia.
Qed.

Lemma wp_summary_groups (l : list ToolResult) :
  wp (forEach l (fun r =>
        if Nat.ltb 0 (List.length (issues r)) then
          core_startGroup (GitHubReporter.cyan ++ tool r ++ ": "
                           ++ JsString.of_nat (List.length (issues r))
                           ++ " issues" ++ GitHubReporter.reset) ;;
          core_info (GitHubReporter.red ++ "Errors: "
                     ++ JsString.of_nat
                          (GitHubReporter.countSeverity error (issues r))
                     ++ GitHubReporter.reset ++ ", " ++ GitHubReporter.yellow
                     ++ "Warnings: "
                     ++ JsString.of_nat
                          (GitHubReporter.countSeverity warning (issues r))
                     ++ GitHubReporter.reset) ;;
          groups <- lift (GitHubReporter.issuesByFile (issues r)) ;;
          forEach (GitHubReporter.Object_entries groups) (fun '(f, l) =>
            core_info ("  " ++ GitHubReporter.dim ++ f ++ ": "
                       ++ JsString.of_nat (List.length l)
                       ++ " issue(s)" ++ GitHubReporter.reset)) ;;
          core_endGroup
        else Ret tt))
     (fun t r =>
        summaries t = [] /\ summary_answers t = []
        /\ (forall e, r = inl e -> e = GitHubReporter.push_is_not_a_function)
        /\ (Forall (fun r0 => Forall (fun i => inherited (file i) = false)
                                     (issues r0)) l ->
            r = inr tt
            /\ (forall d, group_depth d (requests t) = Some d)
            /\ List.length (groups_opened t)
               = List.length (filter (fun r0 => Nat.ltb 0 (List.length (issues r0)))
                                     l))).
Proof.
  induction l as [| x l IH].
  - simpl. repeat split; auto. discriminate.
  - cbn [forEach]. apply wp_bind.
    destruct (Nat.ltb 0 (List.length (issues x))) eqn:Ex.
    + apply wp_bind, wp_call. intros []. apply wp_bind, wp_call. intros [].
      pose proof (issuesByFile_spec (issues x)) as Hspec.
      destruct (GitHubReporter.issuesByFile (issues x)) as [e | groups].
      * destruct Hspec as (-> & Hex). simpl.
        split; [reflexivity | split; [reflexivity | split]].
        -- intros e H. injection H as <-. reflexivity.
        -- intro H. inversion H as [| ? ? Hx _]; subst. exfalso.
           apply Exists_exists in Hex. destruct Hex as (i & Hi & Hinh).
           rewrite Forall_forall in Hx. rewrite (Hx i Hi) in Hinh.
           discriminate Hinh.
      * cbn [lift bind wp]. apply wp_bind.
        eapply wp_mono;
          [| apply wp_log_lines; intros [f fs]; eexists; reflexivity].
        intros t1 r1 (-> & Hi1). destruct (infos_only t1 Hi1) as (S1 & A1 & G1 & D1).
        apply wp_call. intros [].
        eapply wp_mono; [| apply IH].
        intros t2 r2 (S2 & A2 & E2 & H2).
        rewrite !summaries_app, !summary_answers_app, !groups_opened_app,
          !requests_app, S1, A1, G1, S2, A2.
        split; [reflexivity | split; [reflexivity | split; [exact E2 |]]].
        intro H. inversion H as [| ? ? _ Hl]; subst.
        destruct (H2 Hl) as (-> & D2 & L2).
        split; [reflexivity | split].
        -- intro d. cbn [requests map app group_depth].
           change (map call_req t1) with (requests t1).
           rewrite <- app_assoc.
           rewrite (@group_depth_app _ _ _ _ (D1 (S d))). cbn [app group_depth].
           apply D2.
        -- rewrite !length_app, L2. cbn [filter]. rewrite Ex. reflexivity.
    + simpl. eapply wp_mono; [| apply IH].
      intros t2 r2 (S2 & A2 & E2 & H2).
      split; [exact S2 | split; [exact A2 | split; [exact E2 |]]].
      intro H. inversion H as [| ? ? _ Hl]; subst.
      destruct (H2 Hl) as (-> & D2 & L2). rewrite Ex. auto.
Qed.

Lemma wp_generateSummary_once (l : list ToolResult) :
  wp (GitHubReporter.generateSummary l) (fun t r =>
    summaries t
    = [[SummaryHeading "Code Quality Report";
        SummaryRaw (String JsString.LF EmptyString);
        SummaryTable (GitHubReporter.summaryTable l)]]
    /\ hd_error (requests t)
       = Some (CoreSummaryWrite
                 [SummaryHeading "Code Quality Report";
                  SummaryRaw (String JsString.LF EmptyString);
                  SummaryTable (GitHubReporter.summaryTable l)])
    /\ match summary_answers t with
       | [inl e] => r = inl e /\ List.length t = 1
       | [inr _] =>
           (sumIssues l = 0 -> r = inr tt /\ List.length t = 2)
           /\ (forall e, r = inl e ->
                 e = GitHubReporter.push_is_not_a_function)
           /\ (Forall (fun r0 => Forall (fun i => inherited (file i) = false)
                                        (issues r0)) l ->
               r = inr tt
               /\ group_depth 0 (requests t) = Some 0
               /\ List.length (groups_opened t)
                  = List.length
                      (filter (fun r0 => Nat.ltb 0 (List.length (issues r0))) l))
       | _ => False
       end).
Proof.
  unfold GitHubReporter.generateSummary. cbv zeta.
  apply wp_bind, wp_call. intros [e | []]; cbn [wp app].
  { apply wp_bind. simpl. repeat split. }
  apply wp_bind. cbn [lift wp app].
  destruct (Nat.ltb 0 (sumIssues l)) eqn:Et.
  - apply wp_bind, wp_call. intros [].
    eapply wp_mono; [| apply wp_summary_groups].
    intros t2 r2 (S2 & A2 & E2 & H2).
    change (?a :: [?b] ++ t2)%list with ([a; b] ++ t2)%list.
    rewrite summaries_app, summary_answers_app, groups_opened_app,
      requests_app, S2, A2.
    split; [reflexivity | split; [reflexivity |]].
    cbn [summary_answers flat_map summary_answer app call_req call_resp].
    unfold summary_answers. cbn [flat_map summary_answer app call_req call_resp].
    split; [| split; [exact E2 |]].
    + intro H. rewrite H in Et. discriminate Et.
    + intro H. destruct (H2 H) as (-> & D2 & L2).
      split; [reflexivity | split].
      * cbn [requests map app group_depth]. apply D2.
      * rewrite length_app, L2. reflexivity.
  - apply wp_call. intros [].
    split; [reflexivity | split; [reflexivity |]].
    unfold summary_answers. cbn [flat_map summary_answer app call_req call_resp].
    split; [auto | split; [discriminate |]].
    intros _. split; [reflexivity | split; [reflexivity |]].
    apply Nat.ltb_ge in Et.
    rewrite no_issues_no_groups by lia. reflexivity.
Qed.

(** X18. [generateSummary] writes the job summary exactly once, before it
    logs anything: a heading, a line break and a table of one header row,
    one row for each tool and one row with the total.  When the write
    rejects, it throws that error and has logged nothing.  When no tool
    found an issue it logs one line and returns.  Otherwise it returns
    unless an issue names a file that every object inherits, and then it
    has opened one log group for each tool with issues and closed every
    group it opened; the only error it throws by itself is that of the
    grouping. *)
Theorem summary_written_once (l : list ToolResult)
    (W : Type) (h : Handler W) (w : W) :
  let o := interp h (GitHubReporter.generateSummary l) w in
  let table := GitHubReporter.summaryTable l in
  let buffer := [SummaryHeading "Code Quality Report";
                 SummaryRaw (String JsString.LF EmptyString);
                 SummaryTable table] in
  List.length table = List.length l + 2
  /\ summaries (trace o) = [buffer]
  /\ hd_error (requests (trace o)) = Some (CoreSummaryWrite buffer)
  /\ match summary_answers (trace o) with
     | [inl e] => result o = inl e /\ List.length (trace o) = 1
     | [inr _] =>
         (sumIssues l = 0 -> result o = inr tt /\ List.length (trace o) = 2)
         /\ (forall e, result o = inl e ->
               e = GitHubReporter.push_is_not_a_function)
         /\ (Forall (fun r => Forall (fun i => inherited (file i) = false)
                                     (issues r)) l ->
             result o = inr tt
             /\ group_depth 0 (requests (trace o)) = Some 0
             /\ List.length (groups_opened (trace o))
                = List.length
                    (filter (fun r => Nat.ltb 0 (List.length (issues r))) l))
     | _ => False
     end.
Proof.
  cbv zeta. split; [apply summaryTable_length |].
  exact (wp_sound _ _ (@wp_generateSummary_once l) h w).
Qed.

(* ================================================================== *)
(** ** The text-scraping runners                                       *)
(* ================================================================== *)

Lemma span_spec (p : ascii -> bool) (s a b : string) :
  JsString.span p s = (a, b) ->
  s = a ++ b /\ JsString.forallb p a = true
  /\ match b with String c _ => p c = false | EmptyString => True end.
Proof.
  revert a b. induction s as [| c s IH]; simpl; intros a b H.
  - injection H as <- <-. auto.
  - destruct (p c) eqn:Ec.
    + destruct (JsString.span p s) as [a' b'] eqn:Es.
      injection H as <- <-. destruct (IH a' b' eq_refl) as (-> & Hf & Hb).
      simpl. rewrite Ec. auto.
    + injection H as <- <-. simpl. rewrite Ec. auto.
Qed.

Lemma append_nil_r (s : string) : s ++ "" = s.
Proof. induction s as [| c s IH]; simpl; [| rewrite IH]; reflexivity. Qed.

Lemma endsWith_append (a b : string) : endsWith (a ++ b) b = true.
Proof.
  unfold endsWith. rewrite length_append.
  replace (String.length a + String.length b - String.length b)
    with (String.length a) by lia.
  rewrite drop_append, String.eqb_refl. apply Nat.leb_le. lia.
Qed.

Lemma space_len_zero_head (c : ascii) (s : string) :
  JsString.space_len (String c s) = 0 -> JsString.is_space c = false.
Proof.
  cbn [JsString.space_len]. destruct (JsString.is_space c); [discriminate | auto].
Qed.

Lemma php_word_at_sound (s pre : string) (best : option string) (m : string) :
  Regex.php_word_at pre s best = Some m ->
  best = Some m
  \/ exists k,
       m = pre ++ k ++ ".php"
       /\ JsString.truthy (pre ++ k) = true
       /\ JsString.forallb (fun c => negb (JsString.is_space c)) k = true.
Proof.
  revert pre best. induction s as [| c s IH]; intros pre best H.
  - left. exact H.
  - cbn [Regex.php_word_at] in H.
    set (best' := if JsString.truthy pre && String.prefix ".php" (String c s)
                  then Some (pre ++ ".php") else best) in H.
    assert (Hbest : best' = Some m ->
              best = Some m
              \/ exists k,
                   m = pre ++ k ++ ".php"
                   /\ JsString.truthy (pre ++ k) = true
                   /\ JsString.forallb
                        (fun c => negb (JsString.is_space c)) k = true).
    { unfold best'.
      destruct (JsString.truthy pre && String.prefix ".php" (String c s)) eqn:E;
        [| auto].
      intro Hm. injection Hm as <-. right. exists EmptyString.
      apply andb_prop in E. rewrite append_nil_r. simpl. tauto. }
    destruct (JsString.space_len (String c s)) eqn:El; [| exact (Hbest H)].
    pose proof (space_len_zero_head _ _ El) as Ec.
    destruct (IH _ _ H) as [Hb | (k & -> & Ht & Hk)]; [exact (Hbest Hb) |].
    right. exists (String c k). rewrite !append_assoc in *. simpl in *.
    rewrite Ec. auto.
Qed.

Lemma match_php_path_from_sound (s m : string) (skip : nat) :
  Regex.match_php_path_from skip s = Some m ->
  exists k,
    m = k ++ ".php" /\ k <> EmptyString
    /\ JsString.forallb (fun c => negb (JsString.is_space c)) k = true.
Proof.
  revert skip. induction s as [| c s IH]; intros skip H.
  - destruct skip; simpl in H; discriminate H.
  - destruct skip as [| skip]; cbn [Regex.match_php_path_from] in H;
      [| exact (IH _ H)].
    destruct (Regex.php_word_at "" (String c s) None) as [m' |] eqn:E.
    + injection H as <-.
      destruct (php_word_at_sound _ _ _ E) as [Hb | (k & -> & Ht & Hk)];
        [discriminate Hb |].
      exists k. simpl in *. repeat split; auto. intros ->. discriminate Ht.
    + exact (IH _ H).
Qed.

Lemma match_php_path_sound (s m : string) :
  Regex.match_php_path s = Some m ->
  exists k,
    m = k ++ ".php" /\ k <> EmptyString
    /\ JsString.forallb (fun c => negb (JsString.is_space c)) k = true.
Proof. apply match_php_path_from_sound. Qed.

(** X19. The fallback of the Rector runner, which scrapes the text the
    tool printed when that is no JSON, reports at most one issue for each
    line, and every file it reports has a name that ends in [.php], is
    longer than that ending and holds no white space; every such issue is a
    warning at line 1. *)
Theorem rector_fallback_files (out : string) :
  (List.length (Runners.Rector_text_issues out)
   <= List.length (JsString.split JsString.LF out))%nat
  /\ Forall (fun i =>
               endsWith (file i) ".php" = true
               /\ (4 < String.length (file i))%nat
               /\ JsString.forallb (fun c => negb (JsString.is_space c))
                                   (file i) = true
               /\ line i = 1%Z /\ severity i = warning)
            (Runners.Rector_text_issues out).
Proof.
  unfold Runners.Rector_text_issues.
  induction (JsString.split JsString.LF out) as [| l ls [IH1 IH2]];
    cbn [flat_map].
  - split; [reflexivity | constructor].
  - destruct (JsString.includes l "[FILE]" || Regex.test_numbered l);
      [| split; [simpl; lia | exact IH2]].
    destruct (Regex.match_php_path l) as [m |] eqn:E;
      [| split; [simpl; lia | exact IH2]].
    destruct (match_php_path_sound _ E) as (k & -> & Hne & Hk).
    split; [simpl; lia |].
    constructor; [| exact IH2]. cbn [file line severity Runners.mkIssue].
    repeat split.
    + apply endsWith_append.
    + rewrite length_append. destruct k; [contradiction | simpl; lia].
    + rewrite forallb_append, Hk. reflexivity.
Qed.

Lemma terminator_len_append (s t : string) (n : nat) :
  JsString.terminator_len s = S n -> JsString.terminator_len (s ++ t) = S n.
Proof.
  destruct s as [| a [| b [| c r]]];
    cbn [JsString.terminator_len append]; intro H; space_cases;
    solve [exact H | discriminate H].
Qed.

Lemma terminator_len_prefix (s t : string) :
  JsString.terminator_len (s ++ t) = 0 -> JsString.terminator_len s = 0.
Proof.
  intro H. destruct (JsString.terminator_len s) as [| n] eqn:E; [reflexivity |].
  rewrite (terminator_len_append _ t E) in H. discriminate H.
Qed.

(** A colon ends no line terminator. *)
Lemma terminator_len_colon (c : ascii) (a b : string) :
  JsString.terminator_len (String c a ++ String ":" b)
  = JsString.terminator_len (String c a).
Proof.
  destruct a as [| x [| y r]]; cbn [JsString.terminator_len append];
    try reflexivity.
  - destruct (JsString.is_line_terminator c); [reflexivity |].
    destruct b; [reflexivity |].
    replace (Nat.eqb (JsString.char_code ":") 128) with false by reflexivity.
    rewrite andb_false_r. reflexivity.
  - destruct (JsString.is_line_terminator c); [reflexivity |].
    replace (Nat.eqb (JsString.char_code ":") 168
             || Nat.eqb (JsString.char_code ":") 169) with false
      by reflexivity.
    rewrite andb_false_r. reflexivity.
Qed.

Lemma last_space_split (s w : string) :
  JsString.last_space s = Some w ->
  exists p, s = p ++ w /\ JsString.is_space_char w = true.
Proof.
  induction s as [| c s IH]; cbn [JsString.last_space]; intro H.
  - discriminate H.
  - destruct (JsString.last_space s) as [w' |].
    + injection H as ->. destruct (IH eq_refl) as (p & -> & Hw).
      exists (String c p). auto.
    + destruct (JsString.is_space_char (String c s)) eqn:E; [| discriminate H].
      injection H as <-. exists EmptyString. auto.
Qed.

Lemma is_space3_continues (a b c : ascii) :
  JsString.is_space3 a b c = true ->
  128 <= JsString.char_code b /\ 128 <= JsString.char_code c.
Proof.
  unfold JsString.is_space3. cbv zeta. intro H.
  repeat match goal with
         | H : (_ || _)%bool = true |- _ => apply orb_prop in H; destruct H as [H | H]
         | H : (_ && _)%bool = true |- _ =>
             let H1 := fresh in
             apply andb_prop in H; destruct H as [H H1]
         | H : Nat.eqb _ _ = true |- _ => apply Nat.eqb_eq in H
         | H : Nat.leb _ _ = true |- _ => apply Nat.leb_le in H
         end; lia.
Qed.

Lemma continues_no_terminator (b : ascii) :
  128 <= JsString.char_code b -> JsString.is_line_terminator b = false.
Proof.
  unfold JsString.is_line_terminator. cbv zeta. intro H.
  apply orb_false_iff. split; apply Nat.eqb_neq; lia.
Qed.

(** A white-space character that begins no line terminator holds none. *)
Lemma space_char_no_terminator (w : string) :
  JsString.is_space_char w = true -> JsString.terminator_len w = 0 ->
  JsString.no_terminator w = true.
Proof.
  unfold JsString.is_space_char. intros H Ht. apply andb_prop in H.
  destruct H as [_ H]. apply Nat.eqb_eq in H.
  destruct w as [| a [| b [| c r]]]; cbn [JsString.no_terminator];
    rewrite ?Ht; try reflexivity.
  - cbn [JsString.space_len String.length] in H.
    destruct (JsString.is_space a); [discriminate H |].
    destruct (JsString.is_space2 a b) eqn:E; [| discriminate H].
    unfold JsString.is_space2 in E. apply andb_prop in E. destruct E as [_ E].
    apply Nat.eqb_eq in E. cbn [JsString.terminator_len].
    rewrite continues_no_terminator by lia. reflexivity.
  - cbn [JsString.space_len String.length] in H.
    destruct (JsString.is_space a); [discriminate H |].
    destruct (JsString.is_space2 a b); [discriminate H |].
    destruct (JsString.is_space3 a b c) eqn:E; [| discriminate H].
    destruct r; [| discriminate H].
    destruct (is_space3_continues _ _ _ E) as [Hb Hc].
    cbn [JsString.terminator_len].
    rewrite !continues_no_terminator by assumption. reflexivity.
Qed.

Lemma violation_tail_sound (s ds m : string) :
  Regex.violation_tail s = Some (ds, m) ->
  exists ws,
    s = ds ++ ":" ++ ws ++ m
    /\ ds <> EmptyString
    /\ JsString.forallb JsString.is_digit ds = true
    /\ (JsString.trimStart (ws ++ m) = m
        \/ JsString.trimStart (ws ++ m) = EmptyString
           /\ JsString.is_space_char m = true)
    /\ m <> EmptyString
    /\ JsString.no_terminator m = true.
Proof.
  unfold Regex.violation_tail.
  destruct (JsString.span JsString.is_digit s) as [d r] eqn:Ed.
  destruct (span_spec _ _ Ed) as (-> & Hd & _).
  destruct (JsString.truthy d) eqn:Etd; [| discriminate].
  destruct r as [| c r1]; [discriminate |].
  destruct c as [[] [] [] [] [] [] [] []]; try discriminate.
  cbv zeta.
  destruct (JsString.truthy (JsString.trimStart r1)) eqn:Etb.
  - destruct (JsString.no_terminator (JsString.trimStart r1)) eqn:Eb;
      [| discriminate].
    intro H. injection H as <- <-.
    destruct (trimStart_suffix r1) as [ws Hws].
    exists ws. rewrite <- Hws. repeat split; auto.
    + intros ->. discriminate Etd.
    + intro E. rewrite E in Etb. discriminate Etb.
  - destruct (JsString.last_space r1) as [w |] eqn:Ew; [| discriminate].
    destruct (Nat.eqb (JsString.terminator_len w) 0) eqn:Et; [| discriminate].
    intro H. injection H as <- <-. apply Nat.eqb_eq in Et.
    destruct (last_space_split _ Ew) as (ws & Hr & Hw).
    exists ws. rewrite <- Hr. repeat split; auto.
    + intros ->. discriminate Etd.
    + right. split; [| exact Hw].
      destruct (JsString.trimStart r1); [reflexivity | discriminate Etb].
    + intros ->. discriminate Hw.
    + apply space_char_no_terminator; assumption.
Qed.

Lemma match_violation_from_sound (s pre f n m : string) :
  Regex.match_violation_from pre s = Some (f, n, m) ->
  exists k ws,
    f = pre ++ k
    /\ s = k ++ ":" ++ n ++ ":" ++ ws ++ m
    /\ JsString.truthy f = true
    /\ JsString.no_terminator k = true
    /\ n <> EmptyString
    /\ JsString.forallb JsString.is_digit n = true
    /\ (JsString.trimStart (ws ++ m) = m
        \/ JsString.trimStart (ws ++ m) = EmptyString
           /\ JsString.is_space_char m = true)
    /\ m <> EmptyString
    /\ JsString.no_terminator m = true.
Proof.
  revert pre. induction s as [| c s IH]; intros pre H.
  - discriminate H.
  - cbn [Regex.match_violation_from] in H.
    destruct (if JsString.truthy pre && Ascii.eqb c ":"
              then Regex.violation_tail s else None) as [[d m'] |] eqn:E.
    + injection H as <- <- <-.
      destruct (JsString.truthy pre && Ascii.eqb c ":") eqn:Ec;
        [| discriminate E].
      apply andb_prop in Ec. destruct Ec as [Hp Hc].
      apply Ascii.eqb_eq in Hc. subst c.
      destruct (violation_tail_sound _ E) as (ws & -> & ? & ? & ? & ? & ?).
      exists EmptyString, ws. rewrite append_nil_r. repeat split; auto.
    + destruct (JsString.terminator_len (String c s)) eqn:Et;
        [| discriminate H].
      destruct (IH _ H) as (k & ws & -> & -> & Hrest).
      exists (String c k), ws. rewrite append_assoc.
      split; [reflexivity | split; [reflexivity |]].
      destruct Hrest as (Hf & Hk & Hrest). rewrite append_assoc in Hf.
      split; [exact Hf | split; [| exact Hrest]].
      cbn [JsString.no_terminator]. rewrite Hk, andb_true_r.
      apply Nat.eqb_eq.
      apply (terminator_len_prefix (String c k) (":" ++ n ++ ":" ++ ws ++ m)).
      exact Et.
Qed.

Lemma parse_digits_nonneg (s : string) (acc : Z) :
  (0 <= acc)%Z -> (0 <= JsString.parse_digits acc s)%Z.
Proof.
  revert acc. induction s as [| c s IH]; cbn [JsString.parse_digits];
    intros acc H.
  - exact H.
  - apply IH. pose proof (Zle_0_nat (JsString.char_code c - 48)). lia.
Qed.

Lemma span_append (p : ascii -> bool) (a b : string) :
  JsString.forallb p a = true ->
  match b with String c _ => p c = false | EmptyString => True end ->
  JsString.span p (a ++ b) = (a, b).
Proof.
  induction a as [| c a IH]; simpl; intros Ha Hb.
  - destruct b as [| c b]; [reflexivity |]. simpl. rewrite Hb. reflexivity.
  - apply andb_prop in Ha. destruct Ha as [Hc Ha].
    rewrite Hc, (IH Ha Hb). reflexivity.
Qed.

Lemma match_violation_from_skip (f pre r : string) :
  JsString.forallb (fun c => negb (Ascii.eqb c ":")) f = true ->
  JsString.no_terminator f = true ->
  Regex.match_violation_from pre (f ++ String ":" r)
  = Regex.match_violation_from (pre ++ f) (String ":" r).
Proof.
  revert pre. induction f as [| c f IH]; intros pre H Ht.
  - rewrite append_nil_r. reflexivity.
  - cbn [JsString.forallb] in H. apply andb_prop in H. destruct H as [Hc Hf].
    cbn [JsString.no_terminator] in Ht. apply andb_prop in Ht.
    destruct Ht as [Ht0 Ht]. apply Nat.eqb_eq in Ht0.
    apply negb_true_iff in Hc.
    change (String c f ++ String ":" r) with (String c (f ++ String ":" r)).
    cbn [Regex.match_violation_from]. rewrite Hc, andb_false_r.
    change (String c (f ++ String ":" r)) with (String c f ++ String ":" r).
    rewrite terminator_len_colon, Ht0, (IH _ Hf Ht), append_assoc.
    reflexivity.
Qed.

(** White space in front is passed over. *)
Lemma trimStart_append (ws m : string) :
  JsString.trimStart ws = EmptyString ->
  JsString.trimStart (ws ++ m) = JsString.trimStart m.
Proof.
  induction ws as [ws IH] using string_length_ind. intro H.
  rewrite trimStart_eq in H.
  destruct (JsString.space_len ws) as [| k] eqn:E.
  - subst ws. reflexivity.
  - rewrite (trimStart_eq (ws ++ m)), (space_len_append _ m E).
    pose proof (space_len_le ws) as Hle.
    replace (JsString.drop (S k) (ws ++ m))
      with (JsString.drop (S k) ws ++ m).
    + apply IH; [apply space_len_nonempty, E | exact H].
    + rewrite <- (take_drop (S k) ws) at 2. rewrite append_assoc.
      assert (Hl : String.length (JsString.take (S k) ws) = S k).
      { clear - Hle E. rewrite E in Hle. clear E. revert Hle.
        generalize (S k) as j. induction ws as [| c r IHr]; intros [| j] Hj;
          simpl in *; try lia. rewrite IHr by lia. reflexivity. }
      rewrite <- Hl at 2. rewrite drop_append. reflexivity.
Qed.

Lemma match_violation_complete (f n ws m : string) :
  f <> EmptyString ->
  JsString.forallb (fun c => negb (Ascii.eqb c ":")) f = true ->
  JsString.no_terminator f = true ->
  n <> EmptyString ->
  JsString.forallb JsString.is_digit n = true ->
  JsString.trimStart ws = EmptyString ->
  m <> EmptyString ->
  JsString.space_len m = 0 ->
  JsString.no_terminator m = true ->
  Regex.match_violation (f ++ ":" ++ n ++ ":" ++ ws ++ m) = Some (f, n, m).
Proof.
  intros Hf Hfc Hft Hn Hd Hw Hm Hms Hmt. unfold Regex.match_violation.
  change (":" ++ n ++ ":" ++ ws ++ m) with (String ":" (n ++ ":" ++ ws ++ m)).
  rewrite match_violation_from_skip by assumption.
  change ("" ++ f) with f.
  cbn [Regex.match_violation_from].
  assert (Htf : JsString.truthy f = true) by (destruct f; [contradiction | reflexivity]).
  rewrite Htf. cbn [andb Ascii.eqb Bool.eqb].
  unfold Regex.violation_tail.
  rewrite (span_append JsString.is_digit n (":" ++ ws ++ m) Hd eq_refl).
  assert (Htn : JsString.truthy n = true) by (destruct n; [contradiction | reflexivity]).
  rewrite Htn.
  change (":" ++ ws ++ m) with (String ":" (ws ++ m)). cbv iota beta zeta.
  rewrite (@trimStart_append ws m Hw), (trimStart_fixed _ Hms).
  destruct m as [| c m]; [contradiction |]. cbn [JsString.truthy].
  rewrite Hmt. reflexivity.
Qed.

Lemma split_single (sep : ascii) (s : string) :
  JsString.forallb (fun c => negb (Ascii.eqb c sep)) s = true ->
  JsString.split sep s = [s].
Proof.
  induction s as [| c s IH]; simpl; intro H.
  - reflexivity.
  - apply andb_prop in H. destruct H as [Hc Hs].
    apply negb_true_iff in Hc. rewrite Hc, (IH Hs). reflexivity.
Qed.

Lemma no_terminator_no_LF (s : string) :
  JsString.no_terminator s = true ->
  JsString.forallb (fun c => negb (Ascii.eqb c JsString.LF)) s = true.
Proof.
  induction s as [| c s IH]; cbn [JsString.no_terminator JsString.forallb];
    intro H.
  - reflexivity.
  - apply andb_prop in H. destruct H as [Hc Hs]. rewrite (IH Hs), andb_true_r.
    apply Nat.eqb_eq in Hc.
    destruct (Ascii.eqb_spec c JsString.LF) as [-> | _]; [| reflexivity].
    discriminate Hc.
Qed.

Lemma forallb_weaken (p q : ascii -> bool) (s : string) :
  (forall c, p c = true -> q c = true) ->
  JsString.forallb p s = true -> JsString.forallb q s = true.
Proof.
  intro Hpq. induction s as [| c s IH]; simpl; intro H.
  - reflexivity.
  - apply andb_prop in H. destruct H as [Hc Hs].
    rewrite (Hpq c Hc), (IH Hs). reflexivity.
Qed.

Lemma nearest_double_nonneg (z : Z) :
  (0 <= z)%Z -> (0 <= JsString.nearest_double z)%Z.
Proof.
  intro H. unfold JsString.nearest_double. cbv zeta.
  destruct (Z.leb _ 53); [exact H |].
  apply Z.shiftl_nonneg.
  assert (0 <= Z.shiftr z (Z.log2 z + 1 - 53))%Z
    by (apply Z.shiftr_nonneg; exact H).
  destruct (_ || _); lia.
Qed.

Lemma parseInt_nonneg (s : string) : (0 <= JsString.parseInt s)%Z.
Proof.
  apply nearest_double_nonneg. apply parse_digits_nonneg. lia.
Qed.

Lemma parse_digits_bound (s : string) (acc : Z) :
  JsString.forallb JsString.is_digit s = true ->
  (0 <= acc)%Z ->
  (JsString.parse_digits acc s
   < (acc + 1) * 10 ^ Z.of_nat (String.length s))%Z.
Proof.
  revert acc. induction s as [| c s IH]; intros acc Hd Ha.
  - simpl. lia.
  - cbn [JsString.forallb] in Hd. apply andb_prop in Hd.
    destruct Hd as [Hc Hs]. cbn [JsString.parse_digits String.length].
    assert (Hv : (0 <= Z.of_nat (JsString.char_code c - 48) <= 9)%Z).
    { unfold JsString.is_digit in Hc. apply andb_prop in Hc.
      destruct Hc as [_ Hc]. apply Nat.leb_le in Hc. lia. }
    specialize (IH (10 * acc + Z.of_nat (JsString.char_code c - 48))%Z Hs
                   ltac:(lia)).
    rewrite Nat2Z.inj_succ, Z.pow_succ_r by lia.
    assert (0 < 10 ^ Z.of_nat (String.length s))%Z
      by (apply Z.pow_pos_nonneg; lia).
    nia.
Qed.

(** A numeral of at most fifteen digits is a double. *)
Lemma parseInt_exact (s : string) :
  JsString.forallb JsString.is_digit s = true ->
  String.length s <= 15 ->
  JsString.parseInt s = JsString.numeral s.
Proof.
  intros Hd Hl. unfold JsString.parseInt, JsString.nearest_double. cbv zeta.
  pose proof (@parse_digits_bound s 0%Z Hd ltac:(lia)) as Hb.
  pose proof (@parse_digits_nonneg s 0%Z ltac:(lia)) as Hn.
  fold (JsString.numeral s) in Hb, Hn.
  assert (Hp : (10 ^ Z.of_nat (String.length s) <= 10 ^ 15)%Z)
    by (apply Z.pow_le_mono_r; lia).
  assert (Hz : (JsString.numeral s < 2 ^ 53)%Z).
  { eapply Z.lt_le_trans; [exact Hb |].
    eapply Z.le_trans; [rewrite Z.mul_1_l; exact Hp |].
    vm_compute. discriminate. }
  destruct (Z.leb_spec (Z.log2 (JsString.numeral s) + 1) 53) as [_ | Hg];
    [reflexivity |].
  destruct (Z.eq_dec (JsString.numeral s) 0) as [E | E].
  - rewrite E in Hg. simpl in Hg. lia.
  - apply Z.log2_lt_pow2 in Hz; lia.
Qed.

Lemma digit_no_LF (c : ascii) :
  JsString.is_digit c = true -> negb (Ascii.eqb c JsString.LF) = true.
Proof.
  intro H. destruct (Ascii.eqb_spec c JsString.LF) as [-> | _];
    [discriminate H | reflexivity].
Qed.

(** X20. The EditorConfig runner reads a line as a violation exactly in
    the form [file:line: message].  What it reads is on the line: the line
    is the file name, a colon, the digits of the line number, a colon and a
    rest, where the file name and the message are not empty and hold no
    line terminator, the number read is not negative, and the message is
    the rest without the white space it begins with or, when the rest is
    white space altogether, the last character of it.  And a line written
    in that form gives one issue with the file, the number and the message
    as they were written, when the file name holds no colon, the number has
    at most fifteen digits (it is then a double, and read without
    rounding), the white space holds no line feed and the message does not
    begin with white space. *)
Theorem violation_line_round_trip :
  (forall l f n m,
     Regex.match_violation l = Some (f, n, m) ->
     (exists ws,
        l = f ++ ":" ++ n ++ ":" ++ ws ++ m
        /\ (JsString.trimStart (ws ++ m) = m
            \/ JsString.trimStart (ws ++ m) = EmptyString
               /\ JsString.is_space_char m = true))
     /\ f <> EmptyString
     /\ JsString.no_terminator f = true
     /\ n <> EmptyString
     /\ JsString.forallb JsString.is_digit n = true
     /\ (0 <= JsString.parseInt n)%Z
     /\ m <> EmptyString
     /\ JsString.no_terminator m = true)
  /\ (forall f n ws m,
        f <> EmptyString ->
        JsString.forallb (fun c => negb (Ascii.eqb c ":")) f = true ->
        JsString.no_terminator f = true ->
        n <> EmptyString ->
        JsString.forallb JsString.is_digit n = true ->
        String.length n <= 15 ->
        JsString.trimStart ws = EmptyString ->
        JsString.forallb (fun c => negb (Ascii.eqb c JsString.LF)) ws = true ->
        m <> EmptyString ->
        JsString.space_len m = 0 ->
        JsString.no_terminator m = true ->
        Runners.EditorConfig_issues (f ++ ":" ++ n ++ ":" ++ ws ++ m)
        = [ {| file := f; line := JsString.numeral n; column := None;
               severity := warning; message := m;
               rule := Some "editorconfig" |} ]).
Proof.
  split.
  - intros l f n m H. unfold Regex.match_violation in H.
    destruct (match_violation_from_sound _ _ H)
      as (k & ws & -> & -> & Hf & Hk & ? & ? & ? & ? & ?).
    change ("" ++ k) with k in *.
    repeat split; auto.
    + exists ws. auto.
    + intros ->. discriminate Hf.
    + apply parseInt_nonneg.
  - intros f n ws m Hf Hfc Hft Hn Hd Hl Hw Hwl Hm Hms Hmt.
    unfold Runners.EditorConfig_issues.
    rewrite split_single.
    + cbn [flat_map].
      rewrite (@match_violation_complete f n ws m Hf Hfc Hft Hn Hd Hw Hm Hms Hmt).
      unfold Runners.mkIssue. rewrite (parseInt_exact _ Hd Hl).
      reflexivity.
    + rewrite !forallb_append, (no_terminator_no_LF _ Hft),
        (forallb_weaken _ _ _ digit_no_LF Hd), Hwl, (no_terminator_no_LF _ Hmt).
      reflexivity.
Qed.

(** A line number beyond [2^53] is rounded as a double is: the issue is
    at the line next to the one written. *)
Example editorconfig_line_rounded :
  map line (Runners.EditorConfig_issues "a.php:9007199254740993: Bad charset")
  = [9007199254740992%Z]
  /\ JsString.numeral "9007199254740993" = 9007199254740993%Z.
Proof. vm_compute. auto. Qed.

(** A Windows path keeps its drive letter; a column after the line number
    goes to the message. *)
Example violation_line_examples :
  Regex.match_violation "C:\src\a.php:12: Trailing whitespace"
  = Some ("C:\src\a.php", "12", "Trailing whitespace")
  /\ Regex.match_violation "src/a.php:12:34: Wrong indentation"
     = Some ("src/a.php", "12", "34: Wrong indentation")
  /\ Regex.match_file "error in config/app.json"
     = Some "error in config/app.js".
Proof. vm_compute. auto. Qed.

(* ================================================================== *)
(** ** The runners: what an issue looks like                           *)
(* ================================================================== *)

Lemma Forall_flat_map (A B : Type) (P : B -> Prop) (f : A -> list B)
    (l : list A) :
  (forall x, Forall P (f x)) -> Forall P (flat_map f l).
Proof.
  intro H. induction l as [| x l IH]; simpl.
  - constructor.
  - apply Forall_app. auto.
Qed.

Lemma file_lazy_sound (s pre m : string) :
  Regex.file_lazy pre s = Some m -> m <> EmptyString.
Proof.
  revert pre.
  induction s as [| c s IH]; intros pre H; cbn [Regex.file_lazy] in H.
  - destruct (JsString.truthy pre) eqn:Ep; [| discriminate H].
    destruct (Regex.dot_extension_at "") eqn:E; [| discriminate H].
    injection H as <-. destruct pre; [discriminate Ep | discriminate].
  - destruct (if JsString.truthy pre
              then Regex.dot_extension_at (String c s) else None) eqn:E.
    + injection H as <-.
      destruct pre; [discriminate E | discriminate].
    + destruct (JsString.terminator_len (String c s)); [| discriminate H].
      exact (IH _ H).
Qed.

Lemma match_file_from_sound (s m : string) (skip : nat) :
  Regex.match_file_from skip s = Some m -> m <> EmptyString.
Proof.
  revert skip.
  induction s as [| c s IH]; intros [| k] H; cbn [Regex.match_file_from] in H;
    try discriminate H.
  - destruct (Regex.file_lazy "" (String c s)) eqn:E.
    + injection H as <-. exact (file_lazy_sound _ _ E).
    + exact (IH _ H).
  - exact (IH _ H).
Qed.

Lemma match_file_sound (s m : string) :
  Regex.match_file s = Some m -> m <> EmptyString.
Proof. apply match_file_from_sound. Qed.

(** An integer that is 0 is the number 0. *)
Lemma integer_zero (n : JsNumber) :
  Js.integer n = Some 0%Z -> Js.number_eqb n 0 = true.
Proof.
  destruct n as [q | b]; [| discriminate]. unfold Js.integer. cbv zeta.
  destruct (Pos.eqb _ 1); [| discriminate]. intro H. injection H as H.
  unfold Js.number_eqb. apply QArith_base.Qeq_bool_iff.
  pose proof (Qreduction.Qred_correct q) as E.
  unfold QArith_base.Qeq in *. rewrite H in E. simpl in *. lia.
Qed.

Lemma js_or_else_truthy (a : option Json) (b : Json) :
  Js.truthy (Some b) = true -> Js.truthy (Some (Js.or_else a b)) = true.
Proof.
  intro H. unfold Js.or_else. destruct a as [v |]; [| exact H].
  destruct (Js.truthy (Some v)) eqn:E; [exact E | exact H].
Qed.

(** Where the fields have the declared types, what a runner promises of
    the issue it pushes holds of the issue the result carries. *)
Lemma raw_shape_typed (runner : Runners.Runner) (cfg : RunnerConfig)
    (r : RawIssue) :
  raw_shape runner r -> Js.declared r = true ->
  issue_shape runner cfg (Js.Issue_of_raw r).
Proof.
  assert (Hline : Js.truthy (Some (raw_line r)) = true ->
                  Js.declared r = true -> line (Js.Issue_of_raw r) <> 0%Z).
  { unfold Js.declared, Js.Issue_of_raw. cbn [line].
    intros Ht Hd.
    destruct (Js.as_string (raw_file r)); [| discriminate Hd].
    destruct (Js.as_integer (Some (raw_line r))) as [z |] eqn:Ez;
      [| discriminate Hd].
    intros ->. unfold Js.as_integer in Ez.
    destruct (raw_line r) as [| | n | | |]; try discriminate Ez.
    apply integer_zero in Ez. simpl in Ht. rewrite Ez in Ht. discriminate Ht. }
  destruct runner; cbn [raw_shape issue_shape].
  - intros (Ht & Hs & Hr) Hd. repeat split; auto.
    unfold Js.Issue_of_raw; cbn [rule]. rewrite Hr. reflexivity.
  - auto.
  - intros (Hl & Hc & Hs & Hr) Hd. unfold Js.Issue_of_raw.
    cbn [line column severity rule]. rewrite Hl, Hc, Hr. auto.
  - auto.
  - auto.
  - intros [].
  - intros [].
  - intros (Hl & Hc & Hs & Ht) Hd. unfold Js.Issue_of_raw.
    cbn [line column severity rule]. rewrite Hl, Hc. repeat split; auto.
    unfold Js.declared in Hd.
    destruct (Js.as_string (raw_file r)); [| discriminate Hd].
    destruct (Js.as_integer (Some (raw_line r))); [| discriminate Hd].
    destruct (Js.as_string (raw_message r)); [| discriminate Hd].
    apply andb_prop in Hd. destruct Hd as [_ Hd].
    destruct (raw_rule r) as [[| | | x | |] |]; try discriminate Ht;
      try discriminate Hd.
    exists x. split; [reflexivity |]. intros ->. discriminate Ht.
Qed.

(** ** What the loops of a runner push *)

Lemma pushes_ret (P : RawIssue -> Prop) (A : Type) (a : A) :
  pushes P (Runners.wret a).
Proof. intros pushed H. exact H. Qed.

Lemma pushes_attempt (P : RawIssue -> Prop) (A : Type) (x : Exn + A) :
  pushes P (Runners.attempt x).
Proof. intros pushed H. exact H. Qed.

Lemma pushes_push (P : RawIssue -> Prop) (i : RawIssue) :
  P i -> pushes P (Runners.push i).
Proof.
  intros Hi pushed H. simpl. apply Forall_app. split; [exact H |].
  constructor; [exact Hi | constructor].
Qed.

Lemma pushes_bind (P : RawIssue -> Prop) (A B : Type) (m : Runners.Walk A)
    (f : A -> Runners.Walk B) :
  pushes P m -> (forall a, pushes P (f a)) -> pushes P (Runners.wbind m f).
Proof.
  intros Hm Hf pushed H. unfold Runners.wbind.
  specialize (Hm pushed H). destruct (m pushed) as [pushed' [e | a]].
  - exact Hm.
  - apply Hf. exact Hm.
Qed.

Lemma pushes_for_of (P : RawIssue -> Prop) (A : Type) (items : list A)
    (body : A -> Runners.Walk unit) :
  (forall x, pushes P (body x)) -> pushes P (Runners.for_of items body).
Proof.
  intro Hb. induction items as [| x more IH]; cbn [Runners.for_of].
  - apply pushes_ret.
  - apply pushes_bind; [apply Hb | intro; exact IH].
Qed.

Lemma pushes_when (P : RawIssue -> Prop) (c : bool) (body : Runners.Walk unit) :
  pushes P body -> pushes P (Runners.when c body).
Proof. intro H. destruct c; [exact H | apply pushes_ret]. Qed.

Lemma pushes_when_truthy (P : RawIssue -> Prop) (v : option Json)
    (body : Json -> Runners.Walk unit) :
  (forall x, pushes P (body x)) -> pushes P (Runners.when_truthy v body).
Proof.
  intro H. unfold Runners.when_truthy. destruct v as [x |];
    [destruct (Js.truthy (Some x)); [apply H | apply pushes_ret]
    | apply pushes_ret].
Qed.

Ltac walk_step :=
  first [ apply pushes_ret
        | apply pushes_attempt
        | apply pushes_bind; [| intro]
        | apply pushes_when_truthy; intro
        | apply pushes_for_of; intro
        | apply pushes_when
        | apply pushes_push
        | match goal with
          | |- pushes _ (match ?x with pair _ _ => _ end) => destruct x
          end ].

Lemma walk_pushes (host : Host) (runner : Runners.Runner)
    (walk : Json -> Runners.Walk unit) (output : Json) :
  Runners.walk_of host runner = Some walk ->
  pushes (raw_shape runner) (walk output).
Proof.
  destruct runner; intro H; try discriminate H; injection H as <-.
  - unfold Runners.PHPStan_walk. repeat walk_step.
    cbn [raw_shape raw_line raw_severity raw_rule].
    split; [apply js_or_else_truthy; reflexivity | auto].
  - unfold Runners.PHPMD_walk. repeat walk_step.
    cbn [raw_shape raw_line]. apply js_or_else_truthy; reflexivity.
  - unfold Runners.PHPCSFixer_walk. repeat walk_step.
    cbn [raw_shape]. auto.
  - unfold Runners.ESLint_walk. repeat walk_step.
    cbn [raw_shape raw_line]. apply js_or_else_truthy; reflexivity.
  - unfold Runners.Stylelint_walk. repeat walk_step.
    cbn [raw_shape raw_line]. apply js_or_else_truthy; reflexivity.
  - assert (Hplain : forall file_,
              raw_shape Runners.Typo3RectorRunner
                {| raw_file := file_; raw_line := Runners.one;
                   raw_column := None; raw_severity := warning;
                   raw_message :=
                     Some (JString "File has refactoring opportunities");
                   raw_rule := Some (JString "typo3-rector") |})
      by (intro; cbn [raw_shape]; auto).
    unfold Runners.Rector_walk. repeat walk_step.
    all: match goal with
         | |- pushes _ (match ?d with Some _ => _ | None => _ end) =>
             destruct d as [diffs_ |]
         end.
    all: try match goal with
             | |- pushes _ (if ?c then _ else _) => destruct c
             end.
    all: repeat walk_step; try apply Hplain.
    cbn [raw_shape raw_line raw_column raw_severity raw_rule].
    repeat split. apply js_or_else_truthy. reflexivity.
Qed.

Lemma tried_pushes (host : Host) (runner : Runners.Runner)
    (walk : Json -> Runners.Walk unit) (s : string) :
  Runners.walk_of host runner = Some walk ->
  Forall (raw_shape runner) (fst (Runners.tried host walk s)).
Proof.
  intro H. unfold Runners.tried.
  destruct (JSON_parse host s) as [e | output]; [constructor |].
  apply (@walk_pushes host runner walk output H). constructor.
Qed.

Lemma pushed_by_shape (host : Host) (runner : Runners.Runner) (s : string) :
  Forall (raw_shape runner) (pushed_by host runner s).
Proof.
  unfold pushed_by.
  destruct (Runners.walk_of host runner) as [walk |] eqn:E; [| constructor].
  destruct (JsString.truthy s); [| constructor].
  exact (@tried_pushes host runner walk s E).
Qed.

Lemma shapes_typed (runner : Runners.Runner) (cfg : RunnerConfig)
    (pushed : list RawIssue) (scraped : list Issue) :
  Forall (raw_shape runner) pushed ->
  Forall (issue_shape runner cfg) scraped ->
  forallb Js.declared pushed = true ->
  Forall (issue_shape runner cfg) (map Js.Issue_of_raw pushed ++ scraped).
Proof.
  intros Hp Hs Hd. apply Forall_app. split; [| exact Hs].
  induction Hp as [| r l Hr Hl IH]; simpl in *; constructor.
  - apply andb_prop in Hd. apply raw_shape_typed; [exact Hr | apply Hd].
  - apply andb_prop in Hd. apply IH, Hd.
Qed.

Section Shapes.

Variable cfg : RunnerConfig.

Lemma Rector_text_shape out :
  Forall (issue_shape Runners.Typo3RectorRunner cfg)
         (Runners.Rector_text_issues out).
Proof.
  unfold Runners.Rector_text_issues. apply Forall_flat_map. intro l.
  destruct (_ || _); [| constructor].
  destruct (Regex.match_php_path l); repeat constructor.
  simpl. eexists. split; [reflexivity | discriminate].
Qed.

Lemma EditorConfig_shape out :
  Forall (issue_shape Runners.EditorConfigRunner cfg)
         (Runners.EditorConfig_issues out).
Proof.
  unfold Runners.EditorConfig_issues. apply Forall_flat_map. intro l.
  destruct (Regex.match_violation l) as [[[f n] m] |] eqn:E.
  - unfold Regex.match_violation in E.
    destruct (@match_violation_from_sound l "" f n m E)
      as (k & ws & _ & _ & Hf & _).
    repeat constructor; simpl; auto.
    + apply parseInt_nonneg.
    + intros ->. discriminate Hf.
  - destruct (_ || _); [| constructor].
    destruct (Regex.match_file l) as [f |] eqn:Ef; [| constructor].
    repeat constructor; simpl; try lia.
    exact (match_file_sound _ Ef).
Qed.

Lemma ComposerNormalize_shape result :
  Forall (issue_shape Runners.ComposerNormalizeRunner cfg)
         (Runners.ComposerNormalize_issues cfg result).
Proof.
  unfold Runners.ComposerNormalize_issues.
  destruct (negb _); [| constructor].
  destruct (_ || _); [| repeat constructor].
  apply Forall_app. split; destruct (_ || _); repeat constructor.
Qed.

End Shapes.

Lemma wp_run_shapes (host : Host) (runner : Runners.Runner) (cfg : RunnerConfig) :
  wp (Runners.run host runner cfg) (fun t r =>
    match exec_answers t with
    | [inr out] =>
        let pushed := pushed_by host runner (JsString.trim (exec_stdout out)) in
        exists res scraped,
          r = inr res
          /\ issues res = (map Js.Issue_of_raw pushed ++ scraped)%list
          /\ Forall (raw_shape runner) pushed
          /\ Forall (issue_shape runner cfg) scraped
          /\ (forallb Js.declared pushed = true ->
              Forall (issue_shape runner cfg) (issues res))
    | [inl e] => r = inl e
    | _ => False
    end).
Proof.
  assert (Hpack : forall out res scraped,
            issues res
            = (map Js.Issue_of_raw
                   (pushed_by host runner (JsString.trim (exec_stdout out)))
               ++ scraped)%list ->
            Forall (issue_shape runner cfg) scraped ->
            let pushed :=
              pushed_by host runner (JsString.trim (exec_stdout out)) in
            exists res' scraped',
              @inr Exn ToolResult res = inr res'
              /\ issues res' = (map Js.Issue_of_raw pushed ++ scraped')%list
              /\ Forall (raw_shape runner) pushed
              /\ Forall (issue_shape runner cfg) scraped'
              /\ (forallb Js.declared pushed = true ->
                  Forall (issue_shape runner cfg) (issues res'))).
  { intros out res scraped Hi Hs. cbv zeta. exists res, scraped.
    split; [reflexivity | split; [exact Hi |]].
    split; [apply pushed_by_shape | split; [exact Hs |]].
    intro Hd. rewrite Hi.
    apply shapes_typed; [apply pushed_by_shape | exact Hs | exact Hd]. }
  destruct runner; simpl; unfold_runners; cbv zeta; simpl;
    intros [] [e | out]; simpl; try reflexivity.
  6: { unfold exec_answers; cbn [flat_map exec_answer app call_req call_resp].
       eapply Hpack; [reflexivity |].
       destruct (_ || _); [apply EditorConfig_shape | constructor]. }
  6: { unfold exec_answers; cbn [flat_map exec_answer app call_req call_resp].
       eapply Hpack; [reflexivity | apply ComposerNormalize_shape]. }
  all: parse_step;
    [destruct (Runners.tried _ _ _) as [pushed [e | []]] eqn:Ht |];
    unfold exec_answers; cbn [flat_map exec_answer app call_req call_resp].
  all: match goal with
       | |- context [Runners.mkResult _ _ (_ ++ ?f)%list] =>
           apply Hpack with (scraped := f)
       | |- _ => apply Hpack with (scraped := [])
       end;
    try (unfold pushed_by; cbn [Runners.walk_of];
         rewrite Heqb, ?Ht; cbn [fst issues Runners.mkResult map app];
         rewrite ?app_nil_r; reflexivity);
    try (constructor; fail).
  all: apply Rector_text_shape.
Qed.

(** X21. Whatever a tool prints, the issues a runner returns are those its
    loops over the parsed output have pushed, followed by those it scrapes
    from text, and both keep the form the runner gives them.  Of the issues
    pushed: the line of PHPStan's, PHPMD's, ESLint's and Stylelint's is
    truthy, a missing or falsy line having become 1 (so it is never the
    number 0, though it is whatever truthy value the tool printed, a string
    or a fraction included); PHPStan's are all errors under the rule
    [phpstan]; those of PHP-CS-Fixer and of Rector are warnings at line 1
    without a column, Rector's under a rule that is truthy.  Of the issues
    scraped: those of Composer Normalize and of Rector's fallback are
    warnings at line 1 without a column, Composer Normalize's in the file
    given as configuration or else [composer.json]; those of EditorConfig
    are warnings under the rule [editorconfig], in a file with a name, at a
    line that is not negative.  Where the pushed fields have the types
    [Issue] declares, no issue of a runner that reads JSON is at line 0, and
    every issue of the result has the form of its runner. *)
Theorem issue_shapes (host : Host) (runner : Runners.Runner)
    (cfg : RunnerConfig) (W : Type) (h : Handler W) (w : W) :
  let o := interp h (Runners.run host runner cfg) w in
  match exec_answers (trace o) with
  | [inr out] =>
      let pushed := pushed_by host runner (JsString.trim (exec_stdout out)) in
      exists res scraped,
        result o = inr res
        /\ issues res = (map Js.Issue_of_raw pushed ++ scraped)%list
        /\ Forall (raw_shape runner) pushed
        /\ Forall (issue_shape runner cfg) scraped
        /\ (forallb Js.declared pushed = true ->
            Forall (issue_shape runner cfg) (issues res))
  | [inl e] => result o = inl e
  | _ => False
  end.
Proof. exact (wp_sound _ _ (wp_run_shapes host runner cfg) h w). Qed.

(** A line printed as the string [0] is truthy and stays: the issue pushed
    has no line number at all. *)
Example eslint_line_as_string :
  let message_ := JObject [("line", JString "0"); ("message", JString "m")] in
  let output := JArray [JObject [("filePath", JString "a.js");
                                 ("messages", JArray [message_])]] in
  map raw_line (fst (Runners.ESLint_walk Example.host output []))
  = [JString "0"]
  /\ forallb Js.declared (fst (Runners.ESLint_walk Example.host output []))
     = false.
Proof. vm_compute. auto. Qed.

(** EditorConfig is the runner that can report line 0. *)
Example editorconfig_line_zero :
  map line (Runners.EditorConfig_issues "src/a.php:0: Bad charset") = [0%Z].
Proof. vm_compute. reflexivity. Qed.

Lemma ComposerNormalize_count (cfg : RunnerConfig) (result : ExecResult) :
  (List.length (Runners.ComposerNormalize_issues cfg result) <= 2)%nat
  /\ (exitCode result = 0%Z -> Runners.ComposerNormalize_issues cfg result = [])
  /\ (exitCode result <> 0%Z ->
      stdout result = EmptyString -> stderr result = EmptyString ->
      map message (Runners.ComposerNormalize_issues cfg result)
      = ["composer.json requires normalization"])
  /\ (exitCode result <> 0%Z ->
      stdout result ++ stderr result <> EmptyString ->
      forallb (fun mark => negb (JsString.includes
                                   (stdout result ++ stderr result) mark))
              normalize_marks = true ->
      Runners.ComposerNormalize_issues cfg result = []).
Proof.
  unfold Runners.ComposerNormalize_issues.
  destruct (Z.eqb_spec (exitCode result) 0) as [E | E]; cbn [negb].
  - repeat split; try (simpl; lia); intros; try reflexivity; contradiction.
  - split; [| split; [intro; contradiction | split]].
    + destruct (_ || _); [| simpl; lia].
      rewrite length_app. destruct (_ || _), (_ || _); simpl; lia.
    + intros _ -> ->. reflexivity.
    + intros _ Hne Hmarks.
      destruct (JsString.truthy (stdout result) || JsString.truthy (stderr result))
        eqn:Et.
      * cbn [normalize_marks forallb] in Hmarks.
        repeat (apply andb_prop in Hmarks; destruct Hmarks as [? Hmarks]).
        repeat match goal with
               | H : negb _ = true |- _ => apply negb_true_iff in H; rewrite H
               end.
        reflexivity.
      * apply orb_false_iff in Et. destruct Et as [E1 E2].
        destruct (stdout result); [| discriminate E1].
        destruct (stderr result); [| discriminate E2].
        contradiction Hne. reflexivity.
Qed.

Lemma wp_composerNormalize (host : Host) (cfg : RunnerConfig) :
  wp (Runners.run host Runners.ComposerNormalizeRunner cfg) (fun t r =>
    match exec_answers t with
    | [inr out] =>
        let text := JsString.trim (exec_stdout out)
                    ++ JsString.trim (exec_stderr out) in
        exists res,
          r = inr res
          /\ warnings t = []
          /\ (List.length (issues res) <= 2)%nat
          /\ (exec_exitCode out = 0%Z -> issues res = [])
          /\ (exec_exitCode out <> 0%Z -> text = EmptyString ->
              map message (issues res)
              = ["composer.json requires normalization"])
          /\ (exec_exitCode out <> 0%Z -> text <> EmptyString ->
              forallb (fun mark => negb (JsString.includes text mark))
                      normalize_marks = true ->
              issues res = [] /\ success res = false)
    | [inl e] => r = inl e
    | _ => False
    end).
Proof.
  simpl. unfold Runners.ComposerNormalizeRunner_run, executeCommand, core_info.
  cbv zeta. simpl. intros [] [e | out]; simpl; [reflexivity |].
  unfold exec_answers. cbn [flat_map exec_answer app call_req call_resp].
  eexists. split; [reflexivity |]. split; [reflexivity |].
  cbn [issues success Runners.mkResult].
  match goal with
  | |- context [Runners.ComposerNormalize_issues cfg ?R] =>
      destruct (ComposerNormalize_count cfg R) as (H1 & H2 & H3 & H4)
  end.
  cbn [exitCode stdout stderr] in *.
  split; [exact H1 | split; [exact H2 | split]].
  - intros Hne Ht. apply H3; [exact Hne | |].
    + destruct (JsString.trim (exec_stdout out)); [reflexivity | discriminate Ht].
    + destruct (JsString.trim (exec_stdout out)); [exact Ht | discriminate Ht].
  - intros Hne Ht Hm. split; [apply H4; assumption |].
    apply Z.eqb_neq. exact Hne.
Qed.

(** X22. The Composer Normalize runner reads no JSON and logs no warning.
    It returns at most two issues.  When [composer] exits 0 it returns
    none, whatever was printed.  When it exits with another code and
    prints nothing, it returns the one issue that [composer.json] requires
    normalization.  When it exits with another code and prints a text
    without any of the four marks the runner knows, it returns no issue at
    all, next to [success = false]: the failure then adds nothing to the
    total of the run. *)
Theorem composer_normalize_issues (host : Host) (cfg : RunnerConfig)
    (W : Type) (h : Handler W) (w : W) :
  let o := interp h (Runners.run host Runners.ComposerNormalizeRunner cfg) w in
  match exec_answers (trace o) with
  | [inr out] =>
      let text := JsString.trim (exec_stdout out)
                  ++ JsString.trim (exec_stderr out) in
      exists res,
        result o = inr res
        /\ warnings (trace o) = []
        /\ (List.length (issues res) <= 2)%nat
        /\ (exec_exitCode out = 0%Z -> issues res = [])
        /\ (exec_exitCode out <> 0%Z -> text = EmptyString ->
            map message (issues res)
            = ["composer.json requires normalization"])
        /\ (exec_exitCode out <> 0%Z -> text <> EmptyString ->
            forallb (fun mark => negb (JsString.includes text mark))
                    normalize_marks = true ->
            issues res = [] /\ success res = false)
  | [inl e] => result o = inl e
  | _ => False
  end.
Proof. exact (wp_sound _ _ (wp_composerNormalize host cfg) h w). Qed.

(** Composer fails for a reason of its own: the tool is marked failed and
    no issue is counted. *)
Example composer_fails_without_issue :
  let s := Example.with_exec Example.quiet
             (fun _ _ => Example.exits 1 "Could not open input file") in
  result (interp (Example.handler s)
            (Runners.run Example.host Runners.ComposerNormalizeRunner
                         (Example.config ["composer.json"])) tt)
  = inr {| tool := "Composer Normalize"; success := false; issues := [];
           rawOutput := "Could not open input file" |}.
Proof. vm_compute. reflexivity. Qed.

(* ================================================================== *)
(** ** The two entry points                                            *)
(* ================================================================== *)

Lemma silent_quiet (t : list Call) :
  forallb is_silent (requests t) = true ->
  (forall n, outputs n t = []) /\ failures t = []
  /\ (forall n, input_answers n t = []).
Proof.
  intro H. repeat split.
  - intro n. apply (flat_map_none is_silent); [| exact H].
    intros [] Hx; try discriminate Hx; reflexivity.
  - apply (flat_map_none is_silent); [| exact H].
    intros [] Hx; try discriminate Hx; reflexivity.
  - intro n. apply (input_answers_none is_silent); [| exact H].
    intros [] Hx; try discriminate Hx; reflexivity.
Qed.

Lemma forallb_weaken_req (P Q : Req -> bool) (l : list Req) :
  (forall r, P r = true -> Q r = true) ->
  forallb P l = true -> forallb Q l = true.
Proof. intros HPQ. rewrite !forallb_forall. auto. Qed.

Lemma tool_is_silent r : is_tool_request r = true -> is_silent r = true.
Proof. destruct r; auto; discriminate. Qed.

Lemma restore_step_is_silent r :
  is_restore_step r = true -> is_silent r = true.
Proof. destruct r; auto; discriminate. Qed.

Lemma save_step_is_silent r : is_save_step r = true -> is_silent r = true.
Proof. destruct r; auto; discriminate. Qed.

Lemma annotation_is_silent r : is_annotation r = true -> is_silent r = true.
Proof. destruct r; auto; discriminate. Qed.

Lemma summary_is_silent r : is_summary_request r = true -> is_silent r = true.
Proof. destruct r; auto; discriminate. Qed.

Lemma getInput_not_cache r :
  is_getInput r = true -> negb (is_cache_request r) = true.
Proof. destruct r; auto; discriminate. Qed.

Lemma tool_not_cache r :
  is_tool_request r = true -> negb (is_cache_request r) = true.
Proof. destruct r; auto; discriminate. Qed.

Lemma report_not_cache r :
  is_report_request r = true -> negb (is_cache_request r) = true.
Proof. destruct r; auto; discriminate. Qed.

Lemma annotation_not_cache r :
  is_annotation r = true -> negb (is_cache_request r) = true.
Proof. destruct r; auto; discriminate. Qed.

Lemma summary_not_cache r :
  is_summary_request r = true -> negb (is_cache_request r) = true.
Proof. destruct r; auto; discriminate. Qed.

Lemma getInput_quiet (t : list Call) :
  forallb is_getInput (requests t) = true ->
  (forall n, outputs n t = []) /\ failures t = [] /\ groups_opened t = [].
Proof.
  intro H. repeat split.
  - intro n. apply (flat_map_none is_getInput); [| exact H].
    intros [] Hx; try discriminate Hx; reflexivity.
  - apply (flat_map_none is_getInput); [| exact H].
    intros [] Hx; try discriminate Hx; reflexivity.
  - apply (flat_map_none is_getInput); [| exact H].
    intros [] Hx; try discriminate Hx; reflexivity.
Qed.

(** Every cons whose tail is not empty becomes an append. *)
Ltac as_apps :=
  repeat match goal with
         | |- context [(?c :: ?t)%list] =>
             lazymatch t with
             | [] => fail
             | _ => change (c :: t)%list with ([c] ++ t)%list
             end
         end.

Section EntryPoints.

Variable host : Host.

Lemma wp_initCache (inputs : Cached.ActionInputs) :
  wp (Cached.initCache host inputs) (fun t r =>
    is_inr r = true
    /\ forallb is_silent (requests t) = true
    /\ if Cached.cacheEnabled inputs
       then hd_error (groups_opened t) = Some "Restoring cache"
       else t = [] /\ r = inr None).
Proof.
  unfold Cached.initCache. destruct (Cached.cacheEnabled inputs) eqn:E.
  - apply wp_bind. eapply wp_mono; [| apply wp_restore].
    intros t1 r1 (m & -> & _ & _ & H). cbn [Cache.new Cache.config
      Cached.cacheConfig Cache.enabled] in H. rewrite E in H.
    destruct H as (mid & Hreq & Hmid). simpl. rewrite app_nil_r.
    split; [reflexivity | split].
    + rewrite Hreq. cbn [forallb is_silent]. rewrite forallb_app.
      rewrite (forallb_weaken_req _ _ _ restore_step_is_silent Hmid).
      reflexivity.
    + unfold groups_opened. rewrite Hreq. reflexivity.
  - simpl. auto.
Qed.

Lemma wp_saveCache (m : option Cache.CacheManager) :
  wp (Cached.saveCache host m) (fun t r =>
    r = inr tt /\ forallb is_silent (requests t) = true
    /\ (m = None -> t = [])).
Proof.
  destruct m as [m |]; simpl; [| auto].
  eapply wp_mono; [| apply wp_save]. intros t r (-> & H).
  split; [reflexivity | split; [| discriminate]].
  destruct (Cache.enabled (Cache.config m)).
  - destruct H as (mid & -> & Hmid). cbn [forallb is_silent].
    rewrite forallb_app.
    rewrite (forallb_weaken_req _ _ _ save_step_is_silent Hmid). reflexivity.
  - subst t. reflexivity.
Qed.

Lemma wp_cached_parseInputs :
  wp Cached.parseInputs (fun t r =>
    forallb is_getInput (requests t) = true
    /\ match r with
       | inr inputs =>
           Main.failOnErrors (Cached.base inputs) = fail_flag t
           /\ exists a, input_answers "cache-enabled" t = [a]
                        /\ Cached.cacheEnabled inputs = Cached.unless_false a
       | inl _ => False
       end).
Proof.
  unfold Cached.parseInputs, Main.parseInputs, core_getInput. simpl. intros.
  unfold fail_flag, input_answers. simpl.
  split; [reflexivity | split; [reflexivity |]].
  eexists. split; reflexivity.
Qed.

Lemma wp_cached_report (inputs : Main.ActionInputs)
    (m : option Cache.CacheManager) (l : list ToolResult) :
  wp (GitHubReporter.generateAnnotations l ;;
      GitHubReporter.generateSummary l ;;
      core_setOutput "total-issues" (OutNumber (sumIssues l)) ;;
      core_setOutput "status"
        (OutString (if Nat.ltb 0 (sumIssues l) then "failed" else "success")) ;;
      core_setOutput "report" (OutString (GitHubReporter.getReport host l)) ;;
      Cached.saveCache host m ;;
      if Main.failOnErrors inputs && Nat.ltb 0 (sumIssues l) then
        core_setFailed ("Found " ++ JsString.of_nat (sumIssues l)
                        ++ " code quality issues")
      else if Nat.ltb 0 (sumIssues l) then
        core_warning ("Found " ++ JsString.of_nat (sumIssues l)
                      ++ " code quality issues (not failing due to configuration)")
      else
        core_info "All code quality checks passed!")
     (fun t r =>
        (forall n, input_answers n t = [])
        /\ (m = None ->
            forallb (fun q => negb (is_cache_request q)) (requests t) = true)
        /\ match r with
           | inr _ =>
               outputs "total-issues" t = [OutNumber (sumIssues l)]
               /\ outputs "status" t
                  = [OutString (if Nat.ltb 0 (sumIssues l)
                                then "failed" else "success")]
               /\ outputs "report" t
                  = [OutString (GitHubReporter.getReport host l)]
               /\ failures t
                  = (if Main.failOnErrors inputs && Nat.ltb 0 (sumIssues l)
                     then ["Found " ++ JsString.of_nat (sumIssues l)
                           ++ " code quality issues"]
                     else [])
           | inl _ =>
               outputs "total-issues" t = [] /\ outputs "status" t = []
               /\ outputs "report" t = [] /\ failures t = []
           end).
Proof.
  apply wp_bind. eapply wp_mono; [| apply wp_generateAnnotations].
  intros t1 r1 (-> & HA & _).
  apply wp_bind. eapply wp_mono; [| apply wp_generateSummary].
  intros t2 r2 HS.
  pose proof (forallb_weaken_req _ _ _ annotation_is_silent HA) as Hs1.
  pose proof (forallb_weaken_req _ _ _ summary_is_silent HS) as Hs2.
  pose proof (forallb_weaken_req _ _ _ annotation_not_cache HA) as Hc1.
  pose proof (forallb_weaken_req _ _ _ summary_not_cache HS) as Hc2.
  destruct (silent_quiet t1 Hs1) as (Ho1 & Hf1 & Hi1).
  destruct (silent_quiet t2 Hs2) as (Ho2 & Hf2 & Hi2).
  destruct r2 as [e | []].
  - rewrite !outputs_app, failures_app, requests_app, forallb_app,
      !Ho1, !Ho2, Hf1, Hf2, Hc1, Hc2.
    repeat split. intro n. rewrite input_answers_app, Hi1, Hi2. reflexivity.
  - unfold core_setOutput. simpl. intros [] [] [].
    apply wp_bind. eapply wp_mono; [| apply wp_saveCache].
    intros t3 r3 (-> & Hs3 & Hnone).
    destruct (silent_quiet t3 Hs3) as (Ho3 & Hf3 & Hi3).
    assert (Hc3 : m = None ->
                  forallb (fun q => negb (is_cache_request q)) (requests t3)
                  = true) by (intro Hm; rewrite (Hnone Hm); reflexivity).
    destruct (Main.failOnErrors inputs), (Nat.ltb 0 (sumIssues l));
      unfold core_setFailed, core_warning, core_info; simpl; intros [];
      as_apps;
      (split; [intro n; rewrite !input_answers_app, Hi1, Hi2, Hi3; reflexivity |]);
      (split; [intro Hm; rewrite !requests_app, !forallb_app, Hc1, Hc2,
                 (Hc3 Hm); reflexivity |]);
      rewrite !outputs_app, !failures_app, !Ho1, !Ho2, !Ho3, Hf1, Hf2, Hf3;
      repeat split.
Qed.

Lemma wp_cached_run :
  wp (Cached.run host) (fun t r =>
    r = inr tt
    /\ outputs_together t
    /\ match outputs "total-issues" t with
       | [OutNumber n] =>
           outputs "status" t
           = [OutString (if Nat.ltb 0 n then "failed" else "success")]
           /\ failures t
              = (if fail_flag t && Nat.ltb 0 n
                 then ["Found " ++ JsString.of_nat n ++ " code quality issues"]
                 else [])
       | _ => exists e, failures t = ["Action failed: " ++ exn_message e]
       end
    /\ exists a,
         input_answers "cache-enabled" t = [a]
         /\ if Cached.unless_false a
            then hd_error (groups_opened t) = Some "Restoring cache"
            else forallb (fun q => negb (is_cache_request q)) (requests t)
                 = true).
Proof.
  unfold Cached.run. apply wp_try_catch. apply wp_bind.
  eapply wp_mono; [| apply wp_cached_parseInputs].
  intros t0 [e | inputs] (HI & H); [contradiction |].
  destruct H as (HF & a & Ha & Hen).
  apply wp_bind. eapply wp_mono; [| apply wp_initCache].
  intros tc [e | m] (Hr & Hsil & Hsw); [discriminate Hr |].
  unfold core_info. simpl. intros [] []. apply wp_bind.
  eapply wp_mono;
    [| apply wp_conj;
       [apply (collectResults_tool host (Cached.base inputs)
                 (Main.tools (Cached.base inputs)))
       | apply (collectResults_returns host (Cached.base inputs)
                  (Main.tools (Cached.base inputs)))]].
  intros t1 [e | l] (HT & HR); [discriminate HR |].
  eapply wp_mono; [| apply (wp_cached_report (Cached.base inputs) m l)].
  intros t2 r2 (Hi2 & Hnc & Hcase).
  destruct (getInput_quiet t0 HI) as (Ho0 & Hf0 & Hg0).
  pose proof (forallb_weaken_req _ _ _ getInput_not_cache HI) as Hc0.
  destruct (silent_quiet tc Hsil) as (Hoc & Hfc & Hic).
  pose proof (forallb_weaken_req _ _ _ tool_is_silent HT) as Hs1.
  pose proof (forallb_weaken_req _ _ _ tool_not_cache HT) as Hc1.
  destruct (silent_quiet t1 Hs1) as (Ho1 & Hf1 & Hi1).
  rewrite Hen in Hsw.
  assert (Hflag : forall rest,
             (forall n, input_answers n rest = []) ->
             fail_flag (t0 ++ rest) = fail_flag t0).
  { intros rest Hrest. unfold fail_flag.
    rewrite input_answers_app, Hrest, app_nil_r. reflexivity. }
  assert (Hswitch : forall rest,
             (forall n, input_answers n rest = []) ->
             forallb (fun q => negb (is_cache_request q)) (requests rest) = true ->
             exists a0,
               input_answers "cache-enabled"
                 (t0 ++ tc ++ [{| call_req := CoreInfo
                                    "Starting code quality checks...";
                                  call_resp := tt |}]
                     ++ [{| call_req := CoreInfo
                              ("Tools to run: "
                               ++ JsString.join ", "
                                    (Main.tools (Cached.base inputs)));
                            call_resp := tt |}] ++ t1 ++ t2 ++ rest)%list
               = [a0]
               /\ if Cached.unless_false a0
                  then hd_error
                         (groups_opened
                            (t0 ++ tc ++ [{| call_req := CoreInfo
                                    "Starting code quality checks...";
                                  call_resp := tt |}]
                     ++ [{| call_req := CoreInfo
                              ("Tools to run: "
                               ++ JsString.join ", "
                                    (Main.tools (Cached.base inputs)));
                            call_resp := tt |}] ++ t1 ++ t2 ++ rest)%list)
                       = Some "Restoring cache"
                  else forallb (fun q => negb (is_cache_request q))
                         (requests
                            (t0 ++ tc ++ [{| call_req := CoreInfo
                                    "Starting code quality checks...";
                                  call_resp := tt |}]
                     ++ [{| call_req := CoreInfo
                              ("Tools to run: "
                               ++ JsString.join ", "
                                    (Main.tools (Cached.base inputs)));
                            call_resp := tt |}] ++ t1 ++ t2 ++ rest)%list)
                       = true).
  { intros rest Hrest Hcr. exists a. split.
    - rewrite !input_answers_app, Ha, Hic, Hi1, Hi2, Hrest. reflexivity.
    - destruct (Cached.unless_false a).
      + rewrite groups_opened_app, Hg0, groups_opened_app.
        destruct (groups_opened tc) as [| g gs]; [discriminate Hsw |].
        exact Hsw.
      + destruct Hsw as (-> & Hm). injection Hm as ->.
        rewrite !requests_app, !forallb_app, Hc0, Hc1, (Hnc eq_refl), Hcr.
        reflexivity. }
  destruct r2 as [e | []].
  - unfold core_setFailed. simpl. intros []. as_apps.
    rewrite <- !app_assoc.
    split; [reflexivity |].
    destruct Hcase as (Ht & Hs & Hrp & Hf).
    unfold outputs_together.
    rewrite !outputs_app, !failures_app, !Ho0, !Hoc, !Ho1, Hf0, Hfc, Hf1,
      Ht, Hs, Hrp, Hf.
    split; [exact I | split; [exists e; reflexivity |]].
    apply Hswitch; [intro n |]; reflexivity.
  - as_apps. split; [reflexivity |].
    destruct Hcase as (Ht & Hs & Hrp & Hf).
    unfold outputs_together.
    rewrite !outputs_app, !failures_app, !Ho0, !Hoc, !Ho1, Hf0, Hfc, Hf1,
      Ht, Hs, Hrp, Hf.
    split; [exact I |]. split.
    + split; [reflexivity |].
      rewrite Hflag, <- HF; [reflexivity |].
      intro n. rewrite !input_answers_app, Hic, Hi1, Hi2. reflexivity.
    + rewrite <- (app_nil_r t2).
      apply Hswitch; [intro n |]; reflexivity.
Qed.

Lemma run_footprint :
  only (fun q => negb (is_cache_request q)) (Main.run host).
Proof.
  unfold Main.run.
  apply only_try_catch; [| intro; apply only_call; reflexivity].
  apply only_bind; [| intro inputs].
  { eapply only_weaken; [apply getInput_not_cache |].
    eapply wp_mono; [| apply wp_parseInputs]. intros t r (H & _). exact H. }
  apply only_bind; [apply only_call; reflexivity | intros _].
  apply only_bind; [apply only_call; reflexivity | intros _].
  apply only_bind; [| intro l].
  - eapply only_weaken; [apply tool_not_cache | apply collectResults_tool].
  - eapply only_weaken;
      [apply report_not_cache | apply reportAndDecide_footprint].
Qed.

Lemma wp_run_outputs : wp (Main.run host) (fun t _ => outputs_together t).
Proof.
  unfold Main.run. apply wp_try_catch. apply wp_bind.
  eapply wp_mono; [| apply wp_parseInputs].
  intros t0 [e | inputs] (HI & HF); [contradiction |].
  unfold core_info. simpl. intros [] []. apply wp_bind.
  eapply wp_mono;
    [| apply wp_conj;
       [apply (collectResults_tool host inputs (Main.tools inputs))
       | apply (collectResults_returns host inputs (Main.tools inputs))]].
  intros t1 [e | l] (HT & HR); [discriminate HR |].
  eapply wp_mono; [| apply (wp_reportAndDecide host inputs l)].
  intros t2 r2 (_ & Hcase).
  destruct (getInput_quiet t0 HI) as (Ho0 & _).
  pose proof (forallb_weaken_req _ _ _ tool_is_silent HT) as Hs1.
  destruct (silent_quiet t1 Hs1) as (Ho1 & _).
  destruct r2 as [e | []].
  - unfold core_setFailed. simpl. intros []. as_apps.
    destruct Hcase as (Ht & Hs & Hrp & _).
    unfold outputs_together.
    rewrite !outputs_app, !Ho0, !Ho1, Ht, Hs, Hrp. exact I.
  - as_apps. destruct Hcase as (Ht & Hs & Hrp & _).
    unfold outputs_together.
    rewrite !outputs_app, !Ho0, !Ho1, Ht, Hs, Hrp. exact I.
Qed.

End EntryPoints.

(** X23. The entry point of [main.ts] sets its three outputs together,
    once each, or sets none of them, and in no environment does it ask for
    the cache service or the persisted state. *)
Theorem run_outputs_together (host : Host) (W : Type) (h : Handler W) (w : W) :
  let o := interp h (Main.run host) w in
  outputs_together (trace o)
  /\ forallb (fun q => negb (is_cache_request q)) (requests (trace o)) = true.
Proof.
  cbv zeta. split.
  - exact (wp_sound _ _ (wp_run_outputs host) h w).
  - exact (wp_sound _ _ (run_footprint host) h w).
Qed.

(** X24. The entry point with the cache manager never throws, and what the
    cache does has no part in the verdict: restoring and saving can fail or
    hit in any way, the three outputs are set together or not at all, the
    status is [failed] exactly when an issue was counted, and the run is
    marked failed once when [fail-on-errors] was not answered [false] and
    an issue was counted, or once with the message of the exception when
    the outputs were not set. *)
Theorem cached_run_verdict (host : Host) (W : Type) (h : Handler W) (w : W) :
  let o := interp h (Cached.run host) w in
  result o = inr tt
  /\ outputs_together (trace o)
  /\ match outputs "total-issues" (trace o) with
     | [OutNumber n] =>
         outputs "status" (trace o)
         = [OutString (if Nat.ltb 0 n then "failed" else "success")]
         /\ failures (trace o)
            = (if fail_flag (trace o) && Nat.ltb 0 n
               then ["Found " ++ JsString.of_nat n ++ " code quality issues"]
               else [])
     | _ => exists e, failures (trace o) = ["Action failed: " ++ exn_message e]
     end.
Proof.
  cbv zeta.
  destruct (wp_sound _ _ (wp_cached_run host) h w) as (H1 & H2 & H3 & _).
  auto.
Qed.

(** X25. The entry point with the cache manager reads [cache-enabled]
    once.  Answered [false] in any letter case, the run asks nothing of the
    cache service and of the persisted state; answered anything else, the
    empty string included, the first log group it opens is the one of the
    cache restore. *)
Theorem cache_switch (host : Host) (W : Type) (h : Handler W) (w : W) :
  let o := interp h (Cached.run host) w in
  exists a,
    input_answers "cache-enabled" (trace o) = [a]
    /\ if String.eqb (JsString.toLowerCase a) "false"
       then forallb (fun q => negb (is_cache_request q)) (requests (trace o))
            = true
       else hd_error (groups_opened (trace o)) = Some "Restoring cache".
Proof.
  cbv zeta.
  destruct (wp_sound _ _ (wp_cached_run host) h w) as (_ & _ & _ & a & Ha & H).
  exists a. split; [exact Ha |]. unfold Cached.unless_false in H.
  destruct (String.eqb (JsString.toLowerCase a) "false"); exact H.
Qed.
